(* ===== verification/_CoqProject ===== *)
-Q . S2P
Prelude.v
Prog.v
Clock.v
Float64.v
Fmt.v
BinaryHeap.v
OrdSet.v
Errors.v
Chain.v
BlockPipe.v
Message.v
PriorityQueue.v
NonceManager.v
GasPrice.v
Adapter.v
Sender.v
SenderSystem.v
Ethereum.v
EthContract.v
EthSystem.v
EthRefine.v
EthRun.v
EthOnce.v
OracleEth.v
UnitTests.v
AdapterFlow.v
Solana.v
SolanaSystem.v
SolanaSlots.v
Mempool.v
MempoolInv.v
MempoolProps.v
MempoolSpec.v
MempoolRefine.v
Runtime.v
TrackerRpc.v
TrackerSystem.v
TrackerP2p.v
IntegrationTests.v
TrackerLock.v
HandleCalls.v
CliArgs.v
CliSnapshot.v
CliLoops.v
CliView.v
CliApp.v
Simulation.v
CliShutdown.v
CliSystem.v
CliMain.v
