(* ===== verification/Prelude.v ===== *)
(** * Bulkmail: a verification library

    Bulkmail (the crates [bulkmail] and [mempooloracle]) sends Ethereum
    transactions from a priority queue and tracks the mempool.  This library
    models the core of both crates and proves what makes them correct.

    ** The program

    A caller hands a [Message] to [Sender::add_message], which pushes it on a
    shared priority queue and notifies the run loop.  [Sender::run] waits in
    a [select!] for the next block, on which it synchronises the nonces with
    the chain, and for [process_next_message], which takes one of 16 permits
    and spawns a task for the best message.  The task takes a replay token
    (for Ethereum a nonce), asks the fee manager for a fee, sends, and on a
    drop sends again with a higher fee, until the transaction is confirmed,
    the message expires or its retries are used up.  The sender is generic in
    a chain adapter: client, fee manager, replay protection, retry strategy.
    The tracker of [mempooloracle] keeps the pending transactions of every
    account by nonce, indexes them by fee, applies blocks, and answers how
    much gas is ahead of a transaction.  Its events come from tasks of a
    transport (RPC subscriptions, or an embedded devp2p node that every
    configuration refuses) or from the simulator of the command-line tool,
    which shows the tracker in a terminal or as lines of text.

    ** The files

    - [Prelude.v]: panics and [run], the build profile (overflow checks on or
      off), machine integers as [Z] with their width written out, arithmetic
      lemmas and tactics.
    - [Prog.v]: asynchronous code as trees of events ([Prog]); [join];
      protocols and weakest preconditions ([wp]); programs that end.
    - [Clock.v]: clock.rs.
    - [Float64.v]: the binary64 operations of [f64], by the IEEE
      specification of the standard library; [Fmt.v]: the formats of
      [std::fmt] that the tool uses.
    - [BinaryHeap.v]: the interface of a max-heap and the array heap of
      [std::collections::BinaryHeap], which implements it.
    - [OrdSet.v]: [BTreeMap<K, ()>] as the ordered list of its keys.
    - [Errors.v], [Chain.v], [Adapter.v]: the error types (lib.rs, chain.rs),
      the trait [chain::ChainClient] as events, the adapter traits as classes
      (adapter/mod.rs).
    - [BlockPipe.v]: the struct [Chain] over Alloy (chain.rs) and the two
      tasks and channels that carry a block number from the subscription to
      the run loop (chain.rs, adapter/ethereum.rs).
    - [Message.v], [PriorityQueue.v], [NonceManager.v], [GasPrice.v]: the
      files of the same name; a record for each state, one definition per
      method, and one event per critical section of a mutex.
    - [Sender.v]: sender.rs for any adapter, and [AdapterContract], what an
      adapter promises for the task of one message: which events it may
      perform in which state, who holds the replay token, and that what it
      sends is the message.
    - [SenderSystem.v]: [run], [process_next_message], the semaphore, the
      [Notify], the channel of blocks, the biased order in which [select!]
      polls, and any number of tasks and callers, interleaved event by event,
      for any adapter (its state and answers are a parameter), with an executor
      of one thread.
    - [Ethereum.v]: adapter/ethereum.rs, as instances of the classes; the
      outcome of one send is stated over [Chain] of BlockPipe.v.
    - [EthContract.v]: the discipline of one Ethereum task as a protocol, and
      the proof that the adapter keeps the contract for it.
    - [EthSystem.v]: the running sender with the managers of the Ethereum
      adapter, as a step relation that keeps the history of calls, dispatches
      and broadcasts; a block arrives and is received in one step.
      [EthRefine.v]: that it is an instance of [SenderSystem.v].
    - [EthRun.v]: an executable scheduler for it, with which the witnesses
      reach their states; [EthOnce.v]: what becomes of each call.
    - [OracleEth.v]: the example of [bulkmail], a client of the sender.
    - [UnitTests.v], [AdapterFlow.v], [IntegrationTests.v]: the unit tests of
      [bulkmail], the mock adapters of tests/adapter_flow.rs with the contract
      they keep, and the integration tests, as definitions that are evaluated;
      the tests of adapter_flow.rs run the sender of [SenderSystem.v].
    - [Solana.v]: adapter/solana.rs, whose unwritten methods are panics;
      [SolanaSlots.v]: the thread that forwards its slots; [SolanaSystem.v]:
      the running sender with this adapter.
    - [Runtime.v], [TrackerRpc.v]: the telemetry counters (runtime.rs) and the
      tasks of the RPC transport (transport/rpc.rs) that feed the tracker.
    - [Mempool.v], [MempoolInv.v], [MempoolProps.v], [MempoolSpec.v]: lib.rs
      of [mempooloracle]; its invariant; what the operations do to the stored
      transactions; the properties.  [MempoolRefine.v]: a specification of the
      tracker on finite maps, and that the tracker refines it.
    - [TrackerLock.v]: the [RwLock] that the tracker shares with the threads
      that call its handle (lib.rs), as counts of guards.  [HandleCalls.v]:
      the methods of the handle as programs beside the tracker's thread, with
      the data and the poisoning of the lock.
    - [TrackerSystem.v]: what [connect_erased_provider] starts: the three RPC
      tasks, the channel, the tracker's loop and the drop of the runtime,
      interleaved.
    - [TrackerP2p.v]: the transport configuration (lib.rs) and
      transport/p2p.rs.
    - [CliArgs.v], [CliSnapshot.v], [CliLoops.v], [CliView.v], [CliApp.v],
      [Simulation.v], [CliShutdown.v], [CliSystem.v], [CliMain.v]:
      examples/cli_tool.rs of [mempooloracle]: the arguments, the snapshot of
      the tracker, the timed loops, what the terminal view draws and its loop,
      the simulator, how soon it looks at the stop flag, the threads of the
      simulated tool with [main] from the view to the joins, and [main] up to
      the start of the view.

    ** What the theorems show

    - The whole sender ([EthOnce.v]): a call of [add_message] leads to at most
      one mined transaction, with the content of its message.
    - The running sender over any adapter ([SenderSystem.v]): permits and
      messages are conserved, [run] returns only errors, no wake-up is lost, and
      while the channel of blocks is open a queued message can be handed out;
      a block that waits, or the end of the channel, comes first.  The lemma
      of [EthRefine.v] that the Ethereum system is an instance ties the two
      models together.
    - The running Ethereum system ([EthSystem.v]): tasks hold distinct nonces and a
      confirmed nonce is never handed out again; permits are conserved; no
      wake-up and no message is lost; nothing panics; [run] returns only when
      the chain fails it; a queued message can always be dispatched.
    - One task ([Sender.v], [EthContract.v]): the replay token is released
      exactly on the paths that still hold it; at most three sends, each
      replacement the same transaction with the tip raised by 20%; the retry
      loop ends for every adapter.
    - The path of a block ([BlockPipe.v]): numbers arrive in order, none is
      lost while the run loop listens, the channels keep their capacity and
      never deadlock; [Chain] broadcasts only what its wallet signed.
    - The components: the least free nonce, pruning and synchronisation; the
      order of the queue; the value, bounds and monotonicity of the effective
      priority; the fee formula, its cap and its rounding; the outcomes of a
      send and the decisions of the retry strategy on every branch.
    - The tracker: no panic and its invariant through any events; the rebuilt
      queue is the set of marketable transactions, whatever the order of the
      hash map; what a block removes, what an insertion stores, and which
      entry an eviction takes; and that events and queries follow the
      specification on finite maps on every branch ([MempoolRefine.v]).
    - The tracker with its tasks and readers: the channel carries each task's
      events in order and the tracker is the sequential run of what it took;
      the whole comes to rest, and stops once the runtime is dropped.
    - The handle ([HandleCalls.v]): its calls are linearizable, each answers
      for one state between its begin and its return; the lock is never
      poisoned; the calls complete when none reads the lock twice, and the one
      that does can deadlock ([TrackerLock.v]).
    - The P2P transport: it is refused for every configuration; what its
      tasks would do: the sessions follow the events, the poller sends
      consecutive blocks of an honest chain, the backfill forwards nothing.
    - The command-line tool: the argument grammar, its errors and its round
      trip; a snapshot is typed and fits the block, its only panic the
      overflow of a sum of gas limits, which two transactions can bring about
      in a build with overflow checks; where the sums fit a u64 it counts a
      first-fit down the queue; the plaintext loop ends in time as long as the
      handle answers; the view keeps its last 60 snapshots, scrolls and quits
      as the keys say, and every screen fits what Ratatui accepts and shows the
      rows its title announces; in every schedule of the threads the simulator
      has sent a prefix of its stream and the tracker holds the result of what
      it has received; and [main] returns in a bounded number of steps once the
      view has.
    - The Solana adapter: when the blockhash is refreshed, that the sender
      cannot send with it yet, that the panics of its tasks return their
      permits and send nothing, and that its slots arrive in order.
    - The examples and the tests: the client of oracle_eth.rs pushes messages
      that the sender's theorems cover; the tests, evaluated on the model,
      pass in both profiles.

    Some theorems state behaviour that differs from what a comment or a
    document says: the rounding of [percent], the range of the deadline boost,
    the nonce that a confirmation passes on, the size of a fee bump, the entry
    that the tracker evicts, the keys that a replacement or a drained
    transaction leaves behind, the recursive read of the lock, the P2P
    backfill, the height that overflows, the gas limits whose sum overflows in a
    snapshot, the durations that the tool accepts but cannot add to its clock,
    what becomes of a task that ends in an error, the order of [select!], the
    deadline factor and the margin of the Solana blockhash.

    ** Bounds and fuel

    - A panic is a value of [run], or [Crash] in a program.  Overflow panics
      or wraps as [BuildProfile] says; the theorems hold for both profiles.
    - The executor of [SenderSystem.v] has a number of steps as fuel and says so
      when it is used up; the tests of adapter_flow.rs are given 200 steps, and
      that they pass shows that it is enough.
    - [send_and_watch] is a loop with [LOOP_FUEL] = 4 rounds; every round that
      continues has counted a retry, so the fuel is never used up and more of
      it changes nothing ([send_and_watch_terminates], for any adapter).
    - The walk over the in-flight nonces has one round per nonce in flight and
      one more; [get_next_available_nonce_least] shows that it is enough.
    - The sift loops of the heap have the length of the array as fuel.
    - The timed loops of the tool have [rounds_for] their duration as fuel, ten
      rounds a second and two more, because a round sleeps for a tenth of a
      second; [should_stop_for_terminates] and [run_plaintext_terminates] show
      that it is enough.  A call of the handle is an event that answers or
      panics: that it may wait for ever behind a writer is the subject of
      [TrackerLock.v].  The simulator alone and the terminal loop run for a
      given number or list of rounds; in [CliSystem.v] the loop of the
      simulator has no bound, and what is said of its counters holds below
      2^62 events.
    - The step relations ([BlockPipe.v], [SolanaSlots.v], [TrackerLock.v],
      [HandleCalls.v], [TrackerSystem.v], [CliSystem.v] after the view) have no
      fuel: a measure shows that they have no infinite run.  In [BlockPipe.v], [SolanaSlots.v]
      and [TrackerSystem.v] the subscriptions and streams are finite lists that
      then close, so this is said of feeds that end; the safety properties are
      about every state on the way.
    - The state of the tracker behind the simulator is computed for the first
      260 rounds, as evidence of a defect; that it is well formed is proved for
      any number.
    - The theorems on the system assume clocks before the year 2109
      ([clock_ok]), latencies below [2^60] seconds, messages from the
      constructor ([message_sane]; the fields of [Message] are public, and a
      priority above 100 could overflow the sum), and nonces below [2^64]
      during the steps considered ([nonce_room]).  Those on the tracker assume
      nonces below [2^63] and blocks whose gas fits a u64.

    ** What is not modelled

    The bodies that only call Alloy, Tokio, Reth or Solana libraries, whose
    answers are events or parameters; logging but for the error lines; how
    Ratatui divides an area (a parameter) and the styles of the widgets;
    [build_transaction] of the Solana adapter, a [todo!()] that nothing calls;
    poisoning of the other mutexes; the time limits of the tests; the failure
    of an allocation, such as a queue of an account whose capacity is more than
    a [Vec] can have.  A task's
    round in [TrackerSystem.v]
    is one step, its counter and its send together.  Signed transactions are
    represented by their unsigned fields and a signature, hashes by
    integers. *)

From stdpp Require Export prelude.
From stdpp Require Import gmap relations list.
From Stdlib Require Export ZArith.

Open Scope Z_scope.

(** ** Panics and the build profile

    A Rust expression that panics unwinds the task it runs in.  [run A] is
    the value of an expression that may panic; the constructor [Diverge] of
    [panic] is not a Rust panic: it marks a loop of the model that ran out of
    fuel, and the theorems show that it never occurs. *)
Inductive panic :=
  | Overflow      (* arithmetic overflow, with overflow checks on *)
  | OutOfBounds   (* slice index out of bounds *)
  | Unwrap        (* [unwrap] of an absent value *)
  | Todo          (* the [todo!()] macro *)
  | Assertion     (* a failed [assert!] of a test *)
  | Diverge.      (* out of fuel: a loop of the model, never of the code *)

#[export] Instance panic_eq_dec : EqDecision panic.
Proof. solve_decision. Defined.

Inductive run (A : Type) :=
  | Val (a : A)
  | Panic (p : panic).
Arguments Val {A} a.
Arguments Panic {A} p.

#[export] Instance run_ret : MRet run := fun A a => Val a.
#[export] Instance run_bind : MBind run := fun A B f m =>
  match m with Val a => f a | Panic p => Panic p end.
#[export] Instance run_fmap : FMap run := fun A B f m =>
  match m with Val a => Val (f a) | Panic p => Panic p end.

(** [Result<T, E>]. *)
Inductive result (T E : Type) :=
  | Ok (t : T)
  | Err (e : E).
Arguments Ok {T E} t.
Arguments Err {T E} e.

(** [unwrap], and the assertions of tests. *)
Definition unwrap {A} (o : option A) : run A :=
  match o with Some a => Val a | None => Panic Unwrap end.
Definition unwrap_ok {T E} (r : result T E) : run T :=
  match r with Ok t => Val t | Err _ => Panic Unwrap end.
Definition assert (b : bool) : run unit := if b then Val tt else Panic Assertion.
Definition assert_eq {A} `{EqDecision A} (x y : A) : run unit := assert (bool_decide (x = y)).

(** A [for] loop over a list that updates a state. *)
Fixpoint for_each {A S} (f : A -> S -> run S) (l : list A) (s : S) : run S :=
  match l with
  | [] => Val s
  | a :: l => s ← f a s; for_each f l s
  end.

(** Overflow checks are on in the [dev] and [ci] profiles of Cargo.toml and
    off in [release]; every arithmetic operation of the model that the code
    does not guard reads this flag. *)
Class BuildProfile := overflow_checks : bool.

(** ** Machine integers

    An unsigned [w]-bit integer is a [Z] in [[0, 2^w)]. *)
Definition in_range (w z : Z) : Prop := 0 <= z < 2 ^ w.

#[export] Instance in_range_dec w z : Decision (in_range w z).
Proof. unfold in_range. apply _. Defined.

(** The value of an arithmetic expression whose mathematical result is [z]:
    itself when it fits, else a panic or the wrapped value. *)
Definition arith `{BuildProfile} (w z : Z) : run Z :=
  if decide (in_range w z) then Val z
  else if overflow_checks then Panic Overflow else Val (z mod 2 ^ w).

Definition add_w `{BuildProfile} (w x y : Z) : run Z := arith w (x + y).
Definition sub_w `{BuildProfile} (w x y : Z) : run Z := arith w (x - y).
Definition mul_w `{BuildProfile} (w x y : Z) : run Z := arith w (x * y).

(** [x as uN]: a cast keeps the low bits. *)
Definition cast_w (w x : Z) : Z := x mod 2 ^ w.

Definition max_w (w : Z) : Z := 2 ^ w - 1.
Definition saturating_sub (x y : Z) : Z := Z.max 0 (x - y).
Definition saturating_add (w x y : Z) : Z := Z.min (max_w w) (x + y).

Abbreviation u32 := 32 (only parsing).
Abbreviation u64 := 64 (only parsing).
Abbreviation u128 := 128 (only parsing).
(** The code is built for 64-bit targets. *)
Abbreviation usize := 64 (only parsing).

#[global] Arguments arith {_} _ _ : simpl never.
#[global] Arguments add_w {_} _ _ _ : simpl never.
#[global] Arguments sub_w {_} _ _ _ : simpl never.
#[global] Arguments mul_w {_} _ _ _ : simpl never.
#[global] Arguments cast_w _ _ : simpl never.
#[global] Arguments saturating_add _ _ _ : simpl never.
#[global] Arguments saturating_sub _ _ : simpl never.

Create HintDb arith.

Lemma arith_ok `{BuildProfile} w z : in_range w z -> arith w z = Val z.
Proof. intros Hz. unfold arith. by rewrite decide_True. Qed.

Lemma arith_overflow `{BuildProfile} w z :
  ~ in_range w z ->
  arith w z = if overflow_checks then Panic Overflow else Val (z mod 2 ^ w).
Proof. intros Hz. unfold arith. by rewrite decide_False. Qed.

Lemma arith_range `{BuildProfile} w z v : 0 <= w -> arith w z = Val v -> in_range w v.
Proof.
  intros Hw. unfold arith. case_decide as Hz; [by intros [= <-]|].
  destruct overflow_checks; [done|]. intros [= <-].
  apply Z.mod_pos_bound. lia.
Qed.

Lemma add_w_ok `{BuildProfile} w x y : in_range w (x + y) -> add_w w x y = Val (x + y).
Proof. apply arith_ok. Qed.

Lemma sub_w_ok `{BuildProfile} w x y : in_range w (x - y) -> sub_w w x y = Val (x - y).
Proof. apply arith_ok. Qed.

Lemma mul_w_ok `{BuildProfile} w x y : in_range w (x * y) -> mul_w w x y = Val (x * y).
Proof. apply arith_ok. Qed.

Lemma cast_w_small w x : in_range w x -> cast_w w x = x.
Proof. intros. by apply Z.mod_small. Qed.

Lemma in_range_mono w w' z : 0 <= w <= w' -> in_range w z -> in_range w' z.
Proof.
  unfold in_range. intros ? [? ?]. split; [done|].
  assert (2 ^ w <= 2 ^ w') by (apply Z.pow_le_mono_r; lia). lia.
Qed.

#[export] Hint Resolve arith_ok add_w_ok sub_w_ok mul_w_ok cast_w_small : arith.

(** Arithmetic goals about widths: unfold the ranges, evaluate the powers of
    two the code uses, and call [lia] with division. *)
Ltac pow_consts :=
  change (2 ^ 8) with 256 in *;
  change (2 ^ 32) with 4294967296 in *;
  change (2 ^ 64) with 18446744073709551616 in *;
  change (2 ^ 128) with 340282366920938463463374607431768211456 in *.

(** The bound on the nonces of the tracker. *)
Ltac two63 := change (2 ^ 63) with 9223372036854775808 in *.

Ltac word :=
  unfold saturating_sub, saturating_add in *; unfold in_range, max_w in *;
  pow_consts; Z.to_euclidean_division_equations; lia.

(** Step through the checked operations of the goal that stay in range. *)
Ltac checked :=
  repeat first
    [ rewrite add_w_ok by word
    | rewrite sub_w_ok by word
    | rewrite mul_w_ok by word
    | rewrite cast_w_small by word
    | progress simpl ].

(** A chain of additions of unsigned integers overflows exactly when the
    total does, and wraps to the wrapped total. *)
Lemma add_w_chain `{BuildProfile} w a b :
  0 <= w -> 0 <= a -> 0 <= b ->
  (v ← arith w a; add_w w v b) = arith w (a + b).
Proof.
  intros Hw Ha Hb. unfold add_w, arith.
  assert (0 < 2 ^ w) by (apply Z.pow_pos_nonneg; lia).
  case_decide as H1; simpl; [done|].
  rewrite (decide_False (P := in_range w (a + b))) by (unfold in_range in *; lia).
  destruct overflow_checks; simpl; [done|].
  destruct (decide (in_range w _)) as [H2|H2]; unfold in_range in *.
  - by rewrite <- Z.add_mod_idemp_l, (Z.mod_small (_ + _)) by lia.
  - by rewrite Z.add_mod_idemp_l by lia.
Qed.

(** ** Step relations with a measure

    The state of a system often holds a list of parties; replacing one of them
    changes a sum over the list by the difference. *)
Lemma total_insert {A} (f : A -> nat) (l : list A) i a a' :
  l !! i = Some a ->
  (foldr (fun x n => f x + n) 0 (<[i := a']> l) + f a = foldr (fun x n => f x + n) 0 l + f a')%nat.
Proof.
  revert i. induction l as [|x l IH]; intros [|i] Hi; simpl in *; [done..| |].
  - injection Hi as ->. lia.
  - specialize (IH i Hi). lia.
Qed.

(** The length of a list without duplicates that gained at most one element. *)
Lemma length_one_more {A} `{EqDecision A} (P : Prop) `{!Decision P} (x : A) (l l' : list A) :
  NoDup l -> NoDup l' -> (forall y, y ∈ l' <-> y ∈ l \/ P /\ y = x) ->
  length l' = (length l + if decide (P /\ x ∉ l) then 1 else 0)%nat.
Proof.
  intros Hl Hl' Hin. destruct (decide (P /\ x ∉ l)) as [[HP Hx]|Hn].
  - rewrite (NoDup_Permutation l' (x :: l)); [simpl; lia|done|by constructor|].
    intros y. rewrite Hin, elem_of_cons. tauto.
  - rewrite (NoDup_Permutation l' l); [lia|done|done|].
    intros y. rewrite Hin. split; [|by left]. intros [?|[HP ->]]; [done|].
    destruct (decide (x ∈ l)); [done|]. by destruct Hn.
Qed.

Lemma rtc_inv {S} (step : S -> S -> Prop) (I : S -> Prop) s s' :
  (forall s s', step s s' -> I s -> I s') -> rtc step s s' -> I s -> I s'.
Proof. intros HI. induction 1 as [|s1 s2 s3 Hs _ IH]; eauto. Qed.

Section measure.
Context {S : Type} (step : S -> S -> Prop) (measure : S -> nat).
Hypothesis decreases : forall s s', step s s' -> (measure s' < measure s)%nat.

Lemma nsteps_measure n s s' : nsteps step n s s' -> (n + measure s' <= measure s)%nat.
Proof.
  induction 1 as [s|n s1 s2 s3 Hs Hn IH]; [lia|]. apply decreases in Hs. lia.
Qed.

Lemma sn_measure s : sn step s.
Proof.
  remember (measure s) as k eqn:Hk. revert s Hk. induction k as [k IH] using lt_wf_ind. intros s ->.
  constructor. intros s' Hs'. eapply IH; [|done]. by apply decreases.
Qed.
End measure.

(** The same for a measure that is a relation. *)
Section measured.
Context {S : Type} (step : S -> S -> Prop) (work : S -> nat -> Prop).
Hypothesis decreases : forall s s' w, step s s' -> work s w -> exists w', work s' w' /\ (w' < w)%nat.

Lemma nsteps_measured n s s' w : nsteps step n s s' -> work s w -> (n <= w)%nat.
Proof.
  intros Hn. revert w. induction Hn as [s|n s1 s2 s3 Hs Hn IH]; intros w Hw; [lia|].
  destruct (decreases _ _ _ Hs Hw) as (w' & Hw' & Hlt). apply IH in Hw'. lia.
Qed.

Lemma sn_measured s w : work s w -> sn step s.
Proof.
  revert s. induction w as [w IH] using lt_wf_ind. intros s Hw. constructor. intros s' Hs'.
  destruct (decreases _ _ _ Hs' Hw) as (w' & Hw' & Hlt). by eapply IH.
Qed.
End measured.
