(* ===== verification/Prog.v ===== *)
(** * Effectful programs as trees of events

    An [async fn] of the code is a program [Prog E A]: a tree whose nodes are
    the events of type [E] that the task performs one after another and whose
    branches are the answers.  An event is what runs without giving up the
    processor to another task: a critical section of a mutex, a reading of
    the clock, or a request to the outside together with its answer.  The
    same program is run alone or interleaved with others (EthSystem.v).

    [wp] verifies a program against a [protocol]: a state machine that reads
    the events, with the events it allows in each state and what the
    environment may answer. *)

From S2P Require Import Prelude.

Inductive Prog (E : Type -> Type) (A : Type) : Type :=
  | Ret (a : A)
  | Crash (r : panic)
  | Vis (X : Type) (e : E X) (k : X -> Prog E A).
Arguments Ret {E A} a.
Arguments Crash {E A} r.
Arguments Vis {E A X} e k.

Section prog.
Context {E : Type -> Type}.

Fixpoint prog_bind {A B} (p : Prog E A) (f : A -> Prog E B) : Prog E B :=
  match p with
  | Ret a => f a
  | Crash r => Crash r
  | Vis e k => Vis e (fun x => prog_bind (k x) f)
  end.

Definition trigger {X} (e : E X) : Prog E X := Vis e Ret.

(** A pure computation that may panic. *)
Definition lift {A} (r : run A) : Prog E A :=
  match r with Val a => Ret a | Panic p => Crash p end.

(** The [?] operator: an error returns from the function at once. *)
Definition prog_try {T Er B} (p : Prog E (result T Er)) (f : T -> Prog E (result B Er))
    : Prog E (result B Er) :=
  prog_bind p (fun r => match r with Ok t => f t | Err e => Ret (Err e) end).

End prog.

#[export] Instance prog_mret {E} : MRet (Prog E) := fun A a => Ret a.
#[export] Instance prog_mbind {E} : MBind (Prog E) := fun A B f p => prog_bind p f.

(** [x ?← p; k]: [let x = p.await?; k]. *)
Notation "x ?← p ; k" := (prog_try p (fun x => k))
  (at level 20, p at level 100, k at level 200, right associativity) : stdpp_scope.

(** [futures::join]: the two futures advance in an order that the executor
    chooses, event by event.  [choose] is the event that asks for it. *)
Section join.
Context {E : Type -> Type} (choose : E bool).

Fixpoint join {A B} (p : Prog E A) : Prog E B -> Prog E (A * B) :=
  match p with
  | Ret a => fun q => prog_bind q (fun b => Ret (a, b))
  | Crash r => fun _ => Crash r
  | Vis e k => fun q =>
      (fix inner (q : Prog E B) : Prog E (A * B) :=
        match q with
        | Ret b => prog_bind p (fun a => Ret (a, b))
        | Crash r => Crash r
        | Vis f l =>
            Vis choose (fun first : bool =>
              if first then Vis e (fun x => join (k x) q)
              else Vis f (fun y => inner (l y)))
        end) q
  end.

End join.

(** ** Protocols and weakest preconditions *)

Record protocol (E : Type -> Type) (Q : Type) := {
  (* the events allowed in a state *)
  may : forall X, E X -> Q -> Prop;
  (* the answers the environment may give *)
  answers : forall X, E X -> Q -> X -> Prop;
  (* the state after an event and its answer *)
  next_state : forall X, E X -> Q -> X -> Q;
  (* the panics allowed in a state *)
  may_crash : panic -> Q -> Prop;
}.
Arguments may {E Q} _ {X} e q.
Arguments answers {E Q} _ {X} e q x.
Arguments next_state {E Q} _ {X} e q x.
Arguments may_crash {E Q} _ p q.

Section wp.
Context {E : Type -> Type} {Q : Type} (P : protocol E Q).

Fixpoint wp {A} (p : Prog E A) (q : Q) (Φ : A -> Q -> Prop) : Prop :=
  match p with
  | Ret a => Φ a q
  | Crash r => may_crash P r q
  | Vis e k => may P e q /\ forall x, answers P e q x -> wp (k x) (next_state P e q x) Φ
  end.

Lemma wp_mono {A} (p : Prog E A) q (Φ Ψ : A -> Q -> Prop) :
  wp p q Φ -> (forall a q', Φ a q' -> Ψ a q') -> wp p q Ψ.
Proof.
  revert q. induction p as [a|r|X e k IH]; intros q Hp Himp; simpl in *; [auto..|].
  destruct Hp as [Hm Hk]. split; [done|]. intros x Hx. apply IH; auto.
Qed.

Lemma wp_bind {A B} (p : Prog E A) (f : A -> Prog E B) q Φ :
  wp p q (fun a q' => wp (f a) q' Φ) -> wp (prog_bind p f) q Φ.
Proof.
  revert q. induction p as [a|r|X e k IH]; intros q Hp; simpl in *; [auto..|].
  destruct Hp as [Hm Hk]. split; [done|]. intros x Hx. apply IH; auto.
Qed.

Lemma wp_bind_mono {A B} (p : Prog E A) (f : A -> Prog E B) q (Ψ : A -> Q -> Prop) Φ :
  wp p q Ψ -> (forall a q', Ψ a q' -> wp (f a) q' Φ) -> wp (prog_bind p f) q Φ.
Proof. intros Hp Hf. apply wp_bind. by eapply wp_mono. Qed.

Lemma wp_bind_val {A B} (a : A) (f : A -> Prog E B) q Φ :
  wp (f a) q Φ -> wp (prog_bind (lift (Val a)) f) q Φ.
Proof. done. Qed.

Lemma wp_trigger {X} (e : E X) q (Φ : X -> Q -> Prop) :
  may P e q -> (forall x, answers P e q x -> Φ x (next_state P e q x)) ->
  wp (trigger e) q Φ.
Proof. simpl. auto. Qed.

Lemma wp_try {T Er B} (p : Prog E (result T Er)) (f : T -> Prog E (result B Er)) q
    (Ψ : result T Er -> Q -> Prop) Φ :
  wp p q Ψ ->
  (forall t q', Ψ (Ok t) q' -> wp (f t) q' Φ) ->
  (forall e q', Ψ (Err e) q' -> Φ (Err e) q') ->
  wp (prog_try p f) q Φ.
Proof. intros Hp Hok Herr. eapply wp_bind_mono; [done|]. intros [t|e]; simpl; auto. Qed.

Lemma wp_lift {A} (r : run A) q (Φ : A -> Q -> Prop) :
  match r with Val a => Φ a q | Panic p => may_crash P p q end -> wp (lift r) q Φ.
Proof. by destruct r. Qed.

End wp.

(** One event of a program: what it answers, and the program that follows. *)
Ltac event x H :=
  split; [try done|intros x H; simpl in H; cbn [mbind prog_mbind prog_bind trigger]].

(** ** Running a program alone

    A handler answers every event from a state; a panic of the handler is a
    panic of the task inside a critical section, which leaves the state as
    it was. *)
Section alone.
Context {E : Type -> Type} {S : Type}.
Variable handle : forall X, E X -> S -> run (X * S).

Fixpoint run_alone {A} (p : Prog E A) (s : S) : run A * S :=
  match p with
  | Ret a => (Val a, s)
  | Crash r => (Panic r, s)
  | Vis e k =>
      match handle _ e s with
      | Panic r => (Panic r, s)
      | Val (x, s') => run_alone (k x) s'
      end
  end.

Lemma run_alone_bind {A B} (p : Prog E A) (f : A -> Prog E B) s :
  run_alone (prog_bind p f) s =
    match run_alone p s with
    | (Val a, s') => run_alone (f a) s'
    | (Panic r, s') => (Panic r, s')
    end.
Proof.
  revert s. induction p as [a|r|X e k IH]; intros s; simpl; [done..|].
  destruct (handle X e s) as [[x s']|r]; [apply IH|done].
Qed.

(** The rest of a program after a part that returned. *)
Lemma run_alone_val {A B} (p : Prog E A) (f : A -> Prog E B) s a s' :
  run_alone p s = (Val a, s') -> run_alone (p ≫= f) s = run_alone (f a) s'.
Proof. intros Hp. unfold mbind, prog_mbind. by rewrite run_alone_bind, Hp. Qed.

(** What [wp] proves holds of a run whose handler respects the protocol. *)
Lemma wp_run_alone {A Q} (P : protocol E Q) (R : S -> Q -> Prop)
    (Hstep : forall X (e : E X) s q, R s q -> may P e q ->
      match handle X e s with
      | Val (x, s') => answers P e q x /\ R s' (next_state P e q x)
      | Panic r => may_crash P r q
      end)
    (p : Prog E A) s q Φ :
  R s q -> wp P p q Φ ->
  match run_alone p s with
  | (Val a, s') => exists q', R s' q' /\ Φ a q'
  | (Panic r, s') => exists q', R s' q' /\ may_crash P r q'
  end.
Proof.
  revert s q. induction p as [a|r|X e k IH]; intros s q HR Hp; simpl in *; [eauto..|].
  destruct Hp as [Hm Hk]. specialize (Hstep X e s q HR Hm).
  destruct (handle X e s) as [[x s']|r]; [|by eauto].
  destruct Hstep as [Ha HR']. by eapply IH; eauto.
Qed.

End alone.

(** A program over fewer events, as part of a program over more. *)
Section embed.
Context {E F : Type -> Type} (f : forall X, E X -> F X).

Fixpoint embed {A} (p : Prog E A) : Prog F A :=
  match p with
  | Ret a => Ret a
  | Crash r => Crash r
  | Vis e k => Vis (f _ e) (fun x => embed (k x))
  end.

End embed.

(** ** Programs that end

    A program is a finite tree on every sequence of answers; what makes it
    stand for code that returns or panics is that it never runs out of fuel. *)
Definition ends_run {A} (r : run A) : Prop := r <> Panic Diverge.

Section ends.
Context {E : Type -> Type}.

Fixpoint ends {A} (p : Prog E A) : Prop :=
  match p with
  | Ret _ => True
  | Crash r => r <> Diverge
  | Vis e k => forall x, ends (k x)
  end.

Lemma ends_bind {A B} (p : Prog E A) (f : A -> Prog E B) :
  ends p -> (forall a, ends (f a)) -> ends (prog_bind p f).
Proof. induction p as [a|r|X e k IH]; simpl; auto. Qed.

Lemma ends_trigger {X} (e : E X) : ends (trigger e).
Proof. done. Qed.

Lemma ends_lift {A} (r : run A) : ends_run r -> ends (lift r).
Proof. destruct r as [a|p]; simpl; [done|]. intros Hr ->. by apply Hr. Qed.

(** Two programs that run alike from every state of every handler. *)
Definition same_runs {A} (p q : Prog E A) : Prop :=
  forall (S : Type) (handle : forall X, E X -> S -> run (X * S)) s,
    run_alone handle p s = run_alone handle q s.

Lemma same_runs_refl {A} (p : Prog E A) : same_runs p p.
Proof. done. Qed.

Lemma same_runs_bind {A B} (p : Prog E A) (f g : A -> Prog E B) :
  (forall a, same_runs (f a) (g a)) -> same_runs (prog_bind p f) (prog_bind p g).
Proof.
  intros Hfg S handle s. rewrite !run_alone_bind. destruct (run_alone handle p s) as [[a|r] s'];
    [apply Hfg|done].
Qed.

(** A run that ends is not cut short. *)
Lemma ends_run_alone {A S} (handle : forall X, E X -> S -> run (X * S)) (p : Prog E A) s :
  (forall X e s, ends_run (handle X e s)) -> ends p -> ends_run (run_alone handle p s).1.
Proof.
  intros Hh. revert s. induction p as [a|r|X e k IH]; intros s Hp; simpl in *; [done|congruence|].
  pose proof (Hh X e s) as He. destruct (handle X e s) as [[x s']|r]; [by apply IH|].
  intros [= ->]. by apply He.
Qed.

End ends.

Lemma ends_embed {E F : Type -> Type} (f : forall X, E X -> F X) {A} (p : Prog E A) :
  ends p -> ends (embed f p).
Proof. induction p as [a|r|X e k IH]; simpl; auto. Qed.

Lemma ends_join {E : Type -> Type} (choose : E bool) {A B} (p : Prog E A) (q : Prog E B) :
  ends p -> ends q -> ends (join choose p q).
Proof.
  revert q. induction p as [a|r|X e k IH]; intros q Hp Hq; simpl in *; [by apply ends_bind|done|].
  induction q as [b|r|Y g l IHq]; simpl in *; [|done|].
  - intros x. apply ends_bind; [apply Hp|]. by intros.
  - intros [|]; intros x; [by apply IH|by apply IHq].
Qed.

Lemma ends_run_bind {A B} (r : run A) (f : A -> run B) :
  ends_run r -> (forall a, ends_run (f a)) -> ends_run (r ≫= f).
Proof. destruct r as [a|p]; simpl; [auto|]. intros Hr _ [= ->]. by apply Hr. Qed.

Lemma ends_arith `{BuildProfile} w z : ends_run (arith w z).
Proof. unfold ends_run, arith. destruct (decide _); [discriminate|]. destruct overflow_checks; discriminate. Qed.

Create HintDb ends.
#[export] Hint Resolve ends_run_bind ends_arith same_runs_refl : ends.
#[export] Hint Extern 1 (ends_run (Val _)) => discriminate : ends.

(** Goes through a program that is built from [bind], matches and events. *)
Ltac ends :=
  repeat first
    [ progress intros
    | match goal with
      | |- ends (Ret _) => exact I
      | |- ends (trigger _) => apply ends_trigger
      | |- ends (lift _) => apply ends_lift
      | |- ends (Crash _) => discriminate
      | |- ends (mbind _ _) => apply ends_bind
      | |- ends (prog_bind _ _) => apply ends_bind
      | |- ends (prog_try _ _) => apply ends_bind
      | |- ends (embed _ _) => apply ends_embed
      | |- ends (join _ _ _) => apply ends_join
      | |- ends (match ?x with _ => _ end) => destruct x eqn:?
      | |- ends_run (Val _) => discriminate
      | |- ends_run (Panic _) => discriminate
      | |- ends_run (mbind _ _) => apply ends_run_bind
      | |- ends_run (arith _ _) => apply ends_arith
      | |- ends_run (add_w _ _ _) => apply ends_arith
      | |- ends_run (sub_w _ _ _) => apply ends_arith
      | |- ends_run (mul_w _ _ _) => apply ends_arith
      | |- ends_run (match ?x with _ => _ end) => destruct x eqn:?
      end
    | solve [auto with ends] ].
