(* ===== verification/Clock.v ===== *)
(** * The wall clock ([crates/bulkmail/src/clock.rs])

    The trait [Clock] as a class: the production clock reads the system time,
    here the nanoseconds since the Unix epoch, negative before it; the manual
    clock of the tests is an atomic u64. *)

From S2P Require Import Prelude.

Class Clock (C : Type) := clock_now_ms : C -> Z.

(** [SystemTime::now()], as nanoseconds since the epoch. *)
Record SystemClock := MkSystemClock { system_nanos : Z }.

(** [duration_since(UNIX_EPOCH).unwrap_or_default().as_millis() as u64] *)
Definition system_now_ms (clock : SystemClock) : Z :=
  let since_epoch := if 0 <=? system_nanos clock then system_nanos clock else 0 in
  cast_w u64 (since_epoch / 1000000).

#[export] Instance system_clock : Clock SystemClock := system_now_ms.

Record ManualClock := MkManualClock { manual_ms : Z }.   (* AtomicU64 *)

Definition ManualClock_new (initial_ms : Z) : ManualClock := MkManualClock initial_ms.

(** [fetch_add] wraps. *)
Definition advance (ms : Z) (clock : ManualClock) : ManualClock :=
  MkManualClock (cast_w u64 (manual_ms clock + ms)).

Definition clock_set (ms : Z) (clock : ManualClock) : ManualClock := MkManualClock ms.

Definition manual_now_ms (clock : ManualClock) : Z := manual_ms clock.

#[export] Instance manual_clock : Clock ManualClock := manual_now_ms.

(** ** Lemmas *)

(** The system clock is typed, follows the time, and never runs backwards
    while the milliseconds fit a u64; before the epoch it reads zero. *)
Lemma system_now_ms_typed (clock : SystemClock) : in_range u64 (clock_now_ms clock).
Proof. by apply Z.mod_pos_bound. Qed.

Lemma system_now_ms_mono (c1 c2 : SystemClock) :
  system_nanos c1 <= system_nanos c2 -> system_nanos c2 < 2 ^ 64 * 1000000 ->
  clock_now_ms c1 <= clock_now_ms c2.
Proof.
  intros Hle Hlt. unfold clock_now_ms, system_clock, system_now_ms.
  change (2 ^ 64) with 18446744073709551616 in *.
  destruct (Z.leb_spec 0 (system_nanos c1)), (Z.leb_spec 0 (system_nanos c2)); rewrite !cast_w_small by word;
    Z.to_euclidean_division_equations; lia.
Qed.

(** Advancing in steps is advancing by the sum, modulo the width. *)
Lemma advance_all steps (clock : ManualClock) :
  in_range u64 (manual_ms clock) ->
  clock_now_ms (foldl (fun c ms => advance ms c) clock steps) =
    cast_w u64 (manual_ms clock + foldr Z.add 0 steps).
Proof.
  revert clock. induction steps as [|ms steps IH]; intros clock Hc; simpl.
  - rewrite Z.add_0_r. by rewrite cast_w_small.
  - rewrite IH by by apply Z.mod_pos_bound. unfold cast_w. simpl. unfold cast_w.
    rewrite Zplus_mod_idemp_l. f_equal. lia.
Qed.
