(* ===== verification/Float64.v ===== *)
(** * The binary64 arithmetic of [f64]

    The operations of [f64] the code uses, as the IEEE 754 specification of
    the standard library ([SpecFloat]) computes them on integers, and Rust's
    casts between [f64] and the unsigned integers. *)

From S2P Require Import Prelude.
From Stdlib Require Export SpecFloat.

Abbreviation f64 := spec_float.

Definition f64_prec : Z := 53.
Definition f64_emax : Z := 1024.

(** [z as f64] for an unsigned integer: rounded to nearest, ties to even. *)
Definition f64_of_Z (z : Z) : f64 := binary_normalize f64_prec f64_emax z 0 false.

Definition f64_add : f64 -> f64 -> f64 := SFadd f64_prec f64_emax.
Definition f64_sub : f64 -> f64 -> f64 := SFsub f64_prec f64_emax.
Definition f64_mul : f64 -> f64 -> f64 := SFmul f64_prec f64_emax.
Definition f64_div : f64 -> f64 -> f64 := SFdiv f64_prec f64_emax.

(** [x as uN]: towards zero, saturating, and 0 for a NaN. *)
Definition f64_to_uint (w : Z) (x : f64) : Z :=
  match x with
  | S754_nan | S754_zero _ | S754_infinity true => 0
  | S754_infinity false => max_w w
  | S754_finite true _ _ => 0
  | S754_finite false m e => Z.min (max_w w) (Z.shiftl (Zpos m) e)
  end.

Lemma f64_to_uint_range w x : 0 <= w -> in_range w (f64_to_uint w x).
Proof.
  intros Hw. assert (0 < 2 ^ w) by (apply Z.pow_pos_nonneg; lia).
  unfold in_range, f64_to_uint, max_w. repeat case_match; try lia.
  assert (0 <= Z.shiftl (Zpos m) e) by (apply Z.shiftl_nonneg; lia). lia.
Qed.

(** Every binary64 value is within the format: the decimal literals below are
    the nearest ones. *)
Definition f64_tenth : f64 := S754_finite false 7205759403792794 (-56).   (* 0.1 *)
Definition f64_one : f64 := f64_of_Z 1.
Definition f64_hundred : f64 := f64_of_Z 100.

Example f64_tenth_div : f64_tenth = f64_div f64_one (f64_of_Z 10).
Proof. vm_compute. reflexivity. Qed.
