(* ===== verification/Fmt.v ===== *)
(** * The formats of [std::fmt] that the tool uses

    Padding to a width, two hexadecimal digits, and [{:.1}] of an [f64]: the
    decimal with one digit after the point nearest to the exact value of the
    float, the even one of two that are as near.  A precision does nothing to
    an integer. *)

From stdpp Require Import strings pretty.
From S2P Require Import Prelude Float64.

(** [{:>width}] *)
Definition pad_left (width : nat) (s : string) : string :=
  Nat.iter (width - String.length s) (String.append " ") s.

Definition hex_digit (d : Z) : string :=
  default "" (list_lookup (Z.to_nat d)
    ["0"; "1"; "2"; "3"; "4"; "5"; "6"; "7"; "8"; "9"; "a"; "b"; "c"; "d"; "e"; "f"]).

(** [{:02x}] of a [u8] *)
Definition hex2 (byte : Z) : string := hex_digit (byte / 16) +:+ hex_digit (byte mod 16).

(** [num / den] rounded to the nearest integer, ties to even. *)
Definition round_half_even (num den : Z) : Z :=
  let q := num / den in
  let r := num mod den in
  if 2 * r <? den then q
  else if den <? 2 * r then q + 1
  else if Z.even q then q else q + 1.

(** The tenths of the decimal printed for [m * 2 ^ e]. *)
Definition tenths (m : positive) (e : Z) : Z :=
  if 0 <=? e then 10 * Zpos m * 2 ^ e else round_half_even (10 * Zpos m) (2 ^ (- e)).

Definition sign_text (negative : bool) : string := if negative then "-" else "".

(** [{:.1}] of an [f64] *)
Definition fmt_tenth (x : f64) : string :=
  match x with
  | S754_nan => "NaN"
  | S754_infinity s => sign_text s +:+ "inf"
  | S754_zero s => sign_text s +:+ "0.0"
  | S754_finite s m e =>
      sign_text s +:+ pretty (tenths m e / 10) +:+ "." +:+ pretty (tenths m e mod 10)
  end.

Lemma append_assoc s t u : (s +:+ t) +:+ u = s +:+ (t +:+ u).
Proof. induction s as [|c s IH]; [done|]. by apply (f_equal (String c)). Qed.

Lemma length_pad_left width s :
  String.length (pad_left width s) = Nat.max width (String.length s).
Proof.
  unfold pad_left. assert (forall n, String.length (Nat.iter n (String.append " ") s) =
    (n + String.length s)%nat) as ->; [|lia].
  induction n as [|n IH]; [done|]. rewrite Nat.iter_succ. by apply (f_equal S).
Qed.

(** The rounding is to a nearest integer. *)
Lemma round_half_even_nearest num den :
  0 < den -> Z.abs (2 * (num - round_half_even num den * den)) <= den.
Proof.
  intros Hd. unfold round_half_even. pose proof (Z.div_mod num den ltac:(lia)) as Hq.
  pose proof (Z.mod_pos_bound num den Hd) as Hr.
  destruct (Z.ltb_spec (2 * (num mod den)) den), (Z.ltb_spec den (2 * (num mod den))),
    (Z.even (num / den)); nia.
Qed.

Lemma round_half_even_int n den : 0 < den -> round_half_even (n * den) den = n.
Proof.
  intros Hd. unfold round_half_even. rewrite Z.div_mul, Z.mod_mul by lia.
  by destruct (Z.ltb_spec (2 * 0) den); [|lia].
Qed.

Example fmt_tenth_examples :
  fmt_tenth (f64_of_Z 30) = "30.0" /\ fmt_tenth (f64_div (f64_of_Z 1) (f64_of_Z 4)) = "0.2" /\
  fmt_tenth (f64_div (f64_of_Z 35) (f64_of_Z 100)) = "0.3" /\
  fmt_tenth (f64_mul f64_tenth f64_hundred) = "10.0" /\
  fmt_tenth (S754_zero true) = "-0.0".
Proof. vm_compute. done. Qed.

Example pad_examples : pad_left 4 "17" = "  17" /\ pad_left 2 "256" = "256" /\ hex2 10 = "0a".
Proof. vm_compute. done. Qed.
