(* ===== verification/BinaryHeap.v ===== *)
(** * The max-heap behind the queue

    The interface [MaxHeap] states what [priority_queue.rs] uses of a heap:
    a push adds one item, a pop removes a greatest one.  [BinaryHeap] is the
    array heap of [std::collections::BinaryHeap], with its [sift_up] and
    [sift_down_to_bottom], and implements the interface. *)

From S2P Require Import Prelude.
From Stdlib Require Import Permutation.

#[local] Open Scope nat_scope.

(** An order given by a boolean test, as Rust's [Ord::cmp] gives it. *)
Class TotalPreorder {A} (leb : A -> A -> bool) : Prop := {
  leb_total : forall x y, leb x y = true \/ leb y x = true;
  leb_trans : forall x y z, leb x y = true -> leb y z = true -> leb x z = true;
}.

Lemma leb_refl {A} {leb : A -> A -> bool} {_ : TotalPreorder leb} x : leb x x = true.
Proof. by destruct (leb_total x x). Qed.

Lemma leb_false {A} {leb : A -> A -> bool} {_ : TotalPreorder leb} x y : leb x y = false -> leb y x = true.
Proof. destruct (leb_total x y); congruence. Qed.

(** What the queue needs of a heap. *)
Class MaxHeap {A : Type} (leb : A -> A -> bool) := {
  heap : Type;
  heap_ok : heap -> Prop;
  heap_items : heap -> list A;
  heap_new : heap;
  heap_push : A -> heap -> heap;
  heap_pop : heap -> option (A * heap);
  heap_new_ok : heap_ok heap_new;
  heap_new_items : heap_items heap_new = [];
  heap_push_ok : forall x h, heap_ok h -> heap_ok (heap_push x h);
  heap_push_items : forall x h, heap_items (heap_push x h) ≡ₚ x :: heap_items h;
  heap_pop_none : forall h, heap_pop h = None <-> heap_items h = [];
  heap_pop_ok : forall h x h', heap_ok h -> heap_pop h = Some (x, h') -> heap_ok h';
  heap_pop_items : forall h x h',
    heap_pop h = Some (x, h') -> heap_items h ≡ₚ x :: heap_items h';
  heap_pop_max : forall h x h' y, heap_ok h -> heap_pop h = Some (x, h') ->
    y ∈ heap_items h -> leb y x = true;
}.

(** ** The array heap *)

Section BinaryHeap.
Context {A : Type} (leb : A -> A -> bool).

Definition swap (l : list A) (i j : nat) : list A :=
  match l !! i, l !! j with
  | Some x, Some y => <[i:=y]> (<[j:=x]> l)
  | _, _ => l
  end.

(** [sift_up(start, pos)]: [pos] strictly decreases, so [S pos] is enough fuel. *)
Fixpoint sift_up_loop (fuel : nat) (l : list A) (start pos : nat) : list A :=
  match fuel with
  | O => l
  | S fuel =>
      if start <? pos then
        let parent := (pos - 1) / 2 in
        match l !! pos, l !! parent with
        | Some x, Some y =>
            if leb x y then l
            else sift_up_loop fuel (swap l pos parent) start parent
        | _, _ => l
        end
      else l
  end.
Definition sift_up (l : list A) (start pos : nat) : list A :=
  sift_up_loop (S pos) l start pos.

(** The loop of [sift_down_to_bottom]: the hole goes to the greater child
    until it has none; [pos] grows up to [length l]. *)
Fixpoint sift_down_loop (fuel : nat) (l : list A) (pos : nat) : list A * nat :=
  match fuel with
  | O => (l, pos)
  | S fuel =>
      let child := 2 * pos + 1 in
      if child <=? length l - 2 then
        match l !! child, l !! (child + 1) with
        | Some x, Some y =>
            let child := if leb x y then child + 1 else child in
            sift_down_loop fuel (swap l pos child) child
        | _, _ => (l, pos)
        end
      else if child =? length l - 1 then (swap l pos child, child)
      else (l, pos)
  end.
Definition sift_down_to_bottom (l : list A) (pos : nat) : list A :=
  let '(l', pos') := sift_down_loop (length l) l pos in
  sift_up l' pos pos'.

Definition BinaryHeap_push (item : A) (l : list A) : list A :=
  sift_up (l ++ [item]) 0 (length l).

(** [pop]: the last item leaves the array; unless the array is now empty it
    changes places with the root and is sifted down. *)
Definition BinaryHeap_pop (l : list A) : option (A * list A) :=
  match last l with
  | None => None
  | Some item =>
      let rest := take (length l - 1) l in
      match rest !! 0 with
      | None => Some (item, rest)
      | Some root => Some (root, sift_down_to_bottom (<[0:=item]> rest) 0)
      end
  end.

(** ** Swapping *)

Lemma swap_length l i j : length (swap l i j) = length l.
Proof. unfold swap. repeat case_match; by rewrite ?length_insert. Qed.

Lemma swap_lookup l i j k :
  i < length l -> j < length l ->
  swap l i j !! k = if decide (k = i) then l !! j else if decide (k = j) then l !! i else l !! k.
Proof.
  intros Hi Hj. unfold swap.
  destruct (lookup_lt_is_Some_2 l i Hi) as [x Ex].
  destruct (lookup_lt_is_Some_2 l j Hj) as [y Ey]. rewrite Ex, Ey.
  repeat case_decide; subst.
  - by rewrite list_lookup_insert_eq by (by rewrite length_insert).
  - by rewrite list_lookup_insert_ne, list_lookup_insert_eq by done.
  - by rewrite !list_lookup_insert_ne by done.
Qed.

Lemma swap_perm l i j : swap l i j ≡ₚ l.
Proof.
  unfold swap. destruct (l !! i) as [x|] eqn:Ei, (l !! j) as [y|] eqn:Ej; try done.
  destruct (decide (i = j)) as [<-|Hij].
  { simplify_eq. by rewrite !list_insert_id by (rewrite ?list_insert_id; done). }
  assert (Hlen := lookup_lt_Some _ _ _ Ei). assert (Hlen' := lookup_lt_Some _ _ _ Ej).
  apply Permutation_inj. split; [by rewrite !length_insert|].
  exists (fun k => if decide (k = i) then j else if decide (k = j) then i else k).
  split.
  - intros k k'. repeat case_decide; congruence.
  - intros k. replace (<[i:=y]> (<[j:=x]> l)) with (swap l i j)
      by (unfold swap; by rewrite Ei, Ej).
    rewrite swap_lookup by done. by repeat case_decide.
Qed.

Lemma sift_up_perm fuel l start pos : sift_up_loop fuel l start pos ≡ₚ l.
Proof.
  revert l pos. induction fuel as [|fuel IH]; intros l pos; simpl; [done|].
  repeat case_match; try done. by rewrite IH, swap_perm.
Qed.

Lemma sift_down_perm fuel l pos : (sift_down_loop fuel l pos).1 ≡ₚ l.
Proof.
  revert l pos. induction fuel as [|fuel IH]; intros l pos; [done|].
  cbn [sift_down_loop]. repeat case_match; simpl; rewrite ?IH; auto using swap_perm.
Qed.

(** ** The heap order *)

Definition child_of (c p : nat) : Prop := c = 2 * p + 1 \/ c = 2 * p + 2.

Lemma child_of_parent c : 0 < c -> child_of c ((c - 1) / 2).
Proof.
  intros Hc. unfold child_of. pose proof (Nat.div_mod_eq (c - 1) 2).
  pose proof (Nat.mod_upper_bound (c - 1) 2). lia.
Qed.

(** [l] at [c] is below [l] at [p]. *)
Definition below (l : list A) (c p : nat) : Prop :=
  forall x y, l !! c = Some x -> l !! p = Some y -> leb x y = true.

Definition is_heap (l : list A) : Prop := forall c p, child_of c p -> below l c p.

(** The order with a hole at [pos]: it may fail between [pos] and its
    neighbours only, and the children of [pos] are below its parent. *)
Definition heap_hole (l : list A) (pos : nat) : Prop :=
  (forall c p, child_of c p -> c <> pos -> p <> pos -> below l c p) /\
  (forall c p, child_of c pos -> child_of pos p -> below l c p).

Context {HT : TotalPreorder leb}.

Lemma swap_below l i j c p :
  i < length l -> j < length l ->
  below (swap l i j) c p <->
  below l (if decide (c = i) then j else if decide (c = j) then i else c)
          (if decide (p = i) then j else if decide (p = j) then i else p).
Proof.
  intros Hi Hj. unfold below. rewrite !swap_lookup by done.
  by repeat case_decide.
Qed.

Lemma below_trans l i j k :
  j < length l -> below l i j -> below l j k -> below l i k.
Proof.
  intros [y Hy]%lookup_lt_is_Some_2 H1 H2 x z Hx Hz.
  eapply leb_trans; eauto.
Qed.

Lemma hole_root l pos :
  heap_hole l pos -> (forall c, child_of c pos -> below l c pos) ->
  (forall p, child_of pos p -> below l pos p) -> is_heap l.
Proof.
  intros [Ha _] Hc Hp c p Hcp.
  destruct (decide (c = pos)) as [->|]; [auto|].
  destruct (decide (p = pos)) as [->|]; auto.
Qed.

(** One step of [sift_up]: the parent is below the item, so they change
    places and the hole moves up. *)
Lemma sift_up_step l pos p :
  pos < length l -> child_of pos p -> heap_hole l pos ->
  (forall c, child_of c pos -> below l c pos) -> below l p pos ->
  heap_hole (swap l pos p) p /\
  (forall c, child_of c p -> below (swap l pos p) c p).
Proof.
  intros Hpos Hp [Ha Hb] Hc Hlt.
  assert (p < pos) by (destruct Hp; lia). assert (p < length l) by lia.
  assert (forall a b c, child_of a b -> child_of a c -> b = c) as Hfun
    by (unfold child_of; lia).
  split; [split|].
  - intros c q Hcq Hcp Hqp. rewrite swap_below by done.
    destruct (decide (c = pos)) as [->|]; [by rewrite (Hfun _ _ _ Hcq Hp) in Hqp|].
    destruct (decide (q = pos)) as [->|]; repeat case_decide; try done; auto.
  - intros c q Hcp Hpq. assert (q < p) by (destruct Hpq; lia).
    rewrite swap_below by done. repeat case_decide; subst; try lia.
    + apply Ha; [done|lia|lia].
    + destruct Hcp; lia.
    + apply below_trans with p; [done|apply Ha; [done|lia|lia]|apply Ha; [done|lia|lia]].
  - intros c Hcp. rewrite swap_below by done. repeat case_decide; subst; try lia.
    + done.
    + destruct Hcp; lia.
    + apply below_trans with p; [done|apply Ha; [done|lia|lia]|done].
Qed.

Lemma sift_up_heap fuel l pos :
  pos < fuel -> pos < length l -> heap_hole l pos ->
  (forall c, child_of c pos -> below l c pos) ->
  is_heap (sift_up_loop fuel l 0 pos).
Proof.
  revert l pos. induction fuel as [|fuel IH]; intros l pos Hf Hpos Hh Hc; [lia|].
  cbn [sift_up_loop]. destruct (Nat.ltb_spec 0 pos) as [H0|H0].
  2: { apply (hole_root l pos Hh Hc). unfold child_of. lia. }
  pose proof (child_of_parent _ H0) as Hp. set (p := (pos - 1) / 2) in *.
  assert (p < pos) by (destruct Hp; lia).
  destruct (lookup_lt_is_Some_2 l pos Hpos) as [x Ex].
  destruct (lookup_lt_is_Some_2 l p ltac:(lia)) as [y Ey].
  rewrite Ex, Ey. destruct (leb x y) eqn:Exy.
  - apply (hole_root l pos Hh Hc). intros q Hq.
    assert (q = p) as -> by (unfold child_of in *; lia).
    intros x' y'. congruence.
  - destruct (sift_up_step l pos p) as [Hh' Hc']; auto.
    { intros y' x'. rewrite Ex, Ey. intros [= ->] [= ->]. by apply leb_false. }
    apply IH; [lia|rewrite swap_length; lia|done|done].
Qed.

(** One step of [sift_down_to_bottom]: the greater child moves up. *)
Lemma sift_down_step l pos c :
  c < length l -> child_of c pos -> heap_hole l pos ->
  (forall c', child_of c' pos -> below l c' c) ->
  heap_hole (swap l pos c) c.
Proof.
  intros Hc Hcp [Ha Hb] Hmax. assert (pos < c) by (destruct Hcp; lia).
  assert (pos < length l) by lia.
  assert (forall a b c, child_of a b -> child_of a c -> b = c) as Hfun
    by (unfold child_of; lia).
  split.
  - intros d q Hdq Hd Hq. rewrite swap_below by done.
    destruct (decide (d = pos)) as [->|Hd'].
    { assert (q < pos) by (destruct Hdq; lia). repeat case_decide; subst; try lia. auto. }
    destruct (decide (q = pos)) as [->|Hq']; repeat case_decide; subst; try done; auto.
  - intros d q Hdc Hcq. rewrite (Hfun _ _ _ Hcq Hcp) in *.
    assert (c < d) by (destruct Hdc; lia).
    rewrite swap_below by done. repeat case_decide; subst; try lia.
    apply Ha; [done|lia|lia].
Qed.

(** The loop ends with the hole at a position that has no child. *)
Lemma sift_down_hole fuel l pos :
  length l <= fuel + pos -> pos < length l -> heap_hole l pos ->
  let r := sift_down_loop fuel l pos in
  r.2 < length l /\ length r.1 = length l /\ heap_hole r.1 r.2 /\
  (forall c, child_of c r.2 -> length l <= c).
Proof.
  revert l pos. induction fuel as [|fuel IH]; intros l pos Hf Hpos Hh; [lia|].
  cbn [sift_down_loop]. set (c := 2 * pos + 1).
  destruct (Nat.leb_spec c (length l - 2)) as [Hle|Hgt].
  - assert (c < length l /\ c + 1 < length l) as [Hc Hc1] by lia.
    destruct (lookup_lt_is_Some_2 l c Hc) as [x Ex].
    destruct (lookup_lt_is_Some_2 l (c + 1) Hc1) as [y Ey]. rewrite Ex, Ey.
    set (d := if leb x y then c + 1 else c).
    assert (child_of d pos) as Hd by (unfold child_of; subst d; case_match; lia).
    assert (d < length l) by (subst d; case_match; lia).
    assert (pos < d) by (destruct Hd; lia).
    assert (forall c', child_of c' pos -> below l c' d) as Hmax.
    { intros c' Hc'. assert (c' = c \/ c' = c + 1) as Hcc by (unfold child_of in Hc'; lia).
      intros x' y' Hx' Hy'. subst d. destruct (leb x y) eqn:Exy.
      - destruct Hcc as [->| ->]; simplify_eq; auto using leb_refl.
      - destruct Hcc as [->| ->]; simplify_eq; auto using leb_refl, leb_false. }
    pose proof (IH (swap l pos d) d) as IH'. rewrite swap_length in IH'.
    apply IH'; [lia|done|by apply sift_down_step].
  - destruct (Nat.eqb_spec c (length l - 1)) as [He|He]; simpl.
    + rewrite swap_length. split; [lia|]. split; [done|]. split.
      * apply sift_down_step; [lia|by left|done|].
        intros c' Hc' x' y' Hx' Hy'. assert (Hl := lookup_lt_Some _ _ _ Hx').
        assert (c' = c) as -> by (unfold child_of in Hc'; lia).
        simplify_eq. apply leb_refl.
      * unfold child_of. lia.
    + split; [done|]. split; [done|]. split; [done|].
      unfold child_of. lia.
Qed.

Lemma is_heap_take l n : is_heap l -> is_heap (take n l).
Proof.
  intros Hl c p Hcp x y Hx Hy.
  apply lookup_take_Some in Hx as [Hx _]. apply lookup_take_Some in Hy as [Hy _].
  by apply (Hl c p).
Qed.

(** Replacing the root leaves a hole at the root. *)
Lemma is_heap_root_hole l x : is_heap l -> heap_hole (<[0:=x]> l) 0.
Proof.
  intros Hl. split.
  - intros c p Hcp Hc Hp a b. rewrite !list_lookup_insert_ne by done. by apply Hl.
  - intros c p _ Hp. unfold child_of in Hp. lia.
Qed.

Lemma heap_root_max l root y : is_heap l -> l !! 0 = Some root -> y ∈ l -> leb y root = true.
Proof.
  intros Hl Hroot [i Hi]%list_elem_of_lookup.
  revert y Hi. induction (lt_wf i) as [i _ IH]. intros y Hi.
  destruct (decide (i = 0)) as [->|Hi0].
  { simplify_eq. apply leb_refl. }
  pose proof (child_of_parent i ltac:(lia)) as Hp. set (p := (i - 1) / 2) in *.
  assert (p < i) by (destruct Hp; lia). assert (Hlen := lookup_lt_Some _ _ _ Hi).
  destruct (lookup_lt_is_Some_2 l p ltac:(lia)) as [z Ez].
  eapply leb_trans; [|by eapply IH]. by eapply Hl.
Qed.

(** ** The operations *)

Lemma BinaryHeap_push_heap x l : is_heap l -> is_heap (BinaryHeap_push x l).
Proof.
  intros Hl. unfold BinaryHeap_push, sift_up.
  assert (forall c q, child_of c (length l) -> below (l ++ [x]) c q) as Hnone.
  { intros c q Hc a b Ha _. apply lookup_lt_Some in Ha.
    rewrite length_app in Ha. simpl in Ha. destruct Hc; lia. }
  apply sift_up_heap; [lia|rewrite length_app; simpl; lia| |auto].
  split; [|auto].
  intros c p Hcp Hc Hp a b Ha Hb.
  assert (Hla := lookup_lt_Some _ _ _ Ha). rewrite length_app in Hla. simpl in Hla.
  assert (p < c) by (destruct Hcp; lia).
  rewrite lookup_app_l in Ha, Hb by lia. by apply (Hl c p).
Qed.

Lemma BinaryHeap_push_perm x l : BinaryHeap_push x l ≡ₚ x :: l.
Proof.
  unfold BinaryHeap_push, sift_up. rewrite sift_up_perm.
  symmetry. apply Permutation_cons_append.
Qed.

Lemma sift_down_to_bottom_perm l pos : sift_down_to_bottom l pos ≡ₚ l.
Proof.
  unfold sift_down_to_bottom, sift_up. pose proof (sift_down_perm (length l) l pos).
  destruct (sift_down_loop _ _ _). by rewrite sift_up_perm.
Qed.

Lemma sift_down_to_bottom_heap l :
  heap_hole l 0 -> 0 < length l -> is_heap (sift_down_to_bottom l 0).
Proof.
  intros Hl H0. unfold sift_down_to_bottom, sift_up.
  destruct (sift_down_hole (length l) l 0) as (H1 & H2 & H3 & H4); [lia|done|done|].
  destruct (sift_down_loop _ _ _) as [l' pos]. cbn [fst snd] in *.
  apply sift_up_heap; [lia|lia|done|].
  intros c Hc a b Ha _. apply lookup_lt_Some in Ha. specialize (H4 c Hc). lia.
Qed.

#[local] Arguments sift_down_to_bottom _ _ : simpl never.

(** A non-empty array: its last item, and what is popped. *)
Lemma BinaryHeap_pop_cases l x l' :
  BinaryHeap_pop l = Some (x, l') ->
  exists rest item, l = rest ++ [item] /\
    (rest = [] /\ x = item /\ l' = [] \/
     rest !! 0 = Some x /\ l' = sift_down_to_bottom (<[0:=item]> rest) 0).
Proof.
  unfold BinaryHeap_pop. destruct (last l) as [item|] eqn:El; [|done].
  apply last_Some in El as [rest ->]. rewrite length_app. simpl.
  replace (length rest + 1 - 1) with (length rest) by lia. rewrite take_app_length.
  exists rest, item. split; [done|].
  destruct rest as [|root rest]; simpl in *; simplify_eq; auto.
Qed.

Lemma BinaryHeap_pop_heap l x l' :
  is_heap l -> BinaryHeap_pop l = Some (x, l') -> is_heap l'.
Proof.
  intros Hl (rest & item & -> & [(-> & -> & ->)|[Hx ->]])%BinaryHeap_pop_cases.
  { intros c p _ a b. done. }
  apply sift_down_to_bottom_heap.
  - apply is_heap_root_hole. rewrite <- (take_app_length rest [item]).
    by apply is_heap_take.
  - rewrite length_insert. by apply lookup_lt_Some in Hx.
Qed.

Lemma BinaryHeap_pop_perm l x l' : BinaryHeap_pop l = Some (x, l') -> l ≡ₚ x :: l'.
Proof.
  intros (rest & item & -> & [(-> & -> & ->)|[Hx ->]])%BinaryHeap_pop_cases; [done|].
  rewrite sift_down_to_bottom_perm.
  destruct rest as [|y rest]; simpl in *; simplify_eq.
  by rewrite <- Permutation_cons_append.
Qed.

Lemma BinaryHeap_pop_max l x l' y :
  is_heap l -> BinaryHeap_pop l = Some (x, l') -> y ∈ l -> leb y x = true.
Proof.
  intros Hl (rest & item & -> & [(-> & -> & ->)|[Hx ->]])%BinaryHeap_pop_cases Hy.
  { apply list_elem_of_singleton in Hy as ->. apply leb_refl. }
  eapply heap_root_max; [done| |done].
  rewrite lookup_app_l; [done|by apply lookup_lt_Some in Hx].
Qed.

Lemma BinaryHeap_pop_none l : BinaryHeap_pop l = None <-> l = [].
Proof.
  split; [|by intros ->]. unfold BinaryHeap_pop.
  destruct (last l) eqn:E; [by repeat case_match|by apply last_None in E].
Qed.

#[export] Instance BinaryHeap_max_heap : MaxHeap leb := {|
  heap := list A;
  heap_ok := is_heap;
  heap_items := fun l => l;
  heap_new := [];
  heap_push := BinaryHeap_push;
  heap_pop := BinaryHeap_pop;
  heap_new_ok := fun c p _ x y => ltac:(done);
  heap_new_items := eq_refl;
  heap_push_ok := BinaryHeap_push_heap;
  heap_push_items := BinaryHeap_push_perm;
  heap_pop_none := BinaryHeap_pop_none;
  heap_pop_ok := BinaryHeap_pop_heap;
  heap_pop_items := BinaryHeap_pop_perm;
  heap_pop_max := BinaryHeap_pop_max;
|}.

End BinaryHeap.
