(* ===== verification/OrdSet.v ===== *)
(** * Ordered key sets ([BTreeMap<K, ()>] of std)

    The tracker uses two B-tree maps with unit values.  A map is the list of
    its keys in increasing order; [KeyOrder] is what [Ord] promises of the
    keys, and the order decides equality, so a set of keys has one list. *)

From stdpp Require Import sorting.
From S2P Require Import Prelude.

(** [Ord::cmp]. *)
Class KeyOrder {K : Type} (cmp : K -> K -> comparison) := {
  cmp_eq : forall a b, cmp a b = Eq <-> a = b;
  cmp_swap : forall a b, cmp b a = CompOpp (cmp a b);
  cmp_trans : forall a b c, cmp a b = Lt -> cmp b c = Lt -> cmp a c = Lt;
}.

Section ordset.
Context {K : Type} (cmp : K -> K -> comparison).


(** [insert]: a present key keeps its place. *)
Fixpoint ord_insert (k : K) (s : list K) : list K :=
  match s with
  | [] => [k]
  | x :: s' =>
      match cmp k x with
      | Lt => k :: s
      | Eq => s
      | Gt => x :: ord_insert k s'
      end
  end.

Fixpoint ord_remove (k : K) (s : list K) : list K :=
  match s with
  | [] => []
  | x :: s' =>
      match cmp k x with
      | Lt => s
      | Eq => s'
      | Gt => x :: ord_remove k s'
      end
  end.

(** [iter().next()] *)
Definition ord_first (s : list K) : option K := head s.

Definition ord_pop_first (s : list K) : option (K * list K) :=
  match s with [] => None | k :: s => Some (k, s) end.

(** [range(..k)] *)
Fixpoint ord_range_to (k : K) (s : list K) : list K :=
  match s with
  | [] => []
  | x :: s => match cmp x k with Lt => x :: ord_range_to k s | _ => [] end
  end.

(** ** Laws *)

Definition key_lt (a b : K) : Prop := cmp a b = Lt.
Definition ord_ok (s : list K) : Prop := StronglySorted key_lt s.

Context {HK : KeyOrder cmp}.

Lemma key_lt_irrefl a : ~ key_lt a a.
Proof. unfold key_lt. rewrite (proj2 (cmp_eq a a) eq_refl). done. Qed.

Lemma key_lt_trans a b c : key_lt a b -> key_lt b c -> key_lt a c.
Proof. apply cmp_trans. Qed.

Lemma key_gt a b : cmp a b = Gt -> key_lt b a.
Proof. intros Hg. unfold key_lt. rewrite (cmp_swap a b), Hg. done. Qed.

Lemma ord_ok_nil : ord_ok [].
Proof. constructor. Qed.

Lemma ord_ok_cons k s : ord_ok (k :: s) <-> ord_ok s /\ forall x, x ∈ s -> key_lt k x.
Proof.
  split.
  - intros Hs. apply StronglySorted_inv in Hs as [Hs Hf]. split; [done|].
    by apply Forall_forall.
  - intros [Hs Hf]. constructor; [done|]. by apply Forall_forall.
Qed.

Lemma elem_of_ord_insert x k s : x ∈ ord_insert k s <-> x = k \/ x ∈ s.
Proof.
  induction s as [|y s IH]; simpl; [set_solver|].
  destruct (cmp k y) eqn:Hk; [apply cmp_eq in Hk as ->|..]; rewrite ?elem_of_cons, ?IH; tauto.
Qed.

Lemma ord_insert_ok k s : ord_ok s -> ord_ok (ord_insert k s).
Proof.
  induction s as [|y s IH]; simpl.
  { intros _. apply ord_ok_cons. split; [apply ord_ok_nil|set_solver]. }
  intros Hs. pose proof Hs as [Hs' Hy]%ord_ok_cons. destruct (cmp k y) eqn:Hk; [done|..].
  - apply ord_ok_cons. split; [done|]. intros x [->|Hx]%elem_of_cons; [done|].
    eapply key_lt_trans; [exact Hk|auto].
  - apply ord_ok_cons. split; [auto|]. intros x [->|Hx]%elem_of_ord_insert; [|auto].
    by apply key_gt.
Qed.

Lemma elem_of_ord_remove x k s : ord_ok s -> x ∈ ord_remove k s <-> x <> k /\ x ∈ s.
Proof.
  induction s as [|y s IH]; simpl; [set_solver|]. intros [Hs Hy]%ord_ok_cons.
  specialize (IH Hs). destruct (cmp k y) eqn:Hk.
  - apply cmp_eq in Hk as ->. rewrite elem_of_cons. split.
    + intros Hx. split; [|by right]. intros ->. by apply (key_lt_irrefl y), Hy.
    + intros [Hne [?|?]]; done.
  - split; [|by intros [_ ?]]. intros Hx. split; [|done]. intros ->.
    apply elem_of_cons in Hx as [->|Hx]; [by apply (key_lt_irrefl y)|].
    apply (key_lt_irrefl y). eapply key_lt_trans; [by apply Hy|done].
  - rewrite !elem_of_cons, IH. split; [|tauto]. intros [->|[? ?]]; [|tauto].
    split; [|by left]. intros ->. rewrite (proj2 (cmp_eq k k) eq_refl) in Hk. done.
Qed.

Lemma ord_remove_ok k s : ord_ok s -> ord_ok (ord_remove k s).
Proof.
  induction s as [|y s IH]; simpl; [done|]. intros Hs. pose proof Hs as [Hs' Hy]%ord_ok_cons.
  destruct (cmp k y); [done|done|]. apply ord_ok_cons. split; [auto|].
  intros x [_ Hx]%elem_of_ord_remove; auto.
Qed.

#[export] Instance key_lt_dec a b : Decision (key_lt a b).
Proof. unfold key_lt. apply _. Defined.

Lemma ord_range_to_filter k s :
  ord_ok s -> ord_range_to k s = filter (fun x => key_lt x k) s.
Proof.
  induction s as [|y s IH]; simpl; [done|]. intros [Hs Hy]%ord_ok_cons.
  destruct (decide (key_lt y k)) as [Hk|Hk].
  - rewrite filter_cons_True by done. unfold key_lt in Hk. rewrite Hk. f_equal. auto.
  - rewrite filter_cons_False by done.
    assert (filter (fun x => key_lt x k) s = []) as ->.
    { clear IH. induction s as [|z s IH]; [done|]. apply ord_ok_cons in Hs as [Hs Hz].
      rewrite filter_cons_False; [apply IH; [done|]; intros; apply Hy; by right|].
      intros Hlt. apply Hk. eapply key_lt_trans; [apply Hy; by left|done]. }
    unfold key_lt in Hk. by destruct (cmp y k).
Qed.

Lemma ord_ok_nodup s : ord_ok s -> NoDup s.
Proof.
  induction s as [|y s IH]; intros Hs; [constructor|]. apply ord_ok_cons in Hs as [Hs Hy].
  constructor; [|auto]. intros Hin. by apply (key_lt_irrefl y), Hy.
Qed.

(** Sets with the same keys are the same list. *)
Lemma ord_ext s1 s2 : ord_ok s1 -> ord_ok s2 -> (forall x, x ∈ s1 <-> x ∈ s2) -> s1 = s2.
Proof.
  revert s2. induction s1 as [|y s1 IH]; intros s2 H1 H2 Heq.
  - destruct s2 as [|z s2]; [done|]. exfalso. specialize (Heq z). set_solver.
  - pose proof H1 as [H1' Hy]%ord_ok_cons. destruct s2 as [|z s2].
    { exfalso. specialize (Heq y). set_solver. }
    pose proof H2 as [H2' Hz]%ord_ok_cons.
    assert (y = z) as <-.
    { assert (y ∈ z :: s2) as [?|Hyz]%elem_of_cons by (apply Heq; by left); [done|].
      assert (z ∈ y :: s1) as [?|Hzy]%elem_of_cons by (apply Heq; by left); [done|].
      destruct (key_lt_irrefl y). eapply key_lt_trans; eauto. }
    f_equal. apply IH; [done|done|]. intros x. specialize (Heq x).
    rewrite !elem_of_cons in Heq. split; intros Hx.
    + assert (x = y \/ x ∈ s2) as [->|?] by tauto; [|done]. by destruct (key_lt_irrefl y); auto.
    + assert (x = y \/ x ∈ s1) as [->|?] by tauto; [|done]. by destruct (key_lt_irrefl y); auto.
Qed.

Lemma ord_pop_first_spec s k s' :
  ord_pop_first s = Some (k, s') -> ord_ok s ->
  s = k :: s' /\ ord_ok s' /\ (k ∉ s') /\ forall x, x ∈ s -> x = k \/ key_lt k x.
Proof.
  destruct s as [|y s]; simpl; [done|]. intros [= -> ->] Hs.
  pose proof Hs as [Hs' Hk]%ord_ok_cons. split; [done|]. split; [done|]. split.
  - intros Hin. by apply (key_lt_irrefl k), Hk.
  - intros x [->|Hx]%elem_of_cons; auto.
Qed.

End ordset.

(** ** The orders of the tracker's keys

    Tuples compare lexicographically; [Reverse] flips its component. *)

Definition key : Type := Z * Z * Z.

Definition lex (c1 c2 : comparison) : comparison :=
  match c1 with Eq => c2 | _ => c1 end.

Definition key_cmp (a b : key) : comparison :=
  let '(f1, a1, n1) := a in let '(f2, a2, n2) := b in
  lex (f1 ?= f2) (lex (a1 ?= a2) (n1 ?= n2)).

Definition rev_key_cmp (a b : key) : comparison :=
  let '(f1, a1, n1) := a in let '(f2, a2, n2) := b in
  lex (f2 ?= f1) (lex (a1 ?= a2) (n1 ?= n2)).

Lemma lex_lt f1 f2 a1 a2 n1 n2 :
  lex (f1 ?= f2) (lex (a1 ?= a2) (n1 ?= n2)) = Lt <->
  f1 < f2 \/ f1 = f2 /\ (a1 < a2 \/ a1 = a2 /\ n1 < n2).
Proof.
  destruct (Z.compare_spec f1 f2), (Z.compare_spec a1 a2), (Z.compare_spec n1 n2); simpl;
    split; intros; try done; lia.
Qed.

Lemma lex_eq f1 f2 a1 a2 n1 n2 :
  lex (f1 ?= f2) (lex (a1 ?= a2) (n1 ?= n2)) = Eq <-> f1 = f2 /\ a1 = a2 /\ n1 = n2.
Proof.
  destruct (Z.compare_spec f1 f2), (Z.compare_spec a1 a2), (Z.compare_spec n1 n2); simpl;
    split; intros; try done; lia.
Qed.

Lemma lex_swap c1 c2 c3 :
  lex (CompOpp c1) (lex (CompOpp c2) (CompOpp c3)) = CompOpp (lex c1 (lex c2 c3)).
Proof. by destruct c1, c2, c3. Qed.

#[export] Instance key_order : KeyOrder key_cmp.
Proof.
  split.
  - intros [[f1 a1] n1] [[f2 a2] n2]. unfold key_cmp. rewrite lex_eq. naive_solver.
  - intros [[f1 a1] n1] [[f2 a2] n2]. unfold key_cmp. rewrite <- lex_swap.
    by rewrite <- !Z.compare_antisym.
  - intros [[f1 a1] n1] [[f2 a2] n2] [[f3 a3] n3]. unfold key_cmp. rewrite !lex_lt. lia.
Qed.

#[export] Instance rev_key_order : KeyOrder rev_key_cmp.
Proof.
  split.
  - intros [[f1 a1] n1] [[f2 a2] n2]. unfold rev_key_cmp. rewrite lex_eq. naive_solver.
  - intros [[f1 a1] n1] [[f2 a2] n2]. unfold rev_key_cmp. rewrite <- lex_swap.
    by rewrite <- !Z.compare_antisym.
  - intros [[f1 a1] n1] [[f2 a2] n2] [[f3 a3] n3]. unfold rev_key_cmp. rewrite !lex_lt. lia.
Qed.
