(* ===== verification/Errors.v ===== *)
(** * The error types ([crates/bulkmail/src/lib.rs], [chain.rs])

    An [RpcError] of Alloy is a JSON-RPC error response with its code, which
    the sender reads, or a failure of the transport; the errors of other
    libraries are carried as their text. *)

From S2P Require Import Prelude.
From stdpp Require Import strings pretty.

Inductive RpcErrorKind :=
  | ErrorResp (code : Z) (message : string)
  | TransportFailure (message : string).

#[export] Instance RpcErrorKind_eq_dec : EqDecision RpcErrorKind.
Proof. solve_decision. Defined.

(** [chain::Error] *)
Inductive ChainErr :=
  | Rpc (e : RpcErrorKind)
  | Subscription (message : string)
  | Signing (message : string).

#[export] Instance ChainErr_eq_dec : EqDecision ChainErr.
Proof. solve_decision. Defined.

(** [bulkmail::Error] *)
Inductive Error :=
  | RpcError (e : RpcErrorKind)
  | SigningError (message : string)
  | PendingTransactionError (message : string)
  | TooManyDependencies (n : Z)
  | GasPriceError (message : string)
  | MessageExpired
  | RetriesExceeded
  | FeeIncreasesExceeded
  | GasPriceTooLow
  | SimulationFailed
  | ChainError (e : ChainErr)
  | TransactionDropped (tx_hash : Z)
  | TransactionReverted (tx_hash : Z)
  | SubscriptionClosed
  | SolanaError (message : string).

#[export] Instance Error_eq_dec : EqDecision Error.
Proof. solve_decision. Defined.

(** [?] on a [Result<T, chain::Error>] in a function that returns
    [Result<_, Error>]: the [From] instance of [Error::ChainError]. *)
Definition from_chain {T} (r : result T ChainErr) : result T Error :=
  match r with Ok t => Ok t | Err e => Err (ChainError e) end.

(** The same for [Error::PendingTransaction]. *)
Definition from_pending {T} (r : result T string) : result T Error :=
  match r with Ok t => Ok t | Err e => Err (PendingTransactionError e) end.

(** ** [Display]

    The texts of the [RpcError] of Alloy and of its hashes are given; the
    other errors of libraries are carried as their text. *)
Section display.
Context (show_rpc : RpcErrorKind -> string) (show_hash : Z -> string).

Definition chain_error_text (e : ChainErr) : string :=
  match e with
  | Rpc e => "RPC error: " +:+ show_rpc e
  | Subscription message => "subscription error: " +:+ message
  | Signing message => "signing error: " +:+ message
  end.

Definition error_text (e : Error) : string :=
  match e with
  | RpcError e => "rpc error: " +:+ show_rpc e
  | SigningError _ => "signing error"
  | PendingTransactionError message => "pending transaction error: " +:+ message
  | TooManyDependencies n => "Too many dependencies: " +:+ pretty n
  | GasPriceError message => "Gas price error: " +:+ message
  | MessageExpired => "Message expired"
  | RetriesExceeded => "Retries exceeded"
  | FeeIncreasesExceeded => "Fee increases exceeded"
  | GasPriceTooLow => "Gas price too low"
  | SimulationFailed => "Simulation failed"
  | ChainError e => "chain error: " +:+ chain_error_text e
  | TransactionDropped tx_hash => "transaction dropped: " +:+ show_hash tx_hash
  | TransactionReverted tx_hash => "transaction reverted: " +:+ show_hash tx_hash
  | SubscriptionClosed => "subscription closed"
  | SolanaError message => "solana error: " +:+ message
  end.

End display.
