(* ===== verification/Chain.v ===== *)
(** * The Ethereum chain client ([crates/bulkmail/src/chain.rs])

    The trait [chain::ChainClient] as events: each is one request to the node
    with its answer.  [PendingTransactionBuilder] and its watcher belong to
    Alloy: a sent transaction is its hash, and registering the watcher and
    awaiting it are requests of their own. *)

From stdpp Require Import strings.
From S2P Require Import Prelude Errors.

(** The transaction that is signed and broadcast: the fields of [TxEip1559]
    the code fills in; [to] is [TxKind::Create] or [TxKind::Call]. *)
Record TxEip1559 := MkTx {
  tx_chain_id : Z;
  tx_to : option Z;
  tx_value : Z;
  tx_input : list Byte.byte;
  tx_nonce : Z;
  tx_gas_limit : Z;
  tx_max_fee_per_gas : Z;
  tx_max_priority_fee_per_gas : Z;
}.

(** What the code reads of a [TransactionReceipt]. *)
Record Receipt := MkReceipt { status : bool; block_number : option Z }.

Inductive ChainE : Type -> Type :=
  | ChainId : ChainE Z
  | SubscribeNewBlocks : ChainE (result unit ChainErr)
  | GetBlockNumber : ChainE (result Z ChainErr)
  | GetAccountNonce (address : Z) : ChainE (result Z ChainErr)
  | GetReceipt (tx_hash : Z) : ChainE (result (option Receipt) ChainErr)
  | SendTransaction (tx : TxEip1559) : ChainE (result Z ChainErr)
  | Register (tx_hash confirmations timeout_secs : Z) : ChainE (result unit string)
  | AwaitPending (tx_hash : Z) : ChainE (result Z string).
