(* ===== verification/BlockPipe.v ===== *)
(** * The WebSocket client and the path of a block ([crates/bulkmail/src/chain.rs], [adapter/ethereum.rs])

    [Chain] over Alloy: its provider, wallet and subscription are events whose
    answers the environment gives.  A block header travels from the
    subscription through the task and the channel of [Chain] and those of
    [EthClient::subscribe_new_blocks] to the run loop; this path is a step
    relation over the two tasks and the two bounded channels. *)

From stdpp Require Import strings relations.
From S2P Require Import Prelude Prog Errors Chain.

(** ** [Chain] over Alloy *)

(** What [sign_transaction] returns: the transaction with its signature. *)
Record TxEnvelope := MkEnvelope { envelope_tx : TxEip1559; signature : Z }.

(** The requests to Alloy: the provider, [NetworkWallet::sign_transaction] and
    [send_tx_envelope]. *)
Inductive AlloyE : Type -> Type :=
  | ConnectWs (url : string) : AlloyE (result unit RpcErrorKind)
  | ProviderBlockNumber : AlloyE (result Z RpcErrorKind)
  | ProviderTransactionCount (address : Z) : AlloyE (result Z RpcErrorKind)
  | ProviderReceipt (tx_hash : Z) : AlloyE (result (option Receipt) RpcErrorKind)
  | SignTransaction (tx : TxEip1559) : AlloyE (result TxEnvelope string)
  | SendTxEnvelope (envelope : TxEnvelope) : AlloyE (result Z RpcErrorKind)
  | SubscribeBlocks : AlloyE (result unit RpcErrorKind).

(** The fields of [Chain] that the code reads; wallet and provider are
    Alloy's. *)
Record ChainClientWs := MkChainWs { ws_chain_id : Z }.

(** [?] with [From<RpcError>] and [From<signers::Error>]. *)
Definition from_rpc {T} (r : result T RpcErrorKind) : result T ChainErr :=
  match r with Ok t => Ok t | Err e => Err (Rpc e) end.
Definition from_signer {T} (r : result T string) : result T ChainErr :=
  match r with Ok t => Ok t | Err e => Err (Signing e) end.

Definition asked {X T} (convert : X -> result T ChainErr) (e : AlloyE X) : Prog AlloyE (result T ChainErr) :=
  prog_bind (trigger e) (fun r => Ret (convert r)).

Definition Chain_new (url : string) (chain_id : Z) : Prog AlloyE (result ChainClientWs ChainErr) :=
  _ ?← asked from_rpc (ConnectWs url);
  Ret (Ok (MkChainWs chain_id)).

Definition Chain_id (self : ChainClientWs) : Z := ws_chain_id self.

Definition Chain_get_block_number : Prog AlloyE (result Z ChainErr) :=
  n ?← asked from_rpc ProviderBlockNumber; Ret (Ok n).

Definition Chain_get_account_nonce (address : Z) : Prog AlloyE (result Z ChainErr) :=
  n ?← asked from_rpc (ProviderTransactionCount address); Ret (Ok n).

Definition Chain_get_receipt (tx_hash : Z) : Prog AlloyE (result (option Receipt) ChainErr) :=
  r ?← asked from_rpc (ProviderReceipt tx_hash); Ret (Ok r).

Definition Chain_send_transaction (tx : TxEip1559) : Prog AlloyE (result Z ChainErr) :=
  envelope ?← asked from_signer (SignTransaction tx);
  pending ?← asked from_rpc (SendTxEnvelope envelope);
  Ret (Ok pending).

Definition Chain_subscribe_new_blocks : Prog AlloyE (result unit ChainErr) :=
  _ ?← asked from_rpc SubscribeBlocks; Ret (Ok tt).

(** [impl ChainClient for Chain]: the trait's requests that the struct serves;
    the watcher of a sent transaction is Alloy's own. *)
Definition chain_impl (self : ChainClientWs) X (e : ChainE X) : option (Prog AlloyE X) :=
  match e in ChainE X return option (Prog AlloyE X) with
  | ChainId => Some (Ret (Chain_id self))
  | SubscribeNewBlocks => Some Chain_subscribe_new_blocks
  | GetBlockNumber => Some Chain_get_block_number
  | GetAccountNonce address => Some (Chain_get_account_nonce address)
  | GetReceipt tx_hash => Some (Chain_get_receipt tx_hash)
  | SendTransaction tx => Some (Chain_send_transaction tx)
  | Register _ _ _ => None
  | AwaitPending _ => None
  end.

(** ** The path of a block *)

(** [mpsc::channel(32)] *)
Definition CHANNEL_CAPACITY : nat := 32.

(** What the code reads of a [Header] is its number. *)
Record BlockHeader := MkBlockHeader { number : Z }.

(** [recv] of the subscription fails when it is closed or has skipped
    headers; either ends the task. *)
Inductive RecvError := Closed | Lagged (skipped : Z).

(** A forwarding task: waiting to receive, holding what it received until the
    send goes through, or ended. *)
Inductive Forwarder (A : Type) := Waiting | Holding (a : A) | Ended.
Arguments Waiting {A}.
Arguments Holding {A} a.
Arguments Ended {A}.

Record PipeState := MkPipeState {
  upcoming : list (result BlockHeader RecvError);   (* what the subscription will yield, then [Closed] *)
  chain_task : Forwarder BlockHeader;
  chain_channel : list BlockHeader;
  eth_task : Forwarder Z;
  eth_channel : list Z;
  delivered : list Z;                               (* what the run loop has received *)
  receiver_alive : bool;
}.

(** The task of [Chain]: [while let Ok(header) = sub.recv().await]. *)
Inductive chain_task_step : PipeState -> PipeState -> Prop :=
  | chain_recv h up c1 t2 c2 d r :
      chain_task_step (MkPipeState (Ok h :: up) Waiting c1 t2 c2 d r)
                      (MkPipeState up (Holding h) c1 t2 c2 d r)
  | chain_lagged e up c1 t2 c2 d r :
      chain_task_step (MkPipeState (Err e :: up) Waiting c1 t2 c2 d r)
                      (MkPipeState (Err e :: up) Ended c1 t2 c2 d r)
  | chain_closed c1 t2 c2 d r :
      chain_task_step (MkPipeState [] Waiting c1 t2 c2 d r) (MkPipeState [] Ended c1 t2 c2 d r)
  | chain_send up h c1 t2 c2 d r :
      t2 <> Ended -> (length c1 < CHANNEL_CAPACITY)%nat ->
      chain_task_step (MkPipeState up (Holding h) c1 t2 c2 d r)
                      (MkPipeState up Waiting (c1 ++ [h]) t2 c2 d r)
  | chain_send_fails up h c1 c2 d r :
      chain_task_step (MkPipeState up (Holding h) c1 Ended c2 d r)
                      (MkPipeState up Ended c1 Ended c2 d r).

(** The task of [EthClient]: [while let Some(header) = header_rx.recv().await];
    its channel is closed once the other task has ended and dropped the
    sender. *)
Inductive eth_task_step : PipeState -> PipeState -> Prop :=
  | eth_recv up t1 h c1 c2 d r :
      eth_task_step (MkPipeState up t1 (h :: c1) Waiting c2 d r)
                    (MkPipeState up t1 c1 (Holding (number h)) c2 d r)
  | eth_closed up c2 d r :
      eth_task_step (MkPipeState up Ended [] Waiting c2 d r) (MkPipeState up Ended [] Ended c2 d r)
  | eth_send up t1 c1 n c2 d :
      (length c2 < CHANNEL_CAPACITY)%nat ->
      eth_task_step (MkPipeState up t1 c1 (Holding n) c2 d true)
                    (MkPipeState up t1 c1 Waiting (c2 ++ [n]) d true)
  | eth_send_fails up t1 c1 n c2 d :
      eth_task_step (MkPipeState up t1 c1 (Holding n) c2 d false)
                    (MkPipeState up t1 c1 Ended c2 d false).

(** The run loop takes a number, or returns and drops its receiver. *)
Inductive pipe_step : PipeState -> PipeState -> Prop :=
  | step_chain s s' : chain_task_step s s' -> pipe_step s s'
  | step_eth s s' : eth_task_step s s' -> pipe_step s s'
  | run_recv up t1 c1 t2 n c2 d :
      pipe_step (MkPipeState up t1 c1 t2 (n :: c2) d true)
                (MkPipeState up t1 c1 t2 c2 (d ++ [n]) true)
  | run_drops up t1 c1 t2 c2 d :
      pipe_step (MkPipeState up t1 c1 t2 c2 d true) (MkPipeState up t1 c1 t2 c2 d false).

Definition pipe_start (up : list (result BlockHeader RecvError)) : PipeState :=
  MkPipeState up Waiting [] Waiting [] [] true.

(** ** Lemmas *)

(** The headers a subscription yields before it fails. *)
Fixpoint readable (up : list (result BlockHeader RecvError)) : list BlockHeader :=
  match up with
  | Ok h :: up => h :: readable up
  | _ => []
  end.

Definition held {A} (t : Forwarder A) : list A :=
  match t with Holding a => [a] | _ => [] end.

(** The numbers on their way, nearest to the run loop first. *)
Definition in_transit (s : PipeState) : list Z :=
  eth_channel s ++ held (eth_task s) ++
  (number <$> chain_channel s ++ held (chain_task s) ++ readable (upcoming s)).

(** What holds of every state on the way of [headers]. *)
Record pipe_inv (headers : list BlockHeader) (s : PipeState) : Prop := {
  prefix_delivered : delivered s `prefix_of` (number <$> headers);
  bounded1 : (length (chain_channel s) <= CHANNEL_CAPACITY)%nat;
  bounded2 : (length (eth_channel s) <= CHANNEL_CAPACITY)%nat;
  lossless : receiver_alive s = true -> delivered s ++ in_transit s = number <$> headers;
  ended1 : receiver_alive s = true -> chain_task s = Ended -> readable (upcoming s) = [];
  ended2 : receiver_alive s = true -> eth_task s = Ended -> chain_task s = Ended /\ chain_channel s = [];
}.

Lemma pipe_start_inv up : pipe_inv (readable up) (pipe_start up).
Proof. split; simpl; try done; [apply prefix_nil|lia|lia]. Qed.

Lemma chain_task_inv headers s s' : chain_task_step s s' -> pipe_inv headers s -> pipe_inv headers s'.
Proof.
  intros Hs [Hp H1 H2 Hl He1 He2]; destruct Hs; split; simpl in *; try done;
    try rewrite length_app; simpl; try lia; intros Ha; unfold in_transit in *; simpl in *;
    specialize (Hl Ha); specialize (He1 Ha); specialize (He2 Ha);
    try (intros; naive_solver).
  - rewrite <- !app_assoc. exact Hl.
Qed.

Lemma eth_task_inv headers s s' : eth_task_step s s' -> pipe_inv headers s -> pipe_inv headers s'.
Proof.
  intros Hs [Hp H1 H2 Hl He1 He2]; destruct Hs; split; simpl in *; try done;
    try rewrite length_app; simpl; try lia; intros Ha; unfold in_transit in *; simpl in *;
    try specialize (Hl Ha); try specialize (He1 Ha); try specialize (He2 Ha);
    try (intros; naive_solver).
  - rewrite <- !app_assoc. exact Hl.
Qed.

Lemma pipe_step_inv headers s s' : pipe_step s s' -> pipe_inv headers s -> pipe_inv headers s'.
Proof.
  intros Hs Hi. destruct Hs as [s s' Hs|s s' Hs|up t1 c1 t2 n c2 d|up t1 c1 t2 c2 d].
  - by eapply chain_task_inv.
  - by eapply eth_task_inv.
  - destruct Hi as [Hp H1 H2 Hl He1 He2]. unfold in_transit in *. simpl in *.
    specialize (Hl eq_refl). split; simpl; auto; try lia.
    + rewrite <- Hl. exists (c2 ++ held t2 ++ (number <$> c1 ++ held t1 ++ readable up)).
      by rewrite <- app_assoc.
    + intros _. unfold in_transit. simpl. by rewrite <- app_assoc.
  - destruct Hi as [Hp H1 H2 Hl He1 He2]. by split.
Qed.

Lemma reachable_inv up s : rtc pipe_step (pipe_start up) s -> pipe_inv (readable up) s.
Proof. intros Hr. eapply rtc_inv; [apply pipe_step_inv|exact Hr|apply pipe_start_inv]. Qed.

(** What is left to do: each header still makes at most five steps. *)
Definition to_go {A} (holding : nat) (t : Forwarder A) : nat :=
  match t with Waiting => 1 | Holding _ => holding + 1 | Ended => 0 end.

Definition pipe_measure (s : PipeState) : nat :=
  5 * length (upcoming s) + to_go 4 (chain_task s) + 3 * length (chain_channel s) +
  to_go 2 (eth_task s) + length (eth_channel s) + (if receiver_alive s then 1 else 0).

Lemma pipe_step_measure s s' : pipe_step s s' -> (pipe_measure s' < pipe_measure s)%nat.
Proof.
  intros [? ? []|? ? []| |]; unfold pipe_measure; simpl; try rewrite length_app; simpl; lia.
Qed.

(** While the receiver lives, some task or the receiver can move until every
    header has been delivered and both tasks have ended. *)
Lemma pipe_progress headers s :
  pipe_inv headers s -> receiver_alive s = true ->
  (exists s', pipe_step s s' /\ receiver_alive s' = true) \/
  (delivered s = number <$> headers /\ chain_task s = Ended /\ eth_task s = Ended).
Proof.
  intros [Hp H1 H2 Hl He1 He2] Ha. destruct s as [up t1 c1 t2 c2 d r]; simpl in *; subst r.
  specialize (Hl eq_refl). specialize (He1 eq_refl). specialize (He2 eq_refl).
  unfold in_transit in Hl. simpl in Hl.
  destruct c2 as [|n c2]; [|left; eexists; split; [apply run_recv|done]].
  destruct t2 as [|n|].
  - destruct c1 as [|h c1]; [|left; eexists; split; [apply step_eth, eth_recv|done]].
    destruct t1 as [|h|].
    + left. destruct up as [|[h|e] up]; eexists; (split; [apply step_chain|]);
        [apply chain_closed|done|apply chain_recv|done|apply chain_lagged|done].
    + left. eexists. split; [apply step_chain, chain_send; [done|]|done]. simpl. unfold CHANNEL_CAPACITY. lia.
    + left. eexists. split; [apply step_eth, eth_closed|done].
  - left. eexists. split; [apply step_eth, eth_send|done]. simpl. unfold CHANNEL_CAPACITY. lia.
  - right. destruct (He2 eq_refl) as [-> ->]. rewrite (He1 eq_refl) in Hl. simpl in Hl.
    by rewrite app_nil_r in Hl.
Qed.

Lemma pipe_reaches_end headers s :
  pipe_inv headers s -> receiver_alive s = true ->
  exists s', rtc pipe_step s s' /\ delivered s' = number <$> headers /\ receiver_alive s' = true.
Proof.
  remember (pipe_measure s) as n eqn:Hn. revert s Hn.
  induction n as [n IH] using lt_wf_ind. intros s -> Hi Ha.
  destruct (pipe_progress _ _ Hi Ha) as [(s1 & Hs & Ha1)|(Hd & _ & _)]; [|by eauto using rtc_refl].
  destruct (IH (pipe_measure s1)) with (s := s1) as (s' & Hr & Hd & Ha');
    eauto using pipe_step_measure, pipe_step_inv, rtc_l.
Qed.

(** Without a receiver the tasks run until both have ended. *)
Lemma pipe_unwinds headers s :
  pipe_inv headers s -> receiver_alive s = false ->
  (exists s', pipe_step s s') \/ (chain_task s = Ended /\ eth_task s = Ended).
Proof.
  intros [_ H1 _ _ _ _] Ha. destruct s as [up t1 c1 t2 c2 d r]; simpl in *; subst r.
  destruct t2 as [|n|].
  - destruct c1 as [|h c1]; [|left; eexists; apply step_eth, eth_recv].
    destruct t1 as [|h|].
    + left. destruct up as [|[h|e] up]; eexists; apply step_chain;
        [apply chain_closed|apply chain_recv|apply chain_lagged].
    + left. eexists. apply step_chain, chain_send; [done|]. simpl. unfold CHANNEL_CAPACITY. lia.
    + left. eexists. apply step_eth, eth_closed.
  - left. eexists. apply step_eth, eth_send_fails.
  - destruct t1 as [|h|]; [|left; eexists; apply step_chain, chain_send_fails|by right].
    left. destruct up as [|[h|e] up]; eexists; apply step_chain;
      [apply chain_closed|apply chain_recv|apply chain_lagged].
Qed.

(** ** The properties *)

(** C26: On the way from the node's subscription to the run loop, through two
    tasks and two channels of 32, in every interleaving: what the run loop has
    received is a prefix of the header numbers, in their order, without
    repetition or gap; the channels stay within their capacity; and while the
    run loop keeps its receiver nothing is lost: the received numbers followed
    by those in transit are all numbers the subscription yields before it ends
    or lags. *)
Theorem block_path_lossless up s :
  rtc pipe_step (pipe_start up) s ->
  delivered s `prefix_of` (number <$> readable up) /\
  (length (chain_channel s) <= CHANNEL_CAPACITY)%nat /\
  (length (eth_channel s) <= CHANNEL_CAPACITY)%nat /\
  (receiver_alive s = true -> delivered s ++ in_transit s = number <$> readable up).
Proof. intros Hr. by destruct (reachable_inv _ _ Hr). Qed.

(** C27: The path of a block never blocks: it has no infinite run (the steps
    are bounded by [pipe_measure]); while the run loop keeps receiving, a
    state from which only dropping the receiver is possible has delivered
    every number and ended both tasks; and such a state is reached from every
    state.  When the run loop has dropped its receiver, both tasks end. *)
Theorem block_path_completes up s :
  rtc pipe_step (pipe_start up) s ->
  (forall n s', nsteps pipe_step n s s' -> (n <= pipe_measure s)%nat) /\
  (receiver_alive s = true ->
    (forall s', pipe_step s s' -> receiver_alive s' = false) ->
    delivered s = number <$> readable up /\ chain_task s = Ended /\ eth_task s = Ended) /\
  (receiver_alive s = true ->
    exists s', rtc pipe_step s s' /\ delivered s' = number <$> readable up /\ receiver_alive s' = true) /\
  (receiver_alive s = false -> (forall s', ~ pipe_step s s') ->
    chain_task s = Ended /\ eth_task s = Ended).
Proof.
  intros Hr. pose proof (reachable_inv _ _ Hr) as Hi. split_and!.
  - intros n s' Hn. apply (nsteps_measure _ _ pipe_step_measure) in Hn. lia.
  - intros Ha Hstuck. destruct (pipe_progress _ _ Hi Ha) as [(s' & Hs & Ha')|]; [|done].
    apply Hstuck in Hs. congruence.
  - intros Ha. by apply pipe_reaches_end.
  - intros Ha Hstuck. destruct (pipe_unwinds _ _ Hi Ha) as [[s' Hs]|]; [|done]. by destruct (Hstuck s').
Qed.

(** ** [Chain] serves the trait *)

(** The transaction of a [send_transaction] request. *)
Definition to_send {X} (e : ChainE X) : option TxEip1559 :=
  match e with SendTransaction tx => Some tx | _ => None end.

Section provider.
(** What the wallet signs and the node answers, an arbitrary function of the
    request. *)
Variable connects : result unit RpcErrorKind.
Variable sign : TxEip1559 -> result TxEnvelope string.
Variable broadcast : TxEnvelope -> result Z RpcErrorKind.
Variable block_number_of : result Z RpcErrorKind.
Variable transaction_count : Z -> result Z RpcErrorKind.
Variable receipt_of : Z -> result (option Receipt) RpcErrorKind.
Variable subscribes : result unit RpcErrorKind.

(** The state is the log of the broadcast envelopes. *)
Definition alloy X (e : AlloyE X) (log : list TxEnvelope) : run (X * list TxEnvelope) :=
  match e in AlloyE X return run (X * list TxEnvelope) with
  | ConnectWs _ => Val (connects, log)
  | ProviderBlockNumber => Val (block_number_of, log)
  | ProviderTransactionCount a => Val (transaction_count a, log)
  | ProviderReceipt h => Val (receipt_of h, log)
  | SignTransaction tx => Val (sign tx, log)
  | SendTxEnvelope env => Val (broadcast env, log ++ [env])
  | SubscribeBlocks => Val (subscribes, log)
  end.

(** [Chain] as a [ChainClient]: every request of the trait is answered,
    without panic, with the provider's answer or with its error as
    [chain::Error::Rpc]; only [send_transaction] broadcasts, exactly one
    envelope, the one the wallet signed for that very transaction, and nothing
    when signing fails, which is [chain::Error::Signing]; the reported chain
    id is the one given to [Chain::new]. *)
Theorem chain_answers self log :
  (forall X (e : ChainE X) p, chain_impl self X e = Some p ->
    exists x log', run_alone alloy p log = (Val x, log') /\
      (log' = log \/ exists tx env, to_send e = Some tx /\ sign tx = Ok env /\ log' = log ++ [env])) /\
  (forall tx, run_alone alloy (Chain_send_transaction tx) log =
    match sign tx with
    | Err e => (Val (Err (Signing e)), log)
    | Ok env => (Val (from_rpc (broadcast env)), log ++ [env])
    end) /\
  run_alone alloy Chain_get_block_number log = (Val (from_rpc block_number_of), log) /\
  (forall a, run_alone alloy (Chain_get_account_nonce a) log = (Val (from_rpc (transaction_count a)), log)) /\
  (forall h, run_alone alloy (Chain_get_receipt h) log = (Val (from_rpc (receipt_of h)), log)) /\
  run_alone alloy Chain_subscribe_new_blocks log = (Val (from_rpc subscribes), log) /\
  (forall url id, exists r, run_alone alloy (Chain_new url id) log = (Val r, log) /\
    match connects with
    | Ok _ => exists c, r = Ok c /\ Chain_id c = id
    | Err e => r = Err (Rpc e)
    end).
Proof.
  split_and!.
  - intros X e p He. destruct e; simpl in He; simplify_eq; simpl;
      try (by repeat (case_match; simplify_eq; simpl); eauto).
    destruct (sign tx) as [env|] eqn:Hs; simpl; [|by eauto].
    by destruct (broadcast env); simpl; eauto 10.
  - intros tx. simpl. destruct (sign tx) as [env|]; simpl; [|done]. by destruct (broadcast env).
  - simpl. by destruct block_number_of.
  - intros a. simpl. by destruct (transaction_count a).
  - intros h. simpl. by destruct (receipt_of h).
  - simpl. by destruct subscribes as [[]|].
  - intros url id. simpl. destruct connects; simpl; eauto.
Qed.
End provider.

(** ** The witnesses *)

Definition some_headers : list (result BlockHeader RecvError) :=
  [Ok (MkBlockHeader 7); Ok (MkBlockHeader 8); Err (Lagged 3); Ok (MkBlockHeader 12)].

Definition one_delivered : PipeState :=
  MkPipeState [Err (Lagged 3); Ok (MkBlockHeader 12)] (Holding (MkBlockHeader 8)) [] Waiting [] [7] true.

Lemma one_delivered_reachable : rtc pipe_step (pipe_start some_headers) one_delivered.
Proof.
  unfold pipe_start, some_headers, one_delivered.
  eapply rtc_l; [apply step_chain, chain_recv|].
  eapply rtc_l; [apply step_chain, chain_send; [done|]; simpl; unfold CHANNEL_CAPACITY; lia|].
  eapply rtc_l; [apply step_chain, chain_recv|].
  eapply rtc_l; [apply step_eth, eth_recv|].
  eapply rtc_l; [apply step_eth, eth_send; simpl; unfold CHANNEL_CAPACITY; lia|].
  eapply rtc_l; [apply run_recv|]. apply rtc_refl.
Qed.

Lemma block_path_lossless_witness : [7] ++ in_transit one_delivered = [7; 8].
Proof. exact (proj2 (proj2 (proj2 (block_path_lossless _ _ one_delivered_reachable))) eq_refl). Defined.

Lemma block_path_completes_witness :
  exists s', rtc pipe_step one_delivered s' /\ delivered s' = [7; 8] /\ receiver_alive s' = true.
Proof. exact (proj1 (proj2 (proj2 (block_path_completes _ _ one_delivered_reachable))) eq_refl). Defined.
