(* ===== verification/Message.v ===== *)
(** * The transaction intent ([crates/bulkmail/src/message.rs])

    [Message] and its methods: the clamped constructor, the effective
    priority with its age and deadline factors, the retry counter and the
    expiry test. *)

From stdpp Require Import strings pretty.
From S2P Require Import Prelude.

(** ** Constants *)

Definition MAX_PRIORITY : Z := 100.
Definition BLOCK_TIME_MS : Z := 2000.
Definition POINTS_PER_BLOCK : Z := 1.
Definition MAX_RETRIES : Z := 3.
Definition DEADLINE_BOOST_NEAR_BLOCKS : Z := 2.
Definition DEADLINE_BOOST_FAR_BLOCKS : Z := 10.

(** ** Data

    [Address] and [U256] are unsigned integers of 160 and 256 bits, [Bytes]
    is a byte string; the message carries them unread. *)
Record Message := MkMessage {
  to : option Z;
  value : Z;
  data : list Byte.byte;
  gas : Z;
  priority : Z;              (* u32 *)
  deadline_ms : option Z;    (* u32, relative to created_at_ms *)
  created_at_ms : Z;         (* u64 *)
  retry_count : Z;           (* u32 *)
}.

#[export] Instance byte_eq_dec : EqDecision Byte.byte := Byte.byte_eq_dec.
#[export] Instance Message_eq_dec : EqDecision Message.
Proof. solve_decision. Defined.

(** The ranges Rust's types give the fields. *)
Record Message_typed (m : Message) : Prop := {
  typed_gas : in_range u64 (gas m);
  typed_priority : in_range u32 (priority m);
  typed_deadline : forall d, deadline_ms m = Some d -> in_range u32 d;
  typed_created : in_range u64 (created_at_ms m);
  typed_retry : in_range u32 (retry_count m);
}.

(** ** Operations *)

Definition Message_new (to : option Z) (gas value : Z) (data : list Byte.byte)
    (priority : Z) (deadline_ms : option Z) (now_ms : Z) : Message :=
  {| to := to; gas := gas; value := value; data := data;
     priority := Z.min priority MAX_PRIORITY;
     deadline_ms := deadline_ms;
     created_at_ms := now_ms;
     retry_count := 0 |}.

(** [Default for Message], with the reading of [SystemClock] as an argument. *)
Definition Message_default (now_ms : Z) : Message :=
  {| to := None; value := 0; data := []; gas := 0; priority := 0;
     deadline_ms := None; created_at_ms := now_ms; retry_count := 0 |}.

Section operations.
Context `{BuildProfile}.

Definition deadline_factor (self : Message) (now_ms : Z) : run (option Z) :=
  match deadline_ms self with
  | None => Val None
  | Some deadline_ms =>
      abs_deadline_ms ← add_w u64 (created_at_ms self) deadline_ms;
      if now_ms >=? abs_deadline_ms then Val (Some 0)
      else
        remaining_ms ← sub_w u64 abs_deadline_ms now_ms;
        let remaining_blocks := remaining_ms / BLOCK_TIME_MS in
        if remaining_blocks <? DEADLINE_BOOST_NEAR_BLOCKS then
          Val (Some MAX_PRIORITY)
        else if remaining_blocks <? DEADLINE_BOOST_FAR_BLOCKS then
          range ← sub_w u64 DEADLINE_BOOST_FAR_BLOCKS DEADLINE_BOOST_NEAR_BLOCKS;
          dist_from_near ← sub_w u64 remaining_blocks DEADLINE_BOOST_NEAR_BLOCKS;
          let max_boost := MAX_PRIORITY in
          let min_boost := max_boost / 3 in
          span ← sub_w u64 max_boost min_boost;
          scaled ← mul_w u64 span dist_from_near;
          boost ← sub_w u64 max_boost (scaled / range);
          Val (Some (cast_w u32 boost))
        else Val None
  end.

Definition effective_priority (self : Message) (now_ms : Z) : run Z :=
  factor ← deadline_factor self now_ms;
  match factor with
  | Some 0 => Val 0
  | _ =>
      let deadline_factor := default 0 factor in
      let age_ms := saturating_sub now_ms (created_at_ms self) in
      age_factor ← mul_w u32 (cast_w u32 (age_ms / BLOCK_TIME_MS)) POINTS_PER_BLOCK;
      p1 ← add_w u32 (priority self) (retry_count self);
      p2 ← add_w u32 p1 age_factor;
      add_w u32 p2 deadline_factor
  end.

Definition is_expired (self : Message) (now_ms : Z) : run bool :=
  match deadline_ms self with
  | None => Val false
  | Some d =>
      abs_deadline_ms ← add_w u64 (created_at_ms self) d;
      Val (now_ms >=? abs_deadline_ms)
  end.

End operations.

Definition set_retry_count (m : Message) (n : Z) : Message :=
  {| to := to m; value := value m; data := data m; gas := gas m;
     priority := priority m; deadline_ms := deadline_ms m;
     created_at_ms := created_at_ms m; retry_count := n |}.

Definition can_retry (self : Message) : bool := retry_count self <? MAX_RETRIES.

(** [&mut self]: the updated message comes with the answer. *)
Definition increment_retry (self : Message) : bool * Message :=
  let self' := set_retry_count self (saturating_add u32 (retry_count self) 1) in
  (can_retry self', self').

(** ** [Display]

    [fmt_address] is the [Debug] text of an [Address] of Alloy. *)
Section display.
Context (fmt_address : Z -> string).

Definition fmt_option {A} (fmt : A -> string) (o : option A) : string :=
  match o with Some a => "Some(" +:+ fmt a +:+ ")" | None => "None" end.

Definition Message_fmt (self : Message) : string :=
  "Message { to: " +:+ fmt_option fmt_address (to self) +:+
  ", value: " +:+ pretty (value self) +:+
  ", gas: " +:+ pretty (gas self) +:+
  ", priority: " +:+ pretty (priority self) +:+
  ", deadline_ms: " +:+ fmt_option pretty (deadline_ms self) +:+
  ", created_at_ms: " +:+ pretty (created_at_ms self) +:+
  ", retry_count: " +:+ pretty (retry_count self) +:+ " }".

End display.

(** ** Specification

    The boost as a function of the time that is left, the age in blocks, and
    the sum the queue orders by. *)
Definition boost_of (remaining_ms : Z) : Z :=
  let blocks := remaining_ms / BLOCK_TIME_MS in
  if blocks <? DEADLINE_BOOST_NEAR_BLOCKS then MAX_PRIORITY
  else if blocks <? DEADLINE_BOOST_FAR_BLOCKS then
    MAX_PRIORITY - (MAX_PRIORITY - MAX_PRIORITY / 3) * (blocks - DEADLINE_BOOST_NEAR_BLOCKS)
      / (DEADLINE_BOOST_FAR_BLOCKS - DEADLINE_BOOST_NEAR_BLOCKS)
  else 0.

(** The boost of a message that is not expired at [now_ms]. *)
Definition boost_at (m : Message) (now_ms : Z) : Z :=
  match deadline_ms m with
  | None => 0
  | Some d => boost_of (created_at_ms m + d - now_ms)
  end.

Definition age_blocks (m : Message) (now_ms : Z) : Z :=
  saturating_sub now_ms (created_at_ms m) / BLOCK_TIME_MS.

Definition priority_sum (m : Message) (now_ms : Z) : Z :=
  priority m + retry_count m + age_blocks m now_ms + boost_at m now_ms.

(** The deadline of the message as an absolute time that a [u64] holds. *)
Definition deadline_fits (m : Message) : Prop :=
  forall d, deadline_ms m = Some d -> in_range u64 (created_at_ms m + d).

Definition expired_at (m : Message) (now_ms : Z) : Prop :=
  exists d, deadline_ms m = Some d /\ created_at_ms m + d <= now_ms.

#[export] Instance expired_at_dec m now_ms : Decision (expired_at m now_ms).
Proof.
  destruct (deadline_ms m) as [d|] eqn:E.
  - destruct (decide (created_at_ms m + d <= now_ms)).
    + left. exists d. done.
    + right. intros (d' & ? & ?). simplify_eq. lia.
  - right. intros (d' & ? & ?). simplify_eq.
Defined.

(** ** Lemmas *)

Section facts.
Context `{BuildProfile}.

(** The interpolation takes one value per block count. *)
Lemma boost_of_blocks remaining_ms :
  0 <= remaining_ms ->
  let b := remaining_ms / BLOCK_TIME_MS in
  boost_of remaining_ms =
    if decide (b < 2) then 100 else if decide (b < 10) then 100 - 67 * (b - 2) / 8 else 0.
Proof.
  intros. unfold boost_of, DEADLINE_BOOST_NEAR_BLOCKS, DEADLINE_BOOST_FAR_BLOCKS.
  fold b. repeat case_decide; repeat case_match; (done || lia).
Qed.

Lemma boost_of_cases remaining_ms :
  0 <= remaining_ms ->
  boost_of remaining_ms = 0 /\ 10 * BLOCK_TIME_MS <= remaining_ms \/
  42 <= boost_of remaining_ms <= MAX_PRIORITY /\ remaining_ms < 10 * BLOCK_TIME_MS.
Proof.
  intros Hr. rewrite boost_of_blocks by done.
  unfold BLOCK_TIME_MS, MAX_PRIORITY. repeat case_decide; word.
Qed.

Lemma boost_of_range remaining_ms :
  0 <= remaining_ms -> 0 <= boost_of remaining_ms <= MAX_PRIORITY.
Proof.
  intros Hr. destruct (boost_of_cases _ Hr) as [[-> _]|[? _]];
    unfold MAX_PRIORITY in *; lia.
Qed.

Lemma boost_of_antitone r1 r2 : 0 <= r1 <= r2 -> boost_of r2 <= boost_of r1.
Proof.
  intros Hr. rewrite !boost_of_blocks by lia. unfold BLOCK_TIME_MS.
  repeat case_decide; word.
Qed.

Lemma deadline_factor_eq m now_ms :
  Message_typed m -> in_range u64 now_ms -> deadline_fits m ->
  deadline_factor m now_ms = Val (
    if decide (expired_at m now_ms) then Some 0
    else match boost_at m now_ms with 0 => None | b => Some b end).
Proof.
  intros Hm Hnow Hfits. unfold deadline_factor, boost_at.
  destruct (deadline_ms m) as [d|] eqn:Ed.
  2: { rewrite decide_False; [done|]. intros (? & ? & ?). congruence. }
  assert (Hd := typed_deadline _ Hm _ Ed). assert (Hc := typed_created _ Hm).
  assert (Hf := Hfits _ Ed). rewrite add_w_ok by word. simpl.
  destruct (Z.geb_spec now_ms (created_at_ms m + d)) as [Hx|Hx].
  { rewrite decide_True; [done|]. by exists d. }
  rewrite decide_False by (intros (? & ? & ?); simplify_eq; lia).
  rewrite sub_w_ok by word. simpl. unfold boost_of.
  set (b := (created_at_ms m + d - now_ms) / BLOCK_TIME_MS).
  assert (0 <= b) by (apply Z.div_pos; unfold BLOCK_TIME_MS; lia).
  unfold DEADLINE_BOOST_NEAR_BLOCKS, DEADLINE_BOOST_FAR_BLOCKS, MAX_PRIORITY in *.
  destruct (Z.ltb_spec b 2); [done|]. destruct (Z.ltb_spec b 10); [|done].
  change (100 / 3) with 33. checked.
  assert (b ∈ [2; 3; 4; 5; 6; 7; 8; 9]) as Hb.
  { rewrite !list_elem_of_In. simpl. lia. }
  rewrite list_elem_of_In in Hb. simpl in Hb.
  destruct_or! Hb; try done; rewrite <- Hb; vm_compute; reflexivity.
Qed.

Lemma is_expired_eq m now_ms :
  deadline_fits m -> is_expired m now_ms = Val (bool_decide (expired_at m now_ms)).
Proof.
  intros Hfits. unfold is_expired. destruct (deadline_ms m) as [d|] eqn:E.
  - rewrite add_w_ok by (by apply Hfits). simpl. f_equal.
    destruct (Z.geb_spec now_ms (created_at_ms m + d)); symmetry.
    + apply bool_decide_eq_true. by exists d.
    + apply bool_decide_eq_false. intros (? & ? & ?). simplify_eq. lia.
  - f_equal. symmetry. apply bool_decide_eq_false. intros (? & ? & ?). congruence.
Qed.

Lemma effective_priority_eq m now_ms :
  Message_typed m -> in_range u64 now_ms -> deadline_fits m ->
  in_range u32 (age_blocks m now_ms) ->
  effective_priority m now_ms =
    if decide (expired_at m now_ms) then Val 0 else arith u32 (priority_sum m now_ms).
Proof.
  intros Hm Hnow Hfits Hage. unfold effective_priority.
  rewrite deadline_factor_eq by done.
  case_decide as Hx; [done|]. simpl.
  assert (0 <= boost_at m now_ms) as Hb.
  { unfold boost_at. case_match eqn:E; [|done]. apply boost_of_range.
    assert (~ created_at_ms m + z <= now_ms); [|lia].
    intros ?. apply Hx. by exists z. }
  destruct Hm as [_ Hp _ _ Hr]. unfold in_range in Hp, Hr, Hage.
  transitivity (age ← mul_w u32 (cast_w u32 (age_blocks m now_ms)) POINTS_PER_BLOCK;
    p1 ← add_w u32 (priority m) (retry_count m);
    p2 ← add_w u32 p1 age; add_w u32 p2 (boost_at m now_ms)).
  { destruct (boost_at m now_ms); [done..|lia]. }
  unfold POINTS_PER_BLOCK. rewrite cast_w_small, mul_w_ok by word. simpl.
  rewrite Z.mul_1_r. unfold priority_sum.
  rewrite <- add_w_chain, <- add_w_chain by word.
  unfold add_w. by destruct (arith u32 (priority m + retry_count m)).
Qed.

Lemma effective_priority_fits m now_ms :
  Message_typed m -> 0 <= now_ms < 2 ^ 42 -> created_at_ms m < 2 ^ 42 ->
  priority m <= MAX_PRIORITY -> retry_count m <= MAX_RETRIES ->
  exists p, effective_priority m now_ms = Val p /\
    0 <= p <= 2 * MAX_PRIORITY + MAX_RETRIES + age_blocks m now_ms.
Proof.
  intros Hm Hnow Hc Hp Hr. change (2 ^ 42) with 4398046511104 in *.
  assert (Hd := typed_deadline _ Hm). destruct (Hm) as [_ Hp0 _ Hc0 Hr0].
  assert (0 <= age_blocks m now_ms < 2199023256) as Hage.
  { unfold age_blocks, BLOCK_TIME_MS. word. }
  rewrite effective_priority_eq; [|done|word| |word].
  2: { intros d E. specialize (Hd d E). word. }
  case_decide as Hx.
  { exists 0. split; [done|]. unfold MAX_PRIORITY, MAX_RETRIES in *. lia. }
  assert (0 <= boost_at m now_ms <= MAX_PRIORITY).
  { unfold boost_at. case_match eqn:E; [|done]. apply boost_of_range.
    destruct (decide (created_at_ms m + z <= now_ms)); [|lia].
    destruct Hx. by exists z. }
  unfold priority_sum, MAX_PRIORITY, MAX_RETRIES in *.
  eexists. split; [apply arith_ok; word|word].
Qed.

End facts.

(** ** Properties *)

Section properties.
Context `{BuildProfile}.

(** C21: the effective priority is the sum of the base priority, the retry
    count, the age in blocks and the deadline boost, computed as one [u32]
    addition (it overflows exactly when the total does not fit), and 0 once
    the deadline has passed. *)
Theorem effective_priority_spec m now_ms :
  Message_typed m -> in_range u64 now_ms -> deadline_fits m ->
  in_range u32 (age_blocks m now_ms) ->
  effective_priority m now_ms =
    if decide (expired_at m now_ms) then Val 0 else arith u32 (priority_sum m now_ms).
Proof. apply effective_priority_eq. Qed.

(** A message that the constructor clamped and that was retried at most
    [MAX_RETRIES] times has an effective priority of at most 200 + 3 plus its
    age, with no overflow in either build profile. *)
Theorem effective_priority_bounded m now_ms :
  Message_typed m -> 0 <= now_ms < 2 ^ 42 -> created_at_ms m < 2 ^ 42 ->
  priority m <= MAX_PRIORITY -> retry_count m <= MAX_RETRIES ->
  exists p, effective_priority m now_ms = Val p /\
    0 <= p <= 2 * MAX_PRIORITY + MAX_RETRIES + age_blocks m now_ms.
Proof. apply effective_priority_fits. Qed.

(** The deadline factor is [Some 0] exactly when the message is expired,
    which is when [is_expired] answers true; before that it is absent or a
    boost between 42 and [MAX_PRIORITY]. *)
Theorem deadline_factor_expiry m now_ms :
  Message_typed m -> in_range u64 now_ms -> deadline_fits m ->
  exists f, deadline_factor m now_ms = Val f /\
    is_expired m now_ms = Val (bool_decide (f = Some 0)) /\
    (f = Some 0 <-> expired_at m now_ms) /\
    (forall b, f = Some b -> b <> 0 -> 42 <= b <= MAX_PRIORITY).
Proof.
  intros Hm Hnow Hfits. rewrite deadline_factor_eq by done.
  eexists; split; [done|].
  assert (forall b, boost_at m now_ms = b -> ~ expired_at m now_ms -> b <> 0 ->
    42 <= b <= MAX_PRIORITY) as Hrange.
  { intros b <- Hx. unfold boost_at in *. case_match eqn:E; [|done].
    destruct (decide (created_at_ms m + z <= now_ms)); [destruct Hx; by exists z|].
    destruct (boost_of_cases (created_at_ms m + z - now_ms)) as [[? _]|[? _]]; lia. }
  rewrite is_expired_eq by done.
  case_decide as Hx.
  { rewrite !bool_decide_eq_true_2 by done. split; [done|]. split; [done|].
    intros b [= <-]. done. }
  specialize (Hrange _ eq_refl Hx). rewrite (bool_decide_eq_false_2 _ Hx).
  assert (forall f, f <> Some 0 -> (forall b, f = Some b -> b = boost_at m now_ms) ->
    Val false = Val (bool_decide (f = Some 0)) /\ (f = Some 0 <-> expired_at m now_ms) /\
    (forall b, f = Some b -> b <> 0 -> 42 <= b <= MAX_PRIORITY)) as Hf.
  { intros f H0 Hfb. rewrite bool_decide_eq_false_2 by done.
    split; [done|]. split; [done|]. intros b -> ?. rewrite (Hfb b) in * by done. auto. }
  destruct (boost_at m now_ms); apply Hf; congruence.
Qed.

(** While a message is not expired its effective priority never
    decreases with time. *)
Theorem effective_priority_monotone m now1 now2 p1 p2 :
  Message_typed m -> deadline_fits m -> 0 <= now1 <= now2 -> in_range u64 now2 ->
  ~ expired_at m now2 -> in_range u32 (priority_sum m now2) ->
  effective_priority m now1 = Val p1 -> effective_priority m now2 = Val p2 ->
  p1 <= p2.
Proof.
  intros Hm Hfits Hle Hnow Hx2 Hsum.
  assert (~ expired_at m now1) as Hx1.
  { intros (d & ? & ?). apply Hx2. exists d. split; [done|lia]. }
  assert (boost_at m now1 <= boost_at m now2 /\ 0 <= boost_at m now1) as [Hb Hb0].
  { unfold boost_at. case_match eqn:E; [|done].
    assert (~ created_at_ms m + z <= now2) by (intros ?; apply Hx2; by exists z).
    split; [apply boost_of_antitone; lia|].
    apply boost_of_range. lia. }
  assert (0 <= age_blocks m now1 <= age_blocks m now2) as Ha.
  { unfold age_blocks, BLOCK_TIME_MS, saturating_sub.
    split; [apply Z.div_pos; lia|]. apply Z.div_le_mono; lia. }
  destruct (Hm) as [_ Hp _ _ Hr]. unfold priority_sum in *.
  rewrite !effective_priority_eq by (try done; word).
  rewrite !decide_False by done. unfold priority_sum.
  rewrite !arith_ok by word. intros. simplify_eq. lia.
Qed.

End properties.

Fixpoint retries (n : nat) (m : Message) : Message :=
  match n with O => m | S n => retries n (increment_retry m).2 end.

Lemma retries_count n m :
  0 <= retry_count m -> retry_count m + Z.of_nat n < 2 ^ 32 ->
  retry_count (retries n m) = retry_count m + Z.of_nat n.
Proof.
  revert m. induction n as [|n IH]; intros m Hm Hn; simpl; [lia|].
  rewrite Nat2Z.inj_succ in Hn.
  rewrite IH; cbn [retry_count increment_retry set_retry_count snd]; word.
Qed.

Lemma retries_set n m z :
  set_retry_count (retries n m) z = set_retry_count m z.
Proof. revert m. induction n as [|n IH]; intros m; simpl; [done|]. by rewrite IH. Qed.

(** A message just created may be retried [MAX_RETRIES - 1] times: the
    call of [increment_retry] after [n] earlier ones answers true exactly when
    [n + 1 < MAX_RETRIES], and nothing but the counter changes. *)
Theorem increment_retry_budget n to gas value data priority deadline_ms now_ms :
  Z.of_nat n < 2 ^ 32 - 1 ->
  let m := Message_new to gas value data priority deadline_ms now_ms in
  increment_retry (retries n m) =
    (bool_decide (Z.of_nat n + 1 < MAX_RETRIES), set_retry_count m (Z.of_nat n + 1)).
Proof.
  cbv zeta. generalize (eq_refl : retry_count
    (Message_new to gas value data priority deadline_ms now_ms) = 0).
  generalize (Message_new to gas value data priority deadline_ms now_ms).
  intros m Hm Hn. unfold increment_retry.
  rewrite retries_set, retries_count, Hm, Z.add_0_l by lia.
  assert (saturating_add u32 (Z.of_nat n) 1 = Z.of_nat n + 1) as -> by word.
  f_equal. unfold can_retry. simpl. apply Bool.eq_iff_eq_true.
  rewrite bool_decide_eq_true. lia.
Qed.

Section witnesses.
#[local] Instance checked_build : BuildProfile := true.

(** Created at 1 s with a deadline of 12 s. *)
Definition urgent : Message := Message_new (Some 42) 21000 7 [] 250 (Some 12000) 1000.

Lemma urgent_typed : Message_typed urgent.
Proof.
  split; simpl; [by vm_compute|by vm_compute| |by vm_compute..].
  intros d [= <-]. by vm_compute.
Qed.

Lemma urgent_fits : deadline_fits urgent.
Proof. intros d [= <-]. by vm_compute. Qed.

Lemma urgent_live now_ms : now_ms < 13000 -> ~ expired_at urgent now_ms.
Proof. intros Hn (d & [= <-] & Hd). simpl in Hd. lia. Qed.

(** The priorities of the repository's tests: clamped base, one age point per
    block, the full boost two blocks before the deadline. *)
Example urgent_priority : effective_priority urgent 10000 = Val (100 + 4 + 100).
Proof. vm_compute. reflexivity. Qed.

Lemma effective_priority_spec_witness :
  effective_priority urgent 5000 = arith u32 (priority_sum urgent 5000).
Proof.
  pose proof (effective_priority_spec urgent 5000 urgent_typed) as H.
  rewrite H; [|by vm_compute|exact urgent_fits|by vm_compute].
  rewrite decide_False; [reflexivity|]. apply urgent_live. lia.
Defined.

Lemma effective_priority_bounded_witness :
  exists p, effective_priority urgent 5000 = Val p /\
    0 <= p <= 2 * MAX_PRIORITY + MAX_RETRIES + age_blocks urgent 5000.
Proof. apply (effective_priority_bounded urgent 5000 urgent_typed); by vm_compute. Defined.

Lemma deadline_factor_expiry_witness :
  exists f, deadline_factor urgent 13000 = Val f /\ (f = Some 0 <-> expired_at urgent 13000).
Proof.
  destruct (deadline_factor_expiry urgent 13000 urgent_typed) as (f & H1 & _ & H2 & _).
  - by vm_compute.
  - exact urgent_fits.
  - exists f. split; [exact H1|exact H2].
Defined.

Lemma effective_priority_monotone_witness :
  effective_priority urgent 1000 = Val 167 /\ effective_priority urgent 9000 = Val 204 /\
  167 <= 204.
Proof.
  assert (effective_priority urgent 1000 = Val 167) as H1 by (vm_compute; reflexivity).
  assert (effective_priority urgent 9000 = Val 204) as H2 by (vm_compute; reflexivity).
  split; [exact H1|]. split; [exact H2|].
  apply (effective_priority_monotone urgent 1000 9000 167 204 urgent_typed urgent_fits).
  - lia.
  - by vm_compute.
  - apply urgent_live. lia.
  - by vm_compute.
  - exact H1.
  - exact H2.
Defined.

Lemma increment_retry_budget_witness :
  fst (increment_retry (retries 2 urgent)) = false.
Proof.
  pose proof (increment_retry_budget 2 (Some 42) 21000 7 [] 250 (Some 12000) 1000) as H.
  assert (Z.of_nat 2 < 2 ^ 32 - 1) as Hn by (vm_compute; reflexivity).
  unfold urgent. rewrite (H Hn). vm_compute. reflexivity.
Defined.
End witnesses.
