(* ===== verification/PriorityQueue.v ===== *)
(** * The message queue ([crates/bulkmail/src/priority_queue.rs])

    A max-heap of messages ordered by the effective priority that each had
    when it was pushed.  The queue is written against the interface
    [MaxHeap]; [BinaryHeap] implements it. *)

From S2P Require Import Prelude Message BinaryHeap.
From Stdlib Require Import Permutation Sorted.

(** ** Data *)

Record PrioritizedMessage := MkPrioritized {
  message : Message;
  pm_effective_priority : Z;
}.

#[export] Instance PrioritizedMessage_eq_dec : EqDecision PrioritizedMessage.
Proof. solve_decision. Defined.

(** [Ord::cmp]: the comparison of the stored priorities. *)
Definition cmp (self other : PrioritizedMessage) : comparison :=
  pm_effective_priority self ?= pm_effective_priority other.

(** [PartialEq::eq] and [PartialOrd::partial_cmp]. *)
Definition pm_eq (self other : PrioritizedMessage) : bool :=
  pm_effective_priority self =? pm_effective_priority other.
Definition partial_cmp (self other : PrioritizedMessage) : option comparison :=
  Some (cmp self other).

(** [self <= other] as [PartialOrd] derives it from [partial_cmp]. *)
Definition pm_le (self other : PrioritizedMessage) : bool :=
  match partial_cmp self other with
  | Some Lt | Some Eq => true
  | _ => false
  end.

Lemma pm_le_spec x y :
  pm_le x y = true <-> pm_effective_priority x <= pm_effective_priority y.
Proof.
  unfold pm_le, partial_cmp, cmp. destruct (Z.compare_spec
    (pm_effective_priority x) (pm_effective_priority y)); split; (done || lia).
Qed.

#[export] Instance pm_le_order : TotalPreorder pm_le.
Proof.
  split.
  - intros x y. rewrite !pm_le_spec. lia.
  - intros x y z. rewrite !pm_le_spec. lia.
Qed.

(** ** Operations *)

Section queue.
Context `{BuildProfile} {HM : MaxHeap pm_le}.

Record PriorityQueue := MkPriorityQueue { pq_heap : heap }.

Definition PriorityQueue_new : PriorityQueue := {| pq_heap := heap_new |}.
Definition PriorityQueue_default : PriorityQueue := PriorityQueue_new.

(** [push]: the effective priority is evaluated now and stored. *)
Definition push (self : PriorityQueue) (message : Message) (now_ms : Z) : run PriorityQueue :=
  p ← effective_priority message now_ms;
  Val {| pq_heap :=
    heap_push {| message := message; pm_effective_priority := p |} (pq_heap self) |}.

Definition pop (self : PriorityQueue) : option (Message * PriorityQueue) :=
  match heap_pop (pq_heap self) with
  | None => None
  | Some (pm, h) => Some (message pm, {| pq_heap := h |})
  end.

(** What [BinaryHeap::is_empty] and [BinaryHeap::len] look at. *)
Definition items (q : PriorityQueue) : list PrioritizedMessage := heap_items (pq_heap q).

Definition queue_is_empty (self : PriorityQueue) : bool :=
  match items self with [] => true | _ => false end.

Definition len (self : PriorityQueue) : nat := length (items self).

(** ** Specification: the queue as a bag of messages with their priorities *)

Definition queue_ok (q : PriorityQueue) : Prop := heap_ok (pq_heap q).
Definition queued (q : PriorityQueue) : list Message := message <$> items q.

Lemma queue_new_ok : queue_ok PriorityQueue_new.
Proof. apply heap_new_ok. Qed.

Lemma queued_new : queued PriorityQueue_new = [].
Proof. unfold queued, items. simpl. by rewrite heap_new_items. Qed.

Lemma push_ok q m now q' : queue_ok q -> push q m now = Val q' -> queue_ok q'.
Proof.
  intros Hq. unfold push. destruct (effective_priority m now); simpl; [|done].
  intros [= <-]. by apply heap_push_ok.
Qed.

Lemma push_items q m now q' :
  push q m now = Val q' ->
  exists p, effective_priority m now = Val p /\
    items q' ≡ₚ {| message := m; pm_effective_priority := p |} :: items q.
Proof.
  unfold push, items. destruct (effective_priority m now) as [p|]; simpl; [|done].
  intros [= <-]. exists p. split; [done|]. apply heap_push_items.
Qed.

Lemma pop_ok q m q' : queue_ok q -> pop q = Some (m, q') -> queue_ok q'.
Proof.
  intros Hq. unfold pop. case_match eqn:E; [|done]. destruct p as [pm h].
  intros [= <- <-]. by eapply heap_pop_ok.
Qed.

Lemma pop_items q m q' :
  pop q = Some (m, q') ->
  exists pm, message pm = m /\ items q ≡ₚ pm :: items q' /\
    (queue_ok q -> forall x, x ∈ items q -> pm_effective_priority x <= pm_effective_priority pm).
Proof.
  unfold pop, items. case_match eqn:E; [|done]. destruct p as [pm h].
  intros [= <- <-]. exists pm. split; [done|]. split; [by apply heap_pop_items|].
  intros Hq x Hx. apply pm_le_spec. by eapply heap_pop_max.
Qed.

Lemma pop_queued q m q' : pop q = Some (m, q') -> queued q ≡ₚ m :: queued q'.
Proof.
  intros Hpop. destruct (pop_items _ _ _ Hpop) as (pm & <- & Hitems & _). unfold queued. by rewrite Hitems.
Qed.

Lemma pop_none q : pop q = None <-> items q = [].
Proof.
  unfold pop, items. rewrite <- heap_pop_none.
  destruct (heap_pop _) as [[]|]; split; congruence.
Qed.

(** Popping [n] messages. *)
Fixpoint drain (n : nat) (q : PriorityQueue) : list Message * PriorityQueue :=
  match n with
  | O => ([], q)
  | S n =>
      match pop q with
      | None => ([], q)
      | Some (m, q') => let '(ms, q'') := drain n q' in (m :: ms, q'')
      end
  end.

(** ** Properties *)

(** C20: a pop of a non-empty queue removes exactly one message, one with the
    greatest priority of those queued; a pop of an empty queue answers
    nothing. *)
Theorem pop_highest q :
  queue_ok q ->
  match pop q with
  | None => items q = []
  | Some (m, q') =>
      exists p, items q ≡ₚ {| message := m; pm_effective_priority := p |} :: items q' /\
        queue_ok q' /\ len q = S (len q') /\
        forall x, x ∈ items q -> pm_effective_priority x <= p
  end.
Proof.
  intros Hq. destruct (pop q) as [[m q']|] eqn:E; [|by apply pop_none].
  destruct (pop_items _ _ _ E) as ([m' p] & Hm & Hperm & Hmax). simpl in *. subst m'.
  exists p. split; [done|]. split; [by eapply pop_ok|]. split; [|by auto].
  unfold len. by rewrite Hperm.
Qed.

(** Draining the queue hands out every message once, in decreasing order
    of the stored priorities, whatever the order of the pushes. *)
Theorem drain_sorted q n :
  queue_ok q -> (len q <= n)%nat ->
  exists pms, message <$> pms = (drain n q).1 /\ pms ≡ₚ items q /\
    StronglySorted (fun x y => pm_effective_priority y <= pm_effective_priority x) pms /\
    items (drain n q).2 = [].
Proof.
  revert q. induction n as [|n IH]; intros q Hq Hn.
  { exists []. unfold len in Hn. destruct (items q) eqn:E; simpl in *; [|lia].
    repeat split; try done. constructor. }
  simpl. destruct (pop q) as [[m q']|] eqn:E.
  2: { exists []. apply pop_none in E. rewrite E. repeat split; auto. constructor. }
  destruct (pop_items _ _ _ E) as (pm & <- & Hperm & Hmax).
  assert (len q = S (len q')) as Hlen by (unfold len; by rewrite Hperm).
  destruct (IH q') as (pms & Hms & Hpms & Hsort & Hend); [by eapply pop_ok|lia|].
  destruct (drain n q') as [ms q''] eqn:Ed. simpl in *. subst ms.
  exists (pm :: pms). repeat split; [by rewrite Hpms|constructor; [done|]|done].
  apply Forall_forall. intros x Hx. apply Hmax; [done|].
  rewrite Hperm. apply list_elem_of_further. by rewrite <- Hpms.
Qed.

(** A push stores the message with the effective priority it has now,
    keeps every queued message and its priority, and fails only when the
    priority computation does. *)
Theorem push_stores q m now_ms :
  queue_ok q ->
  match push q m now_ms with
  | Panic p => effective_priority m now_ms = Panic p
  | Val q' =>
      exists p, effective_priority m now_ms = Val p /\ queue_ok q' /\
        items q' ≡ₚ {| message := m; pm_effective_priority := p |} :: items q
  end.
Proof.
  intros Hq. destruct (push q m now_ms) as [q'|p] eqn:E.
  - destruct (push_items _ _ _ _ E) as (p & ? & ?). exists p. split; [done|].
    split; [|done]. by eapply push_ok.
  - unfold push in E. destruct (effective_priority m now_ms); simpl in *; congruence.
Qed.

End queue.

(** The queue on the array heap. *)
Section witnesses.
#[local] Instance release_profile : BuildProfile := false.

Definition msg (p : Z) : Message := Message_new None 0 0 [] p None 1000.
Definition three : run PriorityQueue :=
  q ← push PriorityQueue_new (msg 0) 1000; q ← push q (msg 2) 1000; push q (msg 1) 1000.

Example drain_three :
  (q ← three; Val (priority <$> (drain 3 q).1)) = Val [2; 1; 0].
Proof. vm_compute. reflexivity. Qed.

Lemma three_ok q : three = Val q -> queue_ok q.
Proof.
  unfold three, mbind, run_bind. repeat case_match; try done. intros E.
  eapply push_ok; [|exact E]. eapply push_ok; [|eassumption].
  eapply push_ok; [|eassumption]. apply queue_new_ok.
Qed.

Lemma pop_highest_witness :
  exists q, three = Val q /\ queue_ok q /\
  match pop q with
  | None => items q = []
  | Some (m, q') =>
      exists p, items q ≡ₚ {| message := m; pm_effective_priority := p |} :: items q' /\
        queue_ok q' /\ len q = S (len q') /\
        forall x, x ∈ items q -> pm_effective_priority x <= p
  end.
Proof.
  destruct three as [q|] eqn:E; [|exact (False_ind _ ltac:(vm_compute in E; discriminate E))].
  exists q. split; [done|]. split; [by apply three_ok|].
  apply (pop_highest q). by apply three_ok.
Defined.

Lemma drain_sorted_witness :
  exists q pms, three = Val q /\ message <$> pms = (drain 3 q).1 /\ pms ≡ₚ items q.
Proof.
  destruct three as [q|] eqn:E; [|exact (False_ind _ ltac:(vm_compute in E; discriminate E))].
  assert (len q = 3%nat) as Hl.
  { vm_compute in E. injection E as <-. reflexivity. }
  destruct (drain_sorted q 3 (three_ok q E)) as (pms & ? & ? & _); [lia|].
  by exists q, pms.
Defined.

Lemma push_stores_witness :
  exists q, three = Val q /\ exists q', push q (msg 7) 1000 = Val q' /\ queue_ok q'.
Proof.
  destruct three as [q|] eqn:E; [|exact (False_ind _ ltac:(vm_compute in E; discriminate E))].
  exists q. split; [done|]. pose proof (push_stores q (msg 7) 1000 (three_ok q E)) as H.
  destruct (push q (msg 7) 1000) as [q'|].
  - exists q'. by destruct H as (_ & _ & ? & _).
  - vm_compute in H. discriminate H.
Defined.
End witnesses.
