(* ===== verification/NonceManager.v ===== *)
(** * In-flight nonce tracking ([crates/bulkmail/src/nonce_manager.rs])

    The state behind the mutex of [NonceManager] and the body that each
    method runs while it holds the lock.  The [BTreeSet<u64>] of in-flight
    nonces is a [gset Z]; the walk over it in [get_next_available_nonce] has
    the size of the set as its fuel. *)

From stdpp Require Import gmap strings.
From S2P Require Import Prelude Prog Errors Chain.

(** ** State *)

Record NonceState := MkNonceState {
  current : Z;              (* u64: the last confirmed on-chain nonce *)
  in_flight : gset Z;       (* nonces assigned but not yet confirmed *)
}.

(** ** Operations *)

Section operations.
Context `{BuildProfile}.

(** [NonceManager::new], after the RPC answered [current_nonce]. *)
Definition NonceState_new (current_nonce : Z) : NonceState :=
  {| current := current_nonce; in_flight := ∅ |}.

(** [while in_flight.contains(&nonce) { nonce += 1 }] *)
Fixpoint skip_in_flight (fuel : nat) (in_flight : gset Z) (nonce : Z) : run Z :=
  match fuel with
  | O => Panic Diverge
  | S fuel =>
      if decide (nonce ∈ in_flight) then
        nonce ← add_w u64 nonce 1;
        skip_in_flight fuel in_flight nonce
      else Val nonce
  end.

Definition get_next_available_nonce (state : NonceState) : run (Z * NonceState) :=
  nonce ← skip_in_flight (S (size (in_flight state))) (in_flight state) (current state);
  Val (nonce, {| current := current state; in_flight := {[nonce]} ∪ in_flight state |}).

Definition mark_nonce_available (nonce : Z) (state : NonceState) : NonceState :=
  {| current := current state; in_flight := in_flight state ∖ {[nonce]} |}.

Definition update_current_nonce (new_nonce : Z) (state : NonceState) : NonceState :=
  if new_nonce >? current state then
    {| current := new_nonce;
       in_flight := filter (fun n => n >= new_nonce) (in_flight state) |}
  else state.

(** ** The methods as programs

    [NonceLock] has one event per critical section of the mutex; the chain
    client inside the manager is asked through [NonceRpc]. *)
Inductive NonceLock : Type -> Type :=
  | TakeNext : NonceLock Z
  | MarkAvailable (nonce : Z) : NonceLock unit
  | UpdateCurrent (new_nonce : Z) : NonceLock unit.

Inductive NonceE (X : Type) : Type :=
  | Locked (e : NonceLock X)
  | NonceRpc (e : ChainE X).
#[global] Arguments Locked {X} e.
#[global] Arguments NonceRpc {X} e.

Definition nonce_handle (X : Type) (e : NonceLock X) (s : NonceState) : run (X * NonceState) :=
  match e in NonceLock X return run (X * NonceState) with
  | TakeNext => get_next_available_nonce s
  | MarkAvailable nonce => Val (tt, mark_nonce_available nonce s)
  | UpdateCurrent new_nonce => Val (tt, update_current_nonce new_nonce s)
  end.

(** [NonceManager::new]: the state starts from the nonce on chain. *)
Definition NonceManager_new (address : Z) : Prog NonceE (result NonceState Error) :=
  current_nonce ← trigger (NonceRpc (GetAccountNonce address));
  Ret (match from_chain current_nonce with
       | Ok n => Ok (NonceState_new n)
       | Err e => Err e
       end).

Definition sync_nonce (address : Z) : Prog NonceE (result unit Error) :=
  on_chain_nonce ?←
    prog_bind (trigger (NonceRpc (GetAccountNonce address))) (fun r => Ret (from_chain r));
  trigger (Locked (UpdateCurrent on_chain_nonce));;
  Ret (Ok tt).

End operations.

(** ** Specification *)

(** The nonces that an assignment may not hand out again. *)
Definition taken (s : NonceState) (n : Z) : Prop := n < current s \/ n ∈ in_flight s.

(** No in-flight nonce is below the confirmed one, and nonces are u64. *)
Record nonce_ok (s : NonceState) : Prop := {
  nonce_current_range : in_range u64 (current s);
  nonce_in_flight : forall n, n ∈ in_flight s -> current s <= n /\ in_range u64 n;
}.

(** The next assignment cannot run past [u64::MAX]. *)
Definition room (s : NonceState) : Prop :=
  current s + Z.of_nat (size (in_flight s)) < 2 ^ 64.

(** ** Lemmas *)

Section facts.
Context `{BuildProfile}.

Definition above (n : Z) (s : gset Z) : gset Z := filter (fun x => n <= x) s.

Lemma above_size n (s : gset Z) : n ∈ s -> size (above n s) = S (size (above (n + 1) s)).
Proof.
  intros Hn. assert (above n s = {[n]} ∪ above (n + 1) s) as ->.
  { apply set_eq. intros x. unfold above.
    rewrite elem_of_union, elem_of_singleton, !elem_of_filter.
    destruct (decide (x = n)) as [->|]; [split; auto with lia|].
    split; [intros [? ?]; right; split; [lia|done]|].
    intros [?|[? ?]]; [done|split; [lia|done]]. }
  rewrite size_union, size_singleton; [lia|].
  intros x. unfold above. rewrite elem_of_singleton, elem_of_filter. lia.
Qed.

Lemma above_size_le n (s : gset Z) : (size (above n s) <= size s)%nat.
Proof. apply subseteq_size. unfold above. set_solver. Qed.

(** With fuel for the nonces above [nonce], the walk stops at the first gap. *)
Lemma skip_in_flight_spec fuel (s : gset Z) nonce :
  (size (above nonce s) < fuel)%nat -> 0 <= nonce ->
  nonce + Z.of_nat (size (above nonce s)) < 2 ^ 64 ->
  exists r, skip_in_flight fuel s nonce = Val r /\ r ∉ s /\ nonce <= r /\
    r <= nonce + Z.of_nat (size (above nonce s)) /\
    (forall k, nonce <= k < r -> k ∈ s).
Proof.
  revert nonce. induction fuel as [|fuel IH]; intros nonce Hfuel H0 Hroom; [lia|].
  simpl. case_decide as Hin.
  - assert (Hsz := above_size _ _ Hin). rewrite add_w_ok by word. simpl.
    destruct (IH (nonce + 1)) as (r & Hr & Hfree & Hge & Hle & Hall); [lia..|].
    exists r. split; [done|]. split; [done|]. split; [lia|]. split; [lia|].
    intros k Hk. destruct (decide (k = nonce)) as [->|]; [done|]. apply Hall. lia.
  - exists nonce. split; [done|]. split; [done|]. repeat split; lia.
Qed.

Lemma get_next_spec s :
  0 <= current s -> room s ->
  exists n, get_next_available_nonce s =
      Val (n, {| current := current s; in_flight := {[n]} ∪ in_flight s |}) /\
    n ∉ in_flight s /\ current s <= n <= current s + Z.of_nat (size (in_flight s)) /\
    (forall k, current s <= k < n -> k ∈ in_flight s).
Proof.
  intros H0 Hroom. unfold room in Hroom.
  pose proof (above_size_le (current s) (in_flight s)).
  destruct (skip_in_flight_spec (S (size (in_flight s))) (in_flight s) (current s))
    as (n & Hn & Hfree & Hge & Hle & Hall); [lia..|].
  exists n. unfold get_next_available_nonce. rewrite Hn. simpl.
  repeat split; (done || lia).
Qed.

Lemma elem_of_update n new s :
  n ∈ in_flight (update_current_nonce new s) <->
  n ∈ in_flight s /\ (current s < new -> new <= n).
Proof.
  unfold update_current_nonce. destruct (Z.gtb_spec new (current s)); simpl.
  - rewrite elem_of_filter. intuition lia.
  - intuition lia.
Qed.

Lemma current_update new s : current (update_current_nonce new s) = Z.max (current s) new.
Proof. unfold update_current_nonce. destruct (Z.gtb_spec new (current s)); simpl; lia. Qed.

Lemma taken_update n new s : taken s n -> taken (update_current_nonce new s) n.
Proof.
  unfold taken. rewrite elem_of_update, current_update.
  destruct (decide (n < new)); [left; lia|]. intros [?|?]; [left; lia|right; intuition lia].
Qed.

Lemma taken_release n m s : taken s n -> n <> m -> taken (mark_nonce_available m s) n.
Proof. unfold taken. simpl. set_solver. Qed.

Lemma taken_next s n s' m :
  get_next_available_nonce s = Val (n, s') -> taken s m -> taken s' m.
Proof.
  unfold get_next_available_nonce. destruct (skip_in_flight _ _ _); simpl; [|done].
  intros [= <- <-]. unfold taken. simpl. set_solver.
Qed.

(** A walk that stops at [r], in either build profile, stops at a gap. *)
Lemma skip_in_flight_free fuel (s : gset Z) nonce r :
  skip_in_flight fuel s nonce = Val r -> r ∉ s.
Proof.
  revert nonce. induction fuel as [|fuel IH]; intros nonce; simpl; [done|].
  case_decide; [|by intros [= <-]].
  destruct (add_w _ _ _); simpl; [apply IH|done].
Qed.

End facts.

#[export] Hint Resolve taken_update taken_release taken_next : arith.

(** ** Properties *)

Section properties.
Context `{BuildProfile}.

(** C18: while nonces stay below [2^64] an assignment terminates and hands out
    the least nonce that is neither below the confirmed one nor in flight,
    and reserves exactly that nonce. *)
Theorem get_next_available_nonce_least s :
  nonce_ok s -> room s ->
  exists n, get_next_available_nonce s =
      Val (n, {| current := current s; in_flight := {[n]} ∪ in_flight s |}) /\
    ~ taken s n /\ (forall k, ~ taken s k -> n <= k).
Proof.
  intros [Hc _] Hroom.
  destruct (get_next_spec s) as (n & Hn & Hfree & [Hge _] & Hall); [word|done|].
  exists n. split; [done|]. unfold taken. split; [intros [?|?]; [lia|done]|].
  intros k Hk. destruct (decide (n <= k)); [done|].
  exfalso. apply Hk. destruct (decide (k < current s)); [by left|].
  right. apply Hall. lia.
Qed.

(** Releasing the nonce just assigned restores the state, so the next
    assignment hands out the same nonce again. *)
Theorem release_restores s n s' :
  nonce_ok s -> room s -> get_next_available_nonce s = Val (n, s') ->
  mark_nonce_available n s' = s /\
  get_next_available_nonce (mark_nonce_available n s') = Val (n, s').
Proof.
  intros Hok Hroom Hn. destruct (Hok) as [Hc _].
  destruct (get_next_spec s) as (n' & Hn' & Hfree & _); [word|done|].
  assert (mark_nonce_available n s' = s) as Hs; [|by rewrite Hs].
  rewrite Hn' in Hn. simplify_eq. destruct s as [c fl]. unfold mark_nonce_available.
  simpl in *. f_equal. apply set_eq. set_solver.
Qed.

(** Invariant: every operation keeps the state well formed: the in-flight nonces
    are u64 values at or above the confirmed one. *)
Theorem nonce_ok_preserved s :
  nonce_ok s -> room s ->
  (forall n s', get_next_available_nonce s = Val (n, s') -> nonce_ok s') /\
  (forall n, nonce_ok (mark_nonce_available n s)) /\
  (forall n, in_range u64 n -> nonce_ok (update_current_nonce n s)).
Proof.
  intros [Hc Hf] Hroom. split; [|split].
  - intros n s' Hn. destruct (get_next_spec s) as (n' & Hn' & _ & Hb & _); [word|done|].
    unfold room in Hroom. rewrite Hn' in Hn. simplify_eq.
    split; simpl; [done|]. intros x. rewrite elem_of_union, elem_of_singleton.
    intros [->|?]; [split; [lia|word]|by apply Hf].
  - intros n. split; simpl; [done|]. intros x [? _]%elem_of_difference. by apply Hf.
  - intros n Hn. split; [rewrite current_update; word|].
    intros x. rewrite elem_of_update, current_update. intros [Hx Hge].
    destruct (Hf x Hx). split; [lia|done].
Qed.

(** A handler for the manager alone: the lock, and a chain that answers the
    nonce of the account. *)
Definition nonce_alone (answer : result Z ChainErr) (X : Type) (e : NonceE X) (s : NonceState)
    : run (X * NonceState) :=
  match e with
  | Locked e => nonce_handle X e s
  | NonceRpc e =>
      match e in ChainE X return run (X * NonceState) with
      | GetAccountNonce _ => Val (answer, s)
      | _ => Panic Todo
      end
  end.

(** C19: the confirmed nonce never goes back, an older value changes nothing,
    and an update prunes exactly the in-flight nonces below the new value; a
    sync applies the answer of the chain this way, and a failed request
    leaves the state as it is. *)
Theorem update_prunes s new address e :
  nonce_ok s ->
  current (update_current_nonce new s) = Z.max (current s) new /\
  (new <= current s -> update_current_nonce new s = s) /\
  (forall n, n ∈ in_flight (update_current_nonce new s) <->
     n ∈ in_flight s /\ Z.max (current s) new <= n) /\
  run_alone (nonce_alone (Ok new)) (sync_nonce address) s =
    (Val (Ok tt), update_current_nonce new s) /\
  run_alone (nonce_alone (Err e)) (sync_nonce address) s = (Val (Err (ChainError e)), s).
Proof.
  intros [_ Hf]. split; [apply current_update|].
  split. { intros. unfold update_current_nonce. by destruct (Z.gtb_spec new (current s)); [lia|]. }
  split; [|done]. intros n. rewrite elem_of_update.
  split; [|intuition lia]. intros [Hn ?]. destruct (Hf _ Hn). intuition lia.
Qed.

End properties.

Section witnesses.
#[local] Instance ci_profile : BuildProfile := true.

Definition gap_state : NonceState := {| current := 5; in_flight := {[5; 6; 8]} |}.

Lemma gap_state_ok : nonce_ok gap_state.
Proof.
  split; [by vm_compute|]. intros n. unfold gap_state. simpl.
  rewrite !elem_of_union, !elem_of_singleton. intros Hn. split; [lia|word].
Qed.

Lemma gap_state_room : room gap_state.
Proof. vm_compute. reflexivity. Qed.

Example gap_next : fst <$> get_next_available_nonce gap_state = Val 7.
Proof. vm_compute. reflexivity. Qed.

Lemma get_next_available_nonce_least_witness :
  exists n, get_next_available_nonce gap_state =
    Val (n, {| current := 5; in_flight := {[n]} ∪ in_flight gap_state |}) /\ ~ taken gap_state n.
Proof.
  destruct (get_next_available_nonce_least gap_state gap_state_ok gap_state_room)
    as (n & ? & ? & _). by exists n.
Defined.

Lemma release_restores_witness :
  mark_nonce_available 7 {| current := 5; in_flight := {[7]} ∪ {[5; 6; 8]} |} = gap_state.
Proof.
  destruct (release_restores gap_state 7 {| current := 5; in_flight := {[7]} ∪ {[5; 6; 8]} |}
    gap_state_ok gap_state_room) as [H _]; [vm_compute; reflexivity|exact H].
Defined.

Lemma nonce_ok_preserved_witness : nonce_ok (update_current_nonce 7 gap_state).
Proof.
  destruct (nonce_ok_preserved gap_state gap_state_ok gap_state_room) as (_ & _ & H).
  apply H. by vm_compute.
Defined.

Lemma update_prunes_witness :
  current (update_current_nonce 7 gap_state) = 7 /\
  (8 ∈ in_flight (update_current_nonce 7 gap_state) <->
   8 ∈ in_flight gap_state /\ Z.max 5 7 <= 8).
Proof.
  destruct (update_prunes gap_state 7 0 (Subscription EmptyString) gap_state_ok) as (H1 & _ & H2 & _).
  split; [exact H1|exact (H2 8)].
Defined.
End witnesses.
