(* ===== verification/GasPrice.v ===== *)
(** * Congestion detection and fee scaling ([crates/bulkmail/src/gas_price.rs])

    [GasPriceManager] guards a window of confirmation times and a running
    priority fee by one mutex each.  [GasE] has one event per critical
    section; the methods are programs over these events, with the critical
    sections in the order of the code. *)

From S2P Require Import Prelude Float64 Prog Message.

(** ** Constants: wei, and nanoseconds for a [Duration] *)

Definition MAX_PRIORITY_FEE : Z := 100000000000.
Definition INITIAL_PRIORITY_FEE : Z := 1000000000.
Definition INITIAL_BASE_FEE : Z := 2000000000.
Definition CONFIRMATION_TIME_WINDOW : nat := 10.
Definition from_secs (s : Z) : Z := s * 1000000000.
Definition CONGESTION_THRESHOLD_LOW : Z := from_secs 15.
Definition CONGESTION_THRESHOLD_MEDIUM : Z := from_secs 60.

(** A [Duration] is its number of nanoseconds, below [2^64] seconds. *)
Definition duration_bound : Z := 2 ^ 64 * 1000000000.

(** ** Data *)

Inductive CongestionLevel := Low | Medium | High.

#[export] Instance CongestionLevel_eq_dec : EqDecision CongestionLevel.
Proof. solve_decision. Defined.

(** [From<CongestionLevel> for u128] *)
Definition congestion_factor (level : CongestionLevel) : Z :=
  match level with Low => 1 | Medium => 2 | High => 3 end.

Record GasPriceManager := MkGas {
  confirmation_times : list Z;   (* front of the deque first *)
  priority_fee : Z;              (* u128 *)
}.

Definition GasPriceManager_new : GasPriceManager :=
  {| confirmation_times := []; priority_fee := INITIAL_PRIORITY_FEE |}.
Definition GasPriceManager_default : GasPriceManager := GasPriceManager_new.

(** ** The critical sections *)

Inductive GasE : Type -> Type :=
  | ReadPriorityFee : GasE Z
  | ReadConfirmationTimes : GasE (list Z)
  | PushConfirmationTime (d : Z) : GasE unit
  | BlendPriorityFee (used : Z) : GasE unit.

Section operations.
Context `{BuildProfile}.

(** [percent(x, y)]: [((x as f64 / y as f64) * 100.0) as u128] *)
Definition percent (x y : Z) : Z :=
  f64_to_uint u128 (f64_mul (f64_div (f64_of_Z x) (f64_of_Z y)) f64_hundred).

(** [Iterator::sum] of durations panics when the total does not fit. *)
Definition duration_sum (ds : list Z) : run Z :=
  let total := foldr Z.add 0 ds in
  if total <? duration_bound then Val total else Panic Overflow.

(** The body of [analyze_network_congestion] under its lock. *)
Definition congestion_of (confirmation_times : list Z) : run CongestionLevel :=
  match confirmation_times with
  | [] => Val Medium
  | _ =>
      total ← duration_sum confirmation_times;
      let avg_time := total / cast_w u32 (Z.of_nat (length confirmation_times)) in
      Val (if avg_time <? CONGESTION_THRESHOLD_LOW then Low
           else if avg_time <? CONGESTION_THRESHOLD_MEDIUM then Medium
           else High)
  end.

Definition analyze_network_congestion : Prog GasE CongestionLevel :=
  confirmation_times ← trigger ReadConfirmationTimes;
  lift (congestion_of confirmation_times).

(** The arithmetic of [calculate_priority_fee] on what the locks gave. *)
Definition scale_priority_fee (base_priority_fee : Z) (congestion : CongestionLevel)
    (priority : Z) : run Z :=
  let congestion_multiplier := congestion_factor congestion in
  priority_multiplier ← add_w u128 100 (percent (Z.min priority MAX_PRIORITY) MAX_PRIORITY);
  fee ← mul_w u128 base_priority_fee congestion_multiplier;
  fee ← mul_w u128 fee priority_multiplier;
  Val (Z.min (fee / 100) MAX_PRIORITY_FEE).

Definition calculate_priority_fee (priority : Z) : Prog GasE Z :=
  base_priority_fee ← trigger ReadPriorityFee;
  congestion ← analyze_network_congestion;
  lift (scale_priority_fee base_priority_fee congestion priority).

Definition gas_get_base_fee : Prog GasE Z := Ret INITIAL_BASE_FEE.

Definition get_gas_price {Er} (priority : Z) : Prog GasE (result (Z * Z) Er) :=
  base_fee ← gas_get_base_fee;
  priority_fee ← calculate_priority_fee priority;
  Ret (Ok (base_fee, priority_fee)).

Definition gas_update_on_confirmation (confirmation_time used_priority_fee : Z)
    : Prog GasE unit :=
  trigger (PushConfirmationTime confirmation_time);;
  trigger (BlendPriorityFee used_priority_fee).

(** What the two writing critical sections do. *)
Definition push_confirmation_time (d : Z) (times : list Z) : list Z :=
  let times := times ++ [d] in
  if (CONFIRMATION_TIME_WINDOW <? length times)%nat then tail times else times.

Definition blend_priority_fee (used fee : Z) : run Z :=
  total ← add_w u128 fee used;
  Val (total / 2).

Definition gas_handle (X : Type) (e : GasE X) (s : GasPriceManager)
    : run (X * GasPriceManager) :=
  match e in GasE X return run (X * GasPriceManager) with
  | ReadPriorityFee => Val (priority_fee s, s)
  | ReadConfirmationTimes => Val (confirmation_times s, s)
  | PushConfirmationTime d =>
      Val (tt, {| confirmation_times := push_confirmation_time d (confirmation_times s);
                  priority_fee := priority_fee s |})
  | BlendPriorityFee used =>
      fee ← blend_priority_fee used (priority_fee s);
      Val (tt, {| confirmation_times := confirmation_times s; priority_fee := fee |})
  end.

End operations.

(** ** Specification *)

(** The percentage that [percent(x, MAX_PRIORITY)] gives: the product of the
    rounded quotient falls just below the integer for three inputs. *)
Definition percent_of (x : Z) : Z :=
  if bool_decide (x ∈ [29; 57; 58]) then x - 1 else x.

(** The fee before the cap. *)
Definition scaled_fee (base : Z) (congestion : CongestionLevel) (priority : Z) : Z :=
  base * congestion_factor congestion * (100 + percent_of (Z.min priority MAX_PRIORITY)) / 100.

(** The last [CONFIRMATION_TIME_WINDOW] samples. *)
Definition window (samples : list Z) : list Z :=
  drop (length samples - CONFIRMATION_TIME_WINDOW) samples.

(** A fee the system pays is at most the cap bumped by 20% twice. *)
Definition MAX_USED_FEE : Z := 144000000000.
(** A latency of the model: below [2^60] seconds. *)
Definition latency_bound : Z := 2 ^ 60 * 1000000000.

Record gas_ok (s : GasPriceManager) : Prop := {
  gas_window : (length (confirmation_times s) <= CONFIRMATION_TIME_WINDOW)%nat;
  gas_times : forall d, d ∈ confirmation_times s -> 0 <= d < latency_bound;
  gas_fee : 0 <= priority_fee s <= MAX_USED_FEE;
}.

(** ** Lemmas *)

Section facts.
Context `{BuildProfile}.

Definition percents : list Z := seqZ 0 101.

Lemma percent_all : forallb (fun x => percent x MAX_PRIORITY =? percent_of x) percents = true.
Proof. vm_compute. reflexivity. Qed.

Lemma percent_of_range x : 0 <= x <= 100 -> 0 <= percent_of x <= x /\ x - 1 <= percent_of x.
Proof.
  intros Hx. unfold percent_of. case_bool_decide as Hin; [|lia].
  rewrite !elem_of_cons in Hin. destruct Hin as [?|[?|[?|?%elem_of_nil]]]; lia.
Qed.

Lemma percent_of_mono x y : 0 <= x <= y -> y <= 100 -> percent_of x <= percent_of y.
Proof.
  intros Hx Hy. destruct (decide (x = y)) as [->|]; [lia|].
  pose proof (percent_of_range x). pose proof (percent_of_range y). lia.
Qed.

Lemma percent_spec x : 0 <= x <= 100 -> percent x MAX_PRIORITY = percent_of x.
Proof.
  intros Hx. apply Z.eqb_eq. pose proof percent_all as Hall.
  rewrite forallb_forall in Hall. apply Hall. apply list_elem_of_In.
  unfold percents. apply elem_of_seqZ. lia.
Qed.

Lemma congestion_factor_range c : 1 <= congestion_factor c <= 3.
Proof. destruct c; simpl; lia. Qed.

Lemma scale_priority_fee_eq base congestion priority :
  0 <= base < 2 ^ 118 -> 0 <= priority ->
  scale_priority_fee base congestion priority =
    Val (Z.min (scaled_fee base congestion priority) MAX_PRIORITY_FEE).
Proof.
  intros Hb Hp. unfold scale_priority_fee, scaled_fee.
  change (2 ^ 118) with 332306998946228968225951765070086144 in Hb.
  assert (0 <= Z.min priority MAX_PRIORITY <= 100) as Hmin by (unfold MAX_PRIORITY; lia).
  rewrite percent_spec by done. pose proof (percent_of_range _ Hmin).
  pose proof (congestion_factor_range congestion).
  rewrite add_w_ok by word. simpl.
  rewrite mul_w_ok by (pow_consts; unfold in_range; pow_consts; nia). simpl.
  rewrite mul_w_ok by (unfold in_range; pow_consts; nia). done.
Qed.

Lemma duration_sum_bound ds :
  (forall d, d ∈ ds -> 0 <= d < latency_bound) ->
  0 <= foldr Z.add 0 ds <= Z.of_nat (length ds) * latency_bound.
Proof.
  induction ds as [|d ds IH]; intros Hd; simpl; [done|].
  assert (0 <= d < latency_bound) by (apply Hd; left).
  assert (forall d, d ∈ ds -> 0 <= d < latency_bound) as Hds by (intros; apply Hd; by right).
  specialize (IH Hds). lia.
Qed.

Lemma congestion_of_ok s : gas_ok s -> exists c, congestion_of (confirmation_times s) = Val c.
Proof.
  intros [Hw Ht _]. unfold congestion_of. destruct (confirmation_times s) as [|d ds]; [eauto|].
  pose proof (duration_sum_bound _ Ht) as Hsum. unfold duration_sum.
  destruct (Z.ltb_spec (foldr Z.add 0 (d :: ds)) duration_bound) as [|Hge]; [simpl; eauto|].
  unfold CONFIRMATION_TIME_WINDOW, duration_bound, latency_bound in *.
  assert (Z.of_nat (length (d :: ds)) <= 10) by lia.
  change (2 ^ 64) with (16 * 2 ^ 60) in Hge. lia.
Qed.

Lemma push_window samples d :
  push_confirmation_time d (window samples) = window (samples ++ [d]).
Proof.
  unfold push_confirmation_time, window, CONFIRMATION_TIME_WINDOW.
  rewrite !length_app, length_drop. simpl.
  destruct (decide (length samples < 10)%nat) as [Hlt|Hge].
  - replace (length samples - 10)%nat with 0%nat by lia.
    replace (length samples + 1 - 10)%nat with 0%nat by lia. rewrite !drop_0.
    destruct (Nat.ltb_spec 10 (length samples - 0 + 1)); [lia|done].
  - destruct (Nat.ltb_spec 10 (length samples - (length samples - 10) + 1)); [|lia].
    replace (length samples + 1 - 10)%nat with (S (length samples - 10)) by lia.
    rewrite <- drop_app_le by lia.
    assert (forall l : list Z, tail l = drop 1 l) as -> by (by intros []).
    rewrite drop_drop. f_equal. lia.
Qed.
Lemma push_length d times :
  (length times <= CONFIRMATION_TIME_WINDOW)%nat ->
  (length (push_confirmation_time d times) <= CONFIRMATION_TIME_WINDOW)%nat.
Proof.
  intros Hw. unfold push_confirmation_time. pose proof (length_app times [d]) as Hl.
  destruct (Nat.ltb_spec CONFIRMATION_TIME_WINDOW (length (times ++ [d]))); [|done].
  destruct (times ++ [d]); simpl in *; lia.
Qed.

Lemma push_confirmation_time_ok s d :
  gas_ok s -> 0 <= d < latency_bound ->
  gas_ok {| confirmation_times := push_confirmation_time d (confirmation_times s);
            priority_fee := priority_fee s |}.
Proof.
  intros [Hw Ht Hf] Hd. split; simpl; [by apply push_length| |done].
  intros x Hx. assert (x ∈ confirmation_times s ++ [d]) as Hin.
  { unfold push_confirmation_time in Hx. case_match; [|done].
    by destruct (confirmation_times s ++ [d]); [|apply list_elem_of_further]. }
  apply elem_of_app in Hin as [?|Hin]; [by auto|].
  apply list_elem_of_singleton in Hin as ->. done.
Qed.

Lemma blend_priority_fee_ok s used :
  gas_ok s -> 0 <= used <= MAX_USED_FEE ->
  blend_priority_fee used (priority_fee s) = Val ((priority_fee s + used) / 2) /\
  gas_ok {| confirmation_times := confirmation_times s;
            priority_fee := (priority_fee s + used) / 2 |}.
Proof.
  intros [Hw Ht Hf] Hu. unfold MAX_USED_FEE in *. unfold blend_priority_fee.
  rewrite add_w_ok by word. split; [done|].
  split; simpl; [done..|unfold MAX_USED_FEE; word].
Qed.
End facts.

(** ** Properties *)

Section properties.
Context `{BuildProfile}.

(** C22: the priority fee is the running fee times the congestion factor
    times 100% to 200% by message priority, rounded down and capped at
    [MAX_PRIORITY_FEE]; it never overflows for fees below [2^118], a
    priority above [MAX_PRIORITY] counts as [MAX_PRIORITY], and the fee is
    within the stated bounds. *)
Theorem calculate_priority_fee_spec s priority :
  gas_ok s -> 0 <= priority ->
  exists congestion fee,
    congestion_of (confirmation_times s) = Val congestion /\
    run_alone gas_handle (calculate_priority_fee priority) s = (Val fee, s) /\
    fee = Z.min (scaled_fee (priority_fee s) congestion priority) MAX_PRIORITY_FEE /\
    Z.min (priority_fee s) MAX_PRIORITY_FEE <= fee <= MAX_PRIORITY_FEE /\
    fee <= 6 * priority_fee s.
Proof.
  intros Hok Hp. destruct (congestion_of_ok s Hok) as [c Hc].
  destruct Hok as [_ _ Hfee]. exists c. eexists.
  split; [done|]. split.
  { unfold calculate_priority_fee, analyze_network_congestion. simpl. rewrite Hc. simpl.
    rewrite scale_priority_fee_eq; [done| |done].
    unfold MAX_USED_FEE in Hfee. pow_consts. split; [lia|].
    apply Z.le_lt_trans with 144000000000; [lia|reflexivity]. }
  split; [done|].
  assert (0 <= Z.min priority MAX_PRIORITY <= 100) as Hmin by (unfold MAX_PRIORITY; lia).
  pose proof (percent_of_range _ Hmin). pose proof (congestion_factor_range c).
  unfold scaled_fee, MAX_PRIORITY_FEE in *.
  set (k := congestion_factor c * (100 + percent_of (Z.min priority MAX_PRIORITY))).
  assert (100 <= k <= 600) by (subst k; nia).
  replace (priority_fee s * congestion_factor c * (100 + percent_of (Z.min priority MAX_PRIORITY)))
    with (priority_fee s * k) by (subst k; lia).
  assert (priority_fee s <= priority_fee s * k / 100) by (apply Z.div_le_lower_bound; nia).
  assert (priority_fee s * k / 100 <= 6 * priority_fee s) by (apply Z.div_le_upper_bound; nia).
  lia.
Qed.

(** [percent] gives the percentage of the priority except for 29, 57 and
    58, where the binary64 product falls below the integer and the cast
    truncates it to one percent less; it is still monotone. *)
Theorem percent_truncates x :
  0 <= x <= MAX_PRIORITY ->
  percent x MAX_PRIORITY = (if bool_decide (x ∈ [29; 57; 58]) then x - 1 else x) /\
  (forall y, x <= y <= MAX_PRIORITY -> percent x MAX_PRIORITY <= percent y MAX_PRIORITY).
Proof.
  unfold MAX_PRIORITY at 1. intros Hx. split; [by apply percent_spec|].
  unfold MAX_PRIORITY at 1. intros y Hy. rewrite !percent_spec by lia.
  apply percent_of_mono; lia.
Qed.

(** After any sequence of confirmations the window holds the latencies
    of the last ten, oldest first. *)
Theorem confirmation_window_last samples :
  foldl (fun times d => push_confirmation_time d times) [] samples = window samples /\
  (length (window samples) <= CONFIRMATION_TIME_WINDOW)%nat.
Proof.
  split; [|unfold window; rewrite length_drop; lia].
  induction samples as [|d samples IH] using rev_ind; [done|].
  by rewrite foldl_app, IH, <- push_window.
Qed.

(** A confirmation whose fee and latency are in bounds keeps the manager
    well formed without panic, and moves the running fee to the mean of the
    old one and the fee paid. *)
Theorem update_on_confirmation_ok s d used :
  gas_ok s -> 0 <= d < latency_bound -> 0 <= used <= MAX_USED_FEE ->
  exists s', run_alone gas_handle (gas_update_on_confirmation d used) s = (Val tt, s') /\
    gas_ok s' /\ priority_fee s' = (priority_fee s + used) / 2 /\
    confirmation_times s' = push_confirmation_time d (confirmation_times s) /\
    Z.min (priority_fee s) used <= priority_fee s' <= Z.max (priority_fee s) used.
Proof.
  intros Hok Hd Hu. pose proof (push_confirmation_time_ok s d Hok Hd) as Hok1.
  destruct (blend_priority_fee_ok _ used Hok1 Hu) as [Hb Hok2]. simpl in Hb, Hok2.
  unfold gas_update_on_confirmation. simpl. rewrite Hb. simpl.
  eexists. split; [done|]. split; [done|]. simpl. split; [done|]. split; [done|]. word.
Qed.

(** The level follows the thresholds on the total of the window: low
    below 15 seconds a sample on average, medium below 60, high from 60 on;
    with no sample it is medium. *)
Theorem congestion_thresholds s :
  gas_ok s ->
  let total := foldr Z.add 0 (confirmation_times s) in
  let n := Z.of_nat (length (confirmation_times s)) in
  congestion_of (confirmation_times s) = Val (
    if decide (n = 0) then Medium
    else if decide (total < n * from_secs 15) then Low
    else if decide (total < n * from_secs 60) then Medium
    else High).
Proof.
  intros Hok total n. destruct (congestion_of_ok s Hok) as [c Hc].
  destruct Hok as [Hw _ _]. revert Hc. unfold congestion_of.
  assert (0 < n < 2 ^ 32 \/ n = 0) as Hn by (unfold CONFIRMATION_TIME_WINDOW in *; word).
  fold n. destruct (confirmation_times s) as [|d ds] eqn:Es; [done|].
  rewrite decide_False by (subst n; simpl; lia). intros Hc.
  unfold duration_sum in *. fold total in Hc |- *.
  destruct (total <? duration_bound); simpl in *; [|done].
  rewrite cast_w_small by (subst n; simpl in *; word).
  assert (forall t, (total / n <? t) = bool_decide (total < n * t)) as Hlt.
  { intros t. apply Bool.eq_iff_eq_true. rewrite Z.ltb_lt, bool_decide_eq_true.
    assert (0 < n) by (subst n; simpl; lia).
    split; intros; [|by apply Z.div_lt_upper_bound].
    pose proof (Z.mod_pos_bound total n). pose proof (Z.div_mod total n). nia. }
  unfold CONGESTION_THRESHOLD_LOW, CONGESTION_THRESHOLD_MEDIUM. rewrite !Hlt.
  f_equal. repeat case_bool_decide; repeat case_decide; done.
Qed.

End properties.

Section witnesses.
#[local] Instance dev_profile : BuildProfile := true.

Definition busy : GasPriceManager :=
  {| confirmation_times := [from_secs 30; from_secs 70]; priority_fee := 1000000000 |}.

Lemma busy_ok : gas_ok busy.
Proof.
  split; simpl.
  - unfold CONFIRMATION_TIME_WINDOW. lia.
  - intros d Hd. apply elem_of_cons in Hd as [->|Hd]; [by vm_compute|].
    apply list_elem_of_singleton in Hd as ->. by vm_compute.
  - by vm_compute.
Qed.

(** The fees of the repository's tests: 2 Gwei at priority 0 with no sample. *)
Example initial_gas_price :
  fst (run_alone gas_handle (get_gas_price (Er := unit) 0) GasPriceManager_new) =
    Val (Ok (INITIAL_BASE_FEE, 2000000000)).
Proof. vm_compute. reflexivity. Qed.

Lemma calculate_priority_fee_spec_witness :
  exists fee, run_alone gas_handle (calculate_priority_fee 29) busy = (Val fee, busy) /\
    Z.min 1000000000 MAX_PRIORITY_FEE <= fee <= MAX_PRIORITY_FEE.
Proof.
  destruct (calculate_priority_fee_spec busy 29 busy_ok ltac:(lia)) as (c & fee & _ & H1 & _ & H2 & _).
  exists fee. split; [exact H1|exact H2].
Defined.

Lemma percent_truncates_witness :
  percent 29 MAX_PRIORITY = 28.
Proof.
  assert (0 <= 29 <= MAX_PRIORITY) as H by (unfold MAX_PRIORITY; lia).
  exact (proj1 (percent_truncates 29 H)).
Defined.

Lemma update_on_confirmation_ok_witness :
  exists s', run_alone gas_handle (gas_update_on_confirmation (from_secs 3) 2000000000) busy =
    (Val tt, s') /\ priority_fee s' = 1500000000.
Proof.
  destruct (update_on_confirmation_ok busy (from_secs 3) 2000000000 busy_ok)
    as (s' & H1 & _ & H2 & _); [by vm_compute..|].
  exists s'. split; [exact H1|exact H2].
Defined.

Lemma congestion_thresholds_witness : congestion_of (confirmation_times busy) = Val Medium.
Proof. exact (congestion_thresholds busy busy_ok). Defined.
End witnesses.
