(* ===== verification/Adapter.v ===== *)
(** * The adapter traits ([crates/bulkmail/src/adapter/mod.rs])

    One class per trait.  The shared objects behind the [Arc]s of the code
    (client, fee manager, replay protection) are part of the state that the
    events of [E] act on, so a method takes the arguments of the code without
    these references.  Async methods are programs; [bump_fee] is a plain
    function that may panic on overflow. *)

From stdpp Require Import strings.
From S2P Require Import Prelude Prog Message Errors.

(** ** Data *)

Class ChainAdapter := {
  FeeParams : Type;
  ReplayToken : Type;
  TxId : Type;
}.

Definition BlockNotification := Z.

Section data.
Context {A : ChainAdapter}.

Inductive SendOutcome :=
  | Confirmed (tx_id : TxId)
  | Dropped (tx_id : TxId)
  | Reverted (tx_id : TxId).

Inductive RetryDecision :=
  | Resubmit (fee : FeeParams) (replay_token : ReplayToken)
  | Requeue
  | Abandon.

Record PendingTransaction := MkPending {
  pd_msg : Message;
  pd_tx_id : TxId;
  pd_fee : FeeParams;
  pd_replay_token : ReplayToken;
  pd_created_at : Z;
  pd_replacement_count : Z;   (* u32 *)
}.

(** [Clone for PendingTransaction], field by field. *)
Definition pending_clone (self : PendingTransaction) : PendingTransaction :=
  {| pd_msg := pd_msg self; pd_tx_id := pd_tx_id self; pd_fee := pd_fee self;
     pd_replay_token := pd_replay_token self; pd_created_at := pd_created_at self;
     pd_replacement_count := pd_replacement_count self |}.

End data.

Inductive TransactionStatus :=
  | StatusPending
  | StatusConfirmed (number : Z)
  | StatusFinalized (number : Z)
  | StatusFailed (reason : string)
  | StatusExpired.

#[export] Instance TransactionStatus_eq_dec : EqDecision TransactionStatus.
Proof. solve_decision. Defined.

(** ** The traits *)

Class ChainClient (E : Type -> Type) {A : ChainAdapter} := {
  subscribe_new_blocks : Prog E (result unit Error);
  get_block_number : Prog E (result Z Error);
  send_transaction : Message -> FeeParams -> ReplayToken -> Prog E (result SendOutcome Error);
  get_transaction_status : TxId -> Prog E (result TransactionStatus Error);
}.

Class FeeManager (E : Type -> Type) {A : ChainAdapter} := {
  get_fee_params : Z -> Prog E (result FeeParams Error);
  update_on_confirmation : Z -> FeeParams -> Prog E unit;
  bump_fee : FeeParams -> run FeeParams;
  get_base_fee : Prog E FeeParams;
}.

Class ReplayProtection (E : Type -> Type) {A : ChainAdapter} := {
  next : Prog E ReplayToken;
  sync : Prog E (result unit Error);
  release : ReplayToken -> Prog E unit;
}.

(** The default body of [ReplayProtection::release]. *)
Definition release_default {E} {A : ChainAdapter} (_token : ReplayToken) : Prog E unit := Ret tt.

Class RetryStrategy (E : Type -> Type) {A : ChainAdapter} := {
  handle_dropped : PendingTransaction -> Prog E RetryDecision;
  handle_confirmed : PendingTransaction -> Z -> Prog E unit;
}.
