(* ===== verification/Sender.v ===== *)
(** * The orchestrator ([crates/bulkmail/src/sender.rs])

    The tasks of [Sender<A>] for any adapter [A]: [add_message],
    [process_message], [send_and_watch], and the task that
    [process_next_message] spawns.  Their theorems are proved against
    [AdapterContract], the promises an adapter makes to the sender; the
    run loop, the semaphore and the interleaving of tasks are in
    SenderSystem.v. *)

From stdpp Require Import strings.
From S2P Require Import Prelude Prog Errors Message Adapter.

Definition MAX_IN_FLIGHT_TRANSACTIONS : nat := 16.
Definition TX_FAILURE_INSUFFICIENT_FUNDS : Z := -32003.

(** The lines the sender logs at error level. *)
Inductive LogLine :=
  | LogInsufficientFunds
  | LogProcessingError (e : Error)
  | LogMaxRetries
  | LogAbandoning.

(** What a task uses besides the adapter: the wall clock ([SystemClock]), the
    monotonic clock ([Instant]), the shared queue, the [Notify] and the log. *)
Class SenderEvents (E : Type -> Type) := {
  now_ms : E Z;
  instant_now : E Z;
  elapsed : Z -> E Z;
  queue_push : Message -> Z -> E unit;
  notify_one : E unit;
  log_error : LogLine -> E unit;
}.

Section sender.
Context `{BuildProfile} {A : ChainAdapter} {E : Type -> Type} {SE : SenderEvents E}.
Context {client : ChainClient E} {fees : FeeManager E}.
Context {replay : ReplayProtection E} {retry : RetryStrategy E}.

Definition add_message (msg : Message) : Prog E unit :=
  now ← trigger now_ms;
  trigger (queue_push msg now);;
  trigger notify_one.

(** The loop of [send_and_watch]; [LOOP_FUEL] rounds are enough because every
    round that continues has counted one more retry. *)
Fixpoint send_and_watch_loop (fuel : nat) (msg : Message) (fee : FeeParams)
    (replay_token : ReplayToken) (replacement_count : Z) : Prog E (result unit Error) :=
  match fuel with
  | O => Crash Diverge
  | S fuel =>
      now ← trigger now_ms;
      expired ← lift (is_expired msg now);
      if expired : bool then
        release replay_token;;
        Ret (Err MessageExpired)
      else
        created_at ← trigger instant_now;
        outcome ← send_transaction msg fee replay_token;
        match outcome with
        | Err err =>
            release replay_token;;
            Ret (Err err)
        | Ok (Confirmed tx_id) =>
            let pending := {| pd_msg := msg; pd_tx_id := tx_id; pd_fee := fee;
              pd_replay_token := replay_token; pd_created_at := created_at;
              pd_replacement_count := replacement_count |} in
            confirmation_time ← trigger (elapsed (pd_created_at pending));
            handle_confirmed pending confirmation_time;;
            Ret (Ok tt)
        | Ok (Dropped tx_id) | Ok (Reverted tx_id) =>
            let pending := {| pd_msg := msg; pd_tx_id := tx_id; pd_fee := fee;
              pd_replay_token := replay_token; pd_created_at := created_at;
              pd_replacement_count := replacement_count |} in
            let '(again, msg) := increment_retry msg in
            if again then
              decision ← handle_dropped pending;
              match decision with
              | Resubmit new_fee new_replay =>
                  count ← lift (add_w u32 (pd_replacement_count pending) 1);
                  send_and_watch_loop fuel msg new_fee new_replay count
              | Requeue =>
                  release (pd_replay_token pending);;
                  add_message msg;;
                  Ret (Ok tt)
              | Abandon =>
                  release (pd_replay_token pending);;
                  trigger (log_error LogAbandoning);;
                  Ret (Ok tt)
              end
            else
              release (pd_replay_token pending);;
              trigger (log_error LogMaxRetries);;
              Ret (Ok tt)
        end
  end.

Definition LOOP_FUEL : nat := 4.

Definition send_and_watch (msg : Message) (fee : FeeParams) (replay_token : ReplayToken)
    (replacement_count : Z) : Prog E (result unit Error) :=
  send_and_watch_loop LOOP_FUEL msg fee replay_token replacement_count.

Definition process_message (msg : Message) : Prog E (result unit Error) :=
  now ← trigger now_ms;
  expired ← lift (is_expired msg now);
  if expired : bool then Ret (Err MessageExpired)
  else
    replay_token ← next;
    priority ← lift (effective_priority msg now);
    fee ← get_fee_params priority;
    match fee with
    | Err err =>
        release replay_token;;
        Ret (Err err)
    | Ok fee => send_and_watch msg fee replay_token 0
    end.

(** What the spawned task logs for an error of [process_message]. *)
Definition task_error_log (e : Error) : LogLine :=
  match e with
  | ChainError (Rpc (ErrorResp code _)) =>
      if code =? TX_FAILURE_INSUFFICIENT_FUNDS then LogInsufficientFunds
      else LogProcessingError e
  | _ => LogProcessingError e
  end.

(** The body of the task that [process_next_message] spawns; the permit it
    holds is released when it ends (SenderSystem.v). *)
Definition spawned_task (msg : Message) : Prog E unit :=
  r ← process_message msg;
  match r with
  | Ok _ => Ret tt
  | Err e => trigger (log_error (task_error_log e))
  end.

End sender.

(** ** The loop of [send_and_watch] ends

    [LOOP_FUEL] rounds are enough for any message and any adapter: a round that
    goes on has counted one more retry, and [can_retry] ends the third. *)

Lemma is_expired_ends `{BuildProfile} m now : ends_run (is_expired m now).
Proof. unfold is_expired. ends. Qed.

Lemma effective_priority_ends `{BuildProfile} m now : ends_run (effective_priority m now).
Proof. unfold effective_priority, deadline_factor. ends. Qed.
#[export] Hint Resolve is_expired_ends effective_priority_ends : ends.

(** The rounds a message may still take. *)
Definition rounds_left (m : Message) : nat := Z.to_nat (MAX_RETRIES + 1 - retry_count m).

Lemma increment_retry_rounds m m' :
  0 <= retry_count m -> increment_retry m = (true, m') ->
  0 <= retry_count m' /\ (0 < rounds_left m' < rounds_left m)%nat.
Proof.
  unfold increment_retry, can_retry, rounds_left, MAX_RETRIES. intros Hm [= Hlt <-].
  apply Z.ltb_lt in Hlt. revert Hlt. cbn [retry_count set_retry_count]. unfold saturating_add.
  change (max_w u32) with 4294967295. lia.
Qed.

Section ending.
Context `{BuildProfile} {A : ChainAdapter} {E : Type -> Type} {SE : SenderEvents E}.
Context {client : ChainClient E} {fees : FeeManager E}.
Context {replay : ReplayProtection E} {retry : RetryStrategy E}.

(** The methods of the adapter that the tasks call end. *)
Record adapter_ends : Prop := {
  next_ends : ends next;
  release_ends : forall t, ends (release t);
  fee_ends : forall priority, ends (get_fee_params priority);
  send_ends : forall m f t, ends (send_transaction m f t);
  dropped_ends : forall pd, ends (handle_dropped pd);
  confirmed_ends : forall pd d, ends (handle_confirmed pd d);
}.

Lemma add_message_ends m : ends (add_message m).
Proof. unfold add_message. ends. Qed.

Lemma loop_ends fuel m f t rc :
  adapter_ends -> 0 <= retry_count m -> (rounds_left m <= fuel)%nat -> (0 < fuel)%nat ->
  ends (send_and_watch_loop fuel m f t rc).
Proof.
  intros [Hn Hr Hf Hs Hd Hc]. pose proof add_message_ends.
  revert m f t rc. induction fuel as [|fuel IH]; intros m f t rc Hm Hfuel Hpos; [lia|].
  cbn [send_and_watch_loop]. ends.
  all: match goal with Hi : increment_retry _ = _ |- _ =>
    apply increment_retry_rounds in Hi as [Hm' Hlt]; [|done] end.
  all: apply IH; [done|lia..].
Qed.

Lemma process_message_ends m : adapter_ends -> 0 <= retry_count m -> ends (process_message m).
Proof.
  intros Ha Hm. pose proof Ha as [Hn Hr Hf _ _ _]. unfold process_message. ends.
  apply loop_ends; [done|done| |unfold LOOP_FUEL; lia].
  unfold rounds_left, LOOP_FUEL, MAX_RETRIES. lia.
Qed.

(** More fuel than the rounds that are left changes nothing. *)
Lemma loop_fuel fuel extra m f t rc :
  0 <= retry_count m -> (rounds_left m <= fuel)%nat -> (0 < fuel)%nat ->
  same_runs (send_and_watch_loop fuel m f t rc) (send_and_watch_loop (fuel + extra) m f t rc).
Proof.
  revert m f t rc. induction fuel as [|fuel IH]; intros m f t rc Hm Hfuel Hpos; [lia|].
  cbn [send_and_watch_loop Nat.add].
  apply same_runs_bind. intros now. apply same_runs_bind. intros [|]; [apply same_runs_refl|].
  apply same_runs_bind. intros created_at. apply same_runs_bind.
  intros [[tx_id|tx_id|tx_id]|err]; try apply same_runs_refl.
  all: destruct (increment_retry m) as [[|] m'] eqn:Hinc; [|apply same_runs_refl].
  all: apply increment_retry_rounds in Hinc as [Hm' Hlt]; [|done].
  all: apply same_runs_bind; intros [fee token| |]; try apply same_runs_refl.
  all: apply same_runs_bind; intros count; apply IH; [done|lia..].
Qed.

(** C9: the retry loop terminates: for any message, and any adapter whose own
    methods end, [process_message] and the task around it are programs that
    end on every sequence of answers; and the bound [LOOP_FUEL] on the rounds
    does not shape the behaviour: with any larger one the loop runs alike from
    every state, for every adapter. *)
Theorem send_and_watch_terminates m :
  0 <= retry_count m ->
  (adapter_ends -> ends (process_message m) /\ ends (spawned_task m)) /\
  (forall f t rc extra,
     same_runs (send_and_watch m f t rc) (send_and_watch_loop (LOOP_FUEL + extra) m f t rc)).
Proof.
  intros Hm. split.
  - intros Ha. pose proof (process_message_ends m Ha Hm). split; [done|]. unfold spawned_task. ends.
  - intros f t rc extra. apply loop_fuel; [done| |unfold LOOP_FUEL; lia].
    unfold rounds_left, LOOP_FUEL, MAX_RETRIES. lia.
Qed.

End ending.

(** ** The contract between the sender and an adapter

    The states of the protocol [P] are classified by what the task holds:
    nothing yet ([idle]), a replay token ([holding]), a token it has just been
    given ([fresh]), a token with the fee and the number of sends it may
    still make ([ready]), a token whose transaction was just sent ([sent]), or
    nothing any more, because it gave the token back ([spent]) or because its
    transaction was confirmed ([settled]).  The contract says which state
    each method needs and leaves for a task about the message [m0], which only
    its retry counter tells from the one it was given; [requeues] says whether
    the adapter ever asks for the message to be queued again. *)

Definition clock_ok (now : Z) : Prop := 0 <= now < 2 ^ 42.

Record message_sane (m : Message) : Prop := {
  sane_typed : Message_typed m;
  sane_created : created_at_ms m < 2 ^ 42;
  sane_priority : priority m <= MAX_PRIORITY;
  sane_retry : retry_count m <= MAX_RETRIES;
}.

(** The same message but for the retry counter. *)
Definition same_intent (m m' : Message) : Prop := exists n, m' = set_retry_count m n.

Lemma same_intent_refl m : same_intent m m.
Proof. exists (retry_count m). by destruct m. Qed.

Lemma same_intent_trans m1 m2 m3 : same_intent m1 m2 -> same_intent m2 m3 -> same_intent m1 m3.
Proof. intros [n ->] [n' ->]. by exists n'. Qed.

(** The sends a message may still cause. *)
Definition attempts_left (m : Message) : nat :=
  Z.to_nat (Z.max 1 (MAX_RETRIES - retry_count m)).

Section contract.
Context `{BuildProfile} {A : ChainAdapter} {E : Type -> Type} {SE : SenderEvents E}.
Context {client : ChainClient E} {fees : FeeManager E}.
Context {replay : ReplayProtection E} {retry : RetryStrategy E}.
Context {Q : Type}.

(** An event that is always allowed and leaves the state as it is. *)
Definition quiet (P : protocol E Q) {X} (e : E X) (good : X -> Prop) : Prop :=
  forall q, may P e q /\ forall x, answers P e q x -> good x /\ next_state P e q x = q.

Class AdapterContract (P : protocol E Q) (m0 : Message) := {
  idle : Q -> Prop;
  spent : Q -> Prop;
  settled : Q -> Prop;
  holding : ReplayToken -> Q -> Prop;
  fresh : ReplayToken -> Q -> Prop;
  ready : nat -> Message -> FeeParams -> ReplayToken -> Q -> Prop;
  sent : nat -> PendingTransaction -> Q -> Prop;
  latency_ok : Z -> Prop;
  requeues : Prop;
  fresh_holding : forall t q, fresh t q -> holding t q;
  ready_holding : forall k m f t q, ready k m f t q -> holding t q;
  sent_holding : forall k pd q, sent k pd q -> holding (pd_replay_token pd) q;
  now_quiet : quiet P now_ms clock_ok;
  instant_quiet : quiet P instant_now (fun _ => True);
  elapsed_quiet : forall t, quiet P (elapsed t) latency_ok;
  log_quiet : forall l, quiet P (log_error l) (fun _ => True);
  announce_ok : forall m now q, requeues -> same_intent m0 m -> message_sane m ->
    clock_ok now -> spent q ->
    wp P (trigger (queue_push m now);; trigger notify_one) q (fun _ q' => spent q');
  next_ok : forall q, idle q -> wp P next q fresh;
  release_ok : forall t q, holding t q -> wp P (release t) q (fun _ q' => spent q');
  fee_ok : forall t q priority, fresh t q -> 0 <= priority ->
    wp P (get_fee_params priority) q (fun r q' =>
      match r with
      | Ok f => forall k, (k <= Z.to_nat MAX_RETRIES)%nat -> ready k m0 f t q'
      | Err _ => holding t q'
      end);
  send_ok : forall k m f t q, same_intent m0 m -> message_sane m -> ready (S k) m f t q ->
    wp P (send_transaction m f t) q (fun r q' =>
      match r with
      | Ok _ => forall pd, pd_msg pd = m -> pd_fee pd = f -> pd_replay_token pd = t -> sent k pd q'
      | Err _ => holding t q'
      end);
  confirmed_ok : forall k pd d q, sent k pd q -> latency_ok d ->
    wp P (handle_confirmed pd d) q (fun _ q' => settled q');
  dropped_ok : forall k pd q, same_intent m0 (pd_msg pd) -> sent (S k) pd q ->
    0 <= retry_count (pd_msg pd) < MAX_RETRIES - 1 ->
    0 <= pd_replacement_count pd <= retry_count (pd_msg pd) ->
    wp P (handle_dropped pd) q (fun decision q' =>
      match decision with
      | Resubmit f t => forall m, same_intent (pd_msg pd) m -> ready (S k) m f t q'
      | Requeue => requeues /\ holding (pd_replay_token pd) q'
      | Abandon => holding (pd_replay_token pd) q'
      end);
}.

(** ** The sender against the contract *)

Context (P : protocol E Q) {m0 : Message} {HC : AdapterContract P m0}.

Lemma wp_quiet {X B} (e : E X) good (f : X -> Prog E B) q Φ :
  quiet P e good -> (forall x, good x -> wp P (f x) q Φ) ->
  wp P (prog_bind (trigger e) f) q Φ.
Proof.
  intros Hq Hf. destruct (Hq q) as [Hm Ha]. simpl. split; [done|].
  intros x Hx. destruct (Ha x Hx) as [Hg ->]. auto.
Qed.

(** The deadline of a sane message fits in a [u64]. *)
Lemma sane_deadline m : message_sane m -> deadline_fits m.
Proof.
  intros [Ht Hc _ _] d Hd. assert (Hr := typed_deadline _ Ht _ Hd).
  destruct (typed_created _ Ht). change (2 ^ 42) with 4398046511104 in Hc. word.
Qed.

Lemma sane_expired m now : message_sane m -> clock_ok now -> exists b, is_expired m now = Val b.
Proof. intros Hm _. rewrite is_expired_eq by by apply sane_deadline. eauto. Qed.

Lemma sane_priority_value m now :
  message_sane m -> clock_ok now -> exists p, effective_priority m now = Val p /\ 0 <= p.
Proof.
  intros [Ht Hc Hp Hr] Hn. destruct (effective_priority_fits m now) as (p & ? & ? & _); eauto.
Qed.

Lemma increment_sane m :
  message_sane m -> retry_count m < MAX_RETRIES ->
  exists m', increment_retry m = (bool_decide (retry_count m + 1 < MAX_RETRIES), m') /\
    same_intent m m' /\ message_sane m' /\ retry_count m' = retry_count m + 1.
Proof.
  intros [[Hg Hp Hd Hc Hr] Hc' Hp' Hr'] Hlt. unfold MAX_RETRIES in *. unfold increment_retry.
  assert (saturating_add u32 (retry_count m) 1 = retry_count m + 1) as -> by word.
  eexists. split; [|split; [by eexists|split]].
  - f_equal. unfold can_retry, MAX_RETRIES. simpl. apply Bool.eq_iff_eq_true.
    rewrite bool_decide_eq_true. lia.
  - split; simpl; [split; simpl; auto; word|auto|auto|unfold MAX_RETRIES; lia].
  - done.
Qed.

(** A message whose counter is exhausted stays so. *)
Lemma increment_exhausted m :
  message_sane m -> MAX_RETRIES <= retry_count m + 1 -> (increment_retry m).1 = false.
Proof.
  intros [[_ _ _ _ Hr] _ _ _] Hge. unfold increment_retry, can_retry. simpl.
  apply Z.ltb_ge. unfold MAX_RETRIES in *. word.
Qed.

Lemma wp_add_message m q :
  requeues -> same_intent m0 m -> message_sane m -> spent q ->
  wp P (add_message m) q (fun _ q' => spent q').
Proof.
  intros Hre Hs Hm Hi. unfold add_message. eapply wp_quiet; [apply now_quiet|]. intros now Hnow.
  by apply announce_ok.
Qed.

(** Releasing the token and ending with [r]. *)
Lemma wp_release_then {B} t (r : Prog E B) q Φ :
  holding t q -> (forall q', spent q' -> wp P r q' Φ) ->
  wp P (prog_bind (release t) (fun _ => r)) q Φ.
Proof. intros Hh Hr. eapply wp_bind_mono; [by apply release_ok|]. intros [] q' ?. auto. Qed.

Lemma wp_log l (Φ : result unit Error -> Q -> Prop) q :
  Φ (Ok tt) q -> wp P (prog_bind (trigger (log_error l)) (fun _ => Ret (Ok tt))) q Φ.
Proof. intros HΦ. eapply wp_quiet; [apply log_quiet|]. auto. Qed.

(** How a task ends: with an error it never held a token or gave it back;
    otherwise it gave the token back or its transaction was confirmed. *)
Definition task_post (r : result unit Error) (q : Q) : Prop :=
  match r with
  | Err _ => idle q \/ spent q
  | Ok _ => spent q \/ settled q
  end.

(** The arm of [Dropped] and [Reverted], for any continuation of the loop. *)
Lemma dropped_arm_ok k pd (loop : Message -> FeeParams -> ReplayToken -> Z ->
    Prog E (result unit Error)) q :
  same_intent m0 (pd_msg pd) -> message_sane (pd_msg pd) ->
  S k = attempts_left (pd_msg pd) -> sent k pd q ->
  0 <= pd_replacement_count pd <= retry_count (pd_msg pd) ->
  (forall m f t rc q', same_intent m0 m -> message_sane m -> k = attempts_left m -> ready k m f t q' ->
     0 <= rc <= retry_count m -> wp P (loop m f t rc) q' task_post) ->
  wp P (let '(again, msg) := increment_retry (pd_msg pd) in
    if again : bool then
      decision ← handle_dropped pd;
      match decision with
      | Resubmit new_fee new_replay =>
          count ← lift (add_w u32 (pd_replacement_count pd) 1);
          loop msg new_fee new_replay count
      | Requeue => release (pd_replay_token pd);; add_message msg;; Ret (Ok tt)
      | Abandon =>
          release (pd_replay_token pd);; trigger (log_error LogAbandoning);; Ret (Ok tt)
      end
    else release (pd_replay_token pd);; trigger (log_error LogMaxRetries);; Ret (Ok tt))
    q task_post.
Proof.
  intros H0 Hm Hk Hs Hrc Hloop.
  destruct (decide (retry_count (pd_msg pd) + 1 < MAX_RETRIES)) as [Hlt|Hge].
  - destruct (increment_sane (pd_msg pd)) as (m' & -> & Hsame & Hm' & Hr'); [done|lia|].
    rewrite bool_decide_eq_true_2 by done. destruct (typed_retry _ (sane_typed _ Hm)) as [Hr0 _].
    assert (k = attempts_left m') as Hk'.
    { unfold attempts_left, MAX_RETRIES in *. rewrite Hr'. lia. }
    destruct k as [|k]; [unfold attempts_left, MAX_RETRIES in *; lia|].
    assert (same_intent m0 m') as H0' by by eapply same_intent_trans.
    eapply wp_bind_mono; [apply dropped_ok; [done|done|lia|done]|].
    intros [f t| |] q' Hd.
    + rewrite add_w_ok by (unfold MAX_RETRIES in *; word). apply wp_bind_val, Hloop; auto. lia.
    + destruct Hd as [Hre Hd]. apply wp_release_then; [done|]. intros q'' Hi.
      eapply wp_bind_mono; [by apply wp_add_message|]. intros [] q3 ?. by left.
    + apply wp_release_then; [done|]. intros q'' Hi. apply wp_log. by left.
  - pose proof (increment_exhausted (pd_msg pd) Hm) as Hex.
    destruct (increment_retry (pd_msg pd)) as [again m']. simpl in Hex.
    rewrite Hex by lia. apply wp_release_then; [by eapply sent_holding|].
    intros q'' Hi. apply wp_log. by left.
Qed.

Lemma loop_ok fuel k m f t rc q :
  same_intent m0 m -> message_sane m -> k = attempts_left m -> (k <= fuel)%nat -> ready k m f t q ->
  0 <= rc <= retry_count m ->
  wp P (send_and_watch_loop fuel m f t rc) q task_post.
Proof.
  revert k m f t rc q. induction fuel as [|fuel IH]; intros k m f t rc q H0 Hm Hk Hf Hr Hrc.
  { unfold attempts_left in Hk. lia. }
  cbn [send_and_watch_loop].
  eapply wp_quiet; [apply now_quiet|]. intros now Hnow.
  destruct (sane_expired m now Hm Hnow) as [[|] ->]; apply wp_bind_val.
  { apply wp_release_then; [by eapply ready_holding|]. intros q' ?. by right. }
  eapply wp_quiet; [apply instant_quiet|]. intros created_at _.
  destruct k as [|k]; [unfold attempts_left in Hk; lia|].
  eapply wp_bind_mono; [by apply send_ok|].
  intros [outcome|err] q' Hs.
  2: { apply wp_release_then; [done|]. intros q'' ?. by right. }
  destruct outcome as [tx_id|tx_id|tx_id].
  - eapply wp_quiet; [apply elapsed_quiet|]. intros d Hd.
    eapply wp_bind_mono; [eapply confirmed_ok; [by apply Hs|done]|].
    intros [] q'' ?. by right.
  - refine (dropped_arm_ok k {| pd_msg := m; pd_tx_id := tx_id; pd_fee := f;
      pd_replay_token := t; pd_created_at := created_at; pd_replacement_count := rc |}
      (send_and_watch_loop fuel) q' H0 Hm Hk _ Hrc _); [by apply Hs|].
    intros. eapply IH; eauto. lia.
  - refine (dropped_arm_ok k {| pd_msg := m; pd_tx_id := tx_id; pd_fee := f;
      pd_replay_token := t; pd_created_at := created_at; pd_replacement_count := rc |}
      (send_and_watch_loop fuel) q' H0 Hm Hk _ Hrc _); [by apply Hs|].
    intros. eapply IH; eauto. lia.
Qed.

Lemma process_message_ok q :
  message_sane m0 -> idle q -> wp P (process_message m0) q task_post.
Proof.
  intros Hm Hi. unfold process_message.
  eapply wp_quiet; [apply now_quiet|]. intros now Hnow.
  destruct (sane_expired m0 now Hm Hnow) as [[|] ->]; apply wp_bind_val; [by left|].
  eapply wp_bind_mono; [by apply next_ok|]. intros t q1 Ht.
  destruct (sane_priority_value m0 now Hm Hnow) as (p & -> & Hp). apply wp_bind_val.
  eapply wp_bind_mono; [by apply fee_ok|]. intros [f|err] q2 Hf.
  2: { apply wp_release_then; [done|]. intros q' ?. by right. }
  destruct (typed_retry _ (sane_typed _ Hm)) as [Hr0 _].
  assert (attempts_left m0 <= 3)%nat by (unfold attempts_left, MAX_RETRIES; lia).
  apply (loop_ok LOOP_FUEL (attempts_left m0) m0 f t 0 q2);
    [apply same_intent_refl|done|done| |by apply Hf|lia].
  unfold LOOP_FUEL. lia.
Qed.

Lemma spawned_task_ok q :
  message_sane m0 -> idle q ->
  wp P (spawned_task m0) q (fun _ q' => idle q' \/ spent q' \/ settled q').
Proof.
  intros Hm Hi. eapply wp_bind_mono; [by apply process_message_ok|].
  intros [[]|e] q' Hp; [by right|]. simpl in Hp.
  destruct (log_quiet (task_error_log e) q') as [Hmay Ha]. split; [done|].
  intros [] Hx. destruct (Ha tt Hx) as [_ ->]. destruct Hp; [by left|by right; left].
Qed.

(** ** Properties *)

(** C5: against any adapter that keeps [AdapterContract] for a sane message,
    [process_message] and the spawned task keep the adapter's protocol: every
    path releases the replay token exactly when it still holds it and asks for
    no second one, so that a task that failed never held one or gave it back
    and a task that succeeded gave it back unless its transaction was
    confirmed; and the message is queued again only if the adapter says so. *)
Theorem task_keeps_contract q :
  message_sane m0 -> idle q ->
  wp P (process_message m0) q task_post /\
  wp P (spawned_task m0) q (fun _ q' => idle q' \/ spent q' \/ settled q').
Proof. intros Hm Hi. split; [by apply process_message_ok|by apply spawned_task_ok]. Qed.

End contract.
