(* ===== verification/SenderSystem.v ===== *)
(** * The running sender for any adapter ([crates/bulkmail/src/sender.rs])

    [Sender::run], [process_next_message], the semaphore, the [Notify], the
    channel of blocks and any number of tasks and callers, interleaved event
    by event, over an adapter of which nothing is known but its instances of
    the adapter traits.  What the events of the adapter do is a parameter
    [world]: the state behind the adapter (managers, atomics, the node) and
    its answers.  The [select!] is [biased]: each poll asks the channel of
    blocks first, and only a poll that found it open and empty lets
    [process_next_message] go on.  EthSystem.v is the system of the Ethereum adapter with its
    managers; EthRefine.v shows that it is an instance of this one. *)

From stdpp Require Import gmap strings relations.
From S2P Require Import Prelude Prog BinaryHeap Errors Message PriorityQueue Adapter Sender.

(** ** The events of the sender *)

(** An event of the sender's own queue and [Notify]. *)
Inductive SenderOp : Type -> Type :=
  | OpPush (m : Message) (now : Z) : SenderOp unit
  | OpNotify : SenderOp unit.

(** Which events of an adapter's event type are these. *)
Class SenderView (E : Type -> Type) {SE : SenderEvents E} := {
  sender_op : forall {X}, E X -> option (SenderOp X);
  view_push m now : sender_op (queue_push m now) = Some (OpPush m now);
  view_notify : sender_op notify_one = Some OpNotify;
  view_now : sender_op now_ms = None;
  view_instant : sender_op instant_now = None;
  view_elapsed t : sender_op (elapsed t) = None;
  view_log l : sender_op (log_error l) = None;
}.

(** ** Notifying

    Between a push and its [notify_one] a task does nothing else. *)
Section notifying.
Context {E : Type -> Type} {SE : SenderEvents E} {SV : SenderView E}.

Definition op_owes {X} (op : SenderOp X) : bool := match op with OpPush _ _ => true | OpNotify => false end.

Definition owes_after {X} (e : E X) (owes : bool) : bool :=
  match sender_op e with Some op => op_owes op | None => owes end.

(** Whether a task still owes a [notify_one]. *)
Definition notify_protocol : protocol E bool := {|
  may := fun X e owes => owes = false \/ exists op : SenderOp X, sender_op e = Some op /\ op_owes op = false;
  answers := fun X e owes x => True;
  next_state := fun X e owes x => owes_after e owes;
  may_crash := fun r owes => owes = false;
|}.

Definition notifies_from {A} (p : Prog E A) (owes : bool) : Prop :=
  wp notify_protocol p owes (fun _ owes => owes = false).

Definition notifies {A} (p : Prog E A) : Prop := notifies_from p false.

Lemma notifies_bind {A B} (p : Prog E A) (f : A -> Prog E B) :
  notifies p -> (forall a, notifies (f a)) -> notifies (prog_bind p f).
Proof. intros Hp Hf. eapply wp_bind_mono; [exact Hp|]. intros a owes ->. apply Hf. Qed.

Lemma notifies_ret {A} (a : A) : notifies (Ret a).
Proof. done. Qed.

Lemma notifies_lift {A} (r : run A) : notifies (lift r).
Proof. by destruct r. Qed.

Lemma notifies_trigger {X} (e : E X) : sender_op e = None -> notifies (trigger e).
Proof.
  intros He. split; [by left|]. intros x _. simpl. unfold owes_after. by rewrite He.
Qed.

Lemma notifies_try {T Er B} (p : Prog E (result T Er)) (f : T -> Prog E (result B Er)) :
  notifies p -> (forall t, notifies (f t)) -> notifies (prog_try p f).
Proof. intros Hp Hf. apply notifies_bind; [done|]. intros [t|e]; [apply Hf|done]. Qed.

(** A program that has nothing to do with the queue. *)
Fixpoint quiet {A} (p : Prog E A) : Prop :=
  match p with
  | Ret _ | Crash _ => True
  | Vis e k => sender_op e = None /\ forall x, quiet (k x)
  end.

Lemma quiet_bind {A B} (p : Prog E A) (f : A -> Prog E B) :
  quiet p -> (forall a, quiet (f a)) -> quiet (prog_bind p f).
Proof. induction p as [a|r|X e k IH]; simpl; [auto..|]. intros [He Hk] Hf. auto. Qed.

Lemma quiet_embed {F : Type -> Type} (f : forall X, F X -> E X) {A} (p : Prog F A) :
  (forall X (e : F X), sender_op (f X e) = None) -> quiet (embed f p).
Proof. intros Hf. induction p as [a|r|X e k IH]; simpl; auto. Qed.

Lemma quiet_join (choose : E bool) {A B} (p : Prog E A) (q : Prog E B) :
  sender_op choose = None -> quiet p -> quiet q -> quiet (join choose p q).
Proof.
  intros Hc. revert q. induction p as [a|r|X e k IH]; intros q Hp Hq; [by apply quiet_bind|done|].
  destruct Hp as [He Hk]. induction q as [b|r|Y f l IHq]; [by apply quiet_bind; [split|]|done|].
  destruct Hq as [Hf Hl]. simpl. split; [done|]. intros [|]; simpl; (split; [done|]); [|auto].
  intros x. by apply IH.
Qed.

Lemma quiet_notifies {A} (p : Prog E A) : quiet p -> notifies p.
Proof.
  induction p as [a|r|X e k IH]; [done|done|]. intros [He Hk]. split; [by left|]. intros x _.
  simpl. unfold owes_after. rewrite He. by apply IH.
Qed.

End notifying.

Create HintDb notifies.
#[export] Hint Resolve notifies_ret notifies_lift notifies_trigger : notifies.
#[export] Hint Resolve view_now view_instant view_elapsed view_log : notifies.

(** Walks through a program, event by event. *)
Ltac notifying :=
  repeat first
    [ progress intros
    | solve [auto with notifies]
    | solve [apply notifies_trigger; reflexivity]
    | apply notifies_bind
    | apply notifies_try
    | match goal with |- notifies (match ?x with _ => _ end) => destruct x end ].

Section system.
Context `{BuildProfile} {HM : MaxHeap pm_le}.
Context {A : ChainAdapter} {E : Type -> Type} {SE : SenderEvents E} {SV : SenderView E}.
Context {client : ChainClient E} {fees : FeeManager E}.
Context {replay : ReplayProtection E} {retry : RetryStrategy E}.
(** What is behind the adapter: its state, what an event with an answer of the
    environment does to it, and which answers the environment may give. *)
Context {W : Type} (world : forall X, E X -> W -> X -> run (X * W)) (env_ok : forall X, E X -> X -> Prop).

(** ** State *)

Record SenderState := MkSender {
  sd_queue : PriorityQueue;
  sd_ready : bool;        (* the stored permit of the [Notify] *)
  sd_permits : nat;       (* the free permits of the [Semaphore] *)
}.

Record SenderTask := MkSenderTask {
  st_permit : bool;
  st_code : Prog E unit;
  st_owes : bool;         (* it has pushed and not yet notified; for the statements only *)
}.

(** Where [run] is: in [subscribe_new_blocks] or [sync], whose error it
    returns; in [select!], with [process_next_message] waiting for a permit,
    holding one, or sleeping; returned or panicked. *)
Inductive RunAt :=
  | Awaiting (p : Prog E (result unit Error))
  | InSelect
  | WithPermit
  | Sleeping
  | RunReturned (r : result unit Error)
  | RunPanicked (r : panic).

(** The channel of block numbers: what is in it, and whether its sender is alive. *)
Record BlockStream := MkStream { arrived : list Z; alive : bool }.

Record SenderSys := MkSenderSys {
  sender : SenderState;
  run_at : RunAt;
  polled : bool;               (* this poll of the [select!] has found no block *)
  jobs : gmap nat SenderTask;
  behind : W;
  stream : BlockStream;
  pushed : list Message;       (* latest first; for the statements only *)
  handed_out : list Message;
}.

(** [Sender::new], and [run] called. *)
Definition sender_start (w : W) : SenderSys := {|
  sender := MkSender PriorityQueue_new false MAX_IN_FLIGHT_TRANSACTIONS;
  run_at := Awaiting subscribe_new_blocks;
  polled := false;
  jobs := ∅;
  behind := w;
  stream := MkStream [] true;
  pushed := [];
  handed_out := [];
|}.

(** ** One event *)

Definition sender_perform {X} (op : SenderOp X) (sd : SenderState) : run (X * SenderState) :=
  match op in SenderOp X return run (X * SenderState) with
  | OpPush m now =>
      q ← push (sd_queue sd) m now;
      Val (tt, MkSender q (sd_ready sd) (sd_permits sd))
  | OpNotify => Val (tt, MkSender (sd_queue sd) true (sd_permits sd))
  end.

Definition perform_any {X} (e : E X) (sd : SenderState) (w : W) (answer : X) : run (X * SenderState * W) :=
  match sender_op e with
  | Some op => '(x, sd) ← sender_perform op sd; Val (x, sd, w)
  | None => '(x, w) ← world X e w answer; Val (x, sd, w)
  end.

Definition pushes {X} (e : E X) : list Message :=
  match sender_op e with Some (OpPush m _) => [m] | _ => [] end.

Definition free_permits (n : nat) (sd : SenderState) : SenderState :=
  MkSender (sd_queue sd) (sd_ready sd) (sd_permits sd + n).

(** ** Steps *)

(** [run] goes on to [r], where the next [select!] begins with a poll. *)
Definition at_run (r : RunAt) (sd : SenderState) (s : SenderSys) : SenderSys :=
  MkSenderSys sd r false (jobs s) (behind s) (stream s) (pushed s) (handed_out s).

(** [process_next_message] goes on in the same poll. *)
Definition in_poll (r : RunAt) (sd : SenderState) (s : SenderSys) : SenderSys :=
  MkSenderSys sd r (polled s) (jobs s) (behind s) (stream s) (pushed s) (handed_out s).

Definition set_polled (b : bool) (s : SenderSys) : SenderSys :=
  MkSenderSys (sender s) (run_at s) b (jobs s) (behind s) (stream s) (pushed s) (handed_out s).

Definition with_stream (b : BlockStream) (s : SenderSys) : SenderSys :=
  MkSenderSys (sender s) (run_at s) (polled s) (jobs s) (behind s) b (pushed s) (handed_out s).

(** [run] performs an event of what it awaits. *)
Definition await_event {X} (e : E X) (p : Prog E (result unit Error)) (sd : SenderState) (w : W)
    (s : SenderSys) : SenderSys :=
  MkSenderSys sd (Awaiting p) false (jobs s) w (stream s) (pushes e ++ pushed s) (handed_out s).

(** The task [i] performs an event. *)
Definition task_event {X} (i : nat) (t : SenderTask) (e : E X) (p : Prog E unit) (sd : SenderState) (w : W)
    (s : SenderSys) : SenderSys :=
  MkSenderSys sd (run_at s) (polled s) (<[i := MkSenderTask (st_permit t) p (owes_after e (st_owes t))]> (jobs s)) w
    (stream s) (pushes e ++ pushed s) (handed_out s).

(** A task ends, by returning or by unwinding, and drops its permit. *)
Definition task_end (i : nat) (t : SenderTask) (s : SenderSys) : SenderSys :=
  MkSenderSys (free_permits (if st_permit t then 1 else 0) (sender s)) (run_at s) (polled s) (delete i (jobs s)) (behind s)
    (stream s) (pushed s) (handed_out s).

Definition task_new (i : nat) (t : SenderTask) (s : SenderSys) : SenderSys :=
  MkSenderSys (sender s) (run_at s) (polled s) (<[i := t]> (jobs s)) (behind s) (stream s) (pushed s) (handed_out s).

Definition caller_task (m : Message) : SenderTask := MkSenderTask false (add_message m) false.
Definition worker_task (m : Message) : SenderTask := MkSenderTask true (spawned_task m) false.

(** The message handed to a new task that holds the permit. *)
Definition hand_out (m : Message) (q : PriorityQueue) (i : nat) (s : SenderSys) : SenderSys :=
  MkSenderSys (MkSender q (sd_ready (sender s)) (sd_permits (sender s))) InSelect false
    (<[i := worker_task m]> (jobs s))
    (behind s) (stream s) (pushed s) (m :: handed_out s).

(** In [select!], with the permits that its cancelled branch gives back. *)
Definition in_select (r : RunAt) : option nat :=
  match r with
  | InSelect | Sleeping => Some 0%nat
  | WithPermit => Some 1%nat
  | _ => None
  end.

Definition held_by_run (r : RunAt) : nat := match r with WithPermit => 1%nat | _ => 0%nat end.

(** Where [run] goes with the result of what it awaited: [.await?]. *)
Definition after_await (r : result unit Error) : RunAt :=
  match r with Ok _ => InSelect | Err e => RunReturned (Err e) end.

Inductive sender_step : SenderSys -> SenderSys -> Prop :=
  (* [subscribe_new_blocks().await?] and [sync().await?] *)
  | ss_await s X (e : E X) k answer x sd w :
      run_at s = Awaiting (Vis e k) -> env_ok X e answer ->
      perform_any e (sender s) (behind s) answer = Val (x, sd, w) ->
      sender_step s (await_event e (k x) sd w s)
  | ss_await_panics s X (e : E X) k answer r :
      run_at s = Awaiting (Vis e k) -> env_ok X e answer ->
      perform_any e (sender s) (behind s) answer = Panic r ->
      sender_step s (at_run (RunPanicked r) (sender s) s)
  | ss_await_crash s r :
      run_at s = Awaiting (Crash r) -> sender_step s (at_run (RunPanicked r) (sender s) s)
  | ss_awaited s r :
      run_at s = Awaiting (Ret r) -> sender_step s (at_run (after_await r) (sender s) s)
  (* the channel of blocks *)
  | ss_block_arrives s n :
      alive (stream s) = true -> sender_step s (with_stream (MkStream (arrived (stream s) ++ [n]) true) s)
  | ss_stream_closes s : sender_step s (with_stream (MkStream (arrived (stream s)) false) s)
  (* a poll of the [select!] asks [block_stream.recv()] first *)
  | ss_recv s k n ns :
      in_select (run_at s) = Some k -> polled s = false -> arrived (stream s) = n :: ns ->
      sender_step s (with_stream (MkStream ns (alive (stream s)))
        (at_run (Awaiting sync) (free_permits k (sender s)) s))
  | ss_recv_none s k :
      in_select (run_at s) = Some k -> polled s = false -> arrived (stream s) = [] -> alive (stream s) = false ->
      sender_step s (at_run (RunReturned (Err SubscriptionClosed)) (free_permits k (sender s)) s)
  | ss_no_block s k :
      in_select (run_at s) = Some k -> arrived (stream s) = [] -> alive (stream s) = true ->
      sender_step s (set_polled true s)
  (* [process_next_message], in a poll that found no block; it may wait at each
     of its three awaits, and the next poll begins anew *)
  | ss_waits s : sender_step s (set_polled false s)
  | ss_acquire s n :
      run_at s = InSelect -> polled s = true -> sd_permits (sender s) = S n ->
      sender_step s (in_poll WithPermit (MkSender (sd_queue (sender s)) (sd_ready (sender s)) n) s)
  | ss_hand_out s m q i :
      run_at s = WithPermit -> polled s = true -> pop (sd_queue (sender s)) = Some (m, q) -> jobs s !! i = None ->
      sender_step s (hand_out m q i s)
  | ss_empty s :
      run_at s = WithPermit -> polled s = true -> pop (sd_queue (sender s)) = None ->
      sender_step s (in_poll Sleeping (free_permits 1 (sender s)) s)
  | ss_wake s :
      run_at s = Sleeping -> polled s = true -> sd_ready (sender s) = true ->
      sender_step s (at_run InSelect (MkSender (sd_queue (sender s)) false (sd_permits (sender s))) s)
  (* the tasks *)
  | ss_call s m i :
      jobs s !! i = None -> sender_step s (task_new i (caller_task m) s)
  | ss_task s i t X (e : E X) k answer x sd w :
      jobs s !! i = Some t -> st_code t = Vis e k -> env_ok X e answer ->
      perform_any e (sender s) (behind s) answer = Val (x, sd, w) ->
      sender_step s (task_event i t e (k x) sd w s)
  | ss_task_panics s i t X (e : E X) k answer r :
      jobs s !! i = Some t -> st_code t = Vis e k -> env_ok X e answer ->
      perform_any e (sender s) (behind s) answer = Panic r ->
      sender_step s (task_end i t s)
  | ss_task_crash s i t r :
      jobs s !! i = Some t -> st_code t = Crash r -> sender_step s (task_end i t s)
  | ss_task_ends s i t :
      jobs s !! i = Some t -> st_code t = Ret tt -> sender_step s (task_end i t s).

(** ** The invariant *)

Definition permits_held (ts : gmap nat SenderTask) : nat :=
  map_fold (fun _ t n => (if st_permit t then 1 else 0) + n)%nat 0%nat ts.

Record sender_inv (s : SenderSys) : Prop := {
  si_permits : (sd_permits (sender s) + permits_held (jobs s) + held_by_run (run_at s) =
    MAX_IN_FLIGHT_TRANSACTIONS)%nat;
  si_log : pushed s ≡ₚ handed_out s ++ queued (sd_queue (sender s));
  si_returned : forall r, run_at s = RunReturned r -> exists e, r = Err e;
}.

Lemma permits_held_insert ts i t :
  ts !! i = None -> permits_held (<[i := t]> ts) = ((if st_permit t then 1 else 0) + permits_held ts)%nat.
Proof.
  intros Hi. unfold permits_held. rewrite (map_fold_insert_L _ _ i t ts); [done| |done].
  intros. lia.
Qed.

Lemma permits_held_delete ts i t :
  ts !! i = Some t -> permits_held ts = ((if st_permit t then 1 else 0) + permits_held (delete i ts))%nat.
Proof.
  intros Hi. rewrite <- (permits_held_insert (delete i ts) i t) by apply lookup_delete_eq.
  by rewrite insert_delete_id.
Qed.

Lemma permits_held_update ts i t t' :
  ts !! i = Some t -> st_permit t' = st_permit t -> permits_held (<[i := t']> ts) = permits_held ts.
Proof.
  intros Hi Hp. rewrite <- insert_delete_eq, permits_held_insert by apply lookup_delete_eq.
  rewrite Hp. symmetry. by apply permits_held_delete.
Qed.

(** What an event does to the sender's own objects. *)
Lemma perform_any_frame X (e : E X) sd w a x sd' w' :
  perform_any e sd w a = Val (x, sd', w') ->
  sd_permits sd' = sd_permits sd /\ queued (sd_queue sd') ≡ₚ pushes e ++ queued (sd_queue sd) /\
  (sd_ready sd = true -> sd_ready sd' = true).
Proof.
  unfold perform_any, pushes. destruct (sender_op e) as [op|].
  - destruct op as [m now|]; simpl; [|by intros [= <- <-]].
    destruct (push (sd_queue sd) m now) as [q|] eqn:Hq; simpl; [|done]. intros [= <- <-].
    destruct (push_items _ _ _ _ Hq) as (p & _ & Hitems). simpl. split; [done|]. split; [|done].
    unfold queued. by rewrite Hitems.
  - destruct (world X e w a) as [[x0 w0]|]; simpl; [|done]. by intros [= <- <- <-].
Qed.

Lemma in_select_held r k : in_select r = Some k -> held_by_run r = k.
Proof. by destruct r; intros [= <-]. Qed.

Lemma sender_step_inv s s' : sender_step s s' -> sender_inv s -> sender_inv s'.
Proof.
  intros Hs [H1 H2 H3].
  destruct Hs as [s X e k a x sd w Hr _ Hp|s X e k a r Hr _ Hp|s r Hr|s r Hr|s n Ha|s|s k n ns Hsel _ Har|s k Hsel _ Har Hal|s k Hsel Har Hal|s
    |s n Hr _ Hn|s m q i Hr _ Hpop Hi|s Hr _ Hpop|s Hr _ Hrd|s m i Hi|s i t X e k a x sd w Hi Hc _ Hp
    |s i t X e k a r Hi Hc _ Hp|s i t r Hi Hc|s i t Hi Hc].
  all: try (rewrite Hr in H1; simpl in H1); try (apply in_select_held in Hsel; rewrite Hsel in H1).
  - destruct (perform_any_frame _ _ _ _ _ _ _ _ Hp) as (Hm & Hq & _). split; simpl; [lia| |done].
    rewrite Hq, H2. solve_Permutation.
  - split; simpl; [lia|done|done].
  - split; simpl; [lia|done|done].
  - split; simpl; [by destruct r; simpl; lia|done|]. destruct r; simpl; [done|]. intros ? [= <-]. by eexists.
  - by split.
  - by split.
  - split; simpl; [lia|done|done].
  - split; simpl; [lia|done|]. intros ? [= <-]. by eexists.
  - split; simpl; [rewrite Hsel; lia|done|done].
  - by split.
  - split; simpl; [lia|done|done].
  - split; simpl; [rewrite permits_held_insert by done; simpl; lia| |done].
    rewrite H2, (pop_queued _ _ _ Hpop). solve_Permutation.
  - split; simpl; [lia|done|done].
  - split; simpl; [lia|done|done].
  - split; simpl; [by rewrite permits_held_insert|done|done].
  - destruct (perform_any_frame _ _ _ _ _ _ _ _ Hp) as (Hm & Hq & _).
    split; simpl; [rewrite (permits_held_update _ _ t) by done; lia| |done]. rewrite Hq, H2. solve_Permutation.
  - split; simpl; [rewrite (permits_held_delete _ _ _ Hi) in H1; lia|done|done].
  - split; simpl; [rewrite (permits_held_delete _ _ _ Hi) in H1; lia|done|done].
  - split; simpl; [rewrite (permits_held_delete _ _ _ Hi) in H1; lia|done|done].
Qed.

Lemma sender_start_inv w : sender_inv (sender_start w).
Proof.
  split; simpl; [done|by rewrite queued_new|done].
Qed.

Lemma reached_sender_inv w s : rtc sender_step (sender_start w) s -> sender_inv s.
Proof. intros Hr. eapply rtc_inv; [apply sender_step_inv|exact Hr|apply sender_start_inv]. Qed.

(** ** No lost wake-up *)

(** What the sender needs of an adapter for it: a program of the adapter that
    pushes a message notifies at once. *)
Class AdapterNotifies := {
  an_send m f t : notifies (send_transaction m f t);
  an_fee p : notifies (get_fee_params p);
  an_next : notifies next;
  an_release t : notifies (release t);
  an_dropped pd : notifies (handle_dropped pd);
  an_confirmed pd d : notifies (handle_confirmed pd d);
}.

Section wake.
Context {AN : AdapterNotifies}.

Hint Resolve an_send an_fee an_next an_release an_dropped an_confirmed : notifies.

Lemma notifies_add_message m : notifies (add_message m).
Proof.
  apply notifies_bind; [notifying|]. intros now. split; [by left|]. intros [] _.
  unfold mbind. simpl. unfold owes_after. rewrite view_push. simpl.
  split; [right; exists OpNotify; by rewrite view_notify|]. intros [] _. simpl.
  unfold owes_after. by rewrite view_notify.
Qed.

Hint Resolve notifies_add_message : notifies.

Lemma notifies_send_and_watch fuel m f t c : notifies (send_and_watch_loop fuel m f t c).
Proof.
  revert m f t c. induction fuel as [|fuel IH]; intros m f t c; [done|]. cbn [send_and_watch_loop].
  apply notifies_bind; [notifying|]. intros now. apply notifies_bind; [notifying|]. intros expired.
  destruct expired; [notifying|]. apply notifies_bind; [notifying|]. intros created.
  apply notifies_bind; [notifying|]. intros [[id|id|id]|err]; [notifying| | |notifying].
  all: destruct (increment_retry m) as [again m']; destruct again; [|notifying].
  all: apply notifies_bind; [notifying|]; intros [f' t'| |]; [|notifying|notifying].
  all: apply notifies_bind; [notifying|]; intros; apply IH.
Qed.

Lemma notifies_spawned_task m : notifies (spawned_task m).
Proof.
  apply notifies_bind; [|intros [r|err]; notifying].
  apply notifies_bind; [notifying|]. intros now. apply notifies_bind; [notifying|]. intros expired.
  destruct expired; [notifying|]. apply notifies_bind; [notifying|]. intros t.
  apply notifies_bind; [notifying|]. intros p. apply notifies_bind; [notifying|].
  intros [f|err]; [apply notifies_send_and_watch|notifying].
Qed.

Definition job_notifies (t : SenderTask) : Prop := notifies_from (st_code t) (st_owes t).

(** When [run] sleeps beside a queued message it will be woken. *)
Definition woken (s : SenderSys) : Prop :=
  sd_ready (sender s) = true \/ exists i t, jobs s !! i = Some t /\ st_owes t = true.

Record wake_inv (s : SenderSys) : Prop := {
  wi_jobs : map_Forall (fun _ t => job_notifies t) (jobs s);
  wi_wake : run_at s = Sleeping -> queued (sd_queue (sender s)) <> [] -> woken s;
}.

(** Only a task that owes nothing ends, and one that owes only notifies. *)
Lemma owing_notifies {B X} (e : E X) (k : X -> Prog E B) owes :
  notifies_from (Vis e k) owes -> owes = true -> exists op : SenderOp X, sender_op e = Some op /\ op_owes op = false.
Proof. intros [[->|Hop] _] Ho; [done|done]. Qed.

Lemma notify_ready X (e : E X) (op : SenderOp X) sd w a x sd' w' :
  sender_op e = Some op -> op_owes op = false -> perform_any e sd w a = Val (x, sd', w') -> sd_ready sd' = true.
Proof.
  intros He Ho. unfold perform_any. rewrite He. destruct op; [done|]. simpl. by intros [= <- <- <-].
Qed.

Lemma notify_no_panic X (e : E X) (op : SenderOp X) sd w a r :
  sender_op e = Some op -> op_owes op = false -> perform_any e sd w a <> Panic r.
Proof. intros He Ho. unfold perform_any. rewrite He. by destruct op. Qed.

Lemma woken_delete s i t :
  jobs s !! i = Some t -> st_owes t = false -> woken s -> woken (task_end i t s).
Proof.
  intros Hi Ho [Hr|(j & u & Hj & Hu)]; [by left|]. right. exists j, u. split; [|done].
  simpl. rewrite lookup_delete_ne; [done|]. intros ->. congruence.
Qed.

Lemma task_end_wake s i t :
  jobs s !! i = Some t -> st_owes t = false -> wake_inv s -> wake_inv (task_end i t s).
Proof.
  intros Hi Ho [Hw Hs]. split; simpl.
  - by apply map_Forall_delete.
  - intros Hr Hq. by apply woken_delete; [..|apply Hs].
Qed.

Lemma task_event_wake s i t X (e : E X) k a x sd w :
  jobs s !! i = Some t -> st_code t = Vis e k -> perform_any e (sender s) (behind s) a = Val (x, sd, w) ->
  wake_inv s -> wake_inv (task_event i t e (k x) sd w s).
Proof.
  intros Hi Hc Hp [Hw Hs]. pose proof (Hw _ _ Hi) as Hn. unfold job_notifies in Hn. rewrite Hc in Hn.
  destruct (perform_any_frame _ _ _ _ _ _ _ _ Hp) as (_ & Hq & Hrd). split; simpl.
  - apply map_Forall_insert_2; [|done]. by apply Hn.
  - intros Hr Hne. destruct (sender_op e) as [op|] eqn:He.
    + destruct (op_owes op) eqn:Ho; [|left; simpl; by eapply notify_ready].
      right. exists i. eexists. split; [apply lookup_insert_eq|]. simpl. unfold owes_after. by rewrite He.
    + assert (queued (sd_queue (sender s)) <> []) as Hne'.
      { intros Hnil. apply Hne. unfold pushes in Hq. rewrite He, Hnil in Hq. by apply Permutation_nil_r. }
      destruct (Hs Hr Hne') as [Hready|(j & u & Hj & Hu)]; [left; simpl; by apply Hrd|].
      destruct (decide (j = i)) as [->|Hji].
      * assert (u = t) as -> by congruence. destruct (owing_notifies _ _ _ Hn Hu) as (op & Hop & _). congruence.
      * right. exists j, u. split; [|done]. simpl. by rewrite lookup_insert_ne.
Qed.

Lemma task_new_wake s i t :
  jobs s !! i = None -> job_notifies t -> wake_inv s -> wake_inv (task_new i t s).
Proof.
  intros Hi Ht [Hw Hs]. split; simpl; [by apply map_Forall_insert_2|].
  intros Hr Hne. destruct (Hs Hr Hne) as [?|(j & u & Hj & Hu)]; [by left|]. right. exists j, u.
  split; [|done]. simpl. rewrite lookup_insert_ne; [done|congruence].
Qed.

Lemma sender_step_wake s s' : sender_step s s' -> wake_inv s -> wake_inv s'.
Proof.
  intros Hs Hi. pose proof Hi as [Hw Hs0].
  destruct Hs as [s X e k a x sd w Hr _ Hp|s X e k a r Hr _ Hp|s r Hr|s r Hr|s n Ha|s|s k n ns Hsel _ Har|s k Hsel _ Har Hal|s k Hsel Har Hal|s
    |s n Hr _ Hn|s m q i Hr _ Hpop Hj|s Hr _ Hpop|s Hr _ Hrd|s m i Hj|s i t X e k a x sd w Hj Hc _ Hp
    |s i t X e k a r Hj Hc _ Hp|s i t r Hj Hc|s i t Hj Hc].
  all: try (split; simpl; [done|by destruct r || done]).
  - split; simpl; [|done]. apply map_Forall_insert_2; [|done]. apply notifies_spawned_task.
  - split; simpl; [done|]. intros _ []. apply pop_none in Hpop. unfold queued. by rewrite Hpop.
  - apply task_new_wake; [done| |done]. apply notifies_add_message.
  - by eapply task_event_wake.
  - apply task_end_wake; [done| |done]. destruct (st_owes t) eqn:Ho; [|done].
    pose proof (Hw _ _ Hj) as Hn. unfold job_notifies in Hn. rewrite Hc in Hn.
    destruct (owing_notifies _ _ _ Hn Ho) as (op & Hop & Hoo). by destruct (notify_no_panic _ _ _ _ _ _ _ Hop Hoo Hp).
  - apply task_end_wake; [done| |done]. pose proof (Hw _ _ Hj) as Hn. unfold job_notifies in Hn. by rewrite Hc in Hn.
  - apply task_end_wake; [done| |done]. pose proof (Hw _ _ Hj) as Hn. unfold job_notifies in Hn. by rewrite Hc in Hn.
Qed.

Lemma sender_start_wake w : wake_inv (sender_start w).
Proof. split; [apply map_Forall_empty|done]. Qed.

End wake.

(** ** Progress *)

Section progress.
Hypothesis env_answers : forall X (e : E X), exists a, env_ok X e a.

(** What the tasks may change on their way to the end. *)
Definition settles_to (s s' : SenderSys) : Prop :=
  run_at s' = run_at s /\ handed_out s' = handed_out s /\ stream s' = stream s /\
  (queued (sd_queue (sender s)) <> [] -> queued (sd_queue (sender s')) <> []).

Lemma job_finishes i t s :
  jobs s !! i = Some t ->
  exists s', rtc sender_step s s' /\ jobs s' = delete i (jobs s) /\
    sd_permits (sender s') = (sd_permits (sender s) + if st_permit t then 1 else 0)%nat /\ settles_to s s'.
Proof.
  remember (st_code t) as p eqn:Hp. revert t s Hp.
  induction p as [[]|r|X e k IH]; intros t s Hp Hi; symmetry in Hp.
  - eexists. split; [by eapply rtc_once, ss_task_ends|]. done.
  - eexists. split; [by eapply rtc_once, ss_task_crash|]. done.
  - destruct (env_answers X e) as [a Ha].
    destruct (perform_any e (sender s) (behind s) a) as [[[x sd] w]|r] eqn:Hperf.
    2: { eexists. split; [by eapply rtc_once, ss_task_panics|]. done. }
    destruct (perform_any_frame _ _ _ _ _ _ _ _ Hperf) as (Hm & Hq & _).
    destruct (IH x (MkSenderTask (st_permit t) (k x) (owes_after e (st_owes t))) (task_event i t e (k x) sd w s))
      as (s' & Hs' & Hj & Hp' & Hr & Hh & Hst & Hne); [done|by apply lookup_insert_eq|].
    exists s'. split; [by eapply rtc_l; [eapply ss_task|]|]. simpl in *.
    split; [by rewrite Hj, delete_insert_eq|]. split; [by rewrite Hp', Hm|].
    split_and!; [done..|]. intros Hnil. apply Hne. intros Hsd. rewrite Hsd in Hq.
    apply Permutation_nil_l in Hq. symmetry in Hq. by apply app_eq_nil in Hq as [_ ?].
Qed.

Lemma jobs_finish s :
  exists s', rtc sender_step s s' /\ jobs s' = ∅ /\
    sd_permits (sender s') = (sd_permits (sender s) + permits_held (jobs s))%nat /\ settles_to s s'.
Proof.
  remember (jobs s) as ts eqn:Hts. revert s Hts. induction ts as [|i t ts Hi IH] using map_ind; intros s Hts.
  - exists s. split; [done|]. split; [done|]. split; [|done]. unfold permits_held. rewrite map_fold_empty. lia.
  - destruct (job_finishes i t s) as (s1 & Hs1 & Hj1 & Hp1 & Hr1 & Hh1 & Hst1 & Hq1).
    { rewrite <- Hts. apply lookup_insert_eq. }
    rewrite <- Hts, delete_insert_id in Hj1 by done.
    destruct (IH s1 (eq_sym Hj1)) as (s2 & Hs2 & Hj2 & Hp2 & Hr2 & Hh2 & Hst2 & Hq2).
    exists s2. split; [by etransitivity|]. split; [done|].
    split; [rewrite Hp2, Hp1, permits_held_insert by done; lia|].
    unfold settles_to. rewrite Hr2, Hh2, Hst2. split_and!; auto.
Qed.

Definition hands_out (s : SenderSys) : Prop :=
  exists s' m, rtc sender_step s s' /\ handed_out s' = m :: handed_out s.

(** A wait gives the poll up; the stream is asked again. *)
Lemma with_permit_hands_out s :
  run_at s = WithPermit -> polled s = true -> queued (sd_queue (sender s)) <> [] -> jobs s = ∅ -> hands_out s.
Proof.
  intros Hr Hp Hne Hj. destruct (pop (sd_queue (sender s))) as [[m q]|] eqn:Hpop.
  - eexists _, m. split; [eapply rtc_once, (ss_hand_out s m q 0%nat); [done..|by rewrite Hj]|done].
  - apply pop_none in Hpop. unfold queued in Hne. by rewrite Hpop in Hne.
Qed.

(** The channel is open and empty. *)
Definition no_block_waits (s : SenderSys) : Prop := arrived (stream s) = [] /\ alive (stream s) = true.

Lemma in_select_hands_out s n :
  run_at s = InSelect -> no_block_waits s -> sd_permits (sender s) = S n ->
  queued (sd_queue (sender s)) <> [] -> jobs s = ∅ -> hands_out s.
Proof.
  intros Hr [Har Hal] Hn Hne Hj.
  destruct (with_permit_hands_out (in_poll WithPermit (MkSender (sd_queue (sender s)) (sd_ready (sender s)) n)
    (set_polled true s))) as (s' & m & Hs' & Hh); [done..|].
  exists s', m. split; [|done]. eapply rtc_l; [eapply (ss_no_block s 0); [by rewrite Hr|done|done]|].
  eapply rtc_l; [by apply (ss_acquire (set_polled true s))|done].
Qed.

Lemma sleeping_hands_out s n :
  run_at s = Sleeping -> no_block_waits s -> sd_ready (sender s) = true -> sd_permits (sender s) = S n ->
  queued (sd_queue (sender s)) <> [] -> jobs s = ∅ -> hands_out s.
Proof.
  intros Hr [Har Hal] Hrd Hn Hne Hj.
  destruct (in_select_hands_out (at_run InSelect
    (MkSender (sd_queue (sender s)) false (sd_permits (sender s))) (set_polled true s)) n)
    as (s' & m & Hs' & Hh); [done..|].
  exists s', m. split; [|done]. eapply rtc_l; [eapply (ss_no_block s 0); [by rewrite Hr|done|done]|].
  eapply rtc_l; [by apply (ss_wake (set_polled true s))|done].
Qed.

Lemma selecting_hands_out s :
  in_select (run_at s) <> None -> no_block_waits s -> jobs s = ∅ -> queued (sd_queue (sender s)) <> [] ->
  (sd_permits (sender s) + held_by_run (run_at s) = 16)%nat -> (run_at s = Sleeping -> sd_ready (sender s) = true) ->
  hands_out s.
Proof.
  intros Hsel Hst Hj Hne Hp Hw. destruct (run_at s) eqn:Hr; simpl in Hsel, Hp; try done.
  - apply (in_select_hands_out s 15); [done|done|lia|done|done].
  - destruct (with_permit_hands_out (set_polled true s)) as (s' & m & Hs' & Hh); [done..|].
    exists s', m. split; [|done]. destruct Hst as [Har Hal].
    eapply rtc_l; [eapply (ss_no_block s 1); [by rewrite Hr|done|done]|done].
  - apply (sleeping_hands_out s 15); [done|done|by apply Hw|lia|done|done].
Qed.

(** Some answers of the environment let a program return [Ok]. *)
Fixpoint can_succeed (p : Prog E (result unit Error)) (sd : SenderState) (w : W) : Prop :=
  match p with
  | Ret r => exists u, r = Ok u
  | Crash _ => False
  | Vis e k => exists a x sd' w', env_ok _ e a /\ perform_any e sd w a = Val (x, sd', w') /\
      can_succeed (k x) sd' w'
  end.

Lemma await_succeeds p s :
  run_at s = Awaiting p -> can_succeed p (sender s) (behind s) ->
  exists s', rtc sender_step s s' /\ run_at s' = InSelect /\ jobs s' = jobs s /\ handed_out s' = handed_out s /\
    stream s' = stream s /\ sd_permits (sender s') = sd_permits (sender s) /\
    (queued (sd_queue (sender s)) <> [] -> queued (sd_queue (sender s')) <> []).
Proof.
  revert s. induction p as [r|r|X e k IH]; intros s Hr Hcan; [|done|].
  - destruct Hcan as [u ->]. eexists. split; [by eapply rtc_once, ss_awaited|]. done.
  - destruct Hcan as (a & x & sd & w & Ha & Hp & Hcan).
    destruct (perform_any_frame _ _ _ _ _ _ _ _ Hp) as (Hm & Hq & _).
    destruct (IH x (await_event e (k x) sd w s)) as (s' & Hs' & Hr' & Hj & Hh & Hst & Hpm & Hne); [done..|].
    exists s'. split; [by eapply rtc_l; [eapply ss_await|]|]. simpl in *. rewrite Hpm, Hm.
    split_and!; [done..|]. intros Hnil. apply Hne. intros Hsd. rewrite Hsd in Hq.
    apply Permutation_nil_l in Hq. symmetry in Hq. by apply app_eq_nil in Hq as [_ ?].
Qed.

(** The blocks that wait are synchronised first. *)
Lemma waiting_blocks_hand_out s :
  (forall sd w, can_succeed sync sd w) ->
  in_select (run_at s) <> None -> alive (stream s) = true -> jobs s = ∅ -> queued (sd_queue (sender s)) <> [] ->
  (sd_permits (sender s) + held_by_run (run_at s) = 16)%nat -> (run_at s = Sleeping -> sd_ready (sender s) = true) ->
  hands_out s.
Proof.
  intros Hsync. remember (arrived (stream s)) as ns eqn:Hns. revert s Hns.
  induction ns as [|n ns IH]; intros s Hns Hsel Hal Hj Hne Hp Hw; [by apply selecting_hands_out|].
  destruct (in_select (run_at s)) as [k|] eqn:Hk; [|done].
  set (s1 := with_stream (MkStream ns (alive (stream s)))
    (at_run (Awaiting sync) (free_permits k (sender s)) (set_polled false s))).
  assert (rtc sender_step s s1) as Hs1.
  { eapply rtc_l; [apply (ss_waits s)|]. by eapply rtc_once, (ss_recv (set_polled false s)). }
  destruct (await_succeeds sync s1) as (s2 & Hs2 & Hr2 & Hj2 & Hh2 & Hst2 & Hp2 & Hq2); [done|apply Hsync|].
  destruct (IH s2) as (s' & m & Hs' & Hh'); rewrite ?Hr2, ?Hst2, ?Hj2; [done..|by apply Hq2| |done|].
  - rewrite Hp2. simpl. apply in_select_held in Hk. lia.
  - exists s', m. split; [by do 2 (etransitivity; [done|])|]. by rewrite Hh', Hh2.
Qed.

End progress.

(** ** An executor

    A scheduler of one thread: a task goes on to its end before the next one,
    and [run] goes on when there is none; its [select!] is biased to the
    blocks. *)
Section executor.
Context (answer : forall X, E X -> X).

Definition advance_job (i : nat) (t : SenderTask) (s : SenderSys) : SenderSys :=
  match st_code t with
  | Vis e k =>
      match perform_any e (sender s) (behind s) (answer _ e) with
      | Val (x, sd, w) => task_event i t e (k x) sd w s
      | Panic _ => task_end i t s
      end
  | _ => task_end i t s
  end.

(** A free number for a task. *)
Definition next_job (s : SenderSys) : nat := stdpp.base.fresh (dom (jobs s) : gset nat).

Definition advance_process (s : SenderSys) : option SenderSys :=
  match run_at s with
  | InSelect =>
      match sd_permits (sender s) with
      | S n => Some (in_poll WithPermit (MkSender (sd_queue (sender s)) (sd_ready (sender s)) n) s)
      | O => None
      end
  | WithPermit =>
      match pop (sd_queue (sender s)) with
      | Some (m, q) => Some (hand_out m q (next_job s) s)
      | None => Some (in_poll Sleeping (free_permits 1 (sender s)) s)
      end
  | Sleeping =>
      if sd_ready (sender s)
      then Some (at_run InSelect (MkSender (sd_queue (sender s)) false (sd_permits (sender s))) s)
      else None
  | _ => None
  end.

(** Something has come over the channel. *)
Definition stream_ready (s : SenderSys) : bool :=
  match arrived (stream s) with [] => negb (alive (stream s)) | _ => true end.

Definition advance_select (k : nat) (s : SenderSys) : option SenderSys :=
  if polled s then
    match advance_process s with
    | Some s' => Some s'
    | None => if stream_ready s then Some (set_polled false s) else None
    end
  else
    match arrived (stream s) with
    | _ :: ns =>
        Some (with_stream (MkStream ns (alive (stream s))) (at_run (Awaiting sync) (free_permits k (sender s)) s))
    | [] =>
        Some (if alive (stream s) then set_polled true s
              else at_run (RunReturned (Err SubscriptionClosed)) (free_permits k (sender s)) s)
    end.

Definition advance_run (s : SenderSys) : option SenderSys :=
  match run_at s with
  | Awaiting (Ret r) => Some (at_run (after_await r) (sender s) s)
  | Awaiting (Crash r) => Some (at_run (RunPanicked r) (sender s) s)
  | Awaiting (Vis e k) =>
      match perform_any e (sender s) (behind s) (answer _ e) with
      | Val (x, sd, w) => Some (await_event e (k x) sd w s)
      | Panic r => Some (at_run (RunPanicked r) (sender s) s)
      end
  | r => k ← in_select r; advance_select k s
  end.

Definition advance_sender (s : SenderSys) : option SenderSys :=
  match head (map_to_list (jobs s)) with
  | Some (i, t) => Some (advance_job i t s)
  | None => advance_run s
  end.

(** Until nothing moves. *)
Fixpoint settle (fuel : nat) (s : SenderSys) : run SenderSys :=
  match advance_sender s with
  | None => Val s
  | Some s' => match fuel with O => Panic Diverge | S fuel => settle fuel s' end
  end.

Hypothesis answer_ok : forall X (e : E X), env_ok X e (answer X e).

Lemma advance_job_step i t s : jobs s !! i = Some t -> sender_step s (advance_job i t s).
Proof.
  intros Hi. unfold advance_job. destruct (st_code t) as [[]|r|X e k] eqn:Hc.
  - by apply ss_task_ends.
  - by eapply ss_task_crash.
  - destruct (perform_any e _ _ _) as [[[x sd] w]|r] eqn:Hp; [by eapply ss_task|by eapply ss_task_panics].
Qed.

Lemma advance_process_step s s' : polled s = true -> advance_process s = Some s' -> sender_step s s'.
Proof.
  intros Hpl. unfold advance_process. destruct (run_at s) eqn:Hr; try done.
  - destruct (sd_permits (sender s)) eqn:Hp; [done|]. intros [= <-]. by apply ss_acquire.
  - destruct (pop _) as [[m q]|] eqn:Hpop; intros [= <-]; [|by apply ss_empty].
    apply ss_hand_out; [done..|]. apply not_elem_of_dom. unfold next_job. apply (is_fresh (dom (jobs s) : gset nat)).
  - destruct (sd_ready (sender s)) eqn:Hrd; [|done]. intros [= <-]. by apply ss_wake.
Qed.

Lemma advance_select_step k s s' :
  in_select (run_at s) = Some k -> advance_select k s = Some s' -> sender_step s s'.
Proof.
  intros Hk. unfold advance_select. destruct (polled s) eqn:Hpl.
  - destruct (advance_process s) as [s1|] eqn:Hp; [intros [= <-]; by apply advance_process_step|].
    destruct (stream_ready s); [|done]. intros [= <-]. apply ss_waits.
  - destruct (arrived (stream s)) as [|n ns] eqn:Har; intros [= <-]; [|by eapply ss_recv].
    destruct (alive (stream s)) eqn:Hal; [by eapply ss_no_block|by apply ss_recv_none].
Qed.

Lemma advance_run_step s s' : advance_run s = Some s' -> sender_step s s'.
Proof.
  unfold advance_run. destruct (run_at s) as [[r|r|X e k]| | | | |] eqn:Hr; try done.
  - intros [= <-]. by apply ss_awaited.
  - intros [= <-]. by apply ss_await_crash.
  - destruct (perform_any e _ _ _) as [[[x sd] w]|r] eqn:Hp; intros [= <-];
      [by eapply ss_await|by eapply ss_await_panics].
  - apply advance_select_step. by rewrite Hr.
  - apply advance_select_step. by rewrite Hr.
  - apply advance_select_step. by rewrite Hr.
Qed.

Lemma advance_step s s' : advance_sender s = Some s' -> sender_step s s'.
Proof.
  unfold advance_sender. destruct (head (map_to_list (jobs s))) as [[i t]|] eqn:Hh; [|apply advance_run_step].
  intros [= <-]. apply advance_job_step, elem_of_map_to_list.
  destruct (map_to_list (jobs s)) as [|it l]; [done|]. injection Hh as ->. by left.
Qed.

(** What the executor computes is a run of the system. *)
Lemma settle_steps fuel s s' : settle fuel s = Val s' -> rtc sender_step s s'.
Proof.
  revert s. induction fuel as [|fuel IH]; intros s; simpl; destruct (advance_sender s) as [s1|] eqn:Ha; try done.
  - by intros [= <-].
  - intros Hs. eapply rtc_l; [by apply advance_step|by apply IH].
  - by intros [= <-].
Qed.

End executor.

(** ** Properties *)

(** C3: for every adapter, whatever its events do and answer and in every
    order of the steps: the free permits, the tasks that hold one and the
    permit that [process_next_message] is holding add up to the 16 of the
    semaphore; every message that was pushed is still queued or was handed to
    exactly one task; and [run] returns nothing but an error. *)
Theorem sender_conserves w s :
  rtc sender_step (sender_start w) s ->
  (sd_permits (sender s) + permits_held (jobs s) + held_by_run (run_at s) = MAX_IN_FLIGHT_TRANSACTIONS)%nat /\
  pushed s ≡ₚ handed_out s ++ queued (sd_queue (sender s)) /\
  (forall r, run_at s = RunReturned r -> exists e, r = Err e).
Proof.
  intros Hr. by destruct (reached_sender_inv w s Hr).
Qed.

(** C8: for every adapter whose own programs notify what they push, and an
    environment that answers and can let a [sync] succeed: when [run] is in its
    [select!] beside a queued message and the channel of blocks is open, a
    wake-up is stored or a task is about to store one should [run] be asleep,
    and from there the tasks can all finish, returning their permits, after
    which [run] synchronises the blocks that wait and hands a message out. *)
Theorem sender_hands_out {AN : AdapterNotifies} w s :
  (forall X (e : E X), exists a, env_ok X e a) -> (forall sd w, can_succeed sync sd w) ->
  rtc sender_step (sender_start w) s ->
  in_select (run_at s) <> None -> alive (stream s) = true -> queued (sd_queue (sender s)) <> [] ->
  (run_at s = Sleeping -> woken s) /\
  exists s' m, rtc sender_step s s' /\ handed_out s' = m :: handed_out s.
Proof.
  intros Hans Hsync Hr Hsel Hal Hne.
  assert (forall s, rtc sender_step (sender_start w) s -> wake_inv s) as Hwake.
  { intros s1 Hs1. eapply rtc_inv; [apply sender_step_wake|exact Hs1|apply sender_start_wake]. }
  split; [intros Hz; by apply (Hwake s Hr)|].
  pose proof (si_permits _ (reached_sender_inv w s Hr)) as Hp. unfold MAX_IN_FLIGHT_TRANSACTIONS in Hp.
  destruct (jobs_finish Hans s) as (s1 & Hs1 & Hj & Hm & Hr1 & Hh & Hst & Hq). specialize (Hq Hne).
  destruct (waiting_blocks_hand_out s1) as (s' & m & Hs' & Hd); rewrite ?Hr1, ?Hst; [done..|lia| |].
  - intros Hz. destruct (wi_wake _ (Hwake s1 ltac:(by etransitivity)) ltac:(congruence) Hq)
      as [?|(i & t & Hi & _)]; [done|]. by rewrite Hj in Hi.
  - exists s', m. split; [by etransitivity|congruence].
Qed.

(** A poll of the [select!] that finds the channel ready. *)
Lemma poll_keeps s s1 k :
  sender_step s s1 -> in_select (run_at s) = Some k -> polled s = false ->
  (arrived (stream s) <> [] \/ alive (stream s) = false) ->
  handed_out s1 = handed_out s /\
  (run_at s1 = run_at s /\ polled s1 = false /\ (arrived (stream s) <> [] -> arrived (stream s1) <> []) /\
     (alive (stream s) = false -> alive (stream s1) = false /\ arrived (stream s1) = arrived (stream s)) \/
   arrived (stream s) <> [] /\ run_at s1 = Awaiting sync \/
   arrived (stream s) = [] /\ run_at s1 = RunReturned (Err SubscriptionClosed)).
Proof.
  intros Hs Hk Hp Hready.
  destruct Hs as [s X e kk a x sd w Hr _ _|s X e kk a r Hr _ _|s r Hr|s r Hr|s n Ha|s|s k' n ns Hsel _ Har|s k' Hsel _ Har Hal
    |s k' Hsel Har Hal|s|s n Hr Hpl Hn|s m q i Hr Hpl Hpop Hi|s Hr Hpl Hpop|s Hr Hpl Hrd|s m i Hi|s i t X e kk a x sd w Hi Hc _ _
    |s i t X e kk a r Hi Hc _ _|s i t r Hi Hc|s i t Hi Hc];
    try (rewrite Hr in Hk; done); try congruence; (split; [done|]); simpl.
  all: try (left; by split_and!).
  - left. split_and!; [done|done| |intros; congruence]. intros _ Hnil. by apply app_eq_nil in Hnil as [_ ?].
  - right. left. by rewrite Har.
  - right. right. by rewrite Har.
  - by destruct Hready as [?|?]; congruence.
Qed.

Lemma returned_keeps s s1 r :
  sender_step s s1 -> run_at s = RunReturned r -> handed_out s1 = handed_out s /\ run_at s1 = run_at s.
Proof. intros Hs Hr. destruct Hs; simpl; try done; congruence || (rewrite Hr in *; done). Qed.

(** C7: [select!] is biased to the blocks.  When a poll begins and the channel
    has closed with nothing left in it, nothing is handed out any more, and
    all that [run] can still do is return [SubscriptionClosed]; when a block
    waits, [run] takes it and begins to synchronise before anything is handed
    out. *)
Theorem select_biased s k :
  in_select (run_at s) = Some k -> polled s = false ->
  (arrived (stream s) = [] -> alive (stream s) = false -> forall s', rtc sender_step s s' ->
     handed_out s' = handed_out s /\
     (run_at s' = run_at s \/ run_at s' = RunReturned (Err SubscriptionClosed))) /\
  (arrived (stream s) <> [] -> forall s', rtc sender_step s s' ->
     handed_out s' = handed_out s \/
     exists mid, rtc sender_step s mid /\ rtc sender_step mid s' /\ handed_out mid = handed_out s /\
       run_at mid = Awaiting sync).
Proof.
  intros Hk Hp. split.
  - intros Har Hal s' Hs. eapply (rtc_inv _ (fun s' => handed_out s' = handed_out s /\
      (run_at s' = run_at s /\ polled s' = false /\ arrived (stream s') = [] /\ alive (stream s') = false \/
       run_at s' = RunReturned (Err SubscriptionClosed)))) in Hs; [|clear s' Hs|].
    + destruct Hs as [Hh [(Hr & _)|Hr]]; auto.
    + intros s1 s2 Hs [Hh [(Hr & Hp1 & Ha1 & Hl1)|Hr]].
      * destruct (poll_keeps s1 s2 k Hs) as (Hh2 & Hcase); [congruence|done|by right|]. split; [congruence|].
        destruct Hcase as [(Hr2 & Hp2 & _ & Hl2)|[[? _]|[_ Hr2]]]; [|congruence|by right].
        destruct (Hl2 Hl1) as [? ?]. left. split_and!; congruence.
      * destruct (returned_keeps s1 s2 _ Hs Hr). split; [congruence|]. right. congruence.
    + split; [done|]. left. by split_and!.
  - intros Har s' Hs. revert k Hk Hp Har. induction Hs as [s|s s1 s2 Hs Hrtc IH]; intros k Hk Hp Har; [by left|].
    destruct (poll_keeps s s1 k Hs Hk Hp (or_introl Har)) as (Hh & [(Hr1 & Hp1 & Ha1 & _)|[[_ Hr1]|[? _]]]); [| |done].
    + destruct (IH k) as [Hh2|(mid & H1 & H2 & H3 & H4)]; [congruence|done|by apply Ha1|left; congruence|].
      right. exists mid. split; [by eapply rtc_l|]. split; [done|]. split; [congruence|done].
    + right. exists s1. split; [by apply rtc_once|]. by split_and!.
Qed.

End system.
