(* ===== verification/Ethereum.v ===== *)
(** * The Ethereum adapter ([crates/bulkmail/src/adapter/ethereum.rs])

    [EthE] gathers the events a task of the Ethereum sender performs: the
    critical sections of the gas and nonce managers, the requests to the
    node, the clocks, the queue, the log and the choices of the executor.
    The instances implement the adapter traits by the programs of the code. *)

From stdpp Require Import gmap strings.
From S2P Require Import Prelude Prog Errors Chain BlockPipe Message NonceManager GasPrice Adapter Sender.

(** ** Constants *)

Definition MAX_REPLACEMENTS : Z := 3.
Definition GAS_PRICE_INCREASE_PERCENT : Z := 20.
Definition TX_TIMEOUT : Z := 3.

(** ** Events *)

Inductive EthE : Type -> Type :=
  | NowMs : EthE Z
  | InstantNow : EthE Z
  | Elapsed (since : Z) : EthE Z
  | QueuePush (m : Message) (now : Z) : EthE unit
  | NotifyOne : EthE unit
  | LogError (l : LogLine) : EthE unit
  | Choose : EthE bool
  | Gas {X} (e : GasE X) : EthE X
  | Nonce {X} (e : NonceLock X) : EthE X
  | Chain {X} (e : ChainE X) : EthE X.

#[export] Instance eth_events : SenderEvents EthE := {|
  now_ms := NowMs;
  instant_now := InstantNow;
  elapsed := Elapsed;
  queue_push := QueuePush;
  notify_one := NotifyOne;
  log_error := LogError;
|}.

Definition of_gas {A} : Prog GasE A -> Prog EthE A := embed (fun X e => Gas e).

Definition of_nonce {A} : Prog NonceE A -> Prog EthE A :=
  embed (fun X e => match e with Locked e => Nonce e | NonceRpc e => Chain e end).

(** ** Data *)

Record EthFeeParams := MkEthFee {
  base_fee : Z;        (* u128 *)
  eth_priority_fee : Z;    (* u128 *)
}.

#[export] Instance Eth : ChainAdapter := {|
  FeeParams := EthFeeParams;
  ReplayToken := Z;
  TxId := Z;
|}.

Section ethereum.
Context `{BuildProfile}.

(** ** [EthClient] *)

Definition chain_id : Prog EthE Z := trigger (Chain ChainId).

Definition eth_subscribe_new_blocks : Prog EthE (result unit Error) :=
  r ← trigger (Chain SubscribeNewBlocks);
  Ret (from_chain r).

Definition eth_get_block_number : Prog EthE (result Z Error) :=
  r ← trigger (Chain GetBlockNumber);
  Ret (from_chain r).

(** [TxEip1559 { .. }]: the sum of the fees is a checked [u128] addition. *)
Definition build_tx (id : Z) (msg : Message) (fee : EthFeeParams) (nonce : Z) : run TxEip1559 :=
  max_fee ← add_w u128 (base_fee fee) (eth_priority_fee fee);
  Val {| tx_chain_id := id;
         tx_to := to msg;
         tx_value := value msg;
         tx_input := data msg;
         tx_nonce := nonce;
         tx_gas_limit := gas msg;
         tx_max_fee_per_gas := max_fee;
         tx_max_priority_fee_per_gas := eth_priority_fee fee |}.

Definition eth_send_transaction (msg : Message) (fee : EthFeeParams) (nonce : Z)
    : Prog EthE (result SendOutcome Error) :=
  id ← chain_id;
  tx ← lift (build_tx id msg fee nonce);
  tx_hash ?← prog_bind (trigger (Chain (SendTransaction tx))) (fun r => Ret (from_chain r));
  _ ?← prog_bind (trigger (Chain (Register tx_hash 1 TX_TIMEOUT)))
         (fun r => Ret (from_pending r));
  pending ← trigger (Chain (AwaitPending tx_hash));
  match pending with
  | Ok _hash =>
      receipt ← trigger (Chain (GetReceipt tx_hash));
      match receipt with
      | Ok (Some receipt) =>
          if status receipt then Ret (Ok (Confirmed tx_hash)) else Ret (Ok (Reverted tx_hash))
      | Ok None => Ret (Ok (Dropped tx_hash))
      | Err e => Ret (Ok (Dropped tx_hash))
      end
  | Err _ => Ret (Ok (Dropped tx_hash))
  end.

Definition eth_get_transaction_status (tx_hash : Z) : Prog EthE (result TransactionStatus Error) :=
  receipt ← trigger (Chain (GetReceipt tx_hash));
  Ret match receipt with
      | Ok (Some receipt) =>
          if status receipt then Ok (StatusConfirmed (default 0 (block_number receipt)))
          else Ok (StatusFailed "reverted"%string)
      | Ok None => Ok StatusPending
      | Err e => Err (ChainError e)
      end.

#[export] Instance EthClient : ChainClient EthE := {|
  subscribe_new_blocks := eth_subscribe_new_blocks;
  get_block_number := eth_get_block_number;
  send_transaction := eth_send_transaction;
  get_transaction_status := eth_get_transaction_status;
|}.

(** ** [EthFeeManager] *)

Definition bump_by_percent (n percent : Z) : run Z :=
  scaled ← mul_w u128 n percent;
  add_w u128 n (scaled / 100).

Definition EthFeeManager_new : GasPriceManager := GasPriceManager_new.
Definition EthFeeManager_default : GasPriceManager := EthFeeManager_new.

Definition eth_get_fee_params (priority : Z) : Prog EthE (result EthFeeParams Error) :=
  price ?← of_gas (get_gas_price priority);
  let '(base_fee, priority_fee) := price in
  Ret (Ok {| base_fee := base_fee; eth_priority_fee := priority_fee |}).

Definition eth_update_on_confirmation (confirmation_time : Z) (fee_paid : EthFeeParams)
    : Prog EthE unit :=
  of_gas (gas_update_on_confirmation confirmation_time (eth_priority_fee fee_paid)).

Definition eth_bump_fee (current : EthFeeParams) : run EthFeeParams :=
  fee ← bump_by_percent (eth_priority_fee current) GAS_PRICE_INCREASE_PERCENT;
  Val {| base_fee := base_fee current; eth_priority_fee := fee |}.

Definition eth_get_base_fee : Prog EthE EthFeeParams :=
  base_fee ← of_gas gas_get_base_fee;
  Ret {| base_fee := base_fee; eth_priority_fee := 0 |}.

#[export] Instance EthFeeManager : FeeManager EthE := {|
  get_fee_params := eth_get_fee_params;
  update_on_confirmation := eth_update_on_confirmation;
  bump_fee := eth_bump_fee;
  get_base_fee := eth_get_base_fee;
|}.

(** ** [EthReplayProtection] *)

Context (address : Z).

Definition EthReplayProtection_new : Prog EthE (result NonceState Error) :=
  of_nonce (NonceManager_new address).

Definition release_nonce (nonce : Z) : Prog EthE unit := trigger (Nonce (MarkAvailable nonce)).
Definition confirm_nonce (nonce : Z) : Prog EthE unit := trigger (Nonce (UpdateCurrent nonce)).

Definition eth_next : Prog EthE Z := trigger (Nonce TakeNext).
Definition eth_sync : Prog EthE (result unit Error) := of_nonce (sync_nonce address).
Definition eth_release (token : Z) : Prog EthE unit := trigger (Nonce (MarkAvailable token)).

#[export] Instance EthReplayProtection : ReplayProtection EthE := {|
  next := eth_next;
  sync := eth_sync;
  release := eth_release;
|}.

(** ** [EthRetryStrategy] *)

Definition eth_handle_dropped (pending : PendingTransaction) : Prog EthE RetryDecision :=
  if negb (can_retry (pd_msg pending)) then
    release_nonce (pd_replay_token pending);;
    Ret Abandon
  else if pd_replacement_count pending >=? MAX_REPLACEMENTS then
    release_nonce (pd_replay_token pending);;
    Ret Requeue
  else
    new_fee ← lift (eth_bump_fee (pd_fee pending));
    Ret (Resubmit new_fee (pd_replay_token pending)).

(** [futures::future::join] of the two updates. *)
Definition eth_handle_confirmed (pending : PendingTransaction) (confirmation_time : Z)
    : Prog EthE unit :=
  _ ← join Choose (eth_update_on_confirmation confirmation_time (pd_fee pending))
                  (confirm_nonce (pd_replay_token pending));
  Ret tt.

#[export] Instance EthRetryStrategy : RetryStrategy EthE := {|
  handle_dropped := eth_handle_dropped;
  handle_confirmed := eth_handle_confirmed;
|}.

End ethereum.

(** ** Running the adapter alone *)

(** The client of the chain and what is behind it: the wallet, the node, and
    Alloy's watcher of a sent transaction. *)
Record Backend := MkBackend {
  bk_chain : ChainClientWs;
  bk_sign : TxEip1559 -> result TxEnvelope string;
  bk_broadcast : TxEnvelope -> result Z RpcErrorKind;
  bk_block_number : result Z RpcErrorKind;
  bk_transaction_count : Z -> result Z RpcErrorKind;
  bk_receipt : Z -> result (option Receipt) RpcErrorKind;
  bk_subscribes : result unit RpcErrorKind;
  bk_register : Z -> result unit string;
  bk_await : Z -> result Z string;
}.

(** The managers, the order the executor chooses for [join], and the envelopes
    that the node was asked to broadcast, latest last. *)
Record Alone := MkAlone {
  al_gas : GasPriceManager;
  al_nonces : NonceState;
  al_choices : list bool;
  al_broadcast : list TxEnvelope;
}.

Section alone.
Context `{BuildProfile} (node : Backend).

Definition set_al_gas (g : GasPriceManager) (s : Alone) : Alone :=
  {| al_gas := g; al_nonces := al_nonces s; al_choices := al_choices s;
     al_broadcast := al_broadcast s |}.
Definition set_al_nonces (n : NonceState) (s : Alone) : Alone :=
  {| al_gas := al_gas s; al_nonces := n; al_choices := al_choices s;
     al_broadcast := al_broadcast s |}.
Definition set_al_choices (l : list bool) (s : Alone) : Alone :=
  {| al_gas := al_gas s; al_nonces := al_nonces s; al_choices := l;
     al_broadcast := al_broadcast s |}.
Definition set_al_broadcast (l : list TxEnvelope) (s : Alone) : Alone :=
  {| al_gas := al_gas s; al_nonces := al_nonces s; al_choices := al_choices s;
     al_broadcast := l |}.

(** A method of [Chain], over the backend. *)
Definition by_chain {X} (p : Prog AlloyE X) (s : Alone) : run (X * Alone) :=
  let '(r, log) := run_alone (alloy (Ok tt) (bk_sign node) (bk_broadcast node) (bk_block_number node)
    (bk_transaction_count node) (bk_receipt node) (bk_subscribes node)) p (al_broadcast s) in
  x ← r;
  Val (x, set_al_broadcast log s).

Definition alone_chain (X : Type) (e : ChainE X) (s : Alone) : run (X * Alone) :=
  match e in ChainE X return run (X * Alone) with
  | ChainId => Val (Chain_id (bk_chain node), s)
  | SendTransaction tx => by_chain (Chain_send_transaction tx) s
  | Register h _ _ => Val (bk_register node h, s)
  | AwaitPending h => Val (bk_await node h, s)
  | GetReceipt h => by_chain (Chain_get_receipt h) s
  | GetAccountNonce a => by_chain (Chain_get_account_nonce a) s
  | GetBlockNumber => by_chain Chain_get_block_number s
  | SubscribeNewBlocks => by_chain Chain_subscribe_new_blocks s
  end.

Definition alone (X : Type) (e : EthE X) (s : Alone) : run (X * Alone) :=
  match e in EthE X return run (X * Alone) with
  | NowMs => Val (0, s)
  | InstantNow => Val (0, s)
  | Elapsed _ => Val (0, s)
  | QueuePush _ _ => Val (tt, s)
  | NotifyOne => Val (tt, s)
  | LogError _ => Val (tt, s)
  | Choose =>
      match al_choices s with
      | [] => Val (true, s)
      | b :: l => Val (b, set_al_choices l s)
      end
  | Gas e => '(x, g) ← gas_handle _ e (al_gas s); Val (x, set_al_gas g s)
  | Nonce e => '(x, n) ← nonce_handle _ e (al_nonces s); Val (x, set_al_nonces n s)
  | Chain e => alone_chain _ e s
  end.

Lemma bump_by_percent_small n :
  0 <= n < 2 ^ 120 ->
  bump_by_percent n GAS_PRICE_INCREASE_PERCENT = Val (n + n * 20 / 100).
Proof.
  intros Hn. unfold bump_by_percent, GAS_PRICE_INCREASE_PERCENT.
  change (2 ^ 120) with 1329227995784915872903807060280344576 in Hn.
  rewrite mul_w_ok by word. simpl. by rewrite add_w_ok by word.
Qed.

(** The transaction was signed, and the node took it under the hash [h]. *)
Definition sent_as (tx : TxEip1559) (h : Z) : Prop :=
  exists env, bk_sign node tx = Ok env /\ bk_broadcast node env = Ok h.

(** Its watcher was registered. *)
Definition watched_as (tx : TxEip1559) (h : Z) : Prop := sent_as tx h /\ bk_register node h = Ok tt.

(** Its watcher fired and the receipt has the status [b]. *)
Definition receipt_status (h : Z) (b : bool) : Prop :=
  exists h' receipt, bk_await node h = Ok h' /\ bk_receipt node h = Ok (Some receipt) /\ status receipt = b.

(** Its watcher gave up, or there is no receipt. *)
Definition out_of_sight (h : Z) : Prop :=
  (exists e, bk_await node h = Err e) \/
  exists h', bk_await node h = Ok h' /\ (bk_receipt node h = Ok None \/ exists e, bk_receipt node h = Err e).

Lemma by_chain_send tx s :
  by_chain (Chain_send_transaction tx) s =
    match bk_sign node tx with
    | Err m => Val (Err (Signing m), s)
    | Ok env => Val (from_rpc (bk_broadcast node env), set_al_broadcast (al_broadcast s ++ [env]) s)
    end.
Proof.
  unfold by_chain. simpl. destruct (bk_sign node tx) as [env|m]; simpl; [|by destruct s].
  by destruct (bk_broadcast node env).
Qed.

Lemma by_chain_receipt h s : by_chain (Chain_get_receipt h) s = Val (from_rpc (bk_receipt node h), s).
Proof. unfold by_chain. simpl. destruct (bk_receipt node h); by destruct s. Qed.

(** Both directions of every branch of a send. *)
Ltac outcomes :=
  unfold watched_as, sent_as, receipt_status, out_of_sight;
  eexists; split; [reflexivity|]; split_and!; intros ?; split; intros Hx;
  decompose [ex and or] Hx; simplify_eq; try congruence; eauto 20.

(** ** Properties *)

(** C23: a send signs the transaction with the fields of the message, the
    nonce, the tip and a max fee of base fee plus tip, and asks the node to
    broadcast the signed envelope exactly once, unless the wallet refuses to
    sign: then nothing is broadcast.  It is [Confirmed] or [Reverted] with its
    hash exactly when the node took it, its watcher was registered and fired,
    and the receipt has status true or false; [Dropped] with its hash exactly
    when it was watched and the watcher gave up or no receipt could be had; an
    error exactly when the signature, the broadcast or the registration was
    refused, the last although the transaction is out.  A max fee beyond u128
    panics before anything is signed, with overflow checks on. *)
Theorem send_transaction_outcomes msg fee nonce s :
  (in_range u128 (base_fee fee + eth_priority_fee fee) ->
   let tx := MkTx (ws_chain_id (bk_chain node)) (to msg) (value msg) (data msg) nonce (gas msg)
     (base_fee fee + eth_priority_fee fee) (eth_priority_fee fee) in
   exists r,
    run_alone alone (eth_send_transaction msg fee nonce) s =
      (Val r, match bk_sign node tx with
              | Ok env => set_al_broadcast (al_broadcast s ++ [env]) s
              | Err _ => s
              end) /\
    (forall h, r = Ok (Confirmed h) <-> watched_as tx h /\ receipt_status h true) /\
    (forall h, r = Ok (Reverted h) <-> watched_as tx h /\ receipt_status h false) /\
    (forall h, r = Ok (Dropped h) <-> watched_as tx h /\ out_of_sight h) /\
    (forall e, r = Err e <->
       (exists m, e = ChainError (Signing m) /\ bk_sign node tx = Err m) \/
       (exists env ke, e = ChainError (Rpc ke) /\ bk_sign node tx = Ok env /\ bk_broadcast node env = Err ke) \/
       (exists h m, e = PendingTransactionError m /\ sent_as tx h /\ bk_register node h = Err m))) /\
  (~ in_range u128 (base_fee fee + eth_priority_fee fee) -> overflow_checks = true ->
   run_alone alone (eth_send_transaction msg fee nonce) s = (Panic Overflow, s)).
Proof.
  split.
  - intros Hr tx. unfold eth_send_transaction, build_tx. rewrite add_w_ok by done. simpl. unfold Chain_id. fold tx.
    rewrite by_chain_send. destruct (bk_sign node tx) as [env|m] eqn:Hsign; simpl; [|outcomes].
    destruct (bk_broadcast node env) as [h|ke] eqn:Hsend; simpl; [|outcomes].
    destruct (bk_register node h) as [[]|m] eqn:Hreg; simpl; [|outcomes].
    destruct (bk_await node h) as [h'|e] eqn:Hwait; simpl; [|outcomes].
    rewrite by_chain_receipt. destruct (bk_receipt node h) as [[receipt|]|e] eqn:Hrec; simpl; [|outcomes..].
    destruct (status receipt) eqn:Hst; outcomes.
  - intros Hr Hc. unfold eth_send_transaction, build_tx, add_w. rewrite arith_overflow by done. simpl. by rewrite Hc.
Qed.

(** C24: a bump keeps the base fee and multiplies the tip by 1.2, rounding
    down: a tip below 5 wei is not raised, and the max fee rises by less than
    10% when the tip is below the base fee; a tip whose product by 20 leaves
    u128 panics when overflow checks are on. *)
Theorem bump_fee_effect fee :
  0 <= eth_priority_fee fee -> 0 <= base_fee fee ->
  (eth_priority_fee fee < 2 ^ 120 ->
   exists fee', eth_bump_fee fee = Val fee' /\ base_fee fee' = base_fee fee /\
     eth_priority_fee fee' = eth_priority_fee fee * 120 / 100 /\
     (eth_priority_fee fee' = eth_priority_fee fee <-> eth_priority_fee fee < 5) /\
     (eth_priority_fee fee < base_fee fee ->
      10 * (eth_priority_fee fee' - eth_priority_fee fee) <
        base_fee fee + eth_priority_fee fee)) /\
  (2 ^ 128 <= eth_priority_fee fee * 20 -> overflow_checks = true ->
   eth_bump_fee fee = Panic Overflow).
Proof.
  intros Ht Hb. split.
  - intros Hlt. unfold eth_bump_fee.
    rewrite bump_by_percent_small by done. simpl. eexists. split; [done|]. simpl.
    repeat split; try word.
  - intros Hge Hc.
    unfold eth_bump_fee, bump_by_percent, mul_w, GAS_PRICE_INCREASE_PERCENT.
    rewrite arith_overflow by (unfold in_range; lia). by rewrite Hc.
Qed.

(** A dropped transaction whose message may retry is resubmitted under
    its own nonce with the bumped tip and touches nothing; after three
    replacements, or with no retry left, the nonce is released and the
    message is requeued or abandoned. *)
Theorem handle_dropped_decides pd s :
  0 <= eth_priority_fee (pd_fee pd) < 2 ^ 120 ->
  run_alone alone (eth_handle_dropped pd) s =
    (let released := set_al_nonces (mark_nonce_available (pd_replay_token pd) (al_nonces s)) s in
     if decide (MAX_RETRIES <= retry_count (pd_msg pd)) then (Val Abandon, released)
     else if decide (MAX_REPLACEMENTS <= pd_replacement_count pd) then (Val Requeue, released)
     else (Val (Resubmit {| base_fee := base_fee (pd_fee pd);
                            eth_priority_fee := eth_priority_fee (pd_fee pd) +
                              eth_priority_fee (pd_fee pd) / 5 |}
                (pd_replay_token pd)), s)).
Proof.
  intros Ht. unfold eth_handle_dropped, can_retry.
  destruct (Z.ltb_spec (retry_count (pd_msg pd)) MAX_RETRIES);
    [rewrite decide_False by lia|rewrite decide_True by lia; done].
  simpl. rewrite Z.geb_leb.
  destruct (Z.leb_spec MAX_REPLACEMENTS (pd_replacement_count pd));
    [rewrite decide_True by lia; done|rewrite decide_False by lia].
  unfold eth_bump_fee. rewrite bump_by_percent_small by done. simpl.
  replace (eth_priority_fee (pd_fee pd) * 20 / 100) with (eth_priority_fee (pd_fee pd) / 5); [done|].
  word.
Qed.

(** The state after a confirmation of [pd] with latency [d]. *)
Definition confirmed_state (pd : PendingTransaction) (d : Z) (s : Alone) (l : list bool) : Alone :=
  set_al_choices l
    (set_al_nonces (update_current_nonce (pd_replay_token pd) (al_nonces s))
      (set_al_gas {| confirmation_times := push_confirmation_time d (confirmation_times (al_gas s));
                     priority_fee := (priority_fee (al_gas s) + eth_priority_fee (pd_fee pd)) / 2 |}
        s)).

(** C25: in whatever order the executor runs the two updates of a
    confirmation, the gas manager and the nonce manager end in the same
    state; the confirmed count becomes the confirmed nonce itself, so that
    nonce stays reserved until a later update moves past it. *)
Theorem handle_confirmed_any_order pd d s :
  gas_ok (al_gas s) -> 0 <= d < latency_bound ->
  0 <= eth_priority_fee (pd_fee pd) <= MAX_USED_FEE ->
  pd_replay_token pd ∈ in_flight (al_nonces s) ->
  exists l, let s' := confirmed_state pd d s l in
    run_alone alone (eth_handle_confirmed pd d) s = (Val tt, s') /\
    pd_replay_token pd ∈ in_flight (al_nonces s') /\
    current (al_nonces s') = Z.max (current (al_nonces s)) (pd_replay_token pd) /\
    (forall n, pd_replay_token pd < n -> current (al_nonces s) < n ->
       pd_replay_token pd ∉ in_flight (update_current_nonce n (al_nonces s'))).
Proof.
  intros Hg Hd Hf Hin.
  pose proof (push_confirmation_time_ok _ d Hg Hd) as Hg1.
  destruct (blend_priority_fee_ok _ _ Hg1 Hf) as [Hb _]. simpl in Hb.
  assert (forall l, let s' := confirmed_state pd d s l in
    pd_replay_token pd ∈ in_flight (al_nonces s') /\
    current (al_nonces s') = Z.max (current (al_nonces s)) (pd_replay_token pd) /\
    (forall n, pd_replay_token pd < n -> current (al_nonces s) < n ->
       pd_replay_token pd ∉ in_flight (update_current_nonce n (al_nonces s')))) as Hfacts.
  { intros l s'. simpl. split; [rewrite elem_of_update; split; [done|lia]|].
    split; [apply current_update|]. intros n Hn Hc. rewrite elem_of_update, current_update. lia. }
  destruct s as [g nc choices out]. simpl in *.
  unfold confirmed_state, set_al_choices, set_al_gas, set_al_nonces in *.
  destruct choices as [|[|] [|[|] choices]]; simpl; rewrite Hb; simpl;
    eexists; (split; [done|apply (Hfacts [])]).
Qed.

End alone.

Section witnesses.
#[local] Instance ci_overflow : BuildProfile := true.

Definition good_node : Backend := {|
  bk_chain := MkChainWs 1;
  bk_sign := fun tx => Ok (MkEnvelope tx 7);
  bk_broadcast := fun _ => Ok 99;
  bk_block_number := Ok 12;
  bk_transaction_count := fun _ => Ok 3;
  bk_receipt := fun _ => Ok (Some {| status := true; block_number := Some 12 |});
  bk_subscribes := Ok tt;
  bk_register := fun _ => Ok tt;
  bk_await := fun _ => Ok 99;
|}.

Definition demo_fee : EthFeeParams := {| base_fee := 2000000000; eth_priority_fee := 1000000000 |}.
Definition demo_msg : Message := Message_new (Some 42) 21000 7 [] 50 None 1000.

Definition demo_alone : Alone := {|
  al_gas := GasPriceManager_new;
  al_nonces := {| current := 3; in_flight := {[3; 4]} |};
  al_choices := [false];
  al_broadcast := [];
|}.

Definition demo_pending : PendingTransaction :=
  {| pd_msg := demo_msg; pd_tx_id := 99 : TxId (ChainAdapter := Eth);
     pd_fee := demo_fee : FeeParams (ChainAdapter := Eth);
     pd_replay_token := 4 : ReplayToken (ChainAdapter := Eth); pd_created_at := 0;
     pd_replacement_count := 0 |}.

Lemma send_transaction_outcomes_witness :
  exists r s, run_alone (alone good_node) (eth_send_transaction demo_msg demo_fee 4) demo_alone =
    (Val r, s) /\ r = Ok (Confirmed 99).
Proof.
  destruct (send_transaction_outcomes good_node demo_msg demo_fee 4 demo_alone) as [Hfits _].
  destruct (Hfits ltac:(by vm_compute)) as (r & Hrun & Hconf & _).
  eexists r, _. split; [exact Hrun|]. apply Hconf. split.
  - split; [by eexists|reflexivity].
  - by eexists _, _.
Defined.

Lemma bump_fee_effect_witness :
  exists fee', eth_bump_fee demo_fee = Val fee' /\ eth_priority_fee fee' = 1200000000.
Proof.
  destruct (bump_fee_effect demo_fee ltac:(simpl; lia) ltac:(simpl; lia)) as [H _].
  destruct (H ltac:(by vm_compute)) as (fee' & H1 & _ & H2 & _).
  exists fee'. split; [exact H1|exact H2].
Defined.

Lemma handle_dropped_decides_witness :
  fst (run_alone (alone good_node) (eth_handle_dropped demo_pending) demo_alone) =
    Val (Resubmit {| base_fee := 2000000000; eth_priority_fee := 1200000000 |} 4).
Proof. rewrite (handle_dropped_decides good_node demo_pending demo_alone); by vm_compute. Defined.

Lemma handle_confirmed_any_order_witness :
  exists l, run_alone (alone good_node) (eth_handle_confirmed demo_pending (from_secs 13)) demo_alone =
    (Val tt, confirmed_state demo_pending (from_secs 13) demo_alone l).
Proof.
  destruct (handle_confirmed_any_order good_node demo_pending (from_secs 13) demo_alone)
    as (l & H & _).
  - split; simpl; [lia|intros x Hx; by apply elem_of_nil in Hx|by vm_compute].
  - by vm_compute.
  - by vm_compute.
  - simpl. set_solver.
  - exists l. exact H.
Defined.
End witnesses.
