(* ===== verification/EthContract.v ===== *)
(** * The Ethereum adapter keeps its contract with the sender

    [eth_protocol] is the discipline of one task of the Ethereum sender, which
    is a call of [add_message] or was spawned for a message.  A call pushes
    its message once and then notifies.  A spawned task takes one nonce at
    most, sends only what its message says and only with that nonce, replaces
    its transaction only by the same one with a tip bumped by 20%, at most
    [MAX_RETRIES] times in all, gives the nonce back at most once and never
    after a confirmation, and pushes nothing.  The protocol also states what
    the environment may answer.  [eth_contract] shows that the adapter
    implements [AdapterContract] for it, so every task of the sender follows
    the discipline. *)

From stdpp Require Import gmap strings.
From S2P Require Import Prelude Prog Errors Chain Message NonceManager GasPrice Adapter Sender Ethereum.

(** ** The protocol *)

(** What a task is for: a call of [add_message], or the dispatched message
    number [job]. *)
Inductive Role :=
  | Caller (m : Message)
  | Worker (job : nat) (m : Message).

Inductive Phase :=
  | Free
  | Pushed
  | Held (nonce : Z)
  | Released (nonce : Z)
  | Settled (nonce : Z).

(** The past of a task. *)
Record Hold := MkHold {
  phase : Phase;
  txs : list TxEip1559;   (* what it has sent, latest first *)
  owes : bool;   (* it pushed a message and has not yet notified the run loop *)
}.

Definition free : Hold := {| phase := Free; txs := []; owes := false |}.

Definition set_phase (p : Phase) (q : Hold) : Hold :=
  {| phase := p; txs := txs q; owes := owes q |}.
Definition set_owes (b : bool) (q : Hold) : Hold :=
  {| phase := phase q; txs := txs q; owes := b |}.

(** The message's own part of a transaction. *)
Definition carries (m : Message) (tx : TxEip1559) : Prop :=
  tx_to tx = to m /\ tx_value tx = value m /\ tx_input tx = data m /\ tx_gas_limit tx = gas m.

(** [tx] replaces [tx0]: the same transaction with the tip bumped by 20%. *)
Definition replaces (tx0 tx : TxEip1559) : Prop :=
  let tip0 := tx_max_priority_fee_per_gas tx0 in
  let tip := tx_max_priority_fee_per_gas tx in
  tx_chain_id tx = tx_chain_id tx0 /\ tx_to tx = tx_to tx0 /\ tx_value tx = tx_value tx0 /\
  tx_input tx = tx_input tx0 /\ tx_nonce tx = tx_nonce tx0 /\
  tx_gas_limit tx = tx_gas_limit tx0 /\
  tip = tip0 + tip0 * GAS_PRICE_INCREASE_PERCENT / 100 /\
  tx_max_fee_per_gas tx - tip = tx_max_fee_per_gas tx0 - tip0.

Definition may_send (chain_id : Z) (role : Role) (tx : TxEip1559) (q : Hold) : Prop :=
  (exists job m, role = Worker job m /\ carries m tx) /\
  phase q = Held (tx_nonce tx) /\ tx_chain_id tx = chain_id /\
  (length (txs q) < Z.to_nat MAX_RETRIES)%nat /\
  tx_max_priority_fee_per_gas tx <= MAX_USED_FEE /\
  (forall tx0, head (txs q) = Some tx0 -> replaces tx0 tx).

Definition eth_may (chain_id : Z) (role : Role) {X} (e : EthE X) (q : Hold) : Prop :=
  match e with
  | QueuePush m now => role = Caller m /\ phase q = Free /\ message_sane m /\ clock_ok now
  | Gas e =>
      match e with
      | PushConfirmationTime d => 0 <= d < latency_bound
      | BlendPriorityFee used => 0 <= used <= MAX_USED_FEE
      | _ => True
      end
  | Nonce e =>
      match e with
      | TakeNext => phase q = Free /\ exists job m, role = Worker job m
      | MarkAvailable n => phase q = Held n
      | UpdateCurrent n => phase q = Held n
      end
  | Chain e =>
      match e with
      | SendTransaction tx => may_send chain_id role tx q
      | _ => True
      end
  | _ => True
  end.

Definition chain_answers (chain_id : Z) {X} (e : ChainE X) : X -> Prop :=
  match e in ChainE X return X -> Prop with
  | ChainId => fun x => x = chain_id
  | _ => fun _ => True
  end.

Definition gas_answers {X} (e : GasE X) : X -> Prop :=
  match e in GasE X return X -> Prop with
  | ReadPriorityFee => fun fee => 0 <= fee <= MAX_USED_FEE
  | ReadConfirmationTimes => fun times =>
      (length times <= CONFIRMATION_TIME_WINDOW)%nat /\
      forall d, d ∈ times -> 0 <= d < latency_bound
  | _ => fun _ => True
  end.

Definition eth_answers (chain_id : Z) {X} (e : EthE X) (q : Hold) : X -> Prop :=
  match e in EthE X return X -> Prop with
  | NowMs => clock_ok
  | Elapsed _ => fun d => 0 <= d < latency_bound
  | Gas e => gas_answers e
  | Chain e => chain_answers chain_id e
  | _ => fun _ => True
  end.

Definition nonce_next {X} (e : NonceLock X) (q : Hold) : X -> Hold :=
  match e in NonceLock X return X -> Hold with
  | TakeNext => fun n => set_phase (Held n) q
  | MarkAvailable n => fun _ => set_phase (Released n) q
  | UpdateCurrent n => fun _ => set_phase (Settled n) q
  end.

Definition eth_next_state {X} (e : EthE X) (q : Hold) : X -> Hold :=
  match e in EthE X return X -> Hold with
  | Nonce e => nonce_next e q
  | Chain e => fun _ =>
      match e with
      | SendTransaction tx => {| phase := phase q; txs := tx :: txs q; owes := owes q |}
      | _ => q
      end
  | QueuePush _ _ => fun _ => set_phase Pushed (set_owes true q)
  | NotifyOne => fun _ => set_owes false q
  | _ => fun _ => q
  end.

(** No task may panic. *)
Definition eth_protocol (chain_id : Z) (role : Role) : protocol EthE Hold := {|
  may := @eth_may chain_id role;
  answers := @eth_answers chain_id;
  next_state := @eth_next_state;
  may_crash := fun _ _ => False;
|}.

(** ** The states of the contract *)

(** The largest tip with [k] sends left. *)
Definition tip_cap (k : nat) : Z :=
  match k with
  | 0%nat | 1%nat => MAX_USED_FEE
  | 2%nat => 120000000000
  | _ => MAX_PRIORITY_FEE
  end.

Definition fee_in_cap (k : nat) (f : EthFeeParams) : Prop :=
  base_fee f = INITIAL_BASE_FEE /\ 0 <= eth_priority_fee f <= tip_cap k.

Section contract.
Context `{BuildProfile} (chain_id address : Z).
#[local] Instance replay_at : ReplayProtection EthE := EthReplayProtection address.

Context (job : nat) (m0 : Message).

#[local] Abbreviation proto := (eth_protocol chain_id (Worker job m0)).

Definition eth_idle (q : Hold) : Prop := phase q = Free /\ txs q = [] /\ owes q = false.
Definition eth_spent (q : Hold) : Prop := (exists n, phase q = Released n) /\ owes q = false.
Definition eth_settled (q : Hold) : Prop := (exists n, phase q = Settled n) /\ owes q = false.
Definition eth_holding (t : Z) (q : Hold) : Prop := phase q = Held t /\ owes q = false.

Definition eth_fresh (t : Z) (q : Hold) : Prop := eth_holding t q /\ txs q = [].

Definition eth_ready (k : nat) (m : Message) (f : EthFeeParams) (t : Z) (q : Hold) : Prop :=
  eth_holding t q /\ (length (txs q) + k <= Z.to_nat MAX_RETRIES)%nat /\ fee_in_cap k f /\
  (forall tx0, head (txs q) = Some tx0 ->
     exists tx, build_tx chain_id m f t = Val tx /\ replaces tx0 tx).

Definition eth_sent (k : nat) (pd : PendingTransaction) (q : Hold) : Prop :=
  eth_holding (pd_replay_token pd) q /\
  (length (txs q) + k <= Z.to_nat MAX_RETRIES)%nat /\ fee_in_cap (S k) (pd_fee pd) /\
  exists tx, build_tx chain_id (pd_msg pd) (pd_fee pd) (pd_replay_token pd) = Val tx /\
    head (txs q) = Some tx.

Lemma tip_cap_bound k : tip_cap k <= MAX_USED_FEE.
Proof. unfold tip_cap, MAX_USED_FEE, MAX_PRIORITY_FEE. repeat case_match; lia. Qed.

Lemma build_tx_ok k m f t :
  fee_in_cap k f -> exists tx, build_tx chain_id m f t = Val tx /\ tx_nonce tx = t /\
    tx_max_priority_fee_per_gas tx = eth_priority_fee f.
Proof.
  intros [Hb Hf]. pose proof (tip_cap_bound k). unfold build_tx, MAX_USED_FEE in *.
  rewrite add_w_ok by (rewrite Hb; unfold INITIAL_BASE_FEE; word). by eexists.
Qed.

(** A bump from the cap with [S (S k)] sends left stays in the next cap. *)
Lemma bump_fee_ok k f :
  (k <= 1)%nat -> fee_in_cap (S (S k)) f ->
  exists f', eth_bump_fee f = Val f' /\ fee_in_cap (S k) f' /\
    eth_priority_fee f' = eth_priority_fee f + eth_priority_fee f * 20 / 100.
Proof.
  intros Hk [Hb Hf]. unfold eth_bump_fee.
  pose proof (tip_cap_bound (S (S k))) as Hcap. unfold MAX_USED_FEE in Hcap.
  rewrite bump_by_percent_small.
  2: { split; [lia|]. apply Z.le_lt_trans with 144000000000; [lia|reflexivity]. }
  eexists. split; [done|]. split; [|done]. split; [done|]. simpl.
  unfold tip_cap, MAX_PRIORITY_FEE, MAX_USED_FEE in *.
  destruct k as [|[|k]]; [| |lia]; word.
Qed.

Lemma eth_fee_ok t q priority :
  eth_fresh t q -> 0 <= priority ->
  wp proto (eth_get_fee_params priority) q (fun r q' =>
    match r with
    | Ok f => forall k, (k <= Z.to_nat MAX_RETRIES)%nat -> eth_ready k m0 f t q'
    | Err _ => eth_holding t q'
    end).
Proof.
  intros (Hh & Hl) Hp. simpl. split; [done|]. intros fee Hfee.
  split; [done|]. intros times [Hlen Htimes].
  destruct (congestion_of_ok {| confirmation_times := times; priority_fee := fee |})
    as [c Hc]; [done|]. simpl in Hc. rewrite Hc. simpl.
  rewrite scale_priority_fee_eq; [simpl| |done].
  2: { unfold MAX_USED_FEE in Hfee. split; [lia|].
       apply Z.le_lt_trans with 144000000000; [lia|reflexivity]. }
  intros k Hk. split; [done|]. split; [by rewrite Hl|]. split; [|by rewrite Hl].
  split; [done|]. simpl.
  assert (0 <= scaled_fee fee c priority) as H0.
  { unfold scaled_fee. apply Z.div_pos; [|lia].
    assert (0 <= Z.min priority MAX_PRIORITY <= 100) as Hm by (unfold MAX_PRIORITY; lia).
    pose proof (percent_of_range _ Hm). pose proof (congestion_factor_range c). nia. }
  unfold tip_cap, MAX_USED_FEE, MAX_PRIORITY_FEE. repeat case_match; lia.
Qed.

Lemma eth_release_ok t q :
  eth_holding t q -> wp proto (eth_release t) q (fun _ q' => eth_spent q').
Proof. intros [Hh Ho]. simpl. split; [done|]. intros _ _. split; [by eexists|done]. Qed.

Lemma build_tx_fields m f t tx :
  build_tx chain_id m f t = Val tx -> in_range u128 (base_fee f + eth_priority_fee f) ->
  tx = {| tx_chain_id := chain_id; tx_to := to m; tx_value := value m; tx_input := data m;
          tx_nonce := t; tx_gas_limit := gas m;
          tx_max_fee_per_gas := base_fee f + eth_priority_fee f;
          tx_max_priority_fee_per_gas := eth_priority_fee f |}.
Proof. intros Htx Hr. unfold build_tx in Htx. rewrite add_w_ok in Htx by done. by injection Htx. Qed.

Lemma fee_in_cap_range k f : fee_in_cap k f -> in_range u128 (base_fee f + eth_priority_fee f).
Proof.
  intros [-> Hf]. pose proof (tip_cap_bound k). unfold MAX_USED_FEE, INITIAL_BASE_FEE in *. word.
Qed.

(** Sending: the transaction is the one that [ready] announces. *)
Lemma ready_may_send k m f t q :
  same_intent m0 m -> eth_ready (S k) m f t q ->
  exists tx, build_tx chain_id m f t = Val tx /\ may_send chain_id (Worker job m0) tx q.
Proof.
  intros [n ->] ([Hp Ho] & Hk & Hf & Hr).
  destruct (build_tx_ok (S k) (set_retry_count m0 n) f t Hf) as (tx & Htx & _).
  pose proof (build_tx_fields _ _ _ _ Htx (fee_in_cap_range _ _ Hf)) as Hfields.
  assert (forall tx0, head (txs q) = Some tx0 -> replaces tx0 tx) as Hrep.
  { intros tx0 Hl. destruct (Hr tx0 Hl) as (tx' & Htx' & ?). congruence. }
  pose proof (tip_cap_bound (S k)) as Hcap. destruct Hf as [_ Hf].
  exists tx. split; [done|]. split; [exists job, m0; split; [done|by rewrite Hfields]|].
  rewrite Hfields in Hrep |- *. simpl.
  split; [done|]. split; [done|]. split; [lia|]. split; [lia|done].
Qed.

Lemma eth_send_ok k m f t q :
  same_intent m0 m -> message_sane m -> eth_ready (S k) m f t q ->
  wp proto (eth_send_transaction m f t) q (fun r q' =>
    match r with
    | Ok _ => forall pd : PendingTransaction, pd_msg pd = m -> pd_fee pd = f -> pd_replay_token pd = t -> eth_sent k pd q'
    | Err _ => eth_holding t q'
    end).
Proof.
  intros H0 Hm Hready. destruct (ready_may_send k m f t q H0 Hready) as (tx & Htx & Hmay).
  destruct Hready as ([Hp Ho] & Hk & Hf & _).
  simpl. split; [done|]. intros id ->. rewrite Htx. simpl. split; [done|].
  set (q1 := {| phase := phase q; txs := tx :: txs q; owes := owes q |}).
  assert (forall pd : PendingTransaction, pd_msg pd = m -> pd_fee pd = f -> pd_replay_token pd = t -> eth_sent k pd q1)
    as Hsent.
  { intros pd <- <- <-. split; [done|]. split; [simpl; lia|]. split; [done|]. by exists tx. }
  intros [hash|e] _; simpl; [|done].
  split; [done|]. intros [[]|e] _; simpl; [|done].
  split; [done|]. intros [hash'|e] _; simpl; [|done].
  split; [done|]. intros [[receipt|]|e] _; simpl; [|done..].
  by destruct (status receipt).
Qed.

(** A confirmation: the three critical sections in any order of the executor. *)
Lemma eth_confirmed_ok k pd d q :
  eth_sent k pd q -> 0 <= d < latency_bound ->
  wp proto (eth_handle_confirmed pd d) q
    (fun _ q' => eth_settled q').
Proof.
  intros ([Hp Ho] & _ & [_ Hf] & _) Hd.
  pose proof (tip_cap_bound (S k)) as Hcap.
  assert (0 <= eth_priority_fee (pd_fee pd) <= MAX_USED_FEE) as Hu by lia.
  unfold eth_handle_confirmed, eth_update_on_confirmation, confirm_nonce, of_gas,
    gas_update_on_confirmation.
  simpl. repeat match goal with
  | |- eth_settled _ => split; [by eexists|done]
  | |- _ /\ _ => split; [done|]
  | |- forall b : bool, _ => intros [|] _; simpl
  | |- forall x : _, _ => intros ? _; simpl
  end.
Qed.

(** A dropped transaction with retries left is replaced under its own nonce. *)
Lemma eth_dropped_ok k pd q :
  eth_sent (S k) pd q -> 0 <= retry_count (pd_msg pd) < MAX_RETRIES - 1 ->
  0 <= pd_replacement_count pd <= retry_count (pd_msg pd) ->
  exists f, eth_handle_dropped pd = Ret (Resubmit f (pd_replay_token pd)) /\
    forall m, same_intent (pd_msg pd) m -> eth_ready (S k) m f (pd_replay_token pd) q.
Proof.
  intros (Hp & Hk & Hf & tx0 & Htx0 & Hl) Hr Hc. unfold MAX_RETRIES in *.
  assert (k <= 1)%nat as Hk1 by (destruct (txs q); simpl in Hl, Hk; [done|lia]).
  destruct (bump_fee_ok k (pd_fee pd)) as (f' & Hf' & Hcap' & Htip); [done|done|].
  exists f'. unfold eth_handle_dropped, can_retry, MAX_RETRIES, MAX_REPLACEMENTS.
  destruct (Z.ltb_spec (retry_count (pd_msg pd)) 3); [simpl|lia].
  rewrite Z.geb_leb. destruct (Z.leb_spec 3 (pd_replacement_count pd)); [lia|].
  rewrite Hf'. split; [done|]. intros m [n ->]. split; [done|]. split; [exact Hk|]. split; [done|].
  intros tx0' [= <-]%(eq_trans (eq_sym Hl)).
  destruct (build_tx_ok (S k) (set_retry_count (pd_msg pd) n) f' (pd_replay_token pd) Hcap')
    as (tx & Htx & _). exists tx. split; [done|].
  apply build_tx_fields in Htx; [|by eapply fee_in_cap_range].
  apply build_tx_fields in Htx0; [|by eapply fee_in_cap_range].
  subst tx tx0. unfold replaces, GAS_PRICE_INCREASE_PERCENT. simpl.
  destruct Hcap' as [Hb' _]. destruct Hf as [Hb _]. rewrite Hb, Hb', Htip. repeat split; lia.
Qed.

(** The adapter implements the contract, and never asks for a requeue. *)
#[export] Instance eth_contract : AdapterContract (E := EthE) (A := Eth) proto m0.
Proof.
  refine {| idle := eth_idle;
    spent := eth_spent;
    settled := eth_settled;
    holding := eth_holding : ReplayToken (ChainAdapter := Eth) -> Hold -> Prop;
    fresh := eth_fresh : ReplayToken (ChainAdapter := Eth) -> Hold -> Prop;
    ready := eth_ready : nat -> Message -> FeeParams (ChainAdapter := Eth) ->
      ReplayToken (ChainAdapter := Eth) -> Hold -> Prop;
    sent := eth_sent;
    latency_ok d := 0 <= d < latency_bound;
    requeues := False |}.
  - by intros t q (? & _).
  - by intros k m f t q (? & _).
  - by intros k pd q (? & _).
  - done.
  - done.
  - done.
  - done.
  - done.
  - intros q (Hq & Ht & Ho). simpl. split; [split; [done|by eexists _, _]|]. by intros n _.
  - apply eth_release_ok.
  - apply eth_fee_ok.
  - apply eth_send_ok.
  - apply eth_confirmed_ok.
  - intros k pd q H0 Hs Hr Hc. destruct (eth_dropped_ok k pd q Hs Hr Hc) as (f & Hd & Hready).
    change (handle_dropped pd) with (eth_handle_dropped pd). by rewrite Hd.
Defined.

(** ** How the tasks end *)

(** A call has pushed its message and notified; a spawned task holds no nonce
    and has sent nothing unless it took one. *)
Definition finished (role : Role) (q : Hold) : Prop :=
  owes q = false /\
  match role with
  | Caller _ => phase q = Pushed
  | Worker _ _ => phase q = Free /\ txs q = [] \/ exists n, phase q = Released n \/ phase q = Settled n
  end.

Lemma eth_spawned_ok :
  message_sane m0 -> wp proto (spawned_task m0) free (fun _ => finished (Worker job m0)).
Proof.
  intros Hm. eapply wp_mono; [by apply (spawned_task_ok proto)|].
  intros _ q [(? & ? & ?)|[([n ?] & ?)|([n ?] & ?)]]; (split; [done|]).
  - by left.
  - right. exists n. by left.
  - right. exists n. by right.
Qed.

Lemma eth_caller_ok :
  message_sane m0 ->
  wp (eth_protocol chain_id (Caller m0)) (add_message m0) free (fun _ => finished (Caller m0)).
Proof.
  intros Hm. simpl. split; [done|]. intros now Hnow. split; [done|]. intros [] _.
  split; [done|]. by intros [] _.
Qed.

(** ** Properties *)

(** C4: every task that the Ethereum sender spawns for a sane message keeps
    the discipline of [eth_protocol] whatever the node, the clocks and the
    executor answer: it never panics, takes at most one nonce, sends at most
    [MAX_RETRIES] transactions, all of the message's recipient, value, data
    and gas and with that nonce, each after the first the same transaction
    with the tip raised by 20%, returns the nonce at most once and never after
    it confirmed it, pushes no message, and ends holding no nonce; and a call
    of [add_message] pushes its message once and then notifies. *)
Theorem eth_task_discipline :
  message_sane m0 ->
  wp proto (spawned_task m0) free (fun _ => finished (Worker job m0)) /\
  wp (eth_protocol chain_id (Caller m0)) (add_message m0) free (fun _ => finished (Caller m0)).
Proof. intros Hm. split; [by apply eth_spawned_ok|by apply eth_caller_ok]. Qed.

End contract.

(** The methods of the Ethereum adapter end. *)
Lemma eth_adapter_ends `{BuildProfile} address :
  adapter_ends (client := EthClient) (replay := EthReplayProtection address) (retry := EthRetryStrategy).
Proof.
  split; intros;
    cbn [next release get_fee_params send_transaction handle_dropped handle_confirmed
      EthClient EthFeeManager EthReplayProtection EthRetryStrategy];
    unfold eth_next, eth_release, eth_get_fee_params, eth_send_transaction, chain_id, build_tx,
      eth_handle_dropped, release_nonce, eth_bump_fee, bump_by_percent, eth_handle_confirmed,
      eth_update_on_confirmation, of_gas, get_gas_price, gas_update_on_confirmation,
      confirm_nonce, gas_get_base_fee, calculate_priority_fee, analyze_network_congestion,
      scale_priority_fee, congestion_of, duration_sum;
    ends.
Qed.

Section witnesses.
#[local] Instance contract_build : BuildProfile := true.

Definition plain : Message := Message_new (Some 42) 21000 7 [] 50 None 1000.

Lemma plain_sane : message_sane plain.
Proof. repeat split; simpl; done || lia || (intros d [=]). Qed.

Lemma task_keeps_contract_witness :
  wp (eth_protocol 1 (Worker 0 plain))
    (spawned_task (A := Eth) (replay := EthReplayProtection 77) plain) free
    (fun _ q => eth_idle q \/ eth_spent q \/ eth_settled q).
Proof.
  refine (proj2 (task_keeps_contract (eth_protocol 1 (Worker 0 plain))
    (HC := eth_contract 1 77 0 plain) free plain_sane _)).
  repeat split.
Defined.

Lemma eth_task_discipline_witness :
  wp (eth_protocol 1 (Worker 0 plain))
    (spawned_task (A := Eth) (replay := EthReplayProtection 77) plain) free
    (fun _ => finished (Worker 0 plain)).
Proof. exact (proj1 (eth_task_discipline 1 77 0 plain plain_sane)). Defined.

Lemma send_and_watch_terminates_witness :
  ends (spawned_task (A := Eth) (replay := EthReplayProtection 77) plain).
Proof. apply (send_and_watch_terminates plain); [discriminate|apply eth_adapter_ends]. Defined.
End witnesses.
