(* ===== verification/EthSystem.v ===== *)
(** * The running Ethereum sender ([Sender<Eth>::run] and its tasks)

    The shared objects, the state of the [select!] loop of [run] and the
    tasks the loop and the callers of [add_message] have spawned, with one
    constructor of [step] per thing that may happen next.  A task advances by
    one event; the events on shared objects are answered by the operations of
    the components, the others by the environment.

    The channel of blocks is not kept here: that a block arrives, or the
    stream ends, and that [select!] takes it are one step.  A block that
    waits at the beginning of a poll would win, the [select!] being biased;
    here none waits, and each run of the code, whatever the poll finds, is a
    run of [step] in which the arrival is moved to its receipt.
    SenderSystem.v keeps the channel and the order of the poll, and EthRefine.v
    relates the two.

    [role], [hold], [calls], [submitted], [dispatched], [confirmed] and
    [broadcasts] record the past for the statements; no step depends on
    them. *)

From stdpp Require Import gmap strings relations sorting.
From S2P Require Import Prelude Prog BinaryHeap Errors Chain Message PriorityQueue.
From S2P Require Import NonceManager GasPrice Adapter Sender Ethereum EthContract.

Section system.
Context `{BuildProfile} {HM : MaxHeap pm_le}.
(** [chain_nonces] bounds the nonces the node reports for the account. *)
Context (chain_id address chain_nonces : Z).
#[local] Instance replay_here : ReplayProtection EthE := EthReplayProtection address.

(** ** State *)

Record Shared := MkShared {
  nonces : NonceState;
  gas_manager : GasPriceManager;
  queue : PriorityQueue;
  message_ready : bool;      (* the stored permit of the [Notify] *)
  max_in_flight : nat;       (* the free permits of the [Semaphore] *)
}.

Record Task := MkTask {
  role : Role;
  permit : bool;             (* it holds a permit of the semaphore *)
  code : Prog EthE unit;
  hold : Hold;
}.

(** Where [run] is: in [subscribe_new_blocks]; in [select!] with
    [process_next_message] waiting for a permit, holding one, or sleeping on
    [notified()]; in [sync]; returned. *)
Inductive RunState :=
  | Subscribing
  | Selecting
  | Acquired
  | Waiting
  | Syncing (p : Prog EthE (result unit Error))
  | Returned (r : result unit Error)
  | Panicked (r : panic).

Record Sys := MkSys {
  shared : Shared;
  run_state : RunState;
  tasks : gmap nat Task;
  calls : list Message;        (* of [add_message], latest first *)
  submitted : list Message;
  dispatched : list Message;
  confirmed : gset Z;
  broadcasts : list (nat * TxEip1559);   (* by the number of the dispatch *)
}.

(** [Sender::new] over new managers, whose nonce manager read [nonce]. *)
Definition Sender_new (nonce : Z) : Shared := {|
  nonces := NonceState_new nonce;
  gas_manager := GasPriceManager_new;
  queue := PriorityQueue_new;
  message_ready := false;
  max_in_flight := MAX_IN_FLIGHT_TRANSACTIONS;
|}.

Definition initial (nonce : Z) : Sys := {|
  shared := Sender_new nonce;
  run_state := Subscribing;
  tasks := ∅;
  calls := [];
  submitted := [];
  dispatched := [];
  confirmed := ∅;
  broadcasts := [];
|}.

(** ** One event *)

Definition set_nonces (n : NonceState) (s : Shared) : Shared :=
  {| nonces := n; gas_manager := gas_manager s; queue := queue s;
     message_ready := message_ready s; max_in_flight := max_in_flight s |}.
Definition set_gas (g : GasPriceManager) (s : Shared) : Shared :=
  {| nonces := nonces s; gas_manager := g; queue := queue s;
     message_ready := message_ready s; max_in_flight := max_in_flight s |}.
Definition set_queue (q : PriorityQueue) (s : Shared) : Shared :=
  {| nonces := nonces s; gas_manager := gas_manager s; queue := q;
     message_ready := message_ready s; max_in_flight := max_in_flight s |}.
Definition set_ready (b : bool) (s : Shared) : Shared :=
  {| nonces := nonces s; gas_manager := gas_manager s; queue := queue s;
     message_ready := b; max_in_flight := max_in_flight s |}.
Definition add_permits (n : nat) (s : Shared) : Shared :=
  {| nonces := nonces s; gas_manager := gas_manager s; queue := queue s;
     message_ready := message_ready s; max_in_flight := max_in_flight s + n |}.
Definition take_permit (s : Shared) : Shared :=
  {| nonces := nonces s; gas_manager := gas_manager s; queue := queue s;
     message_ready := message_ready s; max_in_flight := Nat.pred (max_in_flight s) |}.

(** The effect and the answer of an event; [answer] is what the environment
    says where the shared objects do not determine it. *)
Definition perform {X} (e : EthE X) (s : Shared) : X -> run (X * Shared) :=
  match e in EthE X return X -> run (X * Shared) with
  | QueuePush m now => fun _ =>
      q ← push (queue s) m now;
      Val (tt, set_queue q s)
  | NotifyOne => fun _ => Val (tt, set_ready true s)
  | Gas e => fun _ =>
      '(x, g) ← gas_handle _ e (gas_manager s);
      Val (x, set_gas g s)
  | Nonce e => fun _ =>
      '(x, n) ← nonce_handle _ e (nonces s);
      Val (x, set_nonces n s)
  | _ => fun answer => Val (answer, s)
  end.

(** What the environment may answer: a wall clock before the year 2109,
    latencies below [latency_bound], one chain id, and for the nonce of the
    account a value up to [chain_nonces]. *)
Definition env_ok {X} (e : EthE X) : X -> Prop :=
  match e in EthE X return X -> Prop with
  | NowMs => clock_ok
  | Elapsed _ => fun d => 0 <= d < latency_bound
  | Chain e =>
      match e in ChainE X return X -> Prop with
      | ChainId => fun id => id = chain_id
      | GetAccountNonce _ => fun r =>
          match r with Ok n => 0 <= n <= chain_nonces | Err _ => True end
      | _ => fun _ => True
      end
  | _ => fun _ => True
  end.

Definition submits {X} (e : EthE X) : list Message :=
  match e with QueuePush m _ => [m] | _ => [] end.

Definition confirms {X} (e : EthE X) : gset Z :=
  match e with Nonce (UpdateCurrent n) => {[n]} | _ => ∅ end.

(** The transaction that an event of the dispatch [job] sends to the node. *)
Definition sends (r : Role) {X} (e : EthE X) : list (nat * TxEip1559) :=
  match r, e with
  | Worker job _, Chain (SendTransaction tx) => [(job, tx)]
  | _, _ => []
  end.

(** ** Steps *)

Definition with_run (r : RunState) (sh : Shared) (s : Sys) : Sys :=
  {| shared := sh; run_state := r; tasks := tasks s; calls := calls s;
     submitted := submitted s; dispatched := dispatched s; confirmed := confirmed s;
     broadcasts := broadcasts s |}.

(** A task ends, by returning or by unwinding: its permit is dropped. *)
Definition end_task (i : nat) (t : Task) (s : Sys) : Sys :=
  {| shared := add_permits (if permit t then 1 else 0) (shared s); run_state := run_state s;
     tasks := delete i (tasks s); calls := calls s; submitted := submitted s;
     dispatched := dispatched s; confirmed := confirmed s; broadcasts := broadcasts s |}.

(** [select!] is waiting; the permit that a cancelled
    [process_next_message] would return. *)
Definition selecting (r : RunState) : option nat :=
  match r with
  | Selecting | Waiting => Some 0%nat
  | Acquired => Some 1%nat
  | _ => None
  end.

(** The permit that [process_next_message] itself holds. *)
Definition run_permit (r : RunState) : nat := match r with Acquired => 1%nat | _ => 0%nat end.

Inductive step : Sys -> Sys -> Prop :=
  (* [subscribe_new_blocks().await?] *)
  | step_subscribed s :
      run_state s = Subscribing -> step s (with_run Selecting (shared s) s)
  | step_subscribe_failed s e :
      run_state s = Subscribing ->
      step s (with_run (Returned (from_chain (Err e))) (shared s) s)
  (* [block_stream.recv()] wins the [select!] *)
  | step_block s n :
      selecting (run_state s) = Some n ->
      step s (with_run (Syncing (sync (A := Eth))) (add_permits n (shared s)) s)
  | step_closed s n :
      selecting (run_state s) = Some n ->
      step s (with_run (Returned (Err SubscriptionClosed)) (add_permits n (shared s)) s)
  (* [replay.sync().await?] *)
  | step_sync s X (e : EthE X) k answer x sh :
      run_state s = Syncing (Vis e k) -> env_ok e answer ->
      perform e (shared s) answer = Val (x, sh) ->
      step s (with_run (Syncing (k x)) sh s)
  | step_sync_panics s X (e : EthE X) k answer r :
      run_state s = Syncing (Vis e k) -> env_ok e answer ->
      perform e (shared s) answer = Panic r ->
      step s (with_run (Panicked r) (shared s) s)
  | step_sync_crash s r :
      run_state s = Syncing (Crash r) -> step s (with_run (Panicked r) (shared s) s)
  | step_synced s :
      run_state s = Syncing (Ret (Ok tt)) -> step s (with_run Selecting (shared s) s)
  | step_sync_failed s e :
      run_state s = Syncing (Ret (Err e)) ->
      step s (with_run (Returned (Err e)) (shared s) s)
  (* [process_next_message] *)
  | step_acquire s :
      run_state s = Selecting -> (0 < max_in_flight (shared s))%nat ->
      step s (with_run Acquired (take_permit (shared s)) s)
  | step_dispatch s m q i :
      run_state s = Acquired -> pop (queue (shared s)) = Some (m, q) -> tasks s !! i = None ->
      step s {| shared := set_queue q (shared s); run_state := Selecting;
                tasks := <[i := {| role := Worker (length (dispatched s)) m; permit := true;
                                   code := spawned_task (A := Eth) m;
                                   hold := free |}]> (tasks s);
                calls := calls s; submitted := submitted s; dispatched := m :: dispatched s;
                confirmed := confirmed s; broadcasts := broadcasts s |}
  | step_empty s :
      run_state s = Acquired -> pop (queue (shared s)) = None ->
      step s (with_run Waiting (add_permits 1 (shared s)) s)
  | step_wake s :
      run_state s = Waiting -> message_ready (shared s) = true ->
      step s (with_run Selecting (set_ready false (shared s)) s)
  (* a caller of [add_message] *)
  | step_caller s m i :
      message_sane m -> tasks s !! i = None ->
      step s {| shared := shared s; run_state := run_state s;
                tasks := <[i := {| role := Caller m; permit := false; code := add_message m;
                                   hold := free |}]> (tasks s);
                calls := m :: calls s; submitted := submitted s; dispatched := dispatched s;
                confirmed := confirmed s; broadcasts := broadcasts s |}
  (* the tasks *)
  | step_task s i t X (e : EthE X) k answer x sh :
      tasks s !! i = Some t -> code t = Vis e k -> env_ok e answer ->
      perform e (shared s) answer = Val (x, sh) ->
      step s {| shared := sh; run_state := run_state s;
                tasks := <[i := {| role := role t; permit := permit t; code := k x;
                                   hold := eth_next_state e (hold t) x |}]> (tasks s);
                calls := calls s; submitted := submits e ++ submitted s;
                dispatched := dispatched s; confirmed := confirms e ∪ confirmed s;
                broadcasts := sends (role t) e ++ broadcasts s |}
  | step_task_panics s i t X (e : EthE X) k answer r :
      tasks s !! i = Some t -> code t = Vis e k -> env_ok e answer ->
      perform e (shared s) answer = Panic r ->
      step s (end_task i t s)
  | step_task_crash s i t r :
      tasks s !! i = Some t -> code t = Crash r -> step s (end_task i t s)
  | step_task_ends s i t :
      tasks s !! i = Some t -> code t = Ret tt -> step s (end_task i t s).

(** ** The invariant *)

Definition owns (q : Hold) (n : Z) : Prop := phase q = Held n \/ phase q = Settled n.

(** The calls of [add_message] that have not yet pushed their message. *)
Definition pending_call (t : Task) : option Message :=
  match role t, phase (hold t) with
  | Caller m, Free => Some m
  | _, _ => None
  end.

Definition pending_calls (ts : gmap nat Task) : list Message :=
  omap pending_call (map_to_list ts).*2.

(** The transactions of the dispatch [job], latest first. *)
Definition txs_of (job : nat) (log : list (nat * TxEip1559)) : list TxEip1559 :=
  (filter (fun jt => jt.1 = job) log).*2.

(** What the node is sent for the message [m]: at most [MAX_RETRIES]
    transactions with the content of [m], each after the first a replacement
    of the one before it. *)
Definition attempts (m : Message) (l : list TxEip1559) : Prop :=
  (length l <= Z.to_nat MAX_RETRIES)%nat /\
  Forall (fun tx => carries m tx /\ tx_chain_id tx = chain_id) l /\
  Sorted (fun new old => replaces old new) l.

Definition permit_holders (ts : gmap nat Task) : nat :=
  size (filter (fun it => permit it.2 = true) ts).

(** The shared objects after [k] steps. *)
Record shared_ok (k : Z) (sh : Shared) : Prop := {
  sh_nonce_ok : nonce_ok (nonces sh);
  sh_current : current (nonces sh) <= chain_nonces + k;
  sh_in_flight : forall n, n ∈ in_flight (nonces sh) -> n <= chain_nonces + k;
  sh_size : Z.of_nat (size (in_flight (nonces sh))) <= k;
  sh_gas : gas_ok (gas_manager sh);
  sh_queue : queue_ok (queue sh);
  sh_sane : Forall message_sane (queued (queue sh));
}.

(** The discipline of [sync]: one request and one update. *)
Definition sync_protocol : protocol EthE unit := {|
  may := fun X (e : EthE X) _ =>
    match e with
    | Chain (GetAccountNonce _) => True
    | Nonce (UpdateCurrent n) => 0 <= n <= chain_nonces
    | _ => False
    end;
  answers := fun X (e : EthE X) _ => env_ok e;
  next_state := fun _ _ _ _ => tt;
  may_crash := fun _ _ => False;
|}.

Definition sync_result (r : result unit Error) : Prop :=
  r = Ok tt \/ exists e, r = Err (ChainError e).

(** The past of the tasks adds up. *)
Record history_ok (s : Sys) : Prop := {
  hist_calls : calls s ≡ₚ pending_calls (tasks s) ++ submitted s;
  hist_jobs : forall i t j m, tasks s !! i = Some t -> role t = Worker j m ->
    rev (dispatched s) !! j = Some m /\ txs (hold t) = txs_of j (broadcasts s);
  hist_one_task : forall i i' t t' j m m', tasks s !! i = Some t -> tasks s !! i' = Some t' ->
    role t = Worker j m -> role t' = Worker j m' -> i = i';
  hist_attempts : forall j m, rev (dispatched s) !! j = Some m ->
    attempts m (txs_of j (broadcasts s));
  hist_numbers : forall j tx, (j, tx) ∈ broadcasts s -> (j < length (dispatched s))%nat;
}.

Record inv (k : Z) (s : Sys) : Prop := {
  inv_shared : shared_ok k (shared s);
  inv_permits :
    (max_in_flight (shared s) + permit_holders (tasks s) +
     run_permit (run_state s) =
     MAX_IN_FLIGHT_TRANSACTIONS)%nat;
  inv_tasks : forall i t, tasks s !! i = Some t ->
    wp (eth_protocol chain_id (role t)) (code t) (hold t) (fun _ => finished (role t));
  inv_taken : forall i t n, tasks s !! i = Some t -> owns (hold t) n -> taken (nonces (shared s)) n;
  inv_disjoint : forall i j t u n, tasks s !! i = Some t -> tasks s !! j = Some u ->
    owns (hold t) n -> owns (hold u) n -> i = j;
  inv_confirmed : forall n, n ∈ confirmed s -> taken (nonces (shared s)) n /\
    forall i t, tasks s !! i = Some t -> phase (hold t) <> Held n;
  inv_wake : run_state s = Waiting -> queued (queue (shared s)) <> [] ->
    message_ready (shared s) = true \/ exists i t, tasks s !! i = Some t /\ owes (hold t) = true;
  inv_history : history_ok s;
  inv_log : submitted s ≡ₚ dispatched s ++ queued (queue (shared s));
  inv_run : match run_state s with
    | Syncing p => wp sync_protocol p tt (fun r _ => sync_result r)
    | Returned r => r = Err SubscriptionClosed \/ exists e, r = Err (ChainError e)
    | Panicked _ => False
    | _ => True
    end;
}.

(** ** One event keeps the shared objects well formed *)

Lemma shared_ok_mono k k' sh : k <= k' -> shared_ok k sh -> shared_ok k' sh.
Proof.
  intros Hk [H1 H2 H3 H4 H5 H6 H7].
  split; auto; [lia| |lia]. intros n Hn. specialize (H3 n Hn). lia.
Qed.

Lemma take_next_ok k s :
  nonce_ok s -> current s <= chain_nonces + k -> 0 <= k ->
  (forall n, n ∈ in_flight s -> n <= chain_nonces + k) ->
  Z.of_nat (size (in_flight s)) <= k -> chain_nonces + 2 * k < 2 ^ 64 ->
  exists n s', get_next_available_nonce s = Val (n, s') /\ nonce_ok s' /\
    current s' <= chain_nonces + (k + 1) /\
    (forall m, m ∈ in_flight s' -> m <= chain_nonces + (k + 1)) /\
    Z.of_nat (size (in_flight s')) <= k + 1 /\ ~ taken s n /\ taken s' n.
Proof.
  intros Hok Hcur Hk Hin Hsize Hroom.
  destruct (get_next_spec s) as (n & Hn & Hfree & Hge & Hall); [apply Hok|unfold room; lia|].
  assert (n <= chain_nonces + (k + 1)) as Hle.
  { destruct (decide (n = current s)) as [->|]; [lia|].
    assert (n - 1 ∈ in_flight s) as Hp by (apply Hall; lia). specialize (Hin _ Hp). lia. }
  eexists n, _. split; [exact Hn|]. simpl. split; [|split; [lia|split; [|split; [|split]]]].
  - destruct Hok as [Hc Hf]. split; simpl; [done|]. intros x.
    rewrite elem_of_union, elem_of_singleton. intros [->|?]; [|by apply Hf]. unfold in_range in *. lia.
  - intros m. rewrite elem_of_union, elem_of_singleton. intros [->|Hm]; [done|].
    specialize (Hin _ Hm). lia.
  - rewrite size_union, size_singleton; [lia|]. set_solver.
  - unfold taken. intros [?|?]; [lia|done].
  - right. set_solver.
Qed.

Lemma update_current_ok k n s :
  nonce_ok s -> current s <= chain_nonces + k ->
  (forall n, n ∈ in_flight s -> n <= chain_nonces + k) ->
  Z.of_nat (size (in_flight s)) <= k -> n <= chain_nonces + k -> chain_nonces + k < 2 ^ 64 ->
  nonce_ok (update_current_nonce n s) /\ current (update_current_nonce n s) <= chain_nonces + k /\
  (forall m, m ∈ in_flight (update_current_nonce n s) -> m <= chain_nonces + k) /\
  Z.of_nat (size (in_flight (update_current_nonce n s))) <= k.
Proof.
  intros Hok Hcur Hin Hsize Hn Hroom. split; [|split; [|split]].
  - destruct Hok as [Hc Hf]. split; [rewrite current_update; unfold in_range in *; lia|].
    intros x. rewrite elem_of_update, current_update. intros [Hx Hge].
    destruct (Hf x Hx). split; [lia|done].
  - rewrite current_update. lia.
  - intros m [Hm _]%elem_of_update. by apply Hin.
  - assert (size (in_flight (update_current_nonce n s)) <= size (in_flight s))%nat; [|lia].
    apply subseteq_size. intros m [Hm _]%elem_of_update. done.
Qed.

Lemma set_nonces_ok k n sh :
  shared_ok k sh -> nonce_ok n -> current n <= chain_nonces + (k + 1) ->
  (forall m, m ∈ in_flight n -> m <= chain_nonces + (k + 1)) ->
  Z.of_nat (size (in_flight n)) <= k + 1 -> shared_ok (k + 1) (set_nonces n sh).
Proof. intros [H1 H2 H3 H4 H5 H6 H7] ? ? ? ?. by split. Qed.

(** What an event of a task in state [q] does to the nonces: it leaves those
    of the others taken, and a nonce it brings in was not taken before. *)
Definition nonce_step (q q' : Hold) (s s' : NonceState) : Prop :=
  (forall n, taken s n -> phase q <> Held n -> taken s' n) /\
  (forall n, owns q' n -> taken s' n) /\
  (forall n, owns q' n -> owns q n \/ ~ taken s n) /\
  (forall n, phase q' = Held n -> phase q = Held n \/ ~ taken s n).

Lemma nonce_step_same q q' s :
  phase q' = phase q -> (forall n, owns q n -> taken s n) -> nonce_step q q' s s.
Proof. intros Hp Ho. unfold nonce_step, owns in *. rewrite Hp. auto. Qed.

Lemma perform_nonce_ok k X (e : NonceLock X) r q sh answer :
  shared_ok k sh -> 0 <= k -> chain_nonces + 2 * k + 2 < 2 ^ 64 -> 0 <= chain_nonces ->
  eth_may chain_id r (Nonce e) q -> (forall n, owns q n -> taken (nonces sh) n) ->
  exists x sh', perform (Nonce e) sh answer = Val (x, sh') /\ shared_ok (k + 1) sh' /\
    eth_answers chain_id (Nonce e) q x /\ queue sh' = queue sh /\
    max_in_flight sh' = max_in_flight sh /\ message_ready sh' = message_ready sh /\
    nonce_step q (eth_next_state (Nonce e) q x) (nonces sh) (nonces sh').
Proof.
  intros Hsh Hk Hroom H0 Hmay Hown. destruct (Hsh) as [H1 H2 H3 H4 H5 H6 H7].
  destruct e as [|n|n]; simpl in Hmay |- *.
  - destruct (take_next_ok k (nonces sh)) as (n & s' & Hn & ? & ? & ? & ? & Hfree & Htk); [done..|lia|].
    rewrite Hn. simpl. eexists _, _. split; [done|]. split; [by apply set_nonces_ok|].
    repeat (split; [done|]). simpl. unfold nonce_step, owns. simpl.
    split; [intros m Hm _; by eapply taken_next|].
    split; [|split]; intros m; [intros [[= ->]|[=]]; done|intros [[= ->]|[=]]; by right|].
    intros [= ->]. by right.
  - eexists _, _. split; [done|]. split.
    { apply set_nonces_ok; simpl; [done| |lia| |].
      - destruct H1 as [Hc Hf]. split; simpl; [done|]. intros x [? _]%elem_of_difference. by apply Hf.
      - intros m [Hm _]%elem_of_difference. specialize (H3 _ Hm). lia.
      - assert (size (in_flight (nonces sh) ∖ {[n]}) <= size (in_flight (nonces sh)))%nat; [|lia].
        apply subseteq_size. set_solver. }
    repeat (split; [done|]). unfold nonce_step, owns. simpl.
    split; [|split; [|split]]; intros m; [|intros [[=]|[=]]|intros [[=]|[=]]|intros [=]].
    intros Hm Hne. apply taken_release; [done|]. intros ->. by rewrite Hmay in Hne.
  - assert (taken (nonces sh) n) as Htk by (apply Hown; by left).
    assert (n <= chain_nonces + k) as Hn.
    { destruct Htk as [?|?]; [lia|by apply H3]. }
    destruct (update_current_ok k n (nonces sh)) as (? & ? & Hin & ?); [done..|lia|].
    eexists _, _. split; [done|]. split.
    { apply set_nonces_ok; [done|done|lia| |lia]. intros m Hm. specialize (Hin _ Hm). lia. }
    repeat (split; [done|]). unfold nonce_step, owns. simpl.
    split; [|split; [|split]]; intros m.
    + intros Hm _. by apply taken_update.
    + intros [[=]|[= ->]]. by apply taken_update.
    + intros [[=]|[= ->]]. left. by left.
    + intros [=].
Qed.

Lemma perform_push_ok k m now sh q0 :
  shared_ok k sh -> message_sane m -> clock_ok now ->
  exists q, perform (QueuePush m now) sh q0 = Val (tt, set_queue q sh) /\
    shared_ok (k + 1) (set_queue q sh) /\ queued q ≡ₚ m :: queued (queue sh).
Proof.
  intros Hsh Hm Hn. destruct (sane_priority_value m now Hm Hn) as (p & Hp & _).
  assert (exists q, push (queue sh) m now = Val q) as [q Hq].
  { unfold push. rewrite Hp. simpl. by eexists. }
  exists q. simpl. rewrite Hq. split; [done|].
  destruct (push_items _ _ _ _ Hq) as (p' & _ & Hitems).
  assert (queued q ≡ₚ m :: queued (queue sh)) as Hperm by (unfold queued; by rewrite Hitems).
  split; [|done]. apply (shared_ok_mono k); [lia|].
  destruct Hsh as [H1 H2 H3 H4 H5 H6 H7]. split; try done; simpl.
  - by eapply push_ok.
  - rewrite Hperm. by constructor.
Qed.

Lemma perform_gas_ok k X (e : GasE X) r sh q answer :
  shared_ok k sh -> eth_may chain_id r (Gas e) q ->
  exists x g, perform (Gas e) sh answer = Val (x, set_gas g sh) /\
    shared_ok (k + 1) (set_gas g sh) /\ gas_answers e x.
Proof.
  intros Hsh Hmay. destruct (Hsh) as [H1 H2 H3 H4 H5 H6 H7].
  assert (exists x g, gas_handle X e (gas_manager sh) = Val (x, g) /\ gas_ok g /\ gas_answers e x)
    as (x & g & Hg & Hok & Ha).
  { destruct e as [| |d|used]; simpl in Hmay |- *.
    - eexists _, _. split; [done|]. split; [done|]. apply H5.
    - eexists _, _. split; [done|]. split; [done|]. destruct H5. by split.
    - eexists _, _. split; [done|]. split; [by apply push_confirmation_time_ok|done].
    - destruct (blend_priority_fee_ok (gas_manager sh) used) as [Hb ?]; [done..|].
      rewrite Hb. simpl. by eexists _, _. }
  exists x, g. simpl. rewrite Hg. split; [done|]. split; [|done].
  apply (shared_ok_mono k); [lia|]. by split.
Qed.

(** What one event of a task does to the rest of the system. *)
Record effect (k : Z) {X} (e : EthE X) (q : Hold) (x : X) (sh sh' : Shared) : Prop := {
  eff_shared : shared_ok (k + 1) sh';
  eff_answer : eth_answers chain_id e q x;
  eff_permits : max_in_flight sh' = max_in_flight sh;
  eff_queue : queued (queue sh') ≡ₚ submits e ++ queued (queue sh);
  eff_ready : message_ready sh = true -> message_ready sh' = true;
  eff_owes : owes q = true -> owes (eth_next_state e q x) = true \/ message_ready sh' = true;
  eff_submits : submits e <> [] -> owes (eth_next_state e q x) = true;
  eff_nonce : nonce_step q (eth_next_state e q x) (nonces sh) (nonces sh');
  eff_confirms : forall n, n ∈ confirms e -> phase q = Held n /\ owns (eth_next_state e q x) n /\
    phase (eth_next_state e q x) <> Held n;
}.

Lemma perform_ok k X (e : EthE X) r q sh answer :
  shared_ok k sh -> 0 <= k -> chain_nonces + 2 * k + 2 < 2 ^ 64 -> 0 <= chain_nonces ->
  eth_may chain_id r e q -> env_ok e answer -> (forall n, owns q n -> taken (nonces sh) n) ->
  exists x sh', perform e sh answer = Val (x, sh') /\ effect k e q x sh sh'.
Proof.
  intros Hsh Hk Hroom H0 Hmay Henv Hown.
  assert (shared_ok (k + 1) sh) as Hsh' by (apply (shared_ok_mono k); [lia|done]).
  assert (nonce_step q q (nonces sh) (nonces sh)) as Hsame by by apply nonce_step_same.
  destruct e as [| |t|m now| |l| |X e|X e|X e]; simpl in Hmay, Henv.
  - eexists _, _. split; [done|]. by split; auto.
  - eexists _, _. split; [done|]. by split; auto.
  - eexists _, _. split; [done|]. by split; auto.
  - destruct Hmay as (_ & Hfree & Hm & Hn).
    destruct (perform_push_ok k m now sh answer Hsh Hm Hn) as (p & ? & ? & ?).
    eexists _, _. split; [done|]. split; auto; try done.
    unfold nonce_step, owns. simpl. naive_solver.
  - eexists _, _. split; [done|]. split; auto; try done. by destruct Hsh'; split.
  - eexists _, _. split; [done|]. by split; auto.
  - eexists _, _. split; [done|]. by split; auto.
  - destruct (perform_gas_ok k X e r sh q answer Hsh Hmay) as (x & g & ? & ? & ?).
    eexists _, _. split; [done|]. by split; auto.
  - destruct (perform_nonce_ok k X e r q sh answer) as (x & sh' & ? & ? & ? & Hq & Hp & Hr & ?); [done..|].
    eexists _, _. split; [done|].
    assert (owes (eth_next_state (Nonce e) q x) = owes q) as Howes by by destruct e.
    split; auto; try done.
    + by rewrite Hq.
    + by rewrite Hr.
    + rewrite Howes. by left.
    + intros n. destruct e; simpl in *; [set_solver..|]. rewrite elem_of_singleton.
      intros ->. split; [done|]. split; [by right|done].
  - assert (owes (eth_next_state (Chain e) q answer) = owes q) as Howes by by destruct e.
    eexists answer, sh. split; [done|]. split; auto; try done.
    + destruct e; simpl in *; try done.
    + rewrite Howes. by left.
    + apply nonce_step_same; [by destruct e|done].
Qed.

(** ** Every step keeps the invariant *)

Lemma permit_holders_insert ts i t :
  ts !! i = None ->
  permit_holders (<[i := t]> ts) = (permit_holders ts + if permit t then 1 else 0)%nat.
Proof.
  intros Hi. unfold permit_holders. destruct (permit t) eqn:Ht.
  - rewrite map_filter_insert_True by done. rewrite map_size_insert_None; [lia|].
    rewrite map_lookup_filter_None. by left.
  - rewrite map_filter_insert_False by (simpl; congruence). rewrite delete_id by done. lia.
Qed.

Lemma permit_holders_delete ts i t :
  ts !! i = Some t ->
  permit_holders ts = (permit_holders (delete i ts) + if permit t then 1 else 0)%nat.
Proof.
  intros Hi. rewrite <- (insert_delete_id ts i t Hi) at 1.
  by rewrite permit_holders_insert by apply lookup_delete_eq.
Qed.

Lemma permit_holders_update ts i t t' :
  ts !! i = Some t -> permit t' = permit t ->
  permit_holders (<[i := t']> ts) = permit_holders ts.
Proof.
  intros Hi Hp. rewrite <- insert_delete_eq.
  rewrite permit_holders_insert by apply lookup_delete_eq.
  rewrite Hp. by rewrite (permit_holders_delete ts i t Hi).
Qed.

Lemma pending_calls_insert ts i t :
  ts !! i = None ->
  pending_calls (<[i := t]> ts) ≡ₚ option_list (pending_call t) ++ pending_calls ts.
Proof.
  intros Hi. unfold pending_calls. rewrite map_to_list_insert by done. simpl.
  by destruct (pending_call t).
Qed.

Lemma pending_calls_delete ts i t :
  ts !! i = Some t ->
  pending_calls ts ≡ₚ option_list (pending_call t) ++ pending_calls (delete i ts).
Proof.
  intros Hi. rewrite <- (insert_delete_id ts i t Hi) at 1.
  by rewrite pending_calls_insert by apply lookup_delete_eq.
Qed.

Lemma txs_of_app j l1 l2 : txs_of j (l1 ++ l2) = txs_of j l1 ++ txs_of j l2.
Proof. unfold txs_of. by rewrite filter_app, fmap_app. Qed.

Lemma elem_of_txs_of j tx l : tx ∈ txs_of j l <-> (j, tx) ∈ l.
Proof.
  unfold txs_of. rewrite list_elem_of_fmap. setoid_rewrite list_elem_of_filter.
  split; [intros ([? ?] & -> & <- & ?); done|]. intros ?. by exists (j, tx).
Qed.

Lemma txs_of_one j tx : txs_of j [(j, tx)] = [tx].
Proof. unfold txs_of. by rewrite filter_cons_True. Qed.

Lemma txs_of_fresh s :
  history_ok s -> txs_of (length (dispatched s)) (broadcasts s) = [].
Proof.
  intros Hh. apply elem_of_nil_inv. intros tx Htx%elem_of_txs_of.
  pose proof (hist_numbers _ Hh _ _ Htx). lia.
Qed.

Lemma attempts_send m l tx job q :
  may_send chain_id (Worker job m) tx q -> txs q = l -> attempts m l -> attempts m (tx :: l).
Proof.
  intros ((j & m' & [= <- <-] & Hc) & _ & Hid & Hlen & _ & Hrep) <- (_ & Hall & Hsort).
  split; [simpl; lia|]. split; [by constructor|]. constructor; [done|].
  destruct (txs q) as [|tx0 l]; constructor. by apply Hrep.
Qed.

(** A step of [run] that touches neither tasks, nor nonces, nor the queue. *)
Lemma inv_with_run k s r sh :
  inv k s -> nonces sh = nonces (shared s) -> gas_manager sh = gas_manager (shared s) ->
  queue sh = queue (shared s) ->
  (max_in_flight sh + run_permit r =
   max_in_flight (shared s) + run_permit (run_state s))%nat ->
  (r = Waiting -> queued (queue sh) = []) ->
  match r with
  | Syncing p => wp sync_protocol p tt (fun r _ => sync_result r)
  | Returned r => r = Err SubscriptionClosed \/ exists e, r = Err (ChainError e)
  | Panicked _ => False
  | _ => True
  end ->
  inv (k + 1) (with_run r sh s).
Proof.
  intros [I1 I2 I3 I4 I5 I6 I7 IH I8 I9] Hn Hg Hq Hp Hw Hr.
  split; simpl; rewrite ?Hn, ?Hq; auto; [|lia| |by destruct IH; split].
  - apply (shared_ok_mono k); [lia|]. destruct I1 as [H1 H2 H3 H4 H5 H6 H7].
    split; rewrite ?Hn, ?Hg, ?Hq; done.
  - intros Hwait Hne. specialize (Hw Hwait). congruence.
Qed.

Lemma history_call s s' m i t :
  history_ok s -> tasks s !! i = None -> role t = Caller m -> hold t = free ->
  tasks s' = <[i := t]> (tasks s) -> calls s' = m :: calls s -> submitted s' = submitted s ->
  dispatched s' = dispatched s -> broadcasts s' = broadcasts s -> history_ok s'.
Proof.
  intros [H1 H2 H3 H4 H5] Hi Hr Hh Ht Hc Hs Hd Hb. split; rewrite ?Ht, ?Hc, ?Hs, ?Hd, ?Hb; auto.
  - rewrite pending_calls_insert, H1 by done. unfold pending_call. by rewrite Hr, Hh.
  - intros l u j m' [[<- <-]|[? ?]]%lookup_insert_Some Hu; [congruence|by eauto].
  - intros l l' u u' j m1 m2 [[<- <-]|[? ?]]%lookup_insert_Some [[<- <-]|[? ?]]%lookup_insert_Some;
      [congruence..|by eauto].
Qed.

Lemma history_dispatch s s' m i t :
  history_ok s -> tasks s !! i = None -> role t = Worker (length (dispatched s)) m ->
  hold t = free -> tasks s' = <[i := t]> (tasks s) -> calls s' = calls s ->
  submitted s' = submitted s -> dispatched s' = m :: dispatched s ->
  broadcasts s' = broadcasts s -> history_ok s'.
Proof.
  intros Hok Hi Hr Hh Ht Hc Hs Hd Hb. pose proof (txs_of_fresh _ Hok) as Hfresh.
  destruct Hok as [H1 H2 H3 H4 H5].
  assert (forall j m', rev (m :: dispatched s) !! j = Some m' <->
    rev (dispatched s) !! j = Some m' \/ j = length (dispatched s) /\ m' = m) as Hrev.
  { intros j m'. simpl. rewrite lookup_snoc_Some, length_rev. split.
    - intros [[? ?]|[? ?]]; [by left|by right].
    - intros [Hl|[? ?]]; [left|by right]. split; [|done].
      apply lookup_lt_Some in Hl. by rewrite length_rev in Hl. }
  assert (forall l u j m', tasks s !! l = Some u -> role u = Worker j m' ->
    j <> length (dispatched s)) as Hold.
  { intros l u j m' Hu Hj ->. destruct (H2 _ _ _ _ Hu Hj) as [Hl _].
    apply lookup_lt_Some in Hl. rewrite length_rev in Hl. lia. }
  split; rewrite ?Ht, ?Hc, ?Hs, ?Hd, ?Hb.
  - rewrite pending_calls_insert, H1 by done. unfold pending_call. by rewrite Hr.
  - intros l u j m' [[<- <-]|[? Hl]]%lookup_insert_Some Hu; rewrite Hrev.
    + rewrite Hr in Hu. injection Hu as <- <-. rewrite Hfresh, Hh. split; [by right|done].
    + destruct (H2 _ _ _ _ Hl Hu). split; [by left|done].
  - intros l l' u u' j m1 m2 [[<- <-]|[? Hl]]%lookup_insert_Some
      [[<- <-]|[? Hl']]%lookup_insert_Some Hu Hu'; [done| | |by eauto].
    + rewrite Hr in Hu. injection Hu as <- <-. by destruct (Hold _ _ _ _ Hl' Hu').
    + rewrite Hr in Hu'. injection Hu' as <- <-. by destruct (Hold _ _ _ _ Hl Hu).
  - intros j m' [?|[-> ->]]%Hrev; [by apply H4|]. rewrite Hfresh.
    by split; [simpl; unfold MAX_RETRIES; lia|].
  - intros j tx Hj. simpl. specialize (H5 _ _ Hj). lia.
Qed.

Lemma history_end s s' i t :
  history_ok s -> tasks s !! i = Some t -> pending_call t = None ->
  tasks s' = delete i (tasks s) -> calls s' = calls s -> submitted s' = submitted s ->
  dispatched s' = dispatched s -> broadcasts s' = broadcasts s -> history_ok s'.
Proof.
  intros [H1 H2 H3 H4 H5] Hi Hp Ht Hc Hs Hd Hb. split; rewrite ?Ht, ?Hc, ?Hs, ?Hd, ?Hb; auto.
  - by rewrite H1, (pending_calls_delete _ _ _ Hi), Hp.
  - intros l u j m' [? ?]%lookup_delete_Some ?. by eauto.
  - intros l l' u u' j m1 m2 [? ?]%lookup_delete_Some [? ?]%lookup_delete_Some. by eauto.
Qed.

(** What an allowed event adds to the past of its task. *)
Lemma event_pending X (e : EthE X) q x r c p kont :
  eth_may chain_id r e q ->
  option_list (pending_call {| role := r; permit := p; code := c; hold := q |}) =
  option_list (pending_call {| role := r; permit := p; code := kont; hold := eth_next_state e q x |})
    ++ submits e.
Proof.
  unfold pending_call. simpl. destruct r as [m|job m].
  2: { destruct e; simpl; try done. by intros [[=] _]. }
  destruct e as [| |t|m' now| |l| |X e|X e|X e]; simpl; try by destruct (phase q).
  - intros ([= <-] & -> & _). done.
  - destruct e as [|n|n]; simpl; [by intros [_ (? & ? & [=])]|by intros ->..].
  - destruct e; simpl; try by destruct (phase q).
Qed.

Lemma event_txs X (e : EthE X) q x r job m :
  r = Worker job m -> txs (eth_next_state e q x) = txs_of job (sends r e) ++ txs q.
Proof.
  intros ->. destruct e as [| |t|m' now| |l| |X e|X e|X e]; simpl; try done.
  - by destruct e.
  - destruct e; try done. simpl. by rewrite txs_of_one.
Qed.

Lemma sends_numbers r X (e : EthE X) j tx :
  (j, tx) ∈ sends r e -> exists m, r = Worker j m.
Proof.
  destruct r as [m|job m]; [by intros ?%not_elem_of_nil|].
  destruct e as [| |t|m' now| |l| |X e|X e|X e]; simpl; try by intros ?%not_elem_of_nil.
  destruct e; try by intros ?%not_elem_of_nil.
  intros [= -> ->]%list_elem_of_singleton. eauto.
Qed.

Lemma history_task s s' i t X (e : EthE X) kont x :
  history_ok s -> tasks s !! i = Some t -> eth_may chain_id (role t) e (hold t) ->
  tasks s' = <[i := {| role := role t; permit := permit t; code := kont;
                       hold := eth_next_state e (hold t) x |}]> (tasks s) ->
  calls s' = calls s -> submitted s' = submits e ++ submitted s ->
  dispatched s' = dispatched s -> broadcasts s' = sends (role t) e ++ broadcasts s ->
  history_ok s'.
Proof.
  intros [H1 H2 H3 H4 H5] Hi Hmay Ht Hc Hs Hd Hb.
  split; rewrite ?Ht, ?Hc, ?Hs, ?Hd, ?Hb.
  - rewrite H1, (pending_calls_delete _ _ _ Hi), <- insert_delete_eq.
    rewrite pending_calls_insert by apply lookup_delete_eq.
    destruct t as [r p c q]. simpl in *. rewrite (event_pending X e q x r c p kont) by done.
    solve_Permutation.
  - intros l u j m [[<- <-]|[Hne Hl]]%lookup_insert_Some Hu; simpl in *.
    + destruct (H2 _ _ _ _ Hi Hu) as [? Htx]. split; [done|].
      by rewrite txs_of_app, (event_txs X e _ x (role t) j m Hu), Htx.
    + destruct (H2 _ _ _ _ Hl Hu) as [? Htx]. split; [done|]. rewrite txs_of_app, Htx.
      rewrite (elem_of_nil_inv (txs_of j (sends (role t) e))); [done|].
      intros tx Htx'%elem_of_txs_of. destruct (sends_numbers _ _ _ _ _ Htx') as (m' & Hr).
      by destruct Hne; eapply H3.
  - intros l l' u u' j m1 m2 [[<- <-]|[? Hl]]%lookup_insert_Some
      [[<- <-]|[? Hl']]%lookup_insert_Some; simpl; [done|by eauto..].
  - intros j m Hj. rewrite txs_of_app. destruct (decide (txs_of j (sends (role t) e) = [])) as [->|Hne].
    { by apply H4. }
    destruct (txs_of j (sends (role t) e)) as [|tx0 l0] eqn:Hs0; [done|].
    assert ((j, tx0) ∈ sends (role t) e) as Hin.
    { apply elem_of_txs_of. rewrite Hs0. by left. }
    destruct (sends_numbers _ _ _ _ _ Hin) as (m' & Hr).
    destruct (H2 _ _ _ _ Hi Hr) as [Hm' Htx]. replace m' with m in * by congruence.
    rewrite <- Hs0. clear Hne.
    destruct e as [| |t0|m0 now| |l1| |X e|X e|X e]; simpl in Hs0, Hin |- *; rewrite Hr in Hs0 |- *;
      try done.
    destruct e; try done. cbn [sends]. rewrite txs_of_one.
    eapply attempts_send; [simpl in Hmay; rewrite Hr in Hmay; exact Hmay|exact Htx|by apply H4].
  - intros j tx [Hj|Hj]%elem_of_app; [|by eapply H5].
    destruct (sends_numbers _ _ _ _ _ Hj) as (m & Hr).
    destruct (H2 _ _ _ _ Hi Hr) as [Hl _]. apply lookup_lt_Some in Hl. by rewrite length_rev in Hl.
Qed.

(** A task that holds nothing is added. *)
Lemma inv_add_task k s i r b p :
  inv k s -> tasks s !! i = None ->
  wp (eth_protocol chain_id r) p free (fun _ => finished r) ->
  let ts := <[i := {| role := r; permit := b; code := p; hold := free |}]> (tasks s) in
  (forall j t, ts !! j = Some t ->
     wp (eth_protocol chain_id (role t)) (code t) (hold t) (fun _ => finished (role t))) /\
  (forall j t n, ts !! j = Some t -> owns (hold t) n -> taken (nonces (shared s)) n) /\
  (forall j l t u n, ts !! j = Some t -> ts !! l = Some u ->
     owns (hold t) n -> owns (hold u) n -> j = l) /\
  (forall n, n ∈ confirmed s -> taken (nonces (shared s)) n /\
     forall j t, ts !! j = Some t -> phase (hold t) <> Held n).
Proof.
  intros [I1 I2 I3 I4 I5 I6 I7 IH I8 I9] Hi Hp ts.
  assert (forall n, ~ owns free n) as Hfree by (intros n [[=]|[=]]).
  split; [|split; [|split]].
  - intros j t [[<- <-]|[? ?]]%lookup_insert_Some; [done|by eauto].
  - intros j t n [[<- <-]|[? ?]]%lookup_insert_Some Ho; [by destruct (Hfree n)|by eauto].
  - intros j l t u n [[<- <-]|[? Ht]]%lookup_insert_Some [[<- <-]|[? Hu]]%lookup_insert_Some Ho Hou;
      [done|by destruct (Hfree n)|by destruct (Hfree n)|]. exact (I5 j l t u n Ht Hu Ho Hou).
  - intros n Hn. destruct (I6 n Hn) as [? Hnone]. split; [done|].
    intros j t [[<- <-]|[? ?]]%lookup_insert_Some; [done|by eauto].
Qed.

Lemma inv_task k s i t X (e : EthE X) kont x sh :
  inv k s -> tasks s !! i = Some t -> code t = Vis e kont ->
  effect k e (hold t) x (shared s) sh ->
  inv (k + 1) {| shared := sh; run_state := run_state s;
    tasks := <[i := {| role := role t; permit := permit t; code := kont x;
                       hold := eth_next_state e (hold t) x |}]> (tasks s);
    calls := calls s; submitted := submits e ++ submitted s; dispatched := dispatched s;
    confirmed := confirms e ∪ confirmed s; broadcasts := sends (role t) e ++ broadcasts s |}.
Proof.
  intros [I1 I2 I3 I4 I5 I6 I7 IH I8 I9] Hi Hcode [E1 E2 E3 E4 E5 E6 E7 (N1 & N2 & N3 & N4) E9].
  pose proof (I3 i t Hi) as Hwp. rewrite Hcode in Hwp. destruct Hwp as [Hmay Hwp].
  assert (forall j u n, j <> i -> tasks s !! j = Some u -> owns (hold u) n ->
    phase (hold t) <> Held n) as Hothers.
  { intros j u n Hji Hj Ho Hh. apply Hji. eapply I5; [exact Hj|exact Hi|exact Ho|by left]. }
  assert (forall j u n, j <> i -> tasks s !! j = Some u -> owns (hold u) n ->
    ~ owns (eth_next_state e (hold t) x) n) as Hapart.
  { intros j u n Hji Hj Ho Hon. destruct (N3 n Hon) as [?|Hfree]; [by eapply Hji, I5|].
    apply Hfree. by eapply I4. }
  split; simpl; [done| | | | | | |by apply (history_task s _ i t X e (kont x) x)| |done].
  - rewrite permit_holders_update with (t := t) by done. by rewrite E3.
  - intros j u [[<- <-]|[? ?]]%lookup_insert_Some; simpl; [by apply Hwp|by eauto].
  - intros j u n [[<- <-]|[? Hj]]%lookup_insert_Some Ho; simpl in *; [by auto|].
    apply N1; [by eauto|]. by eapply Hothers.
  - intros j l u v n [[<- <-]|[? Hj]]%lookup_insert_Some [[<- <-]|[? Hl]]%lookup_insert_Some Ho Hou;
      simpl in *; [done| | |exact (I5 j l u v n Hj Hl Ho Hou)].
    + by destruct (Hapart l v n).
    + by destruct (Hapart j u n).
  - intros n [Hn|Hn]%elem_of_union.
    + destruct (E9 n Hn) as (Hh & Ho & Hne). split; [by apply N2|].
      intros j u [[<- <-]|[? Hj]]%lookup_insert_Some; [done|]. intros Hu.
      apply (Hapart j u n); [done|done|by left|done].
    + destruct (I6 n Hn) as [Htk Hnone]. split; [apply N1; [done|by eauto]|].
      intros j u [[<- <-]|[? Hj]]%lookup_insert_Some; simpl; [|by eauto].
      intros Hh. destruct (N4 n Hh) as [?|?]; [by eapply Hnone|done].
  - intros Hw Hne. destruct (decide (submits e = [])) as [Hs|Hs].
    + rewrite Hs in E4. assert (queued (queue (shared s)) <> []) as Hne'.
      { intros Hnil. apply Hne. rewrite Hnil in E4. by apply Permutation_nil_r in E4. }
      destruct (I7 Hw Hne') as [Hready|(j & u & Hj & Hu)]; [by auto|].
      destruct (decide (j = i)) as [->|]; [|by right; exists j, u; rewrite lookup_insert_ne].
      replace u with t in Hu by congruence. destruct (E6 Hu) as [Howes|?]; [|by left].
      right. eexists i, _. by rewrite lookup_insert_eq.
    + right. eexists i, _. rewrite lookup_insert_eq. split; [done|]. by apply E7.
  - rewrite E4, I8. solve_Permutation.
Qed.

Lemma inv_end_task k s i t :
  inv k s -> tasks s !! i = Some t -> finished (role t) (hold t) -> inv (k + 1) (end_task i t s).
Proof.
  intros [I1 I2 I3 I4 I5 I6 I7 IH I8 I9] Hi [Ho Hf].
  split; simpl; [| | | | | | |apply (history_end s _ i t); try done|done|done].
  - apply (shared_ok_mono k); [lia|]. by destruct I1; split.
  - rewrite (permit_holders_delete _ _ _ Hi) in I2. lia.
  - intros j u [? ?]%lookup_delete_Some. by eauto.
  - intros j u n [? ?]%lookup_delete_Some. by eauto.
  - intros j l u v n [? ?]%lookup_delete_Some [? ?]%lookup_delete_Some. by eauto.
  - intros n Hn. destruct (I6 n Hn) as [? Hnone]. split; [done|].
    intros j u [? ?]%lookup_delete_Some. by eauto.
  - intros Hw Hne. destruct (I7 Hw Hne) as [?|(j & u & Hj & Hu)]; [by left|].
    right. exists j, u. rewrite lookup_delete_ne; [done|]. congruence.
  - unfold pending_call. destruct (role t); [by rewrite Hf|done].
Qed.

(** The update of [sync] only adds to the taken nonces. *)
Lemma perform_sync_ok k X (e : EthE X) sh answer :
  shared_ok k sh -> 0 <= k -> chain_nonces + 2 * k + 2 < 2 ^ 64 ->
  may sync_protocol e tt -> env_ok e answer ->
  exists x n, perform e sh answer = Val (x, set_nonces n sh) /\
    shared_ok (k + 1) (set_nonces n sh) /\ env_ok e x /\
    forall m, taken (nonces sh) m -> taken n m.
Proof.
  intros Hsh Hk Hroom Hmay Henv.
  assert (sh = set_nonces (nonces sh) sh) as Eta by by destruct sh.
  destruct e as [| |t|m now| |l| |X e|X e|X e]; simpl in Hmay; try done.
  - destruct e as [|n|n]; try done. destruct (Hsh) as [H1 H2 H3 H4 H5 H6 H7].
    destruct (update_current_ok k n (nonces sh)) as (? & ? & Hin & ?); [done..|lia|lia|].
    eexists _, _. split; [done|]. split.
    { apply set_nonces_ok; [done|done|lia| |lia]. intros m Hm. specialize (Hin _ Hm). lia. }
    split; [done|]. intros m. apply taken_update.
  - exists answer, (nonces sh). rewrite <- Eta. destruct e; try done.
    split; [done|]. split; [apply (shared_ok_mono k); [lia|done]|done].
Qed.

Lemma inv_sync_step k s X (e : EthE X) kont x n :
  inv k s -> run_state s = Syncing (Vis e kont) ->
  shared_ok (k + 1) (set_nonces n (shared s)) -> env_ok e x ->
  (forall m, taken (nonces (shared s)) m -> taken n m) ->
  inv (k + 1) (with_run (Syncing (kont x)) (set_nonces n (shared s)) s).
Proof.
  intros [I1 I2 I3 I4 I5 I6 I7 IH I8 I9] Hrun Hsh Hx Hn. rewrite Hrun in I2, I9.
  split; simpl; auto.
  - intros j t m Hj Ho. by eapply Hn, I4.
  - intros m Hm. destruct (I6 m Hm). auto.
  - done.
  - by destruct IH.
  - by apply I9.
Qed.

Lemma eth_sync_ok : wp sync_protocol (eth_sync address) tt (fun r _ => sync_result r).
Proof.
  simpl. split; [done|]. intros [n|e] Hn; simpl.
  - split; [done|]. intros [] _. by left.
  - right. by eexists.
Qed.

Lemma inv_pop k s m q i :
  inv k s -> run_state s = Acquired -> pop (queue (shared s)) = Some (m, q) ->
  tasks s !! i = None ->
  inv (k + 1) {| shared := set_queue q (shared s); run_state := Selecting;
    tasks := <[i := {| role := Worker (length (dispatched s)) m; permit := true;
                       code := spawned_task (A := Eth) m; hold := free |}]> (tasks s);
    calls := calls s; submitted := submitted s; dispatched := m :: dispatched s;
    confirmed := confirmed s; broadcasts := broadcasts s |}.
Proof.
  intros Hinv Hrun Hpop Hi. destruct (pop_items _ _ _ Hpop) as (pm & Hpm & Hitems & _).
  assert (queued (queue (shared s)) ≡ₚ m :: queued q) as Hperm.
  { unfold queued. rewrite Hitems. simpl. by rewrite Hpm. }
  pose proof (sh_sane _ _ (inv_shared _ _ Hinv)) as Hsane. rewrite Hperm in Hsane.
  apply Forall_cons in Hsane as [Hm Hrest].
  destruct (inv_add_task k s i (Worker (length (dispatched s)) m) true (spawned_task (A := Eth) m))
    as (A3 & A4 & A5 & A6); [done|done|by apply eth_spawned_ok|].
  destruct Hinv as [I1 I2 I3 I4 I5 I6 I7 IH I8 I9]. rewrite Hrun in I2.
  split; simpl; [|rewrite permit_holders_insert by done; simpl in *; lia|done..| | |done].
  - apply (shared_ok_mono k); [lia|]. destruct I1 as [H1 H2 H3 H4 H5 H6 H7].
    split; try done. simpl. by eapply pop_ok.
  - by apply (history_dispatch s _ m i
      (MkTask (Worker (length (dispatched s)) m) true (spawned_task (A := Eth) m) free)).
  - rewrite I8, Hperm. solve_Permutation.
Qed.

Lemma inv_caller k s m i :
  inv k s -> message_sane m -> tasks s !! i = None ->
  inv (k + 1) {| shared := shared s; run_state := run_state s;
    tasks := <[i := {| role := Caller m; permit := false; code := add_message m;
                       hold := free |}]> (tasks s);
    calls := m :: calls s; submitted := submitted s; dispatched := dispatched s;
    confirmed := confirmed s; broadcasts := broadcasts s |}.
Proof.
  intros Hinv Hm Hi.
  destruct (inv_add_task k s i (Caller m) false (add_message m)) as (A3 & A4 & A5 & A6);
    [done|done|by apply eth_caller_ok|].
  destruct Hinv as [I1 I2 I3 I4 I5 I6 I7 IH I8 I9].
  split; simpl; [|rewrite permit_holders_insert by done; simpl; lia|done..| |by apply (history_call s _ m i (MkTask (Caller m) false (add_message m) free))|done|done].
  - apply (shared_ok_mono k); [lia|done].
  - intros Hw Hne. destruct (I7 Hw Hne) as [?|(j & u & Hj & Hu)]; [by left|].
    right. exists j, u. rewrite lookup_insert_ne; [done|]. congruence.
Qed.

Lemma inv_step k s s' :
  inv k s -> 0 <= k -> 0 <= chain_nonces -> chain_nonces + 2 * k + 2 < 2 ^ 64 ->
  step s s' -> inv (k + 1) s'.
Proof.
  intros Hinv Hk H0 Hroom Hstep. pose proof (inv_run _ _ Hinv) as Hr.
  destruct Hstep as [s Hrun|s e Hrun|s n Hsel|s n Hsel|s X e kont a x sh Hrun Henv Hp
    |s X e kont a r Hrun Henv Hp|s r Hrun|s Hrun|s e Hrun|s Hrun Hfree|s m q i Hrun Hpop Hi
    |s Hrun Hpop|s Hrun Hready|s m i Hm Hi|s i t X e kont a x sh Hi Hc Henv Hp
    |s i t X e kont a r Hi Hc Henv Hp|s i t r Hi Hc|s i t Hi Hc].
  - apply inv_with_run; rewrite ?Hrun; done.
  - apply inv_with_run; rewrite ?Hrun; try done. right. by eexists.
  - apply inv_with_run; try done; [|apply eth_sync_ok].
    destruct (run_state s); simpl in Hsel; try done; injection Hsel as <-; simpl; lia.
  - apply inv_with_run; try done; [|by left].
    destruct (run_state s); simpl in Hsel; try done; injection Hsel as <-; simpl; lia.
  - rewrite Hrun in Hr. destruct Hr as [Hmay Hr].
    destruct (perform_sync_ok k X e (shared s) a) as (x' & n & Hp' & ? & ? & ?);
      [apply Hinv|done..|].
    rewrite Hp in Hp'. injection Hp' as -> ->. by eapply inv_sync_step.
  - rewrite Hrun in Hr. destruct Hr as [Hmay Hr].
    destruct (perform_sync_ok k X e (shared s) a) as (x' & n & Hp' & _); [apply Hinv|done..|].
    congruence.
  - by rewrite Hrun in Hr.
  - apply inv_with_run; rewrite ?Hrun; done.
  - rewrite Hrun in Hr. apply inv_with_run; rewrite ?Hrun; try done.
    destruct Hr as [?|[e' [= ->]]]; [done|]. right. by eexists.
  - apply inv_with_run; rewrite ?Hrun; try done. simpl. lia.
  - by apply inv_pop.
  - apply inv_with_run; rewrite ?Hrun; try done. simpl. unfold queued.
    by rewrite (proj1 (pop_none _) Hpop).
  - apply inv_with_run; rewrite ?Hrun; done.
  - by apply inv_caller.
  - pose proof (inv_tasks _ _ Hinv _ _ Hi) as Hwp. rewrite Hc in Hwp. destruct Hwp as [Hmay _].
    destruct (perform_ok k X e (role t) (hold t) (shared s) a) as (x' & sh' & Hp' & Heff);
      [apply Hinv|done..|intros n; by eapply inv_taken|].
    rewrite Hp in Hp'. injection Hp' as -> ->. by eapply inv_task.
  - pose proof (inv_tasks _ _ Hinv _ _ Hi) as Hwp. rewrite Hc in Hwp. destruct Hwp as [Hmay _].
    destruct (perform_ok k X e (role t) (hold t) (shared s) a) as (x' & sh' & Hp' & _);
      [apply Hinv|done..|intros n; by eapply inv_taken|].
    congruence.
  - pose proof (inv_tasks _ _ Hinv _ _ Hi) as Hwp. rewrite Hc in Hwp. done.
  - pose proof (inv_tasks _ _ Hinv _ _ Hi) as Hwp. rewrite Hc in Hwp.
    by apply inv_end_task.
Qed.

Lemma inv_initial n : 0 <= n <= chain_nonces -> chain_nonces < 2 ^ 64 -> inv 0 (initial n).
Proof.
  intros Hn Hc. split; simpl; rewrite ?queued_new; try done.
  2: { split; simpl; try done. by intros j tx ?%not_elem_of_nil. }
  split; simpl; rewrite ?queued_new; [|lia|set_solver|done| |apply queue_new_ok|done].
  - split; simpl; [unfold in_range; lia|set_solver].
  - split; simpl; [lia|set_solver|by vm_compute].
Qed.

(** The states reached in [k] steps from a nonce [n] on chain. *)
Definition reached (n : Z) (k : nat) (s : Sys) : Prop := nsteps step k (initial n) s.

(** The nonces stay below [2^64] during [k] steps. *)
Definition nonce_room (n : Z) (k : nat) : Prop :=
  0 <= n <= chain_nonces /\ chain_nonces + 2 * Z.of_nat k < 2 ^ 64.

Lemma reached_inv n k s : nonce_room n k -> reached n k s -> inv (Z.of_nat k) s.
Proof.
  unfold reached, nonce_room. intros [Hn Hroom]. revert s Hroom.
  induction k as [|k IH]; intros s Hroom Hs.
  - inversion Hs; subst. apply inv_initial; lia.
  - apply nsteps_inv_r in Hs as (s0 & Hs0 & Hstep).
    replace (Z.of_nat (S k)) with (Z.of_nat k + 1) by lia.
    eapply inv_step; [apply IH; [lia|exact Hs0]|lia..|exact Hstep].
Qed.

(** ** Tasks can always finish *)

Lemma env_inhabited X (e : EthE X) : exists a, env_ok e a.
Proof.
  destruct e as [| |t|m now| |l| |X e|X e|X e]; simpl.
  - by exists 0.
  - by exists 0.
  - by exists 0.
  - by exists tt.
  - by exists tt.
  - by exists tt.
  - by exists true.
  - destruct e; [by exists 0|by exists []|by exists tt..].
  - destruct e; [by exists 0|by exists tt..].
  - destruct e.
    + by exists chain_id.
    + by exists (Ok tt).
    + by exists (Ok 0).
    + by exists (Err (Subscription EmptyString)).
    + by exists (Ok None).
    + by exists (Ok 0).
    + by exists (Ok tt).
    + by exists (Ok 0).
Qed.

Lemma perform_frame X (e : EthE X) sh a x sh' :
  perform e sh a = Val (x, sh') ->
  max_in_flight sh' = max_in_flight sh /\ queued (queue sh') ≡ₚ submits e ++ queued (queue sh).
Proof.
  destruct e as [| |t|m now| |l| |X e|X e|X e]; simpl; try by intros [= <- <-].
  - destruct (push (queue sh) m now) as [q|] eqn:Hq; simpl; [|done]. intros [= <- <-].
    destruct (push_items _ _ _ _ Hq) as (p' & _ & Hitems). simpl. split; [done|].
    unfold queued. by rewrite Hitems.
  - destruct (gas_handle X e (gas_manager sh)) as [[]|]; simpl; [|done]. by intros [= <- <-].
  - destruct (nonce_handle X e (nonces sh)) as [[]|]; simpl; [|done]. by intros [= <- <-].
Qed.

(** What the tasks may change on their way to the end. *)
Definition drained (s s' : Sys) : Prop :=
  run_state s' = run_state s /\ dispatched s' = dispatched s /\
  (queued (queue (shared s)) <> [] -> queued (queue (shared s')) <> []).

Lemma task_finishes i t s :
  tasks s !! i = Some t ->
  exists s', rtc step s s' /\ tasks s' = delete i (tasks s) /\
    max_in_flight (shared s') = (max_in_flight (shared s) + if permit t then 1 else 0)%nat /\
    drained s s'.
Proof.
  remember (code t) as p eqn:Hp. revert t s Hp.
  induction p as [[]|r|X e kont IH]; intros t s Hp Hi; symmetry in Hp.
  - eexists. split; [by eapply rtc_once, step_task_ends|]. done.
  - eexists. split; [by eapply rtc_once, step_task_crash|]. done.
  - destruct (env_inhabited X e) as [a Ha].
    destruct (perform e (shared s) a) as [[x sh]|r] eqn:Hperf.
    2: { eexists. split; [by eapply rtc_once, step_task_panics|]. done. }
    set (t' := {| role := role t; permit := permit t; code := kont x; hold := eth_next_state e (hold t) x |}).
    pose proof (step_task s i t X e kont a x sh Hi Hp Ha Hperf) as Hstep. fold t' in Hstep.
    destruct (perform_frame X e (shared s) a x sh Hperf) as [Hmax Hq].
    match type of Hstep with step _ ?s1 =>
      destruct (IH x t' s1) as (s' & Hs' & Hts & Hm & Hr & Hd & Hne);
        [done|by apply lookup_insert_eq|] end.
    exists s'. split; [by eapply rtc_l|]. simpl in *.
    split; [by rewrite Hts, delete_insert_eq|]. split; [by rewrite Hm, Hmax|].
    split; [done|]. split; [done|]. intros Hnil. apply Hne. intros Hsh. rewrite Hsh in Hq.
    apply Permutation_nil_l in Hq. destruct (submits e); simpl in Hq; [congruence|done].
Qed.

Lemma tasks_finish s :
  exists s', rtc step s s' /\ tasks s' = ∅ /\
    max_in_flight (shared s') = (max_in_flight (shared s) + permit_holders (tasks s))%nat /\
    drained s s'.
Proof.
  remember (tasks s) as ts eqn:Hts. revert s Hts.
  induction ts as [|i t ts Hi IH] using map_ind; intros s Hts.
  - exists s. split; [done|]. split; [done|]. split; [|done].
    unfold permit_holders. rewrite map_filter_empty, map_size_empty. lia.
  - destruct (task_finishes i t s) as (s1 & Hs1 & Hts1 & Hm1 & Hr1 & Hd1 & Hq1).
    { rewrite <- Hts. apply lookup_insert_eq. }
    rewrite <- Hts, delete_insert_id in Hts1 by done.
    destruct (IH s1 (eq_sym Hts1)) as (s2 & Hs2 & Hts2 & Hm2 & Hr2 & Hd2 & Hq2).
    exists s2. split; [by etransitivity|]. split; [done|]. split.
    + rewrite Hm2, Hm1, permit_holders_insert by done. lia.
    + unfold drained. rewrite Hr2, Hd2. auto.
Qed.

(** ** Properties *)

(** In every state the system reaches, the free permits, the tasks that
    hold one and the permit that [process_next_message] is holding add up to
    the 16 of the semaphore, whatever blocks cancel the [select!] branch and
    however tasks end; so at most 16 messages are in flight. *)
Theorem permits_conserved n k s :
  nonce_room n k -> reached n k s ->
  (max_in_flight (shared s) + permit_holders (tasks s) + run_permit (run_state s) =
    MAX_IN_FLIGHT_TRANSACTIONS)%nat /\
  (permit_holders (tasks s) <= MAX_IN_FLIGHT_TRANSACTIONS)%nat.
Proof.
  intros Hroom Hs. pose proof (inv_permits _ _ (reached_inv n k s Hroom Hs)). lia.
Qed.

(** C2: the tasks hold distinct nonces: no nonce is held, or has been
    confirmed, by two of them; a nonce a task holds and every nonce a task has
    ever confirmed are below the confirmed count or in flight, so that the
    next assignment returns none of them. *)
Theorem nonces_exclusive n k s :
  nonce_room n k -> reached n k s ->
  (forall i j t u m, tasks s !! i = Some t -> tasks s !! j = Some u ->
     owns (hold t) m -> owns (hold u) m -> i = j) /\
  (forall i t m, tasks s !! i = Some t -> phase (hold t) = Held m -> m ∉ confirmed s) /\
  (exists m s', get_next_available_nonce (nonces (shared s)) = Val (m, s') /\
     (m ∉ confirmed s) /\ forall i t, tasks s !! i = Some t -> ~ owns (hold t) m).
Proof.
  intros Hroom Hs. pose proof (reached_inv n k s Hroom Hs) as Hinv.
  split; [apply Hinv|]. split.
  - intros i t m Hi Hm Hc. destruct (inv_confirmed _ _ Hinv m Hc) as [_ Hnone].
    by destruct (Hnone i t Hi).
  - destruct (inv_shared _ _ Hinv) as [H1 H2 H3 H4 _ _ _]. unfold nonce_room in Hroom.
    destruct (take_next_ok (Z.of_nat k) (nonces (shared s)))
      as (m & s' & Hm & _ & _ & _ & _ & Hfree & _); [done|done|lia|done|done|lia|].
    exists m, s'. split; [done|]. split.
    + intros Hc. by apply Hfree, (inv_confirmed _ _ Hinv).
    + intros i t Hi Ho. by eapply Hfree, inv_taken.
Qed.

(** C6: nothing panics: no task is at a panic, no event that a task may
    perform next panics whatever the environment answers, and [run] is never
    brought down by a panic. *)
Theorem system_never_panics n k s :
  nonce_room n (S k) -> reached n k s ->
  (forall r, run_state s <> Panicked r) /\
  (forall i t, tasks s !! i = Some t ->
     match code t with
     | Ret _ => True
     | Crash _ => False
     | Vis e _ => forall a, env_ok e a -> exists x sh, perform e (shared s) a = Val (x, sh)
     end).
Proof.
  intros Hroom Hs. unfold nonce_room in Hroom.
  pose proof (reached_inv n k s ltac:(unfold nonce_room; lia) Hs) as Hinv. split.
  - intros r Hr. pose proof (inv_run _ _ Hinv) as Hrun. by rewrite Hr in Hrun.
  - intros i t Hi. pose proof (inv_tasks _ _ Hinv _ _ Hi) as Hwp.
    destruct (code t) as [|r|X e kont]; [done|done|]. intros a Ha. destruct Hwp as [Hmay _].
    destruct (perform_ok (Z.of_nat k) X e (role t) (hold t) (shared s) a) as (x & sh & Hp & _);
      [apply Hinv|lia..|done|done|intros m; by eapply inv_taken|]. by exists x, sh.
Qed.

(** No wake-up is lost: when [run] sleeps although messages are queued,
    the [Notify] holds a permit, or a task that pushed one of them is still
    to call [notify_one]. *)
Theorem no_lost_wakeup n k s :
  nonce_room n k -> reached n k s ->
  run_state s = Waiting -> queued (queue (shared s)) <> [] ->
  message_ready (shared s) = true \/
  exists i t, tasks s !! i = Some t /\ owes (hold t) = true /\ code t <> Ret tt.
Proof.
  intros Hroom Hs Hw Hne. pose proof (reached_inv n k s Hroom Hs) as Hinv.
  destruct (inv_wake _ _ Hinv Hw Hne) as [?|(i & t & Hi & Ho)]; [by left|].
  right. exists i, t. split; [done|]. split; [done|]. intros Hret.
  pose proof (inv_tasks _ _ Hinv _ _ Hi) as Hwp. rewrite Hret in Hwp.
  destruct Hwp as [Hno _]. congruence.
Qed.

(** Every message that was pushed is either still queued or was handed
    to exactly one task: cancelling [process_next_message] neither loses nor
    duplicates one. *)
Theorem messages_conserved n k s :
  nonce_room n k -> reached n k s ->
  submitted s ≡ₚ dispatched s ++ queued (queue (shared s)).
Proof. intros Hroom Hs. apply (inv_log _ _ (reached_inv n k s Hroom Hs)). Qed.

(** [run] returns only when the block subscription closes or a request
    of subscribing or syncing fails, with that error. *)
Theorem run_returns n k s r :
  nonce_room n k -> reached n k s -> run_state s = Returned r ->
  r = Err SubscriptionClosed \/ exists e, r = Err (ChainError e).
Proof.
  intros Hroom Hs Hr. pose proof (inv_run _ _ (reached_inv n k s Hroom Hs)) as Hrun.
  by rewrite Hr in Hrun.
Qed.

Lemma dispatch_next s :
  run_state s = Acquired -> queued (queue (shared s)) <> [] -> tasks s = ∅ ->
  exists s' m, rtc step s s' /\ dispatched s' = m :: dispatched s.
Proof.
  intros Hrun Hne Hts. destruct (pop (queue (shared s))) as [[m q]|] eqn:Hpop.
  - eexists _, m. split; [eapply rtc_once, (step_dispatch s m q 0%nat); [done..|by rewrite Hts]|done].
  - apply pop_none in Hpop. unfold queued in Hne. by rewrite Hpop in Hne.
Qed.

Lemma acquire_and_dispatch s :
  run_state s = Selecting -> (0 < max_in_flight (shared s))%nat ->
  queued (queue (shared s)) <> [] -> tasks s = ∅ ->
  exists s' m, rtc step s s' /\ dispatched s' = m :: dispatched s.
Proof.
  intros Hrun Hp Hne Hts.
  destruct (dispatch_next (with_run Acquired (take_permit (shared s)) s)) as (s' & m & Hs' & Hd);
    [done..|].
  exists s', m. split; [|done]. eapply rtc_l; [by apply step_acquire|done].
Qed.

(** A block during the sleep and a successful sync lead back to [select!]. *)
Lemma block_and_sync s :
  run_state s = Waiting -> 0 <= chain_nonces ->
  exists s', rtc step s s' /\ run_state s' = Selecting /\ tasks s' = tasks s /\
    dispatched s' = dispatched s /\ queue (shared s') = queue (shared s) /\
    max_in_flight (shared s') = (max_in_flight (shared s) + 0)%nat.
Proof.
  intros Hrun H0. eexists. split.
  - eapply rtc_l; [apply (step_block s 0); by rewrite Hrun|].
    eapply rtc_l; [eapply step_sync with (answer := Ok 0); [done|simpl; lia|done]|].
    eapply rtc_l; [eapply step_sync with (answer := tt); done|].
    eapply rtc_l; [by apply step_synced|]. apply rtc_refl.
  - done.
Qed.

(** No deadlock: in every reachable state in which [run] is in its
    [select!] and messages are queued, the tasks can all finish, returning
    their permits, after which the next message is dispatched. *)
Theorem queued_message_dispatched n k s :
  nonce_room n k -> reached n k s ->
  selecting (run_state s) <> None -> queued (queue (shared s)) <> [] ->
  exists s' m, rtc step s s' /\ dispatched s' = m :: dispatched s.
Proof.
  intros Hroom Hs Hsel Hne. pose proof (inv_permits _ _ (reached_inv n k s Hroom Hs)) as Hp.
  destruct (tasks_finish s) as (s1 & Hs1 & Hts & Hm & Hr & Hd & Hq). specialize (Hq Hne).
  unfold MAX_IN_FLIGHT_TRANSACTIONS in Hp. rewrite <- Hd.
  assert (0 <= chain_nonces) as H0 by (unfold nonce_room in Hroom; lia).
  assert (exists s' m, rtc step s1 s' /\ dispatched s' = m :: dispatched s1) as (s' & m & Hs' & Hd').
  { destruct (run_state s) eqn:Hrun; simpl in Hsel, Hp; try done.
    - apply acquire_and_dispatch; [congruence|lia|done|done].
    - apply dispatch_next; [congruence|done|done].
    - destruct (block_and_sync s1) as (s2 & Hs2 & ? & Hts2 & Hd2 & Hq2 & Hm2); [congruence|done|].
      destruct (acquire_and_dispatch s2) as (s' & m & Hs' & Hd'); [done|lia|congruence|congruence|].
      exists s', m. split; [by etransitivity|congruence]. }
  exists s', m. split; [by etransitivity|done].
Qed.

End system.

Section witnesses.
#[local] Instance ci_build : BuildProfile := true.
#[local] Instance std_heap : MaxHeap pm_le := BinaryHeap_max_heap pm_le.

Definition demo_message : Message := Message_new (Some 42) 21000 7 [] 50 None 1000.

Lemma demo_sane : message_sane demo_message.
Proof. repeat split; simpl; done || lia || (intros d [=]). Qed.

Abbreviation demo_step := (step 1 77 10).
Abbreviation demo_reached := (reached 1 77 10 5).

(** [run] goes to sleep on the empty queue, then a caller pushes a message
    and has not yet notified. *)
Record sleeping (s : Sys) (t : Task) (q : PriorityQueue) : Prop := {
  sl_run : run_state s = Waiting;
  sl_tasks : tasks s = {[0%nat := t]};
  sl_code : code t = trigger NotifyOne;
  sl_pop : pop (queue (shared s)) = Some (demo_message, q);
  sl_nonces : nonces (shared s) = NonceState_new 5;
  sl_permits : max_in_flight (shared s) = MAX_IN_FLIGHT_TRANSACTIONS;
}.

Lemma demo_sleeping : exists s t q, demo_reached 6 s /\ sleeping s t q.
Proof.
  eexists _, _, _. split.
  - eapply nsteps_l; [by apply step_subscribed|].
    eapply nsteps_l; [apply step_acquire; [done|simpl; unfold MAX_IN_FLIGHT_TRANSACTIONS; lia]|].
    eapply nsteps_l; [by apply step_empty|].
    eapply nsteps_l; [apply (step_caller _ _ _ _ demo_message 0); [apply demo_sane|done]|].
    eapply nsteps_l; [eapply step_task with (i := 0%nat) (answer := 5000); [done|done|by vm_compute|done]|].
    eapply nsteps_l; [eapply step_task with (i := 0%nat) (answer := tt); [done|done|done|by vm_compute]|].
    apply nsteps_O.
  - split; [done|done|done|by vm_compute|done|done].
Qed.

Lemma sleeping_queued s t q : sleeping s t q -> queued (queue (shared s)) <> [].
Proof.
  intros Hs Hnil. destruct (pop_items _ _ _ (sl_pop _ _ _ Hs)) as (pm & _ & Hitems & _).
  unfold queued in Hnil. apply fmap_nil_inv in Hnil. rewrite Hnil in Hitems.
  by apply Permutation_nil_cons in Hitems.
Qed.

Lemma demo_task : exists k k',
  spawned_task (A := Eth) (replay := EthReplayProtection 77) demo_message = Vis NowMs k /\
  k 5000 = Vis (Nonce TakeNext) k'.
Proof. eexists _, _. split; [reflexivity|]. lazy beta. reflexivity. Qed.

(** A message without a deadline that is dispatched takes the next nonce. *)
Lemma dispatch_takes s q n ns :
  run_state s = Acquired -> pop (queue (shared s)) = Some (demo_message, q) ->
  tasks s = ∅ -> get_next_available_nonce (nonces (shared s)) = Val (n, ns) ->
  exists s' t, nsteps demo_step 3 s s' /\ tasks s' !! 0%nat = Some t /\
    permit t = true /\ phase (hold t) = Held n.
Proof.
  intros Hrun Hpop Hts Hn. destruct demo_task as (k & k' & Hk & Hk').
  eexists _, _. split.
  - eapply nsteps_l; [eapply (step_dispatch _ _ _ s demo_message q 0%nat); [done|done|by rewrite Hts]|].
    eapply nsteps_l; [eapply step_task with (i := 0%nat) (answer := 5000);
      [apply lookup_insert_eq|exact Hk|by vm_compute|reflexivity]|].
    eapply nsteps_once, step_task with (i := 0%nat) (answer := 0);
      [apply lookup_insert_eq|exact Hk'|done|]. simpl. by rewrite Hn.
  - split; [apply lookup_insert_eq|done].
Qed.

(** The caller notifies and ends; [run] wakes and dispatches the message, and
    its task takes the nonce 5. *)
Lemma sleeping_wakes s t q :
  sleeping s t q -> exists s', nsteps demo_step 4 s s' /\ run_state s' = Acquired /\
    pop (queue (shared s')) = Some (demo_message, q) /\ tasks s' = ∅ /\
    nonces (shared s') = NonceState_new 5.
Proof.
  intros [H1 H2 H3 H4 H5 H6]. eexists. split.
  - eapply nsteps_l; [eapply step_task with (i := 0%nat) (answer := tt);
      [by rewrite H2|exact H3|done|reflexivity]|].
    eapply nsteps_l; [eapply step_task_ends with (i := 0%nat); [apply lookup_insert_eq|done]|].
    eapply nsteps_l; [by apply step_wake|].
    eapply nsteps_once, step_acquire; [done|]. simpl. rewrite H6.
    unfold MAX_IN_FLIGHT_TRANSACTIONS. lia.
  - split; [done|]. split; [done|]. split; [|done]. simpl.
    by rewrite delete_insert_eq, H2, delete_singleton_eq.
Qed.

Lemma demo_assigned : exists s t, demo_reached 13 s /\ tasks s !! 0%nat = Some t /\
  permit t = true /\ phase (hold t) = Held 5.
Proof.
  destruct demo_sleeping as (s0 & t0 & q & Hs0 & Hsl).
  destruct (sleeping_wakes s0 t0 q Hsl) as (s & Hs & H1 & H2 & H3 & H4).
  destruct (dispatch_takes s q 5 {| current := 5; in_flight := {[5]} |} H1 H2 H3)
    as (s' & t & Hs' & ?); [by rewrite H4; vm_compute|].
  exists s', t. split; [|done]. eapply (nsteps_trans 6 7), (nsteps_trans 4 3); eassumption.
Qed.

Lemma demo_room : nonce_room 10 5 14.
Proof. split; [lia|by vm_compute]. Qed.

Lemma room_le k : (k <= 14)%nat -> nonce_room 10 5 k.
Proof. intros Hk. destruct demo_room. split; [done|lia]. Qed.
Lemma permits_conserved_witness : exists s, demo_reached 13 s /\
  (max_in_flight (shared s) + permit_holders (tasks s) + run_permit (run_state s) = 16)%nat.
Proof.
  destruct demo_assigned as (s & t & Hs & _). exists s. split; [exact Hs|].
  exact (proj1 (permits_conserved 1 77 10 5 13 s (room_le 13 ltac:(lia)) Hs)).
Defined.

Lemma nonces_exclusive_witness : exists s t, demo_reached 13 s /\ tasks s !! 0%nat = Some t /\
  phase (hold t) = Held 5 /\ (5 ∉ confirmed s).
Proof.
  destruct demo_assigned as (s & t & Hs & Hi & _ & Hp). exists s, t.
  destruct (nonces_exclusive 1 77 10 5 13 s (room_le 13 ltac:(lia)) Hs) as (_ & H & _).
  split; [exact Hs|]. split; [exact Hi|]. split; [exact Hp|]. exact (H 0%nat t 5 Hi Hp).
Defined.

Lemma system_never_panics_witness : exists s, demo_reached 13 s /\
  forall r, run_state s <> Panicked r.
Proof.
  destruct demo_assigned as (s & t & Hs & _). exists s. split; [exact Hs|].
  exact (proj1 (system_never_panics 1 77 10 5 13 s (room_le 14 ltac:(lia)) Hs)).
Defined.

Lemma no_lost_wakeup_witness : exists s, demo_reached 6 s /\ run_state s = Waiting /\
  (message_ready (shared s) = true \/
   exists i t, tasks s !! i = Some t /\ owes (hold t) = true /\ code t <> Ret tt).
Proof.
  destruct demo_sleeping as (s & t & q & Hs & Hsl). exists s. split; [exact Hs|].
  split; [exact (sl_run _ _ _ Hsl)|].
  exact (no_lost_wakeup 1 77 10 5 6 s (room_le 6 ltac:(lia)) Hs (sl_run _ _ _ Hsl)
    (sleeping_queued s t q Hsl)).
Defined.

Lemma messages_conserved_witness : exists s, demo_reached 6 s /\
  submitted s ≡ₚ dispatched s ++ queued (queue (shared s)) /\ queued (queue (shared s)) <> [].
Proof.
  destruct demo_sleeping as (s & t & q & Hs & Hsl). exists s. split; [exact Hs|].
  split; [exact (messages_conserved 1 77 10 5 6 s (room_le 6 ltac:(lia)) Hs)|].
  exact (sleeping_queued s t q Hsl).
Defined.

Lemma run_returns_witness : exists s r, demo_reached 1 s /\ run_state s = Returned r /\
  (r = Err SubscriptionClosed \/ exists e, r = Err (ChainError e)).
Proof.
  assert (demo_reached 1 (with_run (Returned (from_chain (Err (Subscription EmptyString))))
    (Sender_new 5) (initial 5))) as Hs by (apply nsteps_once, step_subscribe_failed; reflexivity).
  eexists _, _. split; [exact Hs|]. split; [reflexivity|].
  exact (run_returns 1 77 10 5 1 _ _ (room_le 1 ltac:(lia)) Hs eq_refl).
Defined.

Lemma queued_message_dispatched_witness : exists s, demo_reached 6 s /\
  exists s' m, rtc demo_step s s' /\ dispatched s' = m :: dispatched s.
Proof.
  destruct demo_sleeping as (s & t & q & Hs & Hsl). exists s. split; [exact Hs|].
  apply (queued_message_dispatched 1 77 10 5 6 s (room_le 6 ltac:(lia)) Hs).
  - rewrite (sl_run _ _ _ Hsl). discriminate.
  - exact (sleeping_queued s t q Hsl).
Defined.
End witnesses.
