(* ===== verification/EthRefine.v ===== *)
(** * The Ethereum system is an instance of the sender's

    Every step of EthSystem.v, the sender with the managers and the node of
    the Ethereum adapter, is one or two steps of SenderSystem.v, the sender
    over any adapter; and the Ethereum adapter notifies what it pushes.  What
    the sender does for every adapter therefore holds of the Ethereum one, and
    the two models of [run] agree. *)

From stdpp Require Import gmap strings relations.
From S2P Require Import Prelude Prog BinaryHeap Errors Chain Message PriorityQueue.
From S2P Require Import NonceManager GasPrice Adapter Sender SenderSystem Ethereum EthContract EthSystem.

#[export] Instance eth_view : SenderView EthE.
Proof.
  refine {| sender_op := fun X (e : EthE X) =>
    match e in EthE X return option (SenderOp X) with
    | QueuePush m now => Some (OpPush m now)
    | NotifyOne => Some OpNotify
    | _ => None
    end |}; done.
Defined.

(** What the events do to the two managers. *)
Definition eth_world `{BuildProfile} (X : Type) (e : EthE X) (managers : NonceState * GasPriceManager)
    : X -> run (X * (NonceState * GasPriceManager)) :=
  match e in EthE X return X -> run (X * (NonceState * GasPriceManager)) with
  | Gas e => fun _ => '(x, g) ← gas_handle _ e managers.2; Val (x, (managers.1, g))
  | Nonce e => fun _ => '(x, n) ← nonce_handle _ e managers.1; Val (x, (n, managers.2))
  | _ => fun answer => Val (answer, managers)
  end.

Section refine.
Context `{BuildProfile} {HM : MaxHeap pm_le}.
Context (chain_id address chain_nonces : Z).
#[local] Instance replay_refine : ReplayProtection EthE := EthReplayProtection address.

Lemma eth_notifies : AdapterNotifies (A := Eth).
Proof.
  split.
  - intros m f t. apply quiet_notifies. cbn [send_transaction EthClient]. unfold eth_send_transaction.
    apply quiet_bind; [done|]. intros id. apply quiet_bind; [by destruct (build_tx _ _ _ _)|]. intros tx.
    apply quiet_bind; [by apply quiet_bind|]. intros [h|err]; [|done].
    apply quiet_bind; [by apply quiet_bind|]. intros [u|err]; [|done].
    apply quiet_bind; [done|]. intros [h'|err]; [|done].
    apply quiet_bind; [done|]. intros [[receipt|]|err]; [by destruct (status receipt)|done|done].
  - intros p. apply quiet_notifies, quiet_bind; [by apply quiet_embed|]. by intros [[]|].
  - by apply quiet_notifies.
  - intros t. by apply quiet_notifies.
  - intros pd. apply quiet_notifies. cbn [handle_dropped EthRetryStrategy]. unfold eth_handle_dropped.
    destruct (can_retry _); [|by apply quiet_bind]. cbn [negb].
    destruct (_ >=? _); [by apply quiet_bind|]. apply quiet_bind; [by destruct (eth_bump_fee _)|done].
  - intros pd d. apply quiet_notifies, quiet_bind; [|done]. apply quiet_join; [done| |done]. by apply quiet_embed.
Qed.

(** ** The simulation *)

Abbreviation eth_step := (EthSystem.step chain_id address chain_nonces).
Abbreviation any_step := (sender_step (A := Eth) eth_world (fun X => env_ok chain_id chain_nonces (X := X))).

Definition sender_of (sh : Shared) : SenderState := MkSender (queue sh) (message_ready sh) (max_in_flight sh).
Definition managers_of (sh : Shared) : NonceState * GasPriceManager := (nonces sh, gas_manager sh).

Definition run_of (r : RunState) : RunAt :=
  match r with
  | Subscribing => Awaiting (subscribe_new_blocks (A := Eth))
  | Selecting => InSelect
  | Acquired => WithPermit
  | Waiting => Sleeping
  | Syncing p => Awaiting p
  | Returned r => RunReturned r
  | Panicked r => RunPanicked r
  end.

(** A task without the ghost state that the two systems keep for it. *)
Definition job_of (t : Task) : bool * Prog EthE unit := (permit t, code t).
Definition plain (t : SenderTask (E := EthE)) : bool * Prog EthE unit := (st_permit t, st_code t).

Record abstracts (s : Sys) (g : SenderSys (E := EthE) (W := NonceState * GasPriceManager)) : Prop := {
  ab_sender : sender g = sender_of (shared s);
  ab_behind : behind g = managers_of (shared s);
  ab_run : run_at g = run_of (run_state s);
  ab_jobs : plain <$> jobs g = job_of <$> tasks s;
  ab_stream : (forall r, run_state s <> Returned r) -> stream g = MkStream [] true;
  ab_pushed : pushed g = submitted s;
  ab_handed_out : handed_out g = dispatched s;
  ab_quiet : forall p, run_state s = Syncing p -> quiet p;
}.

Lemma perform_any_of X (e : EthE X) sh a :
  perform_any eth_world e (sender_of sh) (managers_of sh) a =
    match perform e sh a with
    | Val (x, sh') => Val (x, sender_of sh', managers_of sh')
    | Panic r => Panic r
    end.
Proof.
  destruct e as [| |t|m now| |l| |X e|X e|X e]; try done.
  - unfold perform_any. simpl. by destruct (push (queue sh) m now).
  - unfold perform_any. simpl. by destruct (gas_handle X e (gas_manager sh)) as [[]|].
  - unfold perform_any. simpl. by destruct (nonce_handle X e (nonces sh)) as [[]|].
Qed.

Lemma pushes_submits X (e : EthE X) : pushes e = submits e.
Proof. by destruct e. Qed.

Lemma job_lookup s g (i : nat) t :
  abstracts s g -> tasks s !! i = Some t ->
  exists u, jobs g !! i = Some u /\ st_permit u = permit t /\ st_code u = code t.
Proof.
  intros Hab Hi. pose proof (f_equal (fun m => m !! i) (ab_jobs s g Hab)) as Hl. simpl in Hl.
  rewrite !lookup_fmap, Hi in Hl. destruct (jobs g !! i) as [u|]; [|done]. injection Hl as Hp Hc. by exists u.
Qed.

Lemma job_free s g (i : nat) : abstracts s g -> tasks s !! i = None -> jobs g !! i = None.
Proof.
  intros Hab Hi. pose proof (f_equal (fun m => m !! i) (ab_jobs s g Hab)) as Hl. simpl in Hl.
  rewrite !lookup_fmap, Hi in Hl. by destruct (jobs g !! i).
Qed.

(** A step of [run] that touches only the sender. *)
Lemma abstracts_run s g r sd sh :
  abstracts s g -> managers_of sh = managers_of (shared s) -> sd = sender_of sh ->
  (forall r, run_state s <> Returned r) -> (forall p, r = Syncing p -> quiet p) ->
  abstracts (with_run r sh s) (at_run (run_of r) sd g).
Proof.
  intros [H1 H2 H3 H4 H5 H6 H7 H8] Hm -> Hn Hq. split; simpl; try done; [by rewrite H2|]. intros _. by apply H5.
Qed.

Lemma sync_quiet : quiet (sync (A := Eth)).
Proof. apply quiet_embed. by intros X []. Qed.

(** The poll is not part of the states of EthSystem.v. *)
Lemma abstracts_in_poll s g r sd b :
  abstracts s (at_run r sd g) -> abstracts s (in_poll r sd (set_polled b g)).
Proof. intros [H1 H2 H3 H4 H5 H6 H7 H8]. by split. Qed.

Lemma abstracts_polled s g b : abstracts s g -> abstracts s (set_polled b g).
Proof. intros [H1 H2 H3 H4 H5 H6 H7 H8]. by split. Qed.

(** A poll that finds no block: there is never one that waits. *)
Lemma no_block s g n :
  abstracts s g -> selecting (run_state s) = Some n -> any_step g (set_polled true g).
Proof.
  intros Hab Hsel. eapply (ss_no_block _ _ g n); rewrite ?(ab_run s g Hab).
  - by destruct (run_state s).
  - by rewrite (ab_stream s g Hab) by (intros r Hr; by rewrite Hr in Hsel).
  - by rewrite (ab_stream s g Hab) by (intros r Hr; by rewrite Hr in Hsel).
Qed.

Lemma free_permits_of n s g : abstracts s g -> free_permits n (sender g) = sender_of (add_permits n (shared s)).
Proof. intros Hab. unfold free_permits. by rewrite (ab_sender s g Hab). Qed.

(** A task ends. *)
Lemma abstracts_end s g i t :
  abstracts s g -> tasks s !! i = Some t -> exists u, jobs g !! i = Some u /\ st_code u = code t /\
    abstracts (end_task i t s) (task_end i u g).
Proof.
  intros Hab Hi. destruct (job_lookup s g i t Hab Hi) as (u & Hu & Hp & Hc).
  exists u. split; [done|]. split; [done|]. destruct Hab as [H1 H2 H3 H4 H5 H6 H7 H8]. split; simpl; try done.
  - unfold free_permits. by rewrite H1, Hp.
  - by rewrite !fmap_delete, H4.
Qed.

Lemma select_run s g n : abstracts s g -> selecting (run_state s) = Some n ->
  in_select (run_at g) = Some n /\ stream g = MkStream [] true /\ (forall r, run_state s <> Returned r).
Proof.
  intros Hab Hsel. rewrite (ab_run s g Hab).
  assert (forall r, run_state s <> Returned r) as Hn by (intros r Hr; by rewrite Hr in Hsel).
  split; [by destruct (run_state s)|]. split; [by apply (ab_stream s g Hab)|done].
Qed.

(** An event has the same effect and the same panics in both. *)
Lemma same_event s g X (e : EthE X) a :
  abstracts s g ->
  perform_any eth_world e (sender g) (behind g) a =
    match perform e (shared s) a with
    | Val (x, sh') => Val (x, sender_of sh', managers_of sh')
    | Panic r => Panic r
    end.
Proof. intros Hab. by rewrite (ab_sender s g Hab), (ab_behind s g Hab), perform_any_of. Qed.

Lemma abstracts_await s g X (e : EthE X) k (p' : Prog EthE (result unit Error)) sh :
  abstracts s g -> run_state s = Syncing (Vis e k) -> quiet p' ->
  abstracts (with_run (Syncing p') sh s) (await_event e p' (sender_of sh) (managers_of sh) g).
Proof.
  intros Hab Hr Hq. destruct (ab_quiet s g Hab _ Hr) as [He _].
  destruct Hab as [H1 H2 H3 H4 H5 H6 H7 H8]. split; simpl; try done.
  - intros _. apply H5. by rewrite Hr.
  - unfold pushes. by rewrite He.
  - by intros p [= <-].
Qed.

Lemma abstracts_task s g i t u X (e : EthE X) x (p' : Prog EthE unit) sh :
  abstracts s g -> tasks s !! i = Some t -> st_permit u = permit t ->
  abstracts
    {| shared := sh; run_state := run_state s;
       tasks := <[i := {| role := role t; permit := permit t; code := p'; hold := eth_next_state e (hold t) x |}]> (tasks s);
       calls := calls s; submitted := submits e ++ submitted s;
       dispatched := dispatched s; confirmed := confirms e ∪ confirmed s;
       broadcasts := sends (role t) e ++ broadcasts s |}
    (task_event i u e p' (sender_of sh) (managers_of sh) g).
Proof.
  intros [H1 H2 H3 H4 H5 H6 H7 H8] Hi Hp. split; simpl; try done.
  - rewrite !fmap_insert, H4. by unfold plain at 1, job_of at 1; simpl; rewrite Hp.
  - by rewrite pushes_submits, H6.
Qed.

Lemma abstracts_task_new s s' g i t u :
  abstracts s g -> tasks s' = <[i := t]> (tasks s) -> plain u = job_of t -> shared s' = shared s ->
  run_state s' = run_state s -> submitted s' = submitted s -> dispatched s' = dispatched s ->
  abstracts s' (task_new i u g).
Proof.
  intros [H1 H2 H3 H4 H5 H6 H7 H8] Ht Hu Hsh Hr Hsub Hd.
  split; simpl; rewrite ?Hsh, ?Hr, ?Hsub, ?Hd; try done. by rewrite Ht, !fmap_insert, H4, Hu.
Qed.

(** The subscription, in one step there and in two here. *)
Lemma subscribed s g (a : result unit ChainErr) :
  abstracts s g -> run_state s = Subscribing ->
  exists g', rtc any_step g g' /\
    abstracts (with_run (match a with Ok _ => Selecting | Err _ => Returned (from_chain a) end) (shared s) s) g'.
Proof.
  intros Hab Hr. pose proof (ab_run s g Hab) as Hrun. rewrite Hr in Hrun. eexists. split.
  - eapply rtc_l; [eapply (ss_await _ _ g _ (Chain SubscribeNewBlocks) _ a); [exact Hrun|done|done]|].
    eapply rtc_once, ss_awaited. reflexivity.
  - destruct Hab as [H1 H2 H3 H4 H5 H6 H7 H8]. split; simpl; try done; try (by destruct a).
    intros _. apply H5. by rewrite Hr.
Qed.

Ltac not_returned Hr := intros ?; rewrite Hr; discriminate.

Lemma block_simulated s g n :
  abstracts s g -> selecting (run_state s) = Some n ->
  exists g', rtc any_step g g' /\
    abstracts (with_run (Syncing (sync (A := Eth))) (add_permits n (shared s)) s) g'.
Proof.
  intros Hab Hsel. destruct (select_run s g n Hab Hsel) as (Hsg & Hst & Hn). eexists. split.
  - eapply rtc_l; [apply (ss_waits _ _ g)|]. eapply rtc_l; [apply (ss_block_arrives _ _ _ 0); simpl; by rewrite Hst|].
    eapply rtc_once, (ss_recv _ _ _ n); [exact Hsg|done|]. simpl. by rewrite Hst.
  - pose proof (free_permits_of n s g Hab) as Hf. destruct Hab as [H1 H2 H3 H4 H5 H6 H7 H8].
    split; simpl; try done. intros p [= <-]. apply sync_quiet.
Qed.

Lemma closed_simulated s g n :
  abstracts s g -> selecting (run_state s) = Some n ->
  exists g', rtc any_step g g' /\
    abstracts (with_run (Returned (Err SubscriptionClosed)) (add_permits n (shared s)) s) g'.
Proof.
  intros Hab Hsel. destruct (select_run s g n Hab Hsel) as (Hsg & Hst & Hn). eexists. split.
  - eapply rtc_l; [apply (ss_waits _ _ g)|]. eapply rtc_l; [apply (ss_stream_closes _ _ _)|].
    eapply rtc_once, (ss_recv_none _ _ _ n); [exact Hsg|done|simpl; by rewrite Hst|done].
  - pose proof (free_permits_of n s g Hab) as Hf. destruct Hab as [H1 H2 H3 H4 H5 H6 H7 H8].
    split; simpl; try done. intros Hx. by destruct (Hx (Err SubscriptionClosed)).
Qed.

Lemma dispatch_simulated s g m q i :
  abstracts s g -> run_state s = Acquired -> pop (queue (shared s)) = Some (m, q) -> tasks s !! i = None ->
  exists g', rtc any_step g g' /\
    abstracts {| shared := set_queue q (shared s); run_state := Selecting;
                 tasks := <[i := {| role := Worker (length (dispatched s)) m; permit := true;
                                    code := spawned_task (A := Eth) m; hold := free |}]> (tasks s);
                 calls := calls s; submitted := submitted s; dispatched := m :: dispatched s;
                 confirmed := confirmed s; broadcasts := broadcasts s |} g'.
Proof.
  intros Hab Hr Hpop Hi. pose proof (ab_run s g Hab) as Hrun. rewrite Hr in Hrun. eexists. split.
  - eapply rtc_l; [eapply (no_block s g 1); [done|by rewrite Hr]|].
    eapply rtc_once, (ss_hand_out _ _ (set_polled true g) m q i);
      [done|done|simpl; by rewrite (ab_sender s g Hab)|by apply (job_free s g)].
  - destruct Hab as [H1 H2 H3 H4 H5 H6 H7 H8]. split; simpl; try done.
    + by rewrite H1.
    + by rewrite !fmap_insert, H4.
    + intros _. apply H5. not_returned Hr.
    + by rewrite H7.
Qed.

Lemma eth_step_simulated s s' g :
  eth_step s s' -> abstracts s g -> exists g', rtc any_step g g' /\ abstracts s' g'.
Proof.
  intros Hs Hab. pose proof (ab_run s g Hab) as Hrun. pose proof (ab_sender s g Hab) as Hsd.
  destruct Hs as [s Hr|s e Hr|s n Hsel|s n Hsel|s X e k a x sh Hr Ha Hp|s X e k a r Hr Ha Hp|s r Hr|s Hr|s e Hr
    |s Hr Hp|s m q i Hr Hpop Hi|s Hr Hpop|s Hr Hready|s m i Hm Hi|s i t X e k a x sh Hi Hc Ha Hp
    |s i t X e k a r Hi Hc Ha Hp|s i t r Hi Hc|s i t Hi Hc]; try (rewrite Hr in Hrun; simpl in Hrun).
  - by apply (subscribed s g (Ok tt)).
  - by apply (subscribed s g (Err e)).
  - by eapply block_simulated.
  - by eapply closed_simulated.
  - eexists. split.
    + eapply rtc_once, (ss_await _ _ g); [exact Hrun|exact Ha|]. by rewrite (same_event s g), Hp by done.
    + apply (abstracts_await s g X e k); [done..|]. by apply (ab_quiet s g Hab _ Hr).
  - eexists. split.
    + eapply rtc_once, (ss_await_panics _ _ g); [exact Hrun|exact Ha|]. by rewrite (same_event s g), Hp by done.
    + by apply (abstracts_run s g (Panicked r)); [..|not_returned Hr|].
  - eexists. split; [by eapply rtc_once, (ss_await_crash _ _ g)|].
    by apply (abstracts_run s g (Panicked r)); [..|not_returned Hr|].
  - eexists. split; [by eapply rtc_once, (ss_awaited _ _ g)|].
    by apply (abstracts_run s g Selecting); [..|not_returned Hr|].
  - eexists. split; [by eapply rtc_once, (ss_awaited _ _ g)|].
    by apply (abstracts_run s g (Returned (Err e))); [..|not_returned Hr|].
  - eexists. split.
    + eapply rtc_l; [eapply (no_block s g 0); [done|by rewrite Hr]|].
      eapply rtc_once, (ss_acquire _ _ (set_polled true g) (pred (max_in_flight (shared s)))); [done|done|].
      simpl. rewrite Hsd. simpl. lia.
    + apply abstracts_in_poll, (abstracts_run s g Acquired); [done|done|simpl; by rewrite Hsd|not_returned Hr|done].
  - by eapply dispatch_simulated.
  - eexists. split.
    { eapply rtc_l; [eapply (no_block s g 1); [done|by rewrite Hr]|].
      eapply rtc_once, (ss_empty _ _ (set_polled true g)); [done|done|simpl; by rewrite Hsd]. }
    apply abstracts_in_poll, (abstracts_run s g Waiting); [done|done|unfold free_permits; simpl; by rewrite Hsd|not_returned Hr|done].
  - eexists. split.
    { eapply rtc_l; [eapply (no_block s g 0); [done|by rewrite Hr]|].
      eapply rtc_once, (ss_wake _ _ (set_polled true g)); [done|done|simpl; by rewrite Hsd]. }
    apply (abstracts_run s (set_polled true g) Selecting);
      [by apply abstracts_polled|done|simpl; by rewrite Hsd|not_returned Hr|done].
  - eexists. split; [by eapply rtc_once, (ss_call _ _ g m i), (job_free s)|]. by eapply abstracts_task_new.
  - destruct (job_lookup s g i t Hab Hi) as (u & Hu & Hpu & Hcu). eexists. split.
    + eapply rtc_once, (ss_task _ _ g i u); [done|by rewrite Hcu|exact Ha|]. by rewrite (same_event s g), Hp by done.
    + by apply abstracts_task.
  - destruct (abstracts_end s g i t Hab Hi) as (u & Hu & Hcu & Hab'). eexists. split; [|exact Hab'].
    eapply rtc_once, (ss_task_panics _ _ g i u); [done|by rewrite Hcu|exact Ha|]. by rewrite (same_event s g), Hp by done.
  - destruct (abstracts_end s g i t Hab Hi) as (u & Hu & Hcu & Hab'). eexists. split; [|exact Hab'].
    eapply rtc_once, (ss_task_crash _ _ g i u); [done|by rewrite Hcu].
  - destruct (abstracts_end s g i t Hab Hi) as (u & Hu & Hcu & Hab'). eexists. split; [|exact Hab'].
    eapply rtc_once, (ss_task_ends _ _ g i u); [done|by rewrite Hcu].
Qed.

Lemma initial_abstracts n :
  abstracts (initial n) (sender_start (A := Eth) (NonceState_new n, GasPriceManager_new)).
Proof. split; simpl; [done..|by rewrite !fmap_empty|done|done|done|done]. Qed.

(** The environment can let a synchronisation succeed. *)
Lemma eth_sync_succeeds sd managers :
  0 <= chain_nonces ->
  can_succeed eth_world (fun X => env_ok chain_id chain_nonces (X := X)) (sync (A := Eth)) sd managers.
Proof.
  intros Hn. exists (Ok 0), (Ok 0), sd, managers. split; [simpl; lia|]. split; [done|].
  exists tt, tt. eexists _, _. split; [done|]. split; [done|]. by exists tt.
Qed.

(** ** Refinement *)

(** The running Ethereum sender is an instance of the sender over any
    adapter: every state that its steps reach stands for a state that the
    generic sender reaches, with the events of the two managers as its world:
    the same queue, permits, stored wake-up and point of [run], the same tasks
    with the same permits and the same code to go, the same messages pushed and
    handed out; and its adapter notifies what it pushes, so that the theorems
    on the generic sender hold of it. *)
Theorem eth_system_refines n s :
  rtc eth_step (initial n) s ->
  (exists g, rtc any_step (sender_start (A := Eth) (NonceState_new n, GasPriceManager_new)) g /\ abstracts s g) /\
  AdapterNotifies (A := Eth).
Proof.
  intros Hr. split; [|apply eth_notifies]. pose proof (initial_abstracts n) as Hab. revert Hab.
  generalize (sender_start (A := Eth) (NonceState_new n, GasPriceManager_new)).
  induction Hr as [s|s1 s2 s3 Hs _ IH]; intros g Hab; [by exists g|].
  destruct (eth_step_simulated s1 s2 g Hs Hab) as (g2 & Hg2 & Hab2).
  destruct (IH g2 Hab2) as (g3 & Hg3 & Hab3). exists g3. split; [by etransitivity|done].
Qed.

End refine.

Section witnesses.
#[local] Instance refine_checks : BuildProfile := true.
#[local] Instance refine_heap : MaxHeap pm_le := BinaryHeap_max_heap pm_le.

(** The sender asleep, a message pushed and not yet notified. *)
Lemma eth_system_refines_witness :
  exists s g, rtc (EthSystem.step 1 77 10) (initial 5) s /\ run_state s = Waiting /\
    abstracts s g /\ run_at g = Sleeping.
Proof.
  destruct demo_sleeping as (s & t & q & Hs & Hsl).
  assert (rtc (EthSystem.step 1 77 10) (initial 5) s) as Hr by (eapply rtc_nsteps_2; exact Hs).
  destruct (eth_system_refines 1 77 10 5 s Hr) as ((g & _ & Hab) & _). exists s, g.
  split; [exact Hr|]. split; [exact (sl_run _ _ _ Hsl)|]. split; [exact Hab|].
  pose proof (ab_run s g Hab) as Hrg. rewrite (sl_run _ _ _ Hsl) in Hrg. exact Hrg.
Defined.
End witnesses.
