(* ===== verification/EthRun.v ===== *)
(** * Executing the running Ethereum sender

    An executable scheduler for the step relation of EthSystem.v: a list of
    actions says what happens next, and an environment answers the clocks and
    the node.  [exec_sound] shows that what it computes is reachable; the
    scenarios of the other files are run with it. *)

From stdpp Require Import gmap strings relations.
From S2P Require Import Prelude Prog BinaryHeap Errors Chain Message PriorityQueue.
From S2P Require Import NonceManager GasPrice Adapter Sender Ethereum EthContract EthSystem.

(** The answers of a client of the chain about one transaction. *)
Record Node := MkNode {
  node_chain_id : Z;
  node_send : TxEip1559 -> result Z ChainErr;
  node_register : Z -> result unit string;
  node_await : Z -> result Z string;
  node_receipt : Z -> result (option Receipt) ChainErr;
}.

(** What the clocks and the node answer. *)
Record Answers := MkAnswers {
  env_now : Z;
  env_latency : Z;
  env_node : Node;
  env_nonce : result Z ChainErr;
}.

Inductive Act :=
  | Subscribed
  | SubscribeFails (e : ChainErr)
  | NewBlock
  | Closed
  | SyncEvent
  | SyncReturns
  | Acquire
  | Dispatch (i : nat)
  | EmptyQueue
  | Wake
  | Call (m : Message) (i : nat)
  | TaskEvent (i : nat)
  | TaskEnds (i : nat).

Section run.
Context `{BuildProfile} {HM : MaxHeap pm_le}.
Context (chain_id address chain_nonces : Z) (env : Answers).
#[local] Instance replay_run : ReplayProtection EthE := EthReplayProtection address.

Definition chain_answer {X} (e : ChainE X) : X :=
  match e in ChainE X return X with
  | ChainId => node_chain_id (env_node env)
  | SendTransaction tx => node_send (env_node env) tx
  | Register h _ _ => node_register (env_node env) h
  | AwaitPending h => node_await (env_node env) h
  | GetReceipt h => node_receipt (env_node env) h
  | GetAccountNonce _ => env_nonce env
  | GetBlockNumber => Ok 0
  | SubscribeNewBlocks => Ok tt
  end.

(** The answers to the events on shared objects are not used by [perform]. *)
Definition answer {X} (e : EthE X) : X :=
  match e in EthE X return X with
  | NowMs => env_now env
  | InstantNow => 0
  | Elapsed _ => env_latency env
  | QueuePush _ _ => tt
  | NotifyOne => tt
  | LogError _ => tt
  | Choose => true
  | Gas e =>
      match e in GasE X return X with
      | ReadPriorityFee => 0
      | ReadConfirmationTimes => []
      | PushConfirmationTime _ => tt
      | BlendPriorityFee _ => tt
      end
  | Nonce e =>
      match e in NonceLock X return X with
      | TakeNext => 0
      | MarkAvailable _ => tt
      | UpdateCurrent _ => tt
      end
  | Chain e => chain_answer e
  end.

Definition run_task_event (i : nat) (s : Sys) : option Sys :=
  t ← tasks s !! i;
  match code t with
  | Vis e k =>
      match perform e (shared s) (answer e) with
      | Val (x, sh) =>
          Some {| shared := sh; run_state := run_state s;
                  tasks := <[i := {| role := role t; permit := permit t; code := k x;
                                     hold := eth_next_state e (hold t) x |}]> (tasks s);
                  calls := calls s; submitted := submits e ++ submitted s;
                  dispatched := dispatched s; confirmed := confirms e ∪ confirmed s;
                  broadcasts := sends (role t) e ++ broadcasts s |}
      | Panic _ => None
      end
  | _ => None
  end.

Definition run_sync_event (s : Sys) : option Sys :=
  match run_state s with
  | Syncing (Vis e k) =>
      match perform e (shared s) (answer e) with
      | Val (x, sh) => Some (with_run (Syncing (k x)) sh s)
      | Panic _ => None
      end
  | _ => None
  end.

Definition run_act (a : Act) (s : Sys) : option Sys :=
  match a, run_state s with
  | Subscribed, Subscribing => Some (with_run Selecting (shared s) s)
  | SubscribeFails e, Subscribing =>
      Some (with_run (Returned (from_chain (Err e))) (shared s) s)
  | NewBlock, r =>
      n ← selecting r;
      Some (with_run (Syncing (sync (A := Eth)))
        (add_permits n (shared s)) s)
  | Closed, r =>
      n ← selecting r;
      Some (with_run (Returned (Err SubscriptionClosed)) (add_permits n (shared s)) s)
  | SyncEvent, _ => run_sync_event s
  | SyncReturns, Syncing (Ret (Ok tt)) => Some (with_run Selecting (shared s) s)
  | SyncReturns, Syncing (Ret (Err e)) => Some (with_run (Returned (Err e)) (shared s) s)
  | Acquire, Selecting =>
      if (0 <? max_in_flight (shared s))%nat
      then Some (with_run Acquired (take_permit (shared s)) s) else None
  | Dispatch i, Acquired =>
      match pop (queue (shared s)), tasks s !! i with
      | Some (m, q), None =>
          Some {| shared := set_queue q (shared s); run_state := Selecting;
                  tasks := <[i := {| role := Worker (length (dispatched s)) m; permit := true;
                                     code := spawned_task (A := Eth) m;
                                     hold := free |}]> (tasks s);
                  calls := calls s; submitted := submitted s; dispatched := m :: dispatched s;
                  confirmed := confirmed s; broadcasts := broadcasts s |}
      | _, _ => None
      end
  | EmptyQueue, Acquired =>
      match pop (queue (shared s)) with
      | None => Some (with_run Waiting (add_permits 1 (shared s)) s)
      | Some _ => None
      end
  | Wake, Waiting =>
      if message_ready (shared s)
      then Some (with_run Selecting (set_ready false (shared s)) s) else None
  | Call m i, _ =>
      match tasks s !! i with
      | None =>
          Some {| shared := shared s; run_state := run_state s;
                  tasks := <[i := {| role := Caller m; permit := false; code := add_message m;
                                     hold := free |}]> (tasks s);
                  calls := m :: calls s; submitted := submitted s; dispatched := dispatched s;
                  confirmed := confirmed s; broadcasts := broadcasts s |}
      | Some _ => None
      end
  | TaskEvent i, _ => run_task_event i s
  | TaskEnds i, _ =>
      t ← tasks s !! i;
      match code t with Ret tt => Some (end_task i t s) | _ => None end
  | _, _ => None
  end.

Fixpoint exec (acts : list Act) (s : Sys) : option Sys :=
  match acts with
  | [] => Some s
  | a :: acts => s' ← run_act a s; exec acts s'
  end.

(** The environment answers within the bounds of [env_ok]. *)
Record env_fits : Prop := {
  fits_now : clock_ok (env_now env);
  fits_latency : 0 <= env_latency env < latency_bound;
  fits_id : node_chain_id (env_node env) = chain_id;
  fits_nonce : match env_nonce env with Ok n => 0 <= n <= chain_nonces | Err _ => True end;
}.

Lemma answer_ok X (e : EthE X) : env_fits -> env_ok chain_id chain_nonces e (answer e).
Proof. intros [? ? ? ?]. destruct e as [| |t|m now| |l| |X e|X e|X e]; try done. by destruct e. Qed.

Lemma run_task_event_step i s s' :
  env_fits -> run_task_event i s = Some s' -> step chain_id address chain_nonces s s'.
Proof.
  intros Henv. unfold run_task_event. destruct (tasks s !! i) as [t|] eqn:Hi; simpl; [|done].
  destruct (code t) as [|r|X e k] eqn:Hc; [done..|].
  destruct (perform e (shared s) (answer e)) as [[x sh]|] eqn:Hp; [|done]. intros [= <-].
  eapply step_task; [done|done|by apply answer_ok|done].
Qed.

Lemma run_sync_event_step s s' :
  env_fits -> run_sync_event s = Some s' -> step chain_id address chain_nonces s s'.
Proof.
  intros Henv. unfold run_sync_event. destruct (run_state s) as [| | | |p| |] eqn:Hr; try done.
  destruct p as [|r|X e k]; try done.
  destruct (perform e (shared s) (answer e)) as [[x sh]|] eqn:Hp; [|done]. intros [= <-].
  eapply step_sync; [done|by apply answer_ok|done].
Qed.

Definition sane_act (a : Act) : Prop := match a with Call m _ => message_sane m | _ => True end.

Lemma run_act_step a s s' :
  env_fits -> sane_act a -> run_act a s = Some s' -> step chain_id address chain_nonces s s'.
Proof.
  intros Henv Hsane. destruct a; simpl.
  11: { destruct (tasks s !! i) eqn:Hi; [done|]. intros [= <-]. by apply step_caller. }
  11: by apply run_task_event_step.
  11: { destruct (tasks s !! i) as [t|] eqn:Hi; simpl; [|done].
        destruct (code t) as [[]| |] eqn:Hc; try done. intros [= <-]. by apply step_task_ends. }
  5: by apply run_sync_event_step.
  all: destruct (run_state s) as [| | | |p| |] eqn:Hr; simpl; try done.
  - intros [= <-]. by apply step_subscribed.
  - intros [= <-]. by apply step_subscribe_failed.
  - intros [= <-]. apply step_block. by rewrite Hr.
  - intros [= <-]. apply step_block. by rewrite Hr.
  - intros [= <-]. apply step_block. by rewrite Hr.
  - intros [= <-]. apply step_closed. by rewrite Hr.
  - intros [= <-]. apply step_closed. by rewrite Hr.
  - intros [= <-]. apply step_closed. by rewrite Hr.
  - destruct p as [[[]|e]| |]; [| |done..]; intros [= <-]; [by apply step_synced|by apply step_sync_failed].
  - destruct (Nat.ltb_spec 0 (max_in_flight (shared s))); [|done]. intros [= <-]. by apply step_acquire.
  - destruct (pop (queue (shared s))) as [[m q]|] eqn:Hp; [|done].
    destruct (tasks s !! i) eqn:Hi; [done|]. intros [= <-]. by apply step_dispatch.
  - destruct (pop (queue (shared s))) eqn:Hp; [done|]. intros [= <-]. by apply step_empty.
  - destruct (message_ready (shared s)) eqn:Hm; [|done]. intros [= <-]. by apply step_wake.
Qed.

(** Every execution is a path of the step relation. *)
Lemma exec_sound acts s s' :
  env_fits -> Forall sane_act acts -> exec acts s = Some s' ->
  nsteps (step chain_id address chain_nonces) (length acts) s s'.
Proof.
  intros Henv. revert s. induction acts as [|a acts IH]; intros s Hsane; simpl.
  - intros [= <-]. apply nsteps_O.
  - apply Forall_cons in Hsane as [Ha Hacts].
    destruct (run_act a s) as [s1|] eqn:Hs1; simpl; [|done]. intros Hs'.
    eapply nsteps_l; [by eapply run_act_step|by apply IH].
Qed.

(** A scenario: what its end state shows, if it can be executed. *)
Definition scenario {A} (acts : list Act) (s : Sys) (view : Sys -> A) : option A :=
  view <$> exec acts s.

Lemma scenario_reached {A} acts n (view : Sys -> A) a :
  env_fits -> Forall sane_act acts -> scenario acts (initial n) view = Some a ->
  exists s, reached chain_id address chain_nonces n (length acts) s /\ view s = a.
Proof.
  intros Henv Hsane. unfold scenario. destruct (exec acts (initial n)) as [s|] eqn:Hs; [|done].
  intros [= <-]. exists s. split; [by apply exec_sound|done].
Qed.

End run.
