(* ===== verification/EthOnce.v ===== *)
(** * A message is mined at most once

    What the tasks of the Ethereum sender send to the node, seen over the
    whole run: each call of [add_message] pushes its message once, each pushed
    message is dispatched once, and everything a dispatch sends carries one
    nonce.  A chain that takes one transaction per nonce then mines at most
    one transaction per call. *)

From stdpp Require Import gmap strings relations sorting.
From S2P Require Import Prelude Prog BinaryHeap Errors Chain Message PriorityQueue.
From S2P Require Import NonceManager GasPrice Adapter Sender Ethereum EthContract EthSystem EthRun.

(** All transactions of a dispatch share the nonce of the first. *)
Lemma attempts_nonce id m l tx tx' :
  attempts id m l -> tx ∈ l -> tx' ∈ l -> tx_nonce tx = tx_nonce tx'.
Proof.
  intros (_ & _ & Hsort).
  assert (forall x, x ∈ l -> Some (tx_nonce x) = tx_nonce <$> last l) as Hlast.
  { induction Hsort as [|y l Hl IH Hhd]; intros x; [by intros ?%not_elem_of_nil|].
    destruct l as [|z l]; [by intros ->%list_elem_of_singleton|].
    rewrite last_cons_cons. intros [->|Hx]%elem_of_cons; [|by apply IH].
    rewrite <- (IH z) by (by left). apply HdRel_inv in Hhd as (_ & _ & _ & _ & Hn & _). by f_equal. }
  intros Hx Hx'. apply Hlast in Hx, Hx'. congruence.
Qed.

Section once.
Context `{BuildProfile} {HM : MaxHeap pm_le}.
Context (chain_id address chain_nonces : Z).

(** The transactions that are mined, with the number of their dispatch: some
    that were sent, no two with the same nonce. *)
Record mined_by (s : Sys) (mined : list (nat * TxEip1559)) : Prop := {
  mined_sent : forall jt, jt ∈ mined -> jt ∈ broadcasts s;
  mined_nonces : NoDup (tx_nonce ∘ snd <$> mined);
}.

Lemma mined_jobs k s mined :
  inv chain_id chain_nonces k s -> mined_by s mined -> NoDup mined.*1.
Proof.
  intros Hinv [Hsent Hnonces]. pose proof (inv_history _ _ _ _ Hinv) as Hh.
  pose proof (proj1 (NoDup_alt _) Hnonces) as Hn. apply NoDup_alt. intros i i' j Hi Hi'.
  rewrite !list_lookup_fmap, !fmap_Some in Hi, Hi'.
  destruct Hi as ([j1 tx] & Hi & Ej), Hi' as ([j2 tx'] & Hi' & Ej'). simpl in Ej, Ej'. subst j1 j2.
  apply (Hn i i' (tx_nonce tx)); rewrite list_lookup_fmap; [by rewrite Hi|].
  rewrite Hi'. simpl. f_equal.
  pose proof (Hsent _ (list_elem_of_lookup_2 _ _ _ Hi)) as Htx.
  pose proof (Hsent _ (list_elem_of_lookup_2 _ _ _ Hi')) as Htx'.
  pose proof (hist_numbers _ _ Hh _ _ Htx) as Hlt.
  destruct (rev (dispatched s) !! j) as [m|] eqn:Hm.
  2: { apply lookup_ge_None in Hm. rewrite length_rev in Hm. lia. }
  eapply attempts_nonce; [by apply (hist_attempts _ _ Hh _ _ Hm)|by apply elem_of_txs_of..].
Qed.

(** C1: Each call of [add_message] leads to at most one mined transaction:
    the calls are those that have not pushed yet, the dispatched messages and
    the queued ones, each once; whatever a dispatch sends are at most
    [MAX_RETRIES] transactions with the recipient, value, data and gas of its
    message, all under one nonce; so on a chain that takes one transaction
    per nonce, no dispatch has two transactions mined, whatever the node
    answers, however often transactions are replaced, and in whatever order
    blocks, tasks and callers run. *)
Theorem mined_at_most_once n k s mined :
  nonce_room chain_nonces n k -> reached chain_id address chain_nonces n k s ->
  mined_by s mined ->
  calls s ≡ₚ pending_calls (tasks s) ++ dispatched s ++ queued (queue (shared s)) /\
  (forall j m, rev (dispatched s) !! j = Some m -> attempts chain_id m (txs_of j (broadcasts s))) /\
  NoDup mined.*1 /\
  (forall j tx, (j, tx) ∈ mined -> exists m, rev (dispatched s) !! j = Some m /\ carries m tx) /\
  (length mined <= length (calls s))%nat.
Proof.
  intros Hroom Hs Hm. pose proof (reached_inv _ _ _ n k s Hroom Hs) as Hinv.
  pose proof (inv_history _ _ _ _ Hinv) as Hh.
  assert (calls s ≡ₚ pending_calls (tasks s) ++ dispatched s ++ queued (queue (shared s))) as Hcalls.
  { by rewrite (hist_calls _ _ Hh), (inv_log _ _ _ _ Hinv). }
  pose proof (mined_jobs _ _ _ Hinv Hm) as Hnd.
  assert (forall j tx, (j, tx) ∈ mined -> (j < length (dispatched s))%nat) as Hlt.
  { intros j tx Hj. by apply (hist_numbers _ _ Hh j tx), Hm. }
  split; [done|]. split; [apply Hh|]. split; [done|]. split.
  - intros j tx Hj. destruct (lookup_lt_is_Some_2 (rev (dispatched s)) j) as [m Hjm].
    { rewrite length_rev. by eapply Hlt. }
    exists m. split; [done|]. destruct (hist_attempts _ _ Hh j m Hjm) as (_ & Hall & _).
    rewrite Forall_forall in Hall. apply Hall, elem_of_txs_of. by apply Hm.
  - rewrite Hcalls, !length_app. rewrite <- (length_fmap fst mined).
    assert (length mined.*1 <= length (seq 0 (length (dispatched s))))%nat as Hle.
    { apply submseteq_length, NoDup_submseteq; [done|]. intros j [[j' tx] [-> Hj]]%list_elem_of_fmap.
      apply elem_of_seq. simpl. specialize (Hlt _ _ Hj). lia. }
    rewrite length_seq in Hle. lia.
Qed.

End once.

Section witnesses.
#[local] Instance once_build : BuildProfile := true.
#[local] Instance once_heap : MaxHeap pm_le := BinaryHeap_max_heap pm_le.

(** A node that accepts every transaction and then loses sight of it. *)
Definition lossy : Answers := {|
  env_now := 5000;
  env_latency := 1;
  env_node := {| node_chain_id := 1; node_send := fun tx => Ok (tx_max_priority_fee_per_gas tx);
    node_register := fun _ => Ok tt; node_await := fun _ => Err "timeout"%string;
    node_receipt := fun _ => Ok None |};
  env_nonce := Ok 5;
|}.

Lemma lossy_fits : env_fits 1 10 lossy.
Proof. repeat split; done || lia. Qed.

(** One message is sent three times, with rising tips, and given up. *)
Definition thrice : list Act :=
  [Subscribed; Call demo_message 0] ++ replicate 3 (TaskEvent 0) ++ [TaskEnds 0; Acquire; Dispatch 1]
    ++ replicate 24 (TaskEvent 1) ++ [TaskEnds 1].

Lemma thrice_sane : Forall sane_act thrice.
Proof. repeat (constructor; [try exact I; exact demo_sane|]). constructor. Qed.

Definition sent_tips (s : Sys) : list (nat * Z * Z) :=
  (fun jt => (jt.1, tx_nonce jt.2, tx_max_priority_fee_per_gas jt.2)) <$> broadcasts s.

Lemma thrice_runs :
  scenario 77 lossy thrice (initial 5) sent_tips =
    Some [(0%nat, 5, 4377600000); (0%nat, 5, 3648000000); (0%nat, 5, 3040000000)].
Proof. vm_compute. reflexivity. Qed.

Lemma mined_at_most_once_witness : exists s tx,
  reached 1 77 10 5 (length thrice) s /\
  sent_tips s = [(0%nat, 5, 4377600000); (0%nat, 5, 3648000000); (0%nat, 5, 3040000000)] /\
  mined_by s [tx] /\ (1 <= length (calls s))%nat.
Proof.
  destruct (scenario_reached 1 77 10 lossy thrice 5 sent_tips _ lossy_fits thrice_sane thrice_runs)
    as (s & Hs & Hv).
  destruct (broadcasts s) as [|tx l] eqn:Hb; [unfold sent_tips in Hv; rewrite Hb in Hv; discriminate|].
  exists s, tx.
  assert (mined_by s [tx]) as Hm.
  { split; [rewrite Hb; intros jt ->%list_elem_of_singleton; left|apply NoDup_singleton]. }
  split; [exact Hs|]. split; [exact Hv|]. split; [exact Hm|].
  refine (proj2 (proj2 (proj2 (proj2 (mined_at_most_once 1 77 10 5 (length thrice) s [tx] _ Hs Hm))))).
  split; [lia|by vm_compute].
Defined.
End witnesses.
