(* ===== verification/OracleEth.v ===== *)
(** * The Ethereum example ([crates/bulkmail/examples/oracle_eth.rs])

    [main], which starts a local node and the services and runs the sender,
    and [continuous_send]: a client of the sender and of the chain, which adds
    a message, sleeps for a random time, and reads the block number and the
    nonce.  Its events are those of an Ethereum task and its own.  The other
    example, oracle_sol.rs, prints a line that depends on the feature. *)

From stdpp Require Import strings.
From S2P Require Import Prelude Prog Errors Chain Message Adapter Sender NonceManager GasPrice.
From S2P Require Import Ethereum BlockPipe.

(** ** Definitions *)

(** [Error] of the example, with the error of the sender or of the chain. *)
Inductive OracleError :=
  | TM (e : Error)
  | OracleChain (e : ChainErr).

Definition OracleError_text (show : Error -> string) (show_chain : ChainErr -> string)
    (e : OracleError) : string :=
  match e with
  | TM e => "transaction manager error: " +:+ show e
  | OracleChain e => "chain error: " +:+ show_chain e
  end.

Definition CHAIN_ID : Z := 1337.
Definition BLOCK_TIME : Z := 1.

Inductive OracleE : Type -> Type :=
  | OEth {X} (e : EthE X) : OracleE X
  | RandomRange (low high : Z) : OracleE Z        (* [rand::random_range(low..high)] *)
  | SleepMillis (delay : Z) : OracleE unit
  | Info (block_number nonce : Z) : OracleE unit.

Definition oracle_try {T} (r : result T ChainErr) : result T OracleError :=
  match r with Ok t => Ok t | Err e => Err (OracleChain e) end.

Definition oracle_request {T} (e : ChainE (result T ChainErr)) : Prog OracleE (result T OracleError) :=
  r ← trigger (OEth (Ethereum.Chain e));
  Ret (oracle_try r).

(** [Message::default()] with its fields set. *)
Definition oracle_message (now : Z) : Message :=
  let msg := Message_default now in
  {| to := Some 0; value := 1000000; data := data msg; gas := 21000; priority := priority msg;
     deadline_ms := deadline_ms msg; created_at_ms := created_at_ms msg;
     retry_count := retry_count msg |}.

Section oracle.
Context `{BuildProfile}.

(** One round of the loop. *)
Definition continuous_send_round (addr : Z) : Prog OracleE (result unit OracleError) :=
  created ← trigger (OEth NowMs);
  embed (fun X e => OEth e) (add_message (oracle_message created));;
  delay ← trigger (RandomRange 20 200);
  trigger (SleepMillis delay);;
  block_number ?← oracle_request GetBlockNumber;
  nonce ?← oracle_request (GetAccountNonce addr);
  trigger (Info block_number nonce);;
  Ret (Ok tt).

(** The first rounds of the loop: [Ok] when it is still running after them. *)
Fixpoint continuous_send (rounds : nat) (addr : Z) : Prog OracleE (result unit OracleError) :=
  match rounds with
  | O => Ret (Ok tt)
  | S rounds => _ ?← continuous_send_round addr; continuous_send rounds addr
  end.

(** ** [main] *)

(** The requests of [main]: the logger, the local node ([Anvil]), Alloy for
    [Chain::new], the nonce for [EthReplayProtection::new], the task of
    [continuous_send], and [sender.run()] (EthSystem.v), with its result. *)
Inductive OracleMainE : Type -> Type :=
  | InitLogger : OracleMainE (result unit string)
  | SpawnAnvil (block_time chain_id : Z) : OracleMainE (result string string)
  | MainAlloy {X} (e : AlloyE X) : OracleMainE X
  | MainEth {X} (e : EthE X) : OracleMainE X
  | SpawnContinuousSend (addr : Z) : OracleMainE unit
  | RunSender (nonces : NonceState) : OracleMainE (result unit Error)
  | LogAnvilError (e : string) : OracleMainE unit.

Definition main_try {A B Er} (from : Er -> OracleError) (p : Prog OracleMainE (result A Er))
    (k : A -> Prog OracleMainE (result B OracleError)) : Prog OracleMainE (result B OracleError) :=
  r ← p; match r with Ok a => k a | Err e => Ret (Err (from e)) end.

(** [sender_addr] is the address of the node's first key. *)
Definition oracle_main (sender_addr : Z) : Prog OracleMainE (result unit OracleError) :=
  logger ← trigger InitLogger;
  match logger with
  | Err _ => Crash Unwrap
  | Ok _ =>
      anvil ← trigger (SpawnAnvil BLOCK_TIME CHAIN_ID);
      match anvil with
      | Err e => trigger (LogAnvilError e);; Ret (Ok tt)
      | Ok ws_endpoint =>
          main_try OracleChain (embed (fun X e => MainAlloy e) (Chain_new ws_endpoint CHAIN_ID)) (fun _ =>
          main_try TM (embed (fun X e => MainEth e) (EthReplayProtection_new sender_addr)) (fun nonces =>
          trigger (SpawnContinuousSend sender_addr);;
          main_try TM (trigger (RunSender nonces)) (fun _ => Ret (Ok tt))))
      end
  end.

End oracle.

(** [main] of oracle_sol.rs: what it prints. *)
Definition oracle_sol_main (solana : bool) : string :=
  if solana then "Solana adapter not implemented yet."
  else "Enable the `solana` feature to build this example.".

(** ** What it does *)

(** The messages pushed, those announced, and the error of the last answer of
    the chain. *)
Record OracleQ := MkOracleQ { o_pushed : list Message; o_announced : nat; o_failed : option ChainErr }.

(** The example pushes messages that the sender is proved for, announces each
    before it does anything else, sleeps between 20 and 199 ms, and does not
    go on after an error. *)
Definition oracle_protocol : protocol OracleE OracleQ := {|
  may := fun X e q => o_failed q = None /\
    match e with
    | OEth NowMs => o_announced q = length (o_pushed q)
    | OEth (QueuePush m now) => message_sane m /\ o_announced q = length (o_pushed q)
    | OEth NotifyOne => S (o_announced q) = length (o_pushed q)
    | OEth (Ethereum.Chain GetBlockNumber) => o_announced q = length (o_pushed q)
    | OEth (Ethereum.Chain (GetAccountNonce _)) => o_announced q = length (o_pushed q)
    | OEth _ => False
    | RandomRange low high => low < high
    | SleepMillis delay => 20 <= delay < 200
    | Info _ _ => True
    end;
  answers := fun X e q =>
    match e in OracleE X return X -> Prop with
    | OEth e => match e in EthE X return X -> Prop with
                | NowMs => clock_ok
                | _ => fun _ => True
                end
    | RandomRange low high => fun r => low <= r < high
    | _ => fun _ => True
    end;
  next_state := fun X e q =>
    match e in OracleE X return X -> OracleQ with
    | OEth e =>
        match e in EthE X return X -> OracleQ with
        | QueuePush m _ => fun _ => MkOracleQ (o_pushed q ++ [m]) (o_announced q) (o_failed q)
        | NotifyOne => fun _ => MkOracleQ (o_pushed q) (S (o_announced q)) (o_failed q)
        | Ethereum.Chain e =>
            match e in ChainE X return X -> OracleQ with
            | GetBlockNumber => fun r => MkOracleQ (o_pushed q) (o_announced q)
                (match r with Ok _ => None | Err e => Some e end)
            | GetAccountNonce _ => fun r => MkOracleQ (o_pushed q) (o_announced q)
                (match r with Ok _ => None | Err e => Some e end)
            | _ => fun _ => q
            end
        | _ => fun _ => q
        end
    | _ => fun _ => q
    end;
  may_crash := fun p q => False;
|}.

Lemma oracle_message_sane now : clock_ok now -> message_sane (oracle_message now).
Proof.
  unfold clock_ok. change (2 ^ 42) with 4398046511104. intros Hnow.
  split; [split|..]; unfold MAX_PRIORITY, MAX_RETRIES; simpl; try word; try done.
Qed.

(** Between two rounds, [n] messages have been pushed and announced. *)
Record rounds_done (n : nat) (q : OracleQ) : Prop := {
  done_announced : o_announced q = length (o_pushed q);
  done_pushed : length (o_pushed q) = n;
  done_sane : Forall message_sane (o_pushed q);
}.

Definition oracle_result (r : result unit OracleError) (q : OracleQ) : Prop :=
  match r with
  | Ok _ => o_failed q = None
  | Err e => exists c, e = OracleChain c /\ o_failed q = Some c
  end.

Lemma continuous_send_round_ok `{BuildProfile} addr n q :
  rounds_done n q -> o_failed q = None ->
  wp oracle_protocol (continuous_send_round addr) q (fun r q' => rounds_done (S n) q' /\ oracle_result r q').
Proof.
  intros [Ha Hn Hs] Hf. event created Hc. event now Hnow.
  pose proof (oracle_message_sane created Hc) as Hm.
  event u Hu. event u' Hu'; [split; [done|]; simpl; rewrite length_app; simpl; lia|].
  event delay Hd. event u2 Hu2.
  set (pushed := o_pushed q ++ [oracle_message created]).
  assert (forall failed, rounds_done (S n) (MkOracleQ pushed (S (o_announced q)) failed)) as Hdone.
  { intros failed. split; simpl; unfold pushed; rewrite ?length_app; simpl; [lia|lia|].
    apply Forall_app. by split; [|constructor]. }
  assert (S (o_announced q) = length pushed) as Hlen by apply (Hdone None).
  event height Hb. destruct height as [height|e]; [|split; [apply Hdone|by eexists]].
  event count Hnn. destruct count as [count|e]; [|split; [apply Hdone|by eexists]].
  event u3 Hu3. by split; [apply Hdone|].
Qed.

Lemma continuous_send_ok `{BuildProfile} addr rounds n q :
  rounds_done n q -> o_failed q = None ->
  wp oracle_protocol (continuous_send rounds addr) q (fun r q' =>
    oracle_result r q' /\ exists m, (m <= n + rounds)%nat /\ rounds_done m q' /\
      (r = Ok tt -> m = (n + rounds)%nat)).
Proof.
  revert n q. induction rounds as [|rounds IH]; intros n q Hq Hf; cbn [continuous_send].
  { split; [done|]. exists n. split; [lia|]. split; [done|]. lia. }
  eapply wp_try; [by apply continuous_send_round_ok| |].
  - intros [] q' [Hq' Hf']. eapply wp_mono; [by apply (IH (S n))|].
    intros r q2 (Hr & m & Hm & Hd & Hall). split; [done|]. exists m. split; [lia|]. split; [done|].
    intros Hok. specialize (Hall Hok). lia.
  - intros e q' [Hq' Hr]. split; [done|]. exists (S n). split; [lia|]. by split.
Qed.

(** [continuous_send] pushes one message in each round and announces it before
    anything else, all within the assumptions of the theorems on the sender
    ([message_sane]); it goes on until the chain answers with an error, which
    it returns. *)
Theorem continuous_send_feeds `{BuildProfile} addr rounds :
  wp oracle_protocol (continuous_send rounds addr) (MkOracleQ [] 0 None) (fun r q =>
    o_announced q = length (o_pushed q) /\ Forall message_sane (o_pushed q) /\
    (length (o_pushed q) <= rounds)%nat /\
    match r with
    | Ok _ => length (o_pushed q) = rounds
    | Err e => exists c, e = OracleChain c /\ o_failed q = Some c
    end).
Proof.
  eapply wp_mono; [by apply (continuous_send_ok addr rounds 0)|].
  intros r q (Hr & m & Hm & [Ha Hp Hs] & Hall). split; [done|]. split; [done|]. split; [lia|].
  destruct r as [[]|e]; [|exact Hr]. specialize (Hall eq_refl). lia.
Qed.

(** [main] starts the sender only with the nonce that the chain gave, after
    the chain is connected and with the task of the client spawned, and it
    returns what stopped it: without the local node [Ok], else the error of
    the connection, of the first nonce, or of [run].

    The state is what has been done: the endpoint, the first nonce, whether
    the client was spawned. *)
Record MainQ := MkMainQ { m_connected : bool; m_nonce : option Z; m_spawned : bool }.

Definition main_protocol (sender_addr : Z) : protocol OracleMainE MainQ := {|
  may := fun X e q =>
    match e with
    | InitLogger | SpawnAnvil _ _ | LogAnvilError _ => m_connected q = false
    | MainAlloy (ConnectWs _) => m_connected q = false
    | MainEth (Ethereum.Chain (GetAccountNonce a)) => m_connected q = true /\ a = sender_addr
    | SpawnContinuousSend a => m_spawned q = false /\ m_nonce q <> None /\ a = sender_addr
    | RunSender nonces => m_spawned q = true /\ exists n, m_nonce q = Some n /\ nonces = NonceState_new n
    | _ => False
    end;
  answers := fun X e q x => True;
  next_state := fun X e q =>
    match e in OracleMainE X return X -> MainQ with
    | MainAlloy e =>
        match e in AlloyE X return X -> MainQ with
        | ConnectWs _ => fun r => MkMainQ (match r with Ok _ => true | Err _ => false end) (m_nonce q) (m_spawned q)
        | _ => fun _ => q
        end
    | MainEth e =>
        match e in EthE X return X -> MainQ with
        | Ethereum.Chain e =>
            match e in ChainE X return X -> MainQ with
            | GetAccountNonce _ => fun r =>
                MkMainQ (m_connected q) (match r with Ok n => Some n | Err _ => None end) (m_spawned q)
            | _ => fun _ => q
            end
        | _ => fun _ => q
        end
    | SpawnContinuousSend _ => fun _ => MkMainQ (m_connected q) (m_nonce q) true
    | _ => fun _ => q
    end;
  may_crash := fun p q => p = Unwrap /\ m_connected q = false;
|}.

Theorem oracle_main_ok sender_addr :
  wp (main_protocol sender_addr) (oracle_main sender_addr) (MkMainQ false None false) (fun r q =>
    match r with
    | Ok _ => m_connected q = false \/ m_spawned q = true
    | Err (OracleChain e) => m_connected q = false /\ exists k, e = Rpc k
    | Err (TM _) => m_connected q = true
    end).
Proof.
  event logger Hl. destruct logger as [[]|]; [|done].
  event anvil Ha. destruct anvil as [url|e]; [|event u Hu; by left].
  event ws Hws. destruct ws as [[]|k]; [|split; [done|by eexists]].
  event nonce Hn. destruct nonce as [nonce|e]; [|done].
  event u Hu. event res Hres; [split; [done|by eexists]|]. destruct res as [[]|e]; [by right|done].
Qed.
