(* ===== verification/UnitTests.v ===== *)
(** * The unit tests of the crate [bulkmail], executed on the model

    One definition per [#[test]] function of message.rs, priority_queue.rs,
    nonce_manager.rs, gas_price.rs, ethereum.rs and sender.rs, with the
    assertions of the code; [unit_tests_pass] runs them all.  A test of the
    sender runs the system of EthSystem.v with the scheduler of EthRun.v. *)

From stdpp Require Import gmap strings pretty.
From S2P Require Import Prelude Prog BinaryHeap Errors Chain Clock Message PriorityQueue.
From S2P Require Import NonceManager GasPrice Adapter Sender Ethereum EthContract EthSystem EthRun.

#[local] Instance std_heap : MaxHeap pm_le := BinaryHeap_max_heap pm_le.

(** [assert!(s.starts_with(p))] and [assert!(s.contains(p))]. *)
Definition starts_with (p s : string) : bool := String.prefix p s.
Fixpoint contains (p s : string) : bool :=
  starts_with p s || match s with EmptyString => false | String _ s => contains p s end.

(** [for x in xs { .. }] *)
Abbreviation for_in xs body := (for_each body xs).

Definition U64_MAX : Z := max_w u64.

(** ** message.rs *)

Module MessageTests.
Section tests.
Context `{BuildProfile}.

Definition test_new_clamps_priority_to_max : run unit :=
  let msg := Message_new None 21000 0 [] 200 None 0 in
  assert_eq (priority msg) MAX_PRIORITY.

Definition test_new_accepts_priority_at_max : run unit :=
  let msg := Message_new None 21000 0 [] MAX_PRIORITY None 0 in
  assert_eq (priority msg) MAX_PRIORITY.

Definition test_new_stores_now_ms : run unit :=
  let msg := Message_new None 0 0 [] 0 None 12345 in
  assert_eq (created_at_ms msg) 12345.

Definition test_effective_priority_base : run unit :=
  let msg := Message_new None 0 0 [] 5 None 0 in
  p ← effective_priority msg 0;
  assert_eq p 5.

Definition test_effective_priority_includes_retry_count : run unit :=
  let msg := Message_new None 0 0 [] 1 None 0 in
  let '(_, msg) := increment_retry msg in
  p ← effective_priority msg 0;
  assert_eq p 2.

Definition test_effective_priority_age_factor : run unit :=
  let msg := Message_new None 0 0 [] 0 None 0 in
  p ← effective_priority msg 4000;
  assert_eq p 2.

Definition test_effective_priority_zero_when_deadline_passed : run unit :=
  let msg := Message_new None 0 0 [] 50 (Some 1000) 0 in
  p ← effective_priority msg 1000;
  assert_eq p 0;;
  p ← effective_priority msg 2000;
  assert_eq p 0.

Definition test_deadline_factor_none_when_no_deadline : run unit :=
  let msg := Message_new None 0 0 [] 0 None 0 in
  f ← deadline_factor msg 0;
  assert_eq f None.

Definition test_deadline_factor_none_when_far_away : run unit :=
  far_ms ← mul_w u64 DEADLINE_BOOST_FAR_BLOCKS BLOCK_TIME_MS;
  far_ms ← add_w u64 far_ms BLOCK_TIME_MS;
  let msg := Message_new None 0 0 [] 0 (Some (cast_w u32 far_ms)) 0 in
  f ← deadline_factor msg 0;
  assert_eq f None.

Definition test_deadline_factor_max_when_near : run unit :=
  near_ms ← mul_w u64 DEADLINE_BOOST_NEAR_BLOCKS BLOCK_TIME_MS;
  near_ms ← sub_w u64 near_ms 1;
  let msg := Message_new None 0 0 [] 0 (Some (cast_w u32 near_ms)) 0 in
  f ← deadline_factor msg 0;
  assert_eq f (Some MAX_PRIORITY).

Definition test_deadline_factor_linear_between_thresholds : run unit :=
  mid_ms ← mul_w u64 6 BLOCK_TIME_MS;
  let msg := Message_new None 0 0 [] 0 (Some (cast_w u32 mid_ms)) 0 in
  f ← deadline_factor msg 0;
  factor ← unwrap f;
  assert (factor >? MAX_PRIORITY / 3);;
  assert (factor <? MAX_PRIORITY).

Definition test_deadline_factor_increases_as_deadline_approaches : run unit :=
  ms9 ← mul_w u64 9 BLOCK_TIME_MS;
  ms3 ← mul_w u64 3 BLOCK_TIME_MS;
  let msg9 := Message_new None 0 0 [] 0 (Some (cast_w u32 ms9)) 0 in
  let msg3 := Message_new None 0 0 [] 0 (Some (cast_w u32 ms3)) 0 in
  f9 ← deadline_factor msg9 0;
  boost9 ← unwrap f9;
  f3 ← deadline_factor msg3 0;
  boost3 ← unwrap f3;
  assert (boost3 >? boost9).

Definition test_is_expired_with_past_deadline : run unit :=
  let msg := Message_new None 0 0 [] 0 (Some 500) 0 in
  e ← is_expired msg 500;
  assert e;;
  e ← is_expired msg 1000;
  assert e.

Definition test_is_not_expired_with_no_deadline : run unit :=
  let msg := Message_new None 0 0 [] 0 None 0 in
  e ← is_expired msg U64_MAX;
  assert (negb e).

Definition test_is_not_expired_before_deadline : run unit :=
  let msg := Message_new None 0 0 [] 0 (Some 1000) 0 in
  e ← is_expired msg 999;
  assert (negb e).

Definition test_deadline_expiry_with_manual_clock : run unit :=
  let clock := ManualClock_new 1000000 in
  let deadline_ms := 5000 in
  let msg := Message_new None 0 0 [] 0 (Some deadline_ms) (clock_now_ms clock) in
  e ← is_expired msg (clock_now_ms clock);
  assert (negb e);;
  let clock := advance deadline_ms clock in
  e ← is_expired msg (clock_now_ms clock);
  assert e.

Definition test_priority_boost_activates_with_manual_clock : run unit :=
  let clock := ManualClock_new 0 in
  deadline_ms ← mul_w u64 20 BLOCK_TIME_MS;
  let msg := Message_new None 0 0 [] 0 (Some (cast_w u32 deadline_ms)) (clock_now_ms clock) in
  f ← deadline_factor msg (clock_now_ms clock);
  assert_eq f None;;
  ms ← mul_w u64 15 BLOCK_TIME_MS;
  let clock := advance ms clock in
  factor ← deadline_factor msg (clock_now_ms clock);
  assert (bool_decide (is_Some factor));;
  f ← unwrap factor;
  assert (f >? MAX_PRIORITY / 3);;
  f ← unwrap factor;
  assert (f <? MAX_PRIORITY);;
  ms ← mul_w u64 4 BLOCK_TIME_MS;
  let clock := advance ms clock in
  f ← deadline_factor msg (clock_now_ms clock);
  assert_eq f (Some MAX_PRIORITY).

Definition test_can_retry_exhausted_after_max_retries : run unit :=
  let msg := Message_new None 0 0 [] 0 None 0 in
  assert (can_retry msg);;
  msg ← for_in (seqZ 0 MAX_RETRIES) (fun _ msg => Val (increment_retry msg).2) msg;
  assert (negb (can_retry msg)).

Definition test_increment_retry_returns_true_while_budget_remains : run unit :=
  let msg := Message_new None 0 0 [] 0 None 0 in
  msg ← for_in (seqZ 0 (MAX_RETRIES - 1)) (fun _ msg =>
    let '(again, msg) := increment_retry msg in
    assert again;;
    Val msg) msg;
  let '(again, msg) := increment_retry msg in
  assert (negb again).

(** For every text of an address and every time of the system clock. *)
Definition test_display_format (fmt_address : Z -> string) (now_ms : Z) : run unit :=
  let s := Message_fmt fmt_address (Message_default now_ms) in
  assert (starts_with "Message {" s);;
  assert (contains "retry_count: 0" s).

Record PriorityCase := MkPriorityCase { pc_priority : Z; pc_retries : Z; pc_age_ms : Z; pc_expected : Z }.

Definition priority_cases : list PriorityCase :=
  [MkPriorityCase 0 0 0 0; MkPriorityCase 5 0 0 5; MkPriorityCase 5 2 0 7;
   MkPriorityCase 5 0 4000 7; MkPriorityCase 5 1 4000 8].

Definition test_effective_priority_table : run unit :=
  for_in priority_cases (fun c _ =>
    let msg := Message_new None 0 0 [] (pc_priority c) None 0 in
    msg ← for_in (seqZ 0 (pc_retries c)) (fun _ msg => Val (increment_retry msg).2) msg;
    p ← effective_priority msg (pc_age_ms c);
    assert_eq p (pc_expected c)) tt.

Record ExpiryCase := MkExpiryCase { ec_created_at_ms : Z; ec_deadline_ms : option Z; ec_now_ms : Z; ec_expected : bool }.

Definition expiry_cases : list ExpiryCase :=
  [MkExpiryCase 0 None 9999 false; MkExpiryCase 0 (Some 1000) 999 false;
   MkExpiryCase 0 (Some 1000) 1000 true; MkExpiryCase 0 (Some 1000) 2000 true;
   MkExpiryCase 5000 (Some 3000) 7999 false; MkExpiryCase 5000 (Some 3000) 8000 true].

Definition test_is_expired_table : run unit :=
  for_in expiry_cases (fun c _ =>
    let msg := Message_new None 0 0 [] 0 (ec_deadline_ms c) (ec_created_at_ms c) in
    e ← is_expired msg (ec_now_ms c);
    assert_eq e (ec_expected c)) tt.

Definition test_new_message_fields : run unit :=
  let addr := Some 0 in
  let msg := Message_new addr 21000 0 [] 1 None 42 in
  assert_eq (priority msg) 1;;
  assert_eq (retry_count msg) 0;;
  assert_eq (created_at_ms msg) 42;;
  assert_eq (gas msg) 21000.

Definition tests : list (run unit) :=
  [test_new_clamps_priority_to_max; test_new_accepts_priority_at_max; test_new_stores_now_ms;
   test_effective_priority_base; test_effective_priority_includes_retry_count;
   test_effective_priority_age_factor; test_effective_priority_zero_when_deadline_passed;
   test_deadline_factor_none_when_no_deadline; test_deadline_factor_none_when_far_away;
   test_deadline_factor_max_when_near; test_deadline_factor_linear_between_thresholds;
   test_deadline_factor_increases_as_deadline_approaches; test_is_expired_with_past_deadline;
   test_is_not_expired_with_no_deadline; test_is_not_expired_before_deadline;
   test_deadline_expiry_with_manual_clock; test_priority_boost_activates_with_manual_clock;
   test_can_retry_exhausted_after_max_retries;
   test_increment_retry_returns_true_while_budget_remains;
   test_effective_priority_table; test_is_expired_table; test_new_message_fields].

End tests.
End MessageTests.

(** ** priority_queue.rs *)

Module PriorityQueueTests.
Section tests.
Context `{BuildProfile}.

Definition NOW_MS : Z := 1000000.

Definition test_priority_queue_pops_in_priority_order : run unit :=
  queue ← for_in [0; 1; 2] (fun priority queue =>
    let msg := Message_new (Some 0) 21000 0 [] priority None NOW_MS in
    push queue msg NOW_MS) PriorityQueue_new;
  assert_eq (len queue) 3%nat;;
  assert (negb (queue_is_empty queue));;
  '(msg, queue) ← unwrap (pop queue);
  assert_eq (priority msg) 2;;
  '(msg, queue) ← unwrap (pop queue);
  assert_eq (priority msg) 1;;
  '(msg, queue) ← unwrap (pop queue);
  assert_eq (priority msg) 0;;
  assert (queue_is_empty queue).

Definition test_prioritized_message_ordering : run unit :=
  let msg1 := Message_new None 0 0 [] 1 None NOW_MS in
  let msg2 := Message_new None 0 0 [] 2 None NOW_MS in
  let pm1 := {| message := msg1; pm_effective_priority := 1 |} in
  let pm2 := {| message := msg2; pm_effective_priority := 2 |} in
  assert (match partial_cmp pm1 pm2 with Some Lt => true | _ => false end);;
  assert (match cmp pm1 pm2 with Lt => true | _ => false end).

Definition tests : list (run unit) :=
  [test_priority_queue_pops_in_priority_order; test_prioritized_message_ordering].

End tests.
End PriorityQueueTests.

(** ** nonce_manager.rs *)

Module NonceManagerTests.
Section tests.
Context `{BuildProfile}.

(** [MockChainClient] with its [get_account_nonce]: the answer to the [n]-th
    call; the state counts the calls. *)
Definition mock_at_nonce (initial : Z) : nat -> result Z ChainErr := fun _ => Ok initial.

Definition mock_handle (mock : nat -> result Z ChainErr) (X : Type) (e : NonceE X)
    (s : nat * NonceState) : run (X * (nat * NonceState)) :=
  match e with
  | Locked e => '(x, n) ← nonce_handle _ e s.2; Val (x, (s.1, n))
  | NonceRpc e =>
      match e in ChainE X return run (X * (nat * NonceState)) with
      | GetAccountNonce _ => Val (mock s.1, (S s.1, s.2))
      | _ => Panic Unwrap   (* a call without an expectation *)
      end
  end.

(** A method of the manager against the mock. *)
Definition call {A} (mock : nat -> result Z ChainErr) (p : Prog NonceE A) (s : nat * NonceState)
    : run (A * (nat * NonceState)) :=
  let '(a, s') := run_alone (mock_handle mock) p s in
  a ← a; Val (a, s').

Definition manager (mock : nat -> result Z ChainErr) : run (nat * NonceState) :=
  '(r, s) ← call mock (NonceManager_new 0) (0%nat, NonceState_new 0);
  state ← unwrap_ok r;
  Val (s.1, state).

Definition nonce_manager_at (nonce : Z) : run NonceState :=
  s ← manager (mock_at_nonce nonce);
  Val s.2.

Definition test_new_fetches_initial_nonce : run unit :=
  nm ← nonce_manager_at 7;
  assert_eq (current nm) 7.

Definition test_sequential_assignment : run unit :=
  nm ← nonce_manager_at 0;
  '(n, nm) ← get_next_available_nonce nm;
  assert_eq n 0;;
  '(n, nm) ← get_next_available_nonce nm;
  assert_eq n 1;;
  '(n, nm) ← get_next_available_nonce nm;
  assert_eq n 2.

Definition test_starts_from_offset : run unit :=
  nm ← nonce_manager_at 5;
  '(n, nm) ← get_next_available_nonce nm;
  assert_eq n 5;;
  '(n, nm) ← get_next_available_nonce nm;
  assert_eq n 6.

Definition test_mark_available_allows_reuse : run unit :=
  nm ← nonce_manager_at 0;
  '(n, nm) ← get_next_available_nonce nm;
  let nm := mark_nonce_available n nm in
  '(n, nm) ← get_next_available_nonce nm;
  assert_eq n 0.

Definition test_update_advances_baseline_and_prunes_in_flight : run unit :=
  nm ← nonce_manager_at 0;
  '(_, nm) ← get_next_available_nonce nm;
  '(_, nm) ← get_next_available_nonce nm;
  let nm := update_current_nonce 2 nm in
  assert_eq (current nm) 2;;
  assert (bool_decide (in_flight nm = ∅)).

Definition test_update_ignores_rollback : run unit :=
  nm ← nonce_manager_at 10;
  let nm := update_current_nonce 5 nm in
  assert_eq (current nm) 10.

Definition test_update_retains_higher_in_flight_nonces : run unit :=
  nm ← nonce_manager_at 0;
  '(_, nm) ← get_next_available_nonce nm;
  '(_, nm) ← get_next_available_nonce nm;
  '(_, nm) ← get_next_available_nonce nm;
  let nm := update_current_nonce 1 nm in
  let in_flight := in_flight nm in
  assert (negb (bool_decide (0 ∈ in_flight)));;
  assert (bool_decide (1 ∈ in_flight));;
  assert (bool_decide (2 ∈ in_flight)).

Definition test_sync_nonce_updates_from_chain : run unit :=
  let mock n := Ok (if (n =? 0)%nat then 0 else 5) in
  nm ← manager mock;
  assert_eq (current nm.2) 0;;
  '(r, nm) ← call mock (sync_nonce 0) nm;
  unwrap_ok r;;
  assert_eq (current nm.2) 5.

Definition tests : list (run unit) :=
  [test_new_fetches_initial_nonce; test_sequential_assignment; test_starts_from_offset;
   test_mark_available_allows_reuse; test_update_advances_baseline_and_prunes_in_flight;
   test_update_ignores_rollback; test_update_retains_higher_in_flight_nonces;
   test_sync_nonce_updates_from_chain].

End tests.
End NonceManagerTests.

(** ** gas_price.rs *)

Module GasPriceTests.
Section tests.
Context `{BuildProfile}.

(** A method of the manager, alone. *)
Definition call {A} (p : Prog GasE A) (m : GasPriceManager) : run (A * GasPriceManager) :=
  let '(a, m') := run_alone gas_handle p m in
  a ← a; Val (a, m').

Definition gas_price (priority : Z) (m : GasPriceManager) : run (Z * Z) :=
  '(r, _) ← call (get_gas_price (Er := Error) priority) m;
  unwrap_ok r.

Definition update (secs used : Z) (m : GasPriceManager) : run GasPriceManager :=
  '(_, m) ← call (gas_update_on_confirmation (from_secs secs) used) m;
  Val m.

Definition test_initial_gas_price : run unit :=
  let manager := GasPriceManager_new in
  '(base_fee, priority_fee) ← gas_price 0 manager;
  assert_eq base_fee INITIAL_BASE_FEE;;
  assert_eq priority_fee 2000000000.

Definition test_priority_influence : run unit :=
  let manager := GasPriceManager_new in
  '(_, priority_fee_1) ← gas_price 1 manager;
  '(_, priority_fee_5) ← gas_price 5 manager;
  assert (priority_fee_5 >? priority_fee_1).

Definition test_max_priority_fee : run unit :=
  let manager := GasPriceManager_new in
  '(_, priority_fee) ← gas_price MAX_PRIORITY manager;
  assert (priority_fee <=? MAX_PRIORITY_FEE);;
  priority ← add_w u32 MAX_PRIORITY 100;
  '(_, priority_fee2) ← gas_price priority manager;
  assert (priority_fee =? priority_fee2).

Definition test_congestion_levels : run unit :=
  let manager := GasPriceManager_new in
  manager ← for_in (seqZ 0 10) (fun _ => update 10 1000000000) manager;
  '(_, priority_fee_low) ← gas_price 1 manager;
  manager ← for_in (seqZ 0 10) (fun _ => update 30 1000000000) manager;
  '(_, priority_fee_medium) ← gas_price 1 manager;
  manager ← for_in (seqZ 0 10) (fun _ => update 70 1000000000) manager;
  '(_, priority_fee_high) ← gas_price 1 manager;
  assert (priority_fee_low <? priority_fee_medium);;
  assert (priority_fee_medium <? priority_fee_high).

Definition test_update_on_confirmation : run unit :=
  let manager := GasPriceManager_new in
  let initial_priority_fee := priority_fee manager in
  manager ← update 30 2000000000 manager;
  let updated_priority_fee := priority_fee manager in
  assert (updated_priority_fee >? initial_priority_fee).

Definition test_confirmation_time_window : run unit :=
  let manager := GasPriceManager_new in
  manager ← for_in (seqZ 0 (Z.of_nat CONFIRMATION_TIME_WINDOW + 1))
    (fun i => update i 1000000000) manager;
  let confirmation_times := confirmation_times manager in
  assert_eq (length confirmation_times) CONFIRMATION_TIME_WINDOW;;
  assert_eq (head confirmation_times) (Some (from_secs 1));;
  assert_eq (last confirmation_times) (Some (from_secs (Z.of_nat CONFIRMATION_TIME_WINDOW))).

Definition tests : list (run unit) :=
  [test_initial_gas_price; test_priority_influence; test_max_priority_fee;
   test_congestion_levels; test_update_on_confirmation; test_confirmation_time_window].

End tests.
End GasPriceTests.

(** ** ethereum.rs *)

Module EthereumTests.
Section tests.
Context `{BuildProfile}.

Definition test_bump_zero_base : run unit := b ← bump_by_percent 0 20; assert_eq b 0.

Definition test_bump_twenty_percent : run unit := b ← bump_by_percent 100 20; assert_eq b 120.

Definition test_bump_zero_percent : run unit := b ← bump_by_percent 500 0; assert_eq b 500.

Definition test_bump_is_an_increase_not_a_fraction : run unit :=
  let fee := 1000000000 in
  bumped ← bump_by_percent fee 20;
  assert (bumped >? fee);;
  assert_eq bumped 1200000000.

Definition tests : list (run unit) :=
  [test_bump_zero_base; test_bump_twenty_percent; test_bump_zero_percent;
   test_bump_is_an_increase_not_a_fraction].

End tests.
End EthereumTests.

(** ** sender.rs

    The copies of the [bump_by_percent] tests are those of ethereum.rs.  The
    scheduler takes the place of the tokio runtime; [finish] polls a task
    until it is done. *)

Module SenderTests.
Section tests.
Context `{BuildProfile}.

Definition base_mock : Answers := {|
  env_now := 1700000000000;
  env_latency := 0;
  env_node := {| node_chain_id := 1337;
    node_send := fun _ => Err (Subscription "injected");
    node_register := fun _ => Err ""%string;
    node_await := fun _ => Err ""%string;
    node_receipt := fun _ => Ok None |};
  env_nonce := Ok 0;
|}.

Abbreviation act := (run_act 0 base_mock).

(** [EthReplayProtection::new] against the mock, then [Sender::new]. *)
Definition make_sender : run Sys :=
  let handle X (e : EthE X) (s : unit) := Val (answer base_mock e, s) in
  state ← (run_alone handle (EthReplayProtection_new 0) tt).1;
  nonces ← unwrap_ok state;
  Val (initial (current nonces)).

Fixpoint finish (fuel : nat) (i : nat) (s : Sys) : run Sys :=
  match fuel with
  | O => Panic Diverge
  | S fuel =>
      match act (TaskEnds i) s with
      | Some s' => Val s'
      | None => s' ← unwrap (act (TaskEvent i) s); finish fuel i s'
      end
  end.

(** [sender.add_message(msg).await] *)
Definition add (msg : Message) (s : Sys) : run Sys :=
  s ← unwrap (act (Call msg 0) s);
  finish 10 0 s.

Definition queue_len (s : Sys) : nat := len (queue (shared s)).
Definition default_message : Message := Message_default (env_now base_mock).

Definition test_new_has_empty_queue : run unit :=
  sender ← make_sender;
  assert_eq (queue_len sender) 0%nat.

Definition test_add_message_enqueues : run unit :=
  sender ← make_sender;
  sender ← add default_message sender;
  assert_eq (queue_len sender) 1%nat.

Definition test_add_multiple_messages : run unit :=
  sender ← make_sender;
  sender ← for_in (seqZ 0 4) (fun _ => add default_message) sender;
  assert_eq (queue_len sender) 4%nat.

Definition test_run_errors_when_block_stream_closes : run unit :=
  sender ← make_sender;
  sender ← unwrap (act Subscribed sender);
  sender ← unwrap (act Closed sender);
  assert (match run_state sender with Returned (Err _) => true | _ => false end).

(** [process_next_message] is polled from [Selecting] and has returned when
    it is there again. *)
Definition process_next (s : Sys) : Sys := with_run Selecting (shared s) s.
Definition is_finished (s : Sys) : bool :=
  match run_state s with Selecting => true | _ => false end.

Definition test_process_next_message_blocks_when_queue_empty : run unit :=
  sender ← make_sender;
  sender ← unwrap (act Acquire (process_next sender));
  sender ← unwrap (act EmptyQueue sender);
  assert (negb (is_finished sender));;
  assert (bool_decide (act Wake sender ≫= (fun _ => Some tt) = None));;
  let sender := with_run (run_state sender) (set_ready true (shared sender)) sender in
  sender ← unwrap (act Wake sender);
  assert (is_finished sender).

Definition test_process_next_message_pops_and_attempts_send : run unit :=
  sender ← make_sender;
  let msg := Message_new (Some 0) 21000 0 [] 0 None (env_now base_mock) in
  sender ← add msg sender;
  assert_eq (queue_len sender) 1%nat;;
  sender ← unwrap (act Acquire (process_next sender));
  sender ← unwrap (act (Dispatch 0) sender);
  sender ← finish 20 0 sender;
  assert_eq (queue_len sender) 0%nat.

Definition tests : list (run unit) :=
  [test_new_has_empty_queue; test_add_message_enqueues; test_add_multiple_messages;
   test_run_errors_when_block_stream_closes;
   test_process_next_message_blocks_when_queue_empty;
   test_process_next_message_pops_and_attempts_send].

End tests.
End SenderTests.

(** ** All of them *)

Definition unit_tests `{BuildProfile} : list (run unit) :=
  MessageTests.tests ++ PriorityQueueTests.tests ++ NonceManagerTests.tests ++
  GasPriceTests.tests ++ EthereumTests.tests ++ SenderTests.tests.

Definition passes (t : run unit) : bool := match t with Val _ => true | Panic _ => false end.

Lemma contains_app p a b : contains p b = true -> contains p (a +:+ b) = true.
Proof.
  intros Hb. induction a as [|c a IH]; [done|].
  change (String c a +:+ b) with (String c (a +:+ b)). simpl. by rewrite IH, orb_true_r.
Qed.

Lemma unit_tests_hold (profile : BuildProfile) :
  forallb passes unit_tests = true /\
  forall fmt_address now_ms, MessageTests.test_display_format fmt_address now_ms = Val tt.
Proof.
  split; [by destruct profile; vm_compute|]. intros fmt_address now_ms.
  unfold MessageTests.test_display_format, Message_fmt, Message_default.
  cbn [to value gas priority deadline_ms created_at_ms retry_count fmt_option].
  assert (forall rest, starts_with "Message {" ("Message { to: " +:+ rest) = true) as -> by done.
  rewrite (contains_app _ "Message { to: "); [done|].
  do 11 apply contains_app. by vm_compute.
Qed.
