(* ===== verification/AdapterFlow.v ===== *)
(** * The mock adapters of tests/adapter_flow.rs

    The adapters that the integration tests of [bulkmail] give the sender,
    whose atomics are the state of [Mocks]; the tests, as runs of the sender of
    SenderSystem.v with its run loop and its channel of blocks; and the
    contract of the sender, which every one of the mocks keeps. *)

From stdpp Require Import strings gmap relations.
From S2P Require Import Prelude Prog BinaryHeap Errors Message PriorityQueue Adapter Sender SenderSystem.

#[local] Instance std_heap : MaxHeap pm_le := BinaryHeap_max_heap pm_le.

(** The events of the mock adapters and of the sender. *)
Inductive MockE : Type -> Type :=
  | MockNow : MockE Z
  | MockInstant : MockE Z
  | MockElapsed (since : Z) : MockE Z
  | MockPush (m : Message) (now : Z) : MockE unit
  | MockNotify : MockE unit
  | MockLog (l : LogLine) : MockE unit
  | TakeReceiver : MockE bool            (* receiver.lock().take() *)
  | SetSendCalled : MockE unit           (* send_called.store(true) *)
  | FetchAddNext : MockE Z               (* next_value.fetch_add(1) *)
  | SetReleased : MockE unit             (* released.store(true) *)
  | FetchAddAttempts : MockE Z           (* attempts.fetch_add(1) *)
  | SwapCalled : MockE bool.             (* called.swap(true) *)

#[export] Instance mock_events : SenderEvents MockE := {|
  now_ms := MockNow;
  instant_now := MockInstant;
  elapsed := MockElapsed;
  queue_push := MockPush;
  notify_one := MockNotify;
  log_error := MockLog;
|}.

#[export] Instance mock_view : SenderView MockE.
Proof.
  refine {| sender_op := fun X (e : MockE X) =>
    match e in MockE X return option (SenderOp X) with
    | MockPush m now => Some (OpPush m now)
    | MockNotify => Some OpNotify
    | _ => None
    end |}; done.
Defined.

(** All the adapters of the tests have these types. *)
#[export] Instance MockAdapter : ChainAdapter := {| FeeParams := Z; ReplayToken := Z; TxId := Z |}.

Section mocks.
Context `{BuildProfile}.

Definition mock_subscribe : Prog MockE (result unit Error) :=
  there ← trigger TakeReceiver;
  Ret (if there : bool then Ok tt else Err SubscriptionClosed).

Definition mock_client (send : Message -> Z -> Z -> Prog MockE (result SendOutcome Error))
    (status : TransactionStatus) : ChainClient MockE := {|
  subscribe_new_blocks := mock_subscribe;
  get_block_number := Ret (Ok 0);
  send_transaction := send;
  get_transaction_status _ := Ret (Ok status);
|}.

Definition ClientHappy : ChainClient MockE :=
  mock_client (fun _ _ _ => trigger SetSendCalled;; Ret (Ok (Confirmed 1))) (StatusConfirmed 1).

Definition ClientNoop : ChainClient MockE :=
  mock_client (fun _ _ _ => Ret (Ok (Confirmed 1))) (StatusConfirmed 1).

Definition ClientFlaky : ChainClient MockE :=
  mock_client (fun _ _ _ =>
    attempt ← trigger FetchAddAttempts;
    Ret (Ok (if attempt =? 0 then Dropped 1 else Confirmed 1))) (StatusConfirmed 1).

Definition ClientDropping : ChainClient MockE :=
  mock_client (fun _ _ _ => Ret (Ok (Dropped 1))) StatusPending.

Definition mock_fees (params : result Z Error) : FeeManager MockE := {|
  get_fee_params _ := Ret params;
  update_on_confirmation _ _ := Ret tt;
  bump_fee current := Val (saturating_add u64 current 1);
  get_base_fee := Ret 1;
|}.

Definition FeeHappy : FeeManager MockE := mock_fees (Ok 1).
Definition FeeFail : FeeManager MockE := mock_fees (Err (GasPriceError "fail")).

Definition ReplayHappy : ReplayProtection MockE := {|
  next := trigger FetchAddNext;
  sync := Ret (Ok tt);
  release _ := trigger SetReleased;
|}.

Definition mock_retry (dropped : PendingTransaction -> Prog MockE RetryDecision)
    : RetryStrategy MockE := {|
  handle_dropped := dropped;
  handle_confirmed _ _ := Ret tt;
|}.

Definition RetryHappy : RetryStrategy MockE := mock_retry (fun _ => Ret Abandon).
Definition RetryRequeue : RetryStrategy MockE := mock_retry (fun _ => Ret Requeue).
Definition RetryResubmit : RetryStrategy MockE :=
  mock_retry (fun pending =>
    called ← trigger SwapCalled;
    if called : bool then Ret Abandon
    else
      fee ← lift (add_w u64 (pd_fee pending) 1);
      Ret (Resubmit fee (pd_replay_token pending))).

(** The atomics of the mocks, and whether the receiver of the blocks is still
    in its [Option]. *)
Record Mocks := MkMocks {
  receiver : bool;
  next_value : Z;
  released : bool;
  send_called : bool;
  attempts : Z;
  called : bool;
}.

Definition mocks_new (start : Z) : Mocks :=
  {| receiver := true; next_value := start; released := false; send_called := false; attempts := 0;
     called := false |}.

Definition mock_now : Z := 1700000000000.

(** What the events do to the atomics; nothing depends on the environment. *)
Definition mock_world (X : Type) (e : MockE X) (s : Mocks) (_ : X) : run (X * Mocks) :=
  let 'MkMocks rx nv rel sent att cal := s in
  match e in MockE X return run (X * Mocks) with
  | MockNow => Val (mock_now, s)
  | MockInstant => Val (0, s)
  | MockElapsed _ => Val (0, s)
  | MockPush _ _ | MockNotify | MockLog _ => Val (tt, s)
  | TakeReceiver => Val (rx, MkMocks false nv rel sent att cal)
  | SetSendCalled => Val (tt, MkMocks rx nv rel true att cal)
  | FetchAddNext => Val (nv, MkMocks rx (cast_w u64 (nv + 1)) rel sent att cal)
  | SetReleased => Val (tt, MkMocks rx nv true sent att cal)
  | FetchAddAttempts => Val (att, MkMocks rx nv rel sent (cast_w u64 (att + 1)) cal)
  | SwapCalled => Val (cal, MkMocks rx nv rel sent att true)
  end.

Definition mock_answer (X : Type) (e : MockE X) : X :=
  match e in MockE X return X with
  | MockNow | MockInstant | MockElapsed _ | FetchAddNext | FetchAddAttempts => 0
  | MockPush _ _ | MockNotify | MockLog _ | SetSendCalled | SetReleased => tt
  | TakeReceiver | SwapCalled => true
  end.

(** ** The tests *)

Section flow.
Context (client : ChainClient MockE) (fees : FeeManager MockE) (retry : RetryStrategy MockE).
#[local] Instance flow_replay : ReplayProtection MockE := ReplayHappy.

Definition FLOW_FUEL : nat := 200.

(** Until the run loop and the tasks wait for the test. *)
Definition flow (s : SenderSys (E := MockE) (W := Mocks)) : run SenderSys :=
  settle mock_world mock_answer FLOW_FUEL s.

(** A new sender, [add_message(Message::default())], and its [run] spawned. *)
Definition flow_start (start : Z) : run SenderSys :=
  flow (task_new 0 (caller_task (Message_default mock_now)) (sender_start (mocks_new start))).

(** [tx.send(n)] and [drop(tx)]. *)
Definition send_block (n : Z) (s : SenderSys (E := MockE) (W := Mocks)) : SenderSys :=
  with_stream (MkStream (arrived (stream s) ++ [n]) (alive (stream s))) s.
Definition drop_tx (s : SenderSys (E := MockE) (W := Mocks)) : SenderSys :=
  with_stream (MkStream (arrived (stream s)) false) s.

End flow.

Definition returned_closed (s : SenderSys (E := MockE) (W := Mocks)) : bool :=
  match run_at s with RunReturned (Err SubscriptionClosed) => true | _ => false end.

Definition sender_processes_message_with_adapter : run unit :=
  s ← flow_start ClientHappy FeeHappy RetryHappy 0;
  s ← flow ClientHappy FeeHappy RetryHappy (send_block 1 s);
  assert (send_called (behind s));;
  s ← flow ClientHappy FeeHappy RetryHappy (drop_tx s);
  assert (returned_closed s).

Definition releases_replay_token_on_fee_error : run unit :=
  s ← flow_start ClientNoop FeeFail RetryHappy 0;
  assert (released (behind s)).

Definition resubmit_reuses_replay_token : run unit :=
  s ← flow_start ClientFlaky FeeHappy RetryResubmit 100;
  assert (negb (attempts (behind s) <? 2));;
  assert (negb (released (behind s))).

Definition requeue_releases_replay_token : run unit :=
  s ← flow_start ClientDropping FeeHappy RetryRequeue 7;
  assert (released (behind s)).

Definition abandon_releases_replay_token : run unit :=
  s ← flow_start ClientDropping FeeHappy RetryHappy 11;
  assert (released (behind s)).

Definition flow_tests : list (run unit) :=
  [sender_processes_message_with_adapter; releases_replay_token_on_fee_error;
   resubmit_reuses_replay_token; requeue_releases_replay_token; abandon_releases_replay_token].

End mocks.

(** ** The contract

    Every mock keeps the contract of the sender: the protocol of a task that
    holds at most one token, ever. *)

Inductive Token := NoToken | Holds (t : Z) | GaveBack.

Definition mock_protocol : protocol MockE Token := {|
  may X e q :=
    match e with
    | FetchAddNext => q = NoToken
    | SetReleased => exists t, q = Holds t
    | _ => True
    end;
  answers X e _ :=
    match e in MockE X return X -> Prop with
    | MockNow => clock_ok
    | _ => fun _ => True
    end;
  next_state X e q :=
    match e in MockE X return X -> Token with
    | FetchAddNext => fun t => Holds t
    | SetReleased => fun _ => GaveBack
    | _ => fun _ => q
    end;
  may_crash _ _ := False;
|}.

Section contract.
Context `{BuildProfile} (m0 : Message).

(** A fee that can still be raised [k] times. *)
Definition fee_room (k : nat) (f : Z) : Prop := 0 <= f /\ f + Z.of_nat k < 2 ^ 64.

(** Any of the clients, fee managers and retry strategies of the tests. *)
Definition mock_contract client fees retry :
  client ∈ [ClientHappy; ClientNoop; ClientFlaky; ClientDropping] ->
  fees ∈ [FeeHappy; FeeFail] -> retry ∈ [RetryHappy; RetryRequeue; RetryResubmit] ->
  AdapterContract (A := MockAdapter) (client := client) (fees := fees) (replay := ReplayHappy)
    (retry := retry) mock_protocol m0.
Proof.
  intros Hclient Hfees Hretry.
  refine {| idle q := q = NoToken;
    spent q := q = GaveBack;
    settled q := exists t, q = Holds t;
    holding (t : ReplayToken (ChainAdapter := MockAdapter)) q := q = Holds t;
    fresh (t : ReplayToken (ChainAdapter := MockAdapter)) q := q = Holds t;
    ready k (_ : Message) (f : FeeParams (ChainAdapter := MockAdapter))
      (t : ReplayToken (ChainAdapter := MockAdapter)) q := q = Holds t /\ fee_room k f;
    sent k (pd : PendingTransaction) q :=
      q = Holds (pd_replay_token pd) /\ fee_room (S k) (pd_fee pd);
    latency_ok _ := True;
    requeues := True |}.
  - done.
  - intros k m f t q Hr. apply Hr.
  - intros k pd q Hs. apply Hs.
  - done.
  - done.
  - done.
  - done.
  - done.
  - intros q ->. simpl. split; [done|]. by intros t _.
  - intros t q ->. simpl. split; [by eexists|done].
  - intros t q p -> _. rewrite !elem_of_cons, elem_of_nil in Hfees.
    destruct Hfees as [->|[->|[]]]; simpl; [|done]. intros k Hk. split; [done|].
    unfold fee_room, MAX_RETRIES in *. lia.
  - intros k m f t q _ _ [-> Hf]. rewrite !elem_of_cons, elem_of_nil in Hclient.
    destruct Hclient as [->|[->|[->|[->|[]]]]]; simpl.
    + split; [done|]. intros _ _. by intros pd _ <- <-.
    + by intros pd _ <- <-.
    + split; [done|]. intros n _. by intros pd _ <- <-.
    + by intros pd _ <- <-.
  - intros k pd d q [-> _] _. rewrite !elem_of_cons, elem_of_nil in Hretry.
    destruct Hretry as [->|[->|[->|[]]]]; simpl; by eexists.
  - intros k pd q _ [-> Hf] _ _. rewrite !elem_of_cons, elem_of_nil in Hretry.
    destruct Hretry as [->|[->|[->|[]]]]; simpl; [done|done|]. split; [done|].
    intros [|] _; [done|]. unfold fee_room in Hf. rewrite add_w_ok by (split; lia).
    simpl. intros m _. split; [done|]. unfold fee_room. lia.
Defined.

End contract.


(** ** The mocks notify *)

Section notify.
Context `{BuildProfile}.

Lemma mock_notifies client fees retry :
  client ∈ [ClientHappy; ClientNoop; ClientFlaky; ClientDropping] ->
  fees ∈ [FeeHappy; FeeFail] -> retry ∈ [RetryHappy; RetryRequeue; RetryResubmit] ->
  AdapterNotifies (A := MockAdapter) (client := client) (fees := fees) (replay := ReplayHappy) (retry := retry).
Proof.
  intros Hclient Hfees Hretry. rewrite !elem_of_cons, elem_of_nil in Hclient.
  rewrite !elem_of_cons, elem_of_nil in Hfees. rewrite !elem_of_cons, elem_of_nil in Hretry. split.
  - intros m f t. destruct Hclient as [->|[->|[->|[->|[]]]]];
      cbn [send_transaction ClientHappy ClientNoop ClientFlaky ClientDropping mock_client]; notifying.
  - intros p. destruct Hfees as [->|[->|[]]]; cbn [get_fee_params FeeHappy FeeFail mock_fees]; notifying.
  - cbn [next ReplayHappy]. notifying.
  - intros t. cbn [release ReplayHappy]. notifying.
  - intros pd. destruct Hretry as [->|[->|[->|[]]]];
      cbn [handle_dropped RetryHappy RetryRequeue RetryResubmit mock_retry]; notifying.
  - intros pd d. destruct Hretry as [->|[->|[->|[]]]];
      cbn [handle_confirmed RetryHappy RetryRequeue RetryResubmit mock_retry]; notifying.
Qed.

End notify.

(** The sender of the tests asleep beside a message whose caller has not yet
    notified. *)
Section witnesses.
#[local] Instance flow_checks : BuildProfile := true.
#[local] Instance happy_replay : ReplayProtection MockE := ReplayHappy.
#[local] Instance happy_client : ChainClient MockE := ClientHappy.
#[local] Instance happy_fees : FeeManager MockE := FeeHappy.
#[local] Instance happy_retry : RetryStrategy MockE := RetryHappy.

Definition any_answer (X : Type) (e : MockE X) (x : X) : Prop := True.

Abbreviation flow_step := (sender_step (A := MockAdapter) mock_world any_answer).

Definition asleep : SenderSys (E := MockE) (W := Mocks) :=
  match settle mock_world mock_answer 10 (sender_start (mocks_new 0)) with
  | Val s => s
  | Panic _ => sender_start (mocks_new 0)
  end.

Definition after_event (s : SenderSys (E := MockE) (W := Mocks)) : SenderSys :=
  match jobs s !! 0%nat with
  | Some t => advance_job mock_world mock_answer 0 t s
  | None => s
  end.

Definition unnotified : SenderSys (E := MockE) (W := Mocks) :=
  after_event (after_event (task_new 0 (caller_task (Message_default mock_now)) asleep)).

Lemma unnotified_reached : rtc flow_step (sender_start (mocks_new 0)) unnotified.
Proof.
  assert (forall s, rtc flow_step s (after_event s)) as Hev.
  { intros s. unfold after_event. destruct (jobs s !! 0%nat) eqn:Hj; [|done].
    by apply rtc_once, (advance_job_step (A := MockAdapter) mock_world any_answer mock_answer). }
  transitivity asleep.
  - unfold asleep. destruct (settle mock_world mock_answer 10 (sender_start (mocks_new 0))) eqn:Hs; [|done].
    by eapply (settle_steps mock_world any_answer mock_answer).
  - eapply rtc_l; [|etransitivity; apply Hev]. apply ss_call. by vm_compute.
Qed.

Lemma unnotified_sleeps : run_at unnotified = Sleeping /\ queued (sd_queue (sender unnotified)) <> [].
Proof. split; [by vm_compute|]. intros Hq. by vm_compute in Hq. Qed.

Lemma sender_conserves_witness :
  pushed unnotified ≡ₚ handed_out unnotified ++ queued (sd_queue (sender unnotified)) /\ pushed unnotified <> [].
Proof.
  split; [|intros Hp; by vm_compute in Hp].
  exact (proj1 (proj2 (sender_conserves mock_world any_answer _ _ unnotified_reached))).
Defined.

Lemma sender_hands_out_witness :
  woken unnotified /\ exists s' m, rtc flow_step unnotified s' /\ handed_out s' = [m].
Proof.
  pose proof (mock_notifies ClientHappy FeeHappy RetryHappy ltac:(left) ltac:(left) ltac:(left)) as Hn.
  destruct (sender_hands_out (AN := Hn) mock_world any_answer (mocks_new 0) unnotified) as (Hw & s' & m & Hs' & Hh).
  - intros X e. exists (mock_answer X e). exact I.
  - intros sd w. by exists tt.
  - exact unnotified_reached.
  - by rewrite (proj1 unnotified_sleeps).
  - by vm_compute.
  - exact (proj2 unnotified_sleeps).
  - split; [exact (Hw (proj1 unnotified_sleeps))|]. exists s', m. split; [exact Hs'|exact Hh].
Defined.

(** The sender of the blocks is dropped: the message that is queued stays. *)
Lemma select_biased_witness :
  queued (sd_queue (sender unnotified)) <> [] /\
  forall s', rtc flow_step (set_polled false (drop_tx unnotified)) s' -> handed_out s' = [].
Proof.
  split; [exact (proj2 unnotified_sleeps)|]. intros s' Hs'.
  destruct (select_biased mock_world any_answer (set_polled false (drop_tx unnotified)) 0) as [H _].
  - by vm_compute.
  - reflexivity.
  - destruct (H ltac:(by vm_compute) ltac:(reflexivity) s' Hs') as [Hh _]. rewrite Hh. by vm_compute.
Defined.
End witnesses.
