(* ===== verification/Solana.v ===== *)
(** * The Solana adapter ([crates/bulkmail/src/adapter/solana.rs])

    A partial adapter: the client, the blockhash cache and [bump_fee] are
    written, the rest is [todo!()], which panics.  [SolE] gathers the events
    of a task: the requests to the node, the critical sections of the cache,
    and what the sender uses. *)

From stdpp Require Import strings.
From S2P Require Import Prelude Prog Errors Message Adapter Sender.

(** ** Data *)

Record SolFeeParams := MkSolFee {
  compute_unit_price : Z;   (* u64 *)
  compute_unit_limit : Z;   (* u32 *)
}.

(** A [Hash] and a [Signature], arrays of bytes, are numbers. *)
#[export] Instance Sol : ChainAdapter := {|
  FeeParams := SolFeeParams;
  ReplayToken := Z;
  TxId := Z;
|}.

Record BlockhashState := MkBlockhash {
  hash : Z;
  last_valid_block_height : Z;   (* u64 *)
}.

Definition BLOCKHASH_REFRESH_MARGIN : Z := 30.

(** What the code reads of the SDK's [TransactionStatus]; [sig_err] is the
    [Debug] text of the error. *)
Inductive ConfirmationStatus := Processed | SolConfirmed | Finalized.

Record SigStatus := MkSigStatus {
  sig_slot : Z;
  sig_err : option string;
  confirmation_status : ConfirmationStatus;
}.

(** ** Events *)

Inductive SolRpcE : Type -> Type :=
  | SlotSubscribe : SolRpcE (result unit string)
  | GetSlot : SolRpcE (result Z string)
  | GetSignatureStatuses (id : Z) : SolRpcE (result (list (option SigStatus)) string)
  | GetBlockHeight : SolRpcE (result Z string)
  | GetLatestBlockhash : SolRpcE (result (Z * Z) string).

Inductive SolLock : Type -> Type :=
  | ReadHash : SolLock Z
  | ReadLastValid : SolLock Z
  | StoreBlockhash (hash last_valid : Z) : SolLock unit.

Inductive SolE : Type -> Type :=
  | SolNow : SolE Z
  | SolInstant : SolE Z
  | SolElapsed (since : Z) : SolE Z
  | SolPush (m : Message) (now : Z) : SolE unit
  | SolNotify : SolE unit
  | SolLog (l : LogLine) : SolE unit
  | SolRpc {X} (e : SolRpcE X) : SolE X
  | SolCache {X} (e : SolLock X) : SolE X.

#[export] Instance sol_events : SenderEvents SolE := {|
  now_ms := SolNow;
  instant_now := SolInstant;
  elapsed := SolElapsed;
  queue_push := SolPush;
  notify_one := SolNotify;
  log_error := SolLog;
|}.

(** [map_err(|err| Error::SolanaError(format!("<what> failed: {err}")))] *)
Definition sol_err {T} (what : string) (r : result T string) : result T Error :=
  match r with
  | Ok t => Ok t
  | Err e => Err (SolanaError (String.append what (String.append " failed: " e)))
  end.

Definition sol_request {T} (what : string) (e : SolRpcE (result T string))
    : Prog SolE (result T Error) :=
  r ← trigger (SolRpc e);
  Ret (sol_err what r).

Section solana.
Context `{BuildProfile}.

(** ** [SolClient] *)

Definition sol_subscribe_new_blocks : Prog SolE (result unit Error) :=
  sol_request "slot_subscribe" SlotSubscribe.

Definition sol_get_block_number : Prog SolE (result Z Error) := sol_request "get_slot" GetSlot.

Definition sol_send_transaction (_msg : Message) (_fee : SolFeeParams) (_token : Z)
    : Prog SolE (result SendOutcome Error) :=
  Ret (Err (SolanaError "send_transaction not implemented for Solana yet")).

(** The first element of the answer, flattened, then its fields. *)
Definition sol_status (statuses : list (option SigStatus)) : TransactionStatus :=
  match head statuses ≫= fun s => s with
  | None => StatusPending
  | Some status =>
      match sig_err status with
      | Some reason => StatusFailed reason
      | None =>
          match confirmation_status status with
          | Finalized => StatusFinalized (sig_slot status)
          | SolConfirmed | Processed => StatusConfirmed (sig_slot status)
          end
      end
  end.

Definition sol_get_transaction_status (id : Z) : Prog SolE (result TransactionStatus Error) :=
  statuses ?← sol_request "get_signature_statuses" (GetSignatureStatuses id);
  Ret (Ok (sol_status statuses)).

#[export] Instance SolClient : ChainClient SolE := {|
  subscribe_new_blocks := sol_subscribe_new_blocks;
  get_block_number := sol_get_block_number;
  send_transaction := sol_send_transaction;
  get_transaction_status := sol_get_transaction_status;
|}.

(** ** [SolFeeManager] *)

Definition sol_get_fee_params (_priority : Z) : Prog SolE (result SolFeeParams Error) := Crash Todo.

Definition sol_update_on_confirmation (_time : Z) (_fee : SolFeeParams) : Prog SolE unit := Crash Todo.

Definition sol_bump_fee (current : SolFeeParams) : run SolFeeParams :=
  Val {| compute_unit_price := saturating_add u64 (compute_unit_price current) 1;
         compute_unit_limit := compute_unit_limit current |}.

Definition sol_get_base_fee : Prog SolE SolFeeParams := Crash Todo.

#[export] Instance SolFeeManager : FeeManager SolE := {|
  get_fee_params := sol_get_fee_params;
  update_on_confirmation := sol_update_on_confirmation;
  bump_fee := sol_bump_fee;
  get_base_fee := sol_get_base_fee;
|}.

(** ** [SolReplayProtection] *)

Definition SolReplayProtection_new : Prog SolE (result BlockhashState Error) :=
  latest ?← sol_request "get_latest_blockhash" GetLatestBlockhash;
  Ret (Ok {| hash := latest.1; last_valid_block_height := latest.2 |}).

Definition sol_next : Prog SolE Z := trigger (SolCache ReadHash).

Definition sol_sync : Prog SolE (result unit Error) :=
  current_height ?← sol_request "get_block_height" GetBlockHeight;
  last_valid ← trigger (SolCache ReadLastValid);
  horizon ← lift (add_w u64 current_height BLOCKHASH_REFRESH_MARGIN);
  if horizon >=? last_valid then
    latest ?← sol_request "get_latest_blockhash" GetLatestBlockhash;
    trigger (SolCache (StoreBlockhash latest.1 latest.2));;
    Ret (Ok tt)
  else Ret (Ok tt).

#[export] Instance SolReplayProtection : ReplayProtection SolE := {|
  next := sol_next;
  sync := sol_sync;
  release := release_default;
|}.

(** ** [SolRetryStrategy] *)

Definition sol_handle_dropped (_pending : PendingTransaction) : Prog SolE RetryDecision := Crash Todo.

Definition sol_handle_confirmed (_pending : PendingTransaction) (_time : Z) : Prog SolE unit :=
  Crash Todo.

#[export] Instance SolRetryStrategy : RetryStrategy SolE := {|
  handle_dropped := sol_handle_dropped;
  handle_confirmed := sol_handle_confirmed;
|}.

(** ** Running the adapter alone *)

(** The answers of the node, and the clock. *)
Record SolNode := MkSolNode {
  sol_height : result Z string;
  sol_blockhash : result (Z * Z) string;
  sol_clock : Z;
}.

Context (node : SolNode).

Definition sol_rpc_alone (X : Type) (e : SolRpcE X) : X :=
  match e in SolRpcE X return X with
  | SlotSubscribe => Ok tt
  | GetSlot => sol_height node
  | GetSignatureStatuses _ => Ok []
  | GetBlockHeight => sol_height node
  | GetLatestBlockhash => sol_blockhash node
  end.

Definition sol_cache_handle (X : Type) (e : SolLock X) (s : BlockhashState) : X * BlockhashState :=
  match e in SolLock X return X * BlockhashState with
  | ReadHash => (hash s, s)
  | ReadLastValid => (last_valid_block_height s, s)
  | StoreBlockhash h l => (tt, {| hash := h; last_valid_block_height := l |})
  end.

Definition sol_alone (X : Type) (e : SolE X) (s : BlockhashState) : run (X * BlockhashState) :=
  match e in SolE X return run (X * BlockhashState) with
  | SolNow => Val (sol_clock node, s)
  | SolInstant => Val (0, s)
  | SolElapsed _ => Val (0, s)
  | SolPush _ _ => Val (tt, s)
  | SolNotify => Val (tt, s)
  | SolLog _ => Val (tt, s)
  | SolRpc e => Val (sol_rpc_alone _ e, s)
  | SolCache e => Val (sol_cache_handle _ e s)
  end.

(** ** Properties *)

(** C39: [sync] replaces the cached blockhash exactly when the block height
    is within the margin of its last valid height; a failed request leaves
    the cache as it was and is returned as a Solana error; a height within 30
    of the end of u64 panics with overflow checks on. *)
Theorem sol_sync_refreshes s :
  (forall e, sol_height node = Err e ->
     run_alone sol_alone sol_sync s = (Val (sol_err "get_block_height" (Err e)), s)) /\
  (forall h, sol_height node = Ok h -> 0 <= h -> h + BLOCKHASH_REFRESH_MARGIN < 2 ^ 64 ->
     (h + BLOCKHASH_REFRESH_MARGIN < last_valid_block_height s ->
        run_alone sol_alone sol_sync s = (Val (Ok tt), s)) /\
     (last_valid_block_height s <= h + BLOCKHASH_REFRESH_MARGIN ->
        run_alone sol_alone sol_sync s =
          match sol_blockhash node with
          | Ok (bh, lv) => (Val (Ok tt), {| hash := bh; last_valid_block_height := lv |})
          | Err e => (Val (sol_err "get_latest_blockhash" (Err e)), s)
          end)) /\
  (forall h, sol_height node = Ok h -> 2 ^ 64 <= h + BLOCKHASH_REFRESH_MARGIN ->
     overflow_checks = true -> run_alone sol_alone sol_sync s = (Panic Overflow, s)).
Proof.
  unfold BLOCKHASH_REFRESH_MARGIN. split; [|split].
  - intros e He. simpl. by rewrite He.
  - intros h Hh H0 Hroom. simpl. rewrite Hh. simpl. unfold BLOCKHASH_REFRESH_MARGIN.
    rewrite add_w_ok by (unfold in_range; lia). simpl. rewrite Z.geb_leb.
    destruct (Z.leb_spec (last_valid_block_height s) (h + 30)); split; intros; try lia; [|done].
    simpl. by destruct (sol_blockhash node) as [[bh lv]|e].
  - intros h Hh Hover Hc. simpl. rewrite Hh. simpl. unfold BLOCKHASH_REFRESH_MARGIN, add_w.
    rewrite arith_overflow by (unfold in_range; lia). by rewrite Hc.
Qed.

(** With this adapter the sender cannot send: a live message panics at
    [todo!()] when its fee is asked for, after the token was read and with
    the cache untouched; an expired one is refused before. *)
Theorem sol_task_panics m s :
  message_sane m -> clock_ok (sol_clock node) ->
  run_alone sol_alone (process_message (A := Sol) m) s =
    (if decide (expired_at m (sol_clock node)) then Val (Err MessageExpired) else Panic Todo, s).
Proof.
  intros Hm Hc. simpl. rewrite is_expired_eq by by apply sane_deadline. simpl.
  destruct (sane_priority_value m (sol_clock node) Hm Hc) as (p & Hp & _).
  case_bool_decide; case_decide; try done. simpl. by rewrite Hp.
Qed.

End solana.

Section witnesses.
#[local] Instance sol_build : BuildProfile := true.

Definition sol_node : SolNode :=
  {| sol_height := Ok 1000; sol_blockhash := Ok (7, 1150); sol_clock := 5000 |}.

Definition sol_demo : Message := Message_new (Some 42) 21000 7 [] 50 None 1000.

Lemma sol_sync_refreshes_witness :
  run_alone (sol_alone sol_node) sol_sync {| hash := 3; last_valid_block_height := 1030 |} =
    (Val (Ok tt), {| hash := 7; last_valid_block_height := 1150 |}).
Proof.
  destruct (sol_sync_refreshes sol_node {| hash := 3; last_valid_block_height := 1030 |}) as (_ & H & _).
  destruct (H 1000 eq_refl ltac:(lia) ltac:(by vm_compute)) as [_ Hr].
  apply Hr. by vm_compute.
Defined.

Lemma sol_task_panics_witness :
  fst (run_alone (sol_alone sol_node) (process_message (A := Sol) sol_demo)
    {| hash := 3; last_valid_block_height := 1030 |}) = Panic Todo.
Proof.
  rewrite (sol_task_panics sol_node sol_demo).
  - reflexivity.
  - repeat split; simpl; done || lia || (intros d [=]).
  - by vm_compute.
Defined.
End witnesses.
