(* ===== verification/SolanaSystem.v ===== *)
(** * The running sender with the Solana adapter

    The third adapter of the sender of SenderSystem.v.  Its tasks cannot send
    yet: each one panics at a [todo!()] when it asks for a fee.  What the
    running sender makes of it: the panics return their permits, no task talks
    to the node or touches the cached blockhash, and no message comes back to
    the queue. *)

From stdpp Require Import gmap strings relations.
From S2P Require Import Prelude Prog BinaryHeap Errors Message PriorityQueue Adapter Sender SenderSystem Solana.

#[export] Instance sol_view : SenderView SolE.
Proof.
  refine {| sender_op := fun X (e : SolE X) =>
    match e in SolE X return option (SenderOp X) with
    | SolPush m now => Some (OpPush m now)
    | SolNotify => Some OpNotify
    | _ => None
    end |}; done.
Defined.

(** What the events do to the cache; the node answers. *)
Definition sol_world (X : Type) (e : SolE X) (cache : BlockhashState) : X -> run (X * BlockhashState) :=
  match e in SolE X return X -> run (X * BlockhashState) with
  | SolCache e => fun _ => Val (sol_cache_handle _ e cache)
  | _ => fun answer => Val (answer, cache)
  end.

(** The environment: any answers of the node and the clocks. *)
Definition sol_answers (X : Type) (e : SolE X) (x : X) : Prop := True.

Section system.
Context `{BuildProfile} {HM : MaxHeap pm_le}.

Lemma sol_notifies : AdapterNotifies (A := Sol).
Proof. split; intros; by apply quiet_notifies. Qed.

Abbreviation sol_step := (sender_step (A := Sol) sol_world sol_answers).
Abbreviation SolSys := (SenderSys (E := SolE) (W := BlockhashState)).

(** What a task of the Solana sender still does: a caller pushes and notifies,
    a worker reads the clock and the cached hash, logs, or panics. *)
Definition caller_protocol : protocol SolE unit := {|
  may := fun X (e : SolE X) _ => match e with SolNow | SolPush _ _ | SolNotify => True | _ => False end;
  answers := fun X e _ => sol_answers X e;
  next_state := fun _ _ _ _ => tt;
  may_crash := fun _ _ => False;
|}.

Definition worker_protocol : protocol SolE unit := {|
  may := fun X (e : SolE X) _ =>
    match e with SolNow | SolCache ReadHash | SolLog _ => True | _ => False end;
  answers := fun X e _ => sol_answers X e;
  next_state := fun _ _ _ _ => tt;
  may_crash := fun _ _ => True;
|}.

Definition sol_job_ok (t : SenderTask (E := SolE)) : Prop :=
  wp (if st_permit t then worker_protocol else caller_protocol) (st_code t) tt (fun _ _ => True).

Lemma sol_worker m : sol_job_ok (worker_task (A := Sol) m).
Proof.
  unfold sol_job_ok, worker_task. cbn [st_permit st_code]. unfold spawned_task.
  apply wp_bind_mono with (Ψ := fun _ _ => True); [|by intros [r|e] []].
  unfold process_message. split; [done|]. intros now _. cbn [mbind prog_mbind prog_bind lift].
  destruct (is_expired m now) as [[|]|]; [done| |done]. split; [done|]. intros h _.
  cbn [mbind prog_mbind prog_bind lift]. by destruct (effective_priority m now).
Qed.

Lemma sol_caller m : sol_job_ok (caller_task (E := SolE) m).
Proof. done. Qed.

Definition sol_jobs_ok (s : SolSys) : Prop := map_Forall (fun _ t => sol_job_ok t) (jobs s).

Lemma sol_step_jobs s s' : sol_step s s' -> sol_jobs_ok s -> sol_jobs_ok s'.
Proof.
  intros Hs Hok. unfold sol_jobs_ok in *. destruct Hs as [| | | | | | | | | | | | | | |s i t X e k a x sd w Hi Hc _ _| | |]; simpl; try done; try by apply map_Forall_delete.
  - apply map_Forall_insert_2; [apply sol_worker|done].
  - apply map_Forall_insert_2; [apply sol_caller|done].
  - apply map_Forall_insert_2; [|done].
    pose proof (map_Forall_lookup_1 _ _ _ _ Hok Hi) as Ht. unfold sol_job_ok in *. simpl.
    rewrite Hc in Ht. destruct (st_permit t); by apply Ht.
Qed.

(** A worker's event leaves the queue, the cache and the node alone. *)
Definition harmless {X} (e : SolE X) : Prop :=
  pushes e = [] /\ match e with SolRpc _ => False | _ => True end /\
  forall cache a, exists x, sol_world X e cache a = Val (x, cache).

(** The running Solana sender is the sender over any adapter, so that permits
    and messages are conserved and no wake-up is lost; and of the tasks that it
    spawns none ever asks the node for anything, changes the cached blockhash,
    or puts a message back: they only read and panic, and the panic returns
    their permit. *)
Theorem sol_system_sends_nothing cache s :
  rtc sol_step (sender_start (A := Sol) cache) s ->
  (sd_permits (sender s) + permits_held (jobs s) + held_by_run (run_at s) = MAX_IN_FLIGHT_TRANSACTIONS)%nat /\
  AdapterNotifies (A := Sol) /\
  forall (i : nat) (t : SenderTask (E := SolE)), jobs s !! i = Some t -> st_permit t = true ->
    match st_code t with Vis e _ => harmless e | _ => True end.
Proof.
  intros Hr. split; [by eapply si_permits, reached_sender_inv|]. split; [apply sol_notifies|].
  assert (sol_jobs_ok s) as Hok by (eapply rtc_inv; [apply sol_step_jobs|exact Hr|apply map_Forall_empty]).
  intros i t Hi Hp. pose proof (map_Forall_lookup_1 _ _ _ _ Hok Hi) as Ht. unfold sol_job_ok in Ht.
  rewrite Hp in Ht. destruct (st_code t) as [|r|X e k]; [done..|]. destruct Ht as [Hm _].
  destruct e as [| |t0|m now| |l|X e|X e]; try done; (split; [done|]; split; [done|]).
  - intros w a. by eexists.
  - intros w a. by eexists.
  - destruct e; try done. intros w a. by eexists.
Qed.

End system.

Section witnesses.
#[local] Instance sol_checks : BuildProfile := true.
#[local] Instance sol_heap : MaxHeap pm_le := BinaryHeap_max_heap pm_le.

Definition sol_cache : BlockhashState := {| hash := 3; last_valid_block_height := 1030 |}.

Definition sol_first_answer (X : Type) (e : SolE X) : X :=
  match e in SolE X return X with
  | SolNow | SolInstant | SolElapsed _ => 5000
  | SolPush _ _ | SolNotify | SolLog _ => tt
  | SolRpc e => sol_rpc_alone sol_node _ e
  | SolCache e => (sol_cache_handle _ e sol_cache).1
  end.

(** A message is pushed and handed to a task, whose panic returns the permit
    while [run] goes back to sleep. *)
Definition sol_run : run (SenderSys (E := SolE) (W := BlockhashState)) :=
  settle sol_world sol_first_answer 50 (task_new 0 (caller_task sol_demo) (sender_start (A := Sol) sol_cache)).

Example sol_run_sleeps :
  match sol_run with
  | Val s => run_at s = Sleeping /\ jobs s = ∅ /\ sd_permits (sender s) = 16%nat /\
      length (handed_out s) = 1%nat /\ queued (sd_queue (sender s)) = []
  | Panic _ => False
  end.
Proof. vm_compute. by repeat split. Qed.

Lemma sol_system_sends_nothing_witness :
  exists s, rtc (sender_step (A := Sol) sol_world sol_answers) (sender_start (A := Sol) sol_cache) s /\
    handed_out s <> [] /\ sd_permits (sender s) = 16%nat.
Proof.
  destruct sol_run as [s|] eqn:Hrun; [|by vm_compute in Hrun].
  assert (rtc (sender_step (A := Sol) sol_world sol_answers) (sender_start (A := Sol) sol_cache) s) as Hr.
  { eapply rtc_l; [by apply ss_call|]. by apply (settle_steps (A := Sol) sol_world sol_answers sol_first_answer) in Hrun. }
  pose proof sol_run_sleeps as Hs. rewrite Hrun in Hs. destruct Hs as (Ha & Hj & _ & Hh & _).
  exists s. split; [exact Hr|]. split; [intros Hnil; by rewrite Hnil in Hh|].
  destruct (sol_system_sends_nothing sol_cache s Hr) as (Hp & _).
  rewrite Ha, Hj in Hp. unfold permits_held, MAX_IN_FLIGHT_TRANSACTIONS in Hp.
  rewrite map_fold_empty in Hp. simpl in Hp. lia.
Defined.
End witnesses.
