(* ===== verification/SolanaSlots.v ===== *)
(** * The path of a Solana slot ([crates/bulkmail/src/adapter/solana.rs])

    The thread that [SolClient::subscribe_new_blocks] spawns: it iterates over
    the slots of the subscription and sends each on the bounded channel whose
    receiver the run loop holds, until the subscription ends or a send fails.
    The thread and the run loop are a step relation. *)

From stdpp Require Import list relations.
From S2P Require Import Prelude BlockPipe.

(** What the subscription will yield, and whether it then ends or stays
    open; the thread; the channel; what the run loop received. *)
Record SlotPipe := MkSlots {
  slots_coming : list Z;
  slots_end : bool;
  slot_thread : Forwarder Z;
  slot_channel : list Z;
  slots_received : list Z;
  slots_wanted : bool;          (* the run loop has its receiver *)
}.

Inductive slot_thread_step : SlotPipe -> SlotPipe -> Prop :=
  (* [receiver.iter()] yields a slot, or ends *)
  | slot_next n up e c d r :
      slot_thread_step (MkSlots (n :: up) e Waiting c d r) (MkSlots up e (Holding n) c d r)
  | slot_iter_ends c d r :
      slot_thread_step (MkSlots [] true Waiting c d r) (MkSlots [] true Ended c d r)
  (* [tx.blocking_send(slot_info.slot)] waits for room, or fails *)
  | slot_send n up e c d :
      (length c < CHANNEL_CAPACITY)%nat ->
      slot_thread_step (MkSlots up e (Holding n) c d true) (MkSlots up e Waiting (c ++ [n]) d true)
  | slot_send_fails n up e c d :
      slot_thread_step (MkSlots up e (Holding n) c d false) (MkSlots up e Ended c d false).

Inductive slot_step : SlotPipe -> SlotPipe -> Prop :=
  | slot_thread_moves s s' : slot_thread_step s s' -> slot_step s s'
  | slot_run_recv up e t n c d :
      slot_step (MkSlots up e t (n :: c) d true) (MkSlots up e t c (d ++ [n]) true)
  | slot_run_drops up e t c d :
      slot_step (MkSlots up e t c d true) (MkSlots up e t c d false).

Definition slots_start (up : list Z) (e : bool) : SlotPipe := MkSlots up e Waiting [] [] true.

Definition slots_in_transit (s : SlotPipe) : list Z :=
  slot_channel s ++ held (slot_thread s) ++ slots_coming s.

Record slots_inv (slots : list Z) (s : SlotPipe) : Prop := {
  slots_prefix : slots_received s `prefix_of` slots;
  slots_bounded : (length (slot_channel s) <= CHANNEL_CAPACITY)%nat;
  slots_lossless : slots_wanted s = true -> slots_received s ++ slots_in_transit s = slots;
  slots_ended : slots_wanted s = true -> slot_thread s = Ended -> slots_coming s = [];
}.

Lemma slot_step_inv slots s s' : slot_step s s' -> slots_inv slots s -> slots_inv slots s'.
Proof.
  intros Hs [Hp Hb Hl He].
  destruct Hs as [s s' [n up e c d r|c d r|n up e c d Hc|n up e c d]|up e t n c d|up e t c d];
    split; unfold slots_in_transit in *; simpl in *; try done;
    try (rewrite length_app; simpl); try lia.
  - intros Hr. specialize (Hl Hr). by rewrite <- !app_assoc.
  - specialize (Hl eq_refl). exists (c ++ held t ++ up). by rewrite <- Hl, <- app_assoc.
  - intros _. specialize (Hl eq_refl). by rewrite <- app_assoc.
Qed.

Definition slots_measure (s : SlotPipe) : nat :=
  3 * length (slots_coming s) + to_go 2 (slot_thread s) + length (slot_channel s) +
  (if slots_wanted s then 1 else 0).

Lemma slot_step_measure s s' : slot_step s s' -> (slots_measure s' < slots_measure s)%nat.
Proof. intros [? ? []| |]; unfold slots_measure; simpl; try rewrite length_app; simpl; lia. Qed.

(** The slots reach the run loop in order, without gap or repetition, and the
    channel keeps its capacity; the path has no infinite run.  Where only the
    drop of the receiver is possible, every slot has been received.  Once it
    is dropped the thread ends, but only at the next slot: on a subscription
    that stays open without one it waits for ever. *)
Theorem slot_path_completes up e s :
  rtc slot_step (slots_start up e) s ->
  slots_received s `prefix_of` up /\ (length (slot_channel s) <= CHANNEL_CAPACITY)%nat /\
  (slots_wanted s = true -> slots_received s ++ slots_in_transit s = up) /\
  sn slot_step s /\
  (slots_wanted s = true -> (forall s', slot_step s s' -> slots_wanted s' = false) ->
     slots_received s = up) /\
  (slots_wanted s = false -> nf slot_step s ->
     slot_thread s = Ended \/ slot_thread s = Waiting /\ slots_coming s = [] /\ slots_end s = false).
Proof.
  intros Hr. assert (slots_inv up s) as [Hp Hb Hl He].
  { eapply rtc_inv; [apply slot_step_inv|exact Hr|]. split; simpl; [apply prefix_nil|lia|done|done]. }
  split; [done|]. split; [done|]. split; [done|].
  split; [apply (sn_measure _ slots_measure), slot_step_measure|].
  destruct s as [coming ends t c d r]; unfold slots_in_transit in *; simpl in *. split.
  - intros -> Hstuck. specialize (Hl eq_refl). specialize (He eq_refl).
    destruct c as [|n c]; [|by discriminate (Hstuck _ (slot_run_recv _ _ _ _ _ _))].
    destruct t as [|n|].
    + destruct coming as [|n coming]; [by rewrite app_nil_r in Hl|].
      by discriminate (Hstuck _ (slot_thread_moves _ _ (slot_next _ _ _ _ _ _))).
    + assert (length (@nil Z) < CHANNEL_CAPACITY)%nat as Hlt by (unfold CHANNEL_CAPACITY; simpl; lia).
      by discriminate (Hstuck _ (slot_thread_moves _ _ (slot_send _ _ _ _ _ Hlt))).
    + by rewrite (He eq_refl), app_nil_r in Hl.
  - intros -> Hnf. destruct t as [|n|]; [| |by left].
    + destruct coming as [|n coming]; [|destruct Hnf; eexists; apply slot_thread_moves, slot_next].
      destruct ends; [destruct Hnf; eexists; apply slot_thread_moves, slot_iter_ends|by right].
    + destruct Hnf. eexists. apply slot_thread_moves, slot_send_fails.
Qed.

Lemma slot_path_completes_witness : sn slot_step (slots_start [5; 6] false).
Proof. apply (slot_path_completes [5; 6] false), rtc_refl. Defined.
