(* ===== verification/Mempool.v ===== *)
(** * The mempool tracker ([crates/mempooloracle/src/lib.rs])

    [MempoolInner] is the state behind the [RwLock]; its operations run in
    [run], because the arithmetic on nonces and gas is checked.  A [TxId] or
    an [Address], an array of bytes, is its big-endian number.  The order in
    which a [HashMap] visits its entries is a parameter ([IterationOrder]).
    A panic poisons the lock of the code: no later call returns, so the model
    keeps no state after one. *)

From stdpp Require Import gmap sorting.
From S2P Require Import Prelude Float64 OrdSet.

(** ** Data *)

Record PendingTx := MkPendingTx {
  id : Z;                         (* TxId, 32 bytes *)
  sender : Z;                     (* Address, 20 bytes *)
  nonce : Z;                      (* u64 *)
  max_fee_per_gas : Z;            (* u128 *)
  max_priority_fee_per_gas : Z;   (* u128 *)
  gas_limit : Z;                  (* u64 *)
}.

Record BlockUpdate := MkBlockUpdate {
  included_txs : list PendingTx;
  new_base_fee : Z;          (* u128 *)
  gas_used : Z;              (* u64 *)
  block_gas_limit : Z;       (* u64 *)
}.

Inductive MempoolEvent :=
  | PendingTransaction (tx : PendingTx)
  | NewBlock (block : BlockUpdate).

Record AccountQueue := MkAccountQueue {
  confirmed_nonce : Z;                 (* u64 *)
  slots : list (option PendingTx);
}.

Record TrackerConfig := MkTrackerConfig {
  initial_base_fee : Z;        (* u128 *)
  global_capacity : Z;         (* usize *)
  per_account_capacity : Z;    (* usize *)
  private_flow_prior : f64;
}.

Record MempoolInner := MkMempoolInner {
  account_queues : gmap Z AccountQueue;
  base_fee_eligibility : list key;
  priority_queue : list key;
  config : TrackerConfig;
  current_base_fee : Z;        (* u128 *)
  private_flow_ratio : f64;
  last_block_gas_limit : Z;    (* u64 *)
}.

Inductive TxClassification := Marketable | BaseFeeInvalid | Unmarketable | NonceBound.

#[export] Instance PendingTx_eq_dec : EqDecision PendingTx.
Proof. solve_decision. Defined.
#[export] Instance TxClassification_eq_dec : EqDecision TxClassification.
Proof. solve_decision. Defined.

(** The entries of a [HashMap] in the order of one of its traversals. *)
Class IterationOrder := {
  hash_entries : gmap Z AccountQueue -> list (Z * AccountQueue);
  hash_entries_perm : forall m, hash_entries m ≡ₚ map_to_list m;
}.

(** ** Helpers for the code's vectors and loops *)

(** [Vec::get] at a [usize] index. *)
Definition slot_get (slots : list (option PendingTx)) (i : Z) : option (option PendingTx) :=
  if (0 <=? i) && (i <? Z.of_nat (length slots)) then slots !! Z.to_nat i else None.

(** [slots[i] = v], for [i] in bounds. *)
Definition slot_set (slots : list (option PendingTx)) (i : Z) (v : option PendingTx)
    : run (list (option PendingTx)) :=
  if (0 <=? i) && (i <? Z.of_nat (length slots)) then Val (<[Z.to_nat i := v]> slots)
  else Panic OutOfBounds.

(** [Vec::resize] to a longer length, filled with [None]. *)
Definition slot_resize (slots : list (option PendingTx)) (n : Z) : list (option PendingTx) :=
  slots ++ replicate (Z.to_nat n - length slots) None.

Section tracker.
Context `{BuildProfile} `{IterationOrder}.

Definition set_accounts (m : gmap Z AccountQueue) (self : MempoolInner) : MempoolInner :=
  {| account_queues := m; base_fee_eligibility := base_fee_eligibility self;
     priority_queue := priority_queue self; config := config self;
     current_base_fee := current_base_fee self; private_flow_ratio := private_flow_ratio self;
     last_block_gas_limit := last_block_gas_limit self |}.

Definition set_indexes (elig pq : list key) (self : MempoolInner) : MempoolInner :=
  {| account_queues := account_queues self; base_fee_eligibility := elig;
     priority_queue := pq; config := config self;
     current_base_fee := current_base_fee self; private_flow_ratio := private_flow_ratio self;
     last_block_gas_limit := last_block_gas_limit self |}.

Definition set_base_fee (fee : Z) (self : MempoolInner) : MempoolInner :=
  {| account_queues := account_queues self; base_fee_eligibility := base_fee_eligibility self;
     priority_queue := priority_queue self; config := config self;
     current_base_fee := fee; private_flow_ratio := private_flow_ratio self;
     last_block_gas_limit := last_block_gas_limit self |}.

Definition set_block_gas (ratio : f64) (limit : Z) (self : MempoolInner) : MempoolInner :=
  {| account_queues := account_queues self; base_fee_eligibility := base_fee_eligibility self;
     priority_queue := priority_queue self; config := config self;
     current_base_fee := current_base_fee self; private_flow_ratio := ratio;
     last_block_gas_limit := limit |}.

(** ** [MempoolInner] *)

Definition effective_priority_fee (self : MempoolInner) (tx : PendingTx) : Z :=
  Z.min (max_priority_fee_per_gas tx)
        (saturating_sub (max_fee_per_gas tx) (current_base_fee self)).

(** The eviction of [insert]: pop the first key of the priority queue and
    clear its slot; [None] where the code returns without inserting. *)
Definition pop_worst (self : MempoolInner) : run (option MempoolInner) :=
  match ord_pop_first (priority_queue self) with
  | None => Val None
  | Some ((_, worst_addr, worst_nonce), pq) =>
      let self := set_indexes (base_fee_eligibility self) pq self in
      match account_queues self !! worst_addr with
      | None => Val (Some self)
      | Some queue =>
          nonce_offset ← sub_w u64 worst_nonce (confirmed_nonce queue);
          match slot_get (slots queue) nonce_offset with
          | Some (Some evicted_tx) =>
              let elig := ord_remove key_cmp (max_fee_per_gas evicted_tx, worst_addr, worst_nonce)
                            (base_fee_eligibility self) in
              slots' ← slot_set (slots queue) nonce_offset None;
              let queue := {| confirmed_nonce := confirmed_nonce queue; slots := slots' |} in
              Val (Some (set_accounts (<[worst_addr := queue]> (account_queues self))
                (set_indexes elig (priority_queue self) self)))
          | _ => Val (Some self)
          end
      end
  end.

(** "Global capacity check and eviction". *)
Definition make_room (self : MempoolInner) (tx : PendingTx) : run (option MempoolInner) :=
  if global_capacity (config self) <=? Z.of_nat (length (base_fee_eligibility self)) then
    match ord_first (priority_queue self) with
    | Some (worst_fee, _, _) =>
        if effective_priority_fee self tx <=? worst_fee then Val None else pop_worst self
    | None => pop_worst self
    end
  else Val (Some self).

(** "Get or create the account queue". *)
Definition entry_or_insert (self : MempoolInner) (tx : PendingTx) : AccountQueue :=
  default {| confirmed_nonce := nonce tx; slots := [] |} (account_queues self !! sender tx).

(** A nonce below the confirmed one shifts the slots; [None] where the code
    returns. *)
Definition prepend_slots (self : MempoolInner) (tx : PendingTx) (queue : AccountQueue)
    : run (option AccountQueue) :=
  if nonce tx <? confirmed_nonce queue then
    prepend ← sub_w u64 (confirmed_nonce queue) (nonce tx);
    total ← add_w usize prepend (Z.of_nat (length (slots queue)));
    if total >? per_account_capacity (config self) then Val None
    else Val (Some {| confirmed_nonce := nonce tx;
                      slots := replicate (Z.to_nat prepend) None ++ slots queue |})
  else Val (Some queue).

(** The capacity check, the resize and the assignment of the slot. *)
Definition fill_slot (self : MempoolInner) (tx : PendingTx) (queue : AccountQueue)
    : run (option AccountQueue) :=
  nonce_offset ← sub_w u64 (nonce tx) (confirmed_nonce queue);
  if nonce_offset >=? per_account_capacity (config self) then Val None
  else
    slot_index ← sub_w u64 (nonce tx) (confirmed_nonce queue);
    resized ← (if slot_index >=? Z.of_nat (length (slots queue)) then
                 n ← add_w usize slot_index 1; Val (slot_resize (slots queue) n)
               else Val (slots queue));
    filled ← slot_set resized slot_index (Some tx);
    Val (Some {| confirmed_nonce := confirmed_nonce queue; slots := filled |}).

Definition put_queue (self : MempoolInner) (tx : PendingTx) (queue : AccountQueue) : MempoolInner :=
  set_accounts (<[sender tx := queue]> (account_queues self)) self.

Definition index_tx (self : MempoolInner) (tx : PendingTx) : MempoolInner :=
  set_indexes
    (ord_insert key_cmp (max_fee_per_gas tx, sender tx, nonce tx) (base_fee_eligibility self))
    (ord_insert rev_key_cmp (effective_priority_fee self tx, sender tx, nonce tx)
       (priority_queue self))
    self.

Definition insert (self : MempoolInner) (tx : PendingTx) : run MempoolInner :=
  room ← make_room self tx;
  match room with
  | None => Val self
  | Some self =>
      let account_queue := entry_or_insert self tx in
      prepended ← prepend_slots self tx account_queue;
      match prepended with
      | None => Val (put_queue self tx account_queue)
      | Some account_queue =>
          filled ← fill_slot self tx account_queue;
          match filled with
          | None => Val (put_queue self tx account_queue)
          | Some account_queue => Val (index_tx (put_queue self tx account_queue) tx)
          end
      end
  end.

(** Step 1 of [apply_block]: the gas of the included transactions whose slot
    is occupied. *)
Definition count_known_gas (self : MempoolInner) (tx : PendingTx) (known_gas_used : Z) : run Z :=
  match account_queues self !! sender tx with
  | None => Val known_gas_used
  | Some queue =>
      if nonce tx >=? confirmed_nonce queue then
        nonce_offset ← sub_w u64 (nonce tx) (confirmed_nonce queue);
        match slot_get (slots queue) nonce_offset with
        | Some (Some _) => add_w u64 known_gas_used (gas_limit tx)
        | _ => Val known_gas_used
        end
      else Val known_gas_used
  end.

Definition update_private_flow (self : MempoolInner) (block : BlockUpdate) (known_gas_used : Z) : f64 :=
  if block_gas_limit block >? 0 then
    let private_gas := saturating_sub (gas_used block) known_gas_used in
    let observed := f64_div (f64_of_Z private_gas) (f64_of_Z (block_gas_limit block)) in
    f64_add (f64_mul f64_tenth observed)
            (f64_mul (f64_sub f64_one f64_tenth) (private_flow_ratio self))
  else private_flow_ratio self.

(** Step 2: take an included transaction out of its slot and the indexes. *)
Definition remove_included (tx_in_block : PendingTx) (self : MempoolInner) : run MempoolInner :=
  match account_queues self !! sender tx_in_block with
  | None => Val self
  | Some queue =>
      if nonce tx_in_block >=? confirmed_nonce queue then
        nonce_offset ← sub_w u64 (nonce tx_in_block) (confirmed_nonce queue);
        match slot_get (slots queue) nonce_offset with
        | Some (Some mempool_tx) =>
            slots' ← slot_set (slots queue) nonce_offset None;
            let queue := {| confirmed_nonce := confirmed_nonce queue; slots := slots' |} in
            let elig := ord_remove key_cmp
              (max_fee_per_gas mempool_tx, sender mempool_tx, nonce mempool_tx)
              (base_fee_eligibility self) in
            let pq := ord_remove rev_key_cmp
              (effective_priority_fee self mempool_tx, sender mempool_tx, nonce mempool_tx)
              (priority_queue self) in
            Val (set_accounts (<[sender tx_in_block := queue]> (account_queues self))
                   (set_indexes elig pq self))
        | _ => Val self
        end
      else Val self
  end.

(** Step 3: advance the confirmed nonce and drain the slots before it. *)
Definition advance_queue (tx : PendingTx) (queue : AccountQueue) : run AccountQueue :=
  next_nonce ← add_w u64 (nonce tx) 1;
  let confirmed := Z.max (confirmed_nonce queue) next_nonce in
  drain_count ← sub_w u64 confirmed (confirmed_nonce queue);
  Val {| confirmed_nonce := confirmed;
         slots := if drain_count >? 0 then
                    if drain_count <? Z.of_nat (length (slots queue))
                    then drop (Z.to_nat drain_count) (slots queue)
                    else []
                  else slots queue |}.

Definition advance_account (tx : PendingTx) (self : MempoolInner) : run MempoolInner :=
  match account_queues self !! sender tx with
  | None => Val self
  | Some queue =>
      queue ← advance_queue tx queue;
      Val (set_accounts (<[sender tx := queue]> (account_queues self)) self)
  end.

(** Step 5: the slots of an account up to the first that is not marketable. *)
Definition rebuild_slot (self : MempoolInner) (acc : bool * list key) (slot : option PendingTx)
    : bool * list key :=
  let '(nonce_bound, pq) := acc in
  match slot with
  | Some tx =>
      if nonce_bound then (nonce_bound, pq)
      else if max_fee_per_gas tx <? current_base_fee self then (true, pq)
      else
        let effective := effective_priority_fee self tx in
        if effective >? 0 then
          (nonce_bound, ord_insert rev_key_cmp (effective, sender tx, nonce tx) pq)
        else (true, pq)
  | None => (true, pq)
  end.

Definition rebuild_account (self : MempoolInner) (pq : list key) (entry : Z * AccountQueue) : list key :=
  snd (foldl (rebuild_slot self) (false, pq) (slots entry.2)).

Definition rebuild_priority_queue (self : MempoolInner) : MempoolInner :=
  set_indexes (base_fee_eligibility self)
    (foldl (rebuild_account self) [] (hash_entries (account_queues self))) self.

Definition apply_block (self : MempoolInner) (block : BlockUpdate) : run MempoolInner :=
  known_gas_used ← for_each (count_known_gas self) (included_txs block) 0;
  let self := set_block_gas (update_private_flow self block known_gas_used)
                (block_gas_limit block) self in
  self ← for_each remove_included (included_txs block) self;
  self ← for_each advance_account (included_txs block) self;
  let self := set_base_fee (new_base_fee block) self in
  Val (rebuild_priority_queue self).

(** A stored transaction that blocks the nonces after it. *)
Definition blocks_later (self : MempoolInner) (tx : PendingTx) : bool :=
  (max_fee_per_gas tx <? current_base_fee self) || (effective_priority_fee self tx =? 0).

(** The loop of [classify_transaction] over the slots before the transaction:
    true when it returns [NonceBound]. *)
Fixpoint blocked_before (self : MempoolInner) (slots : list (option PendingTx)) (n : Z) : bool :=
  if n <=? 0 then false
  else match slots with
       | Some tx :: slots => blocks_later self tx || blocked_before self slots (n - 1)
       | _ => true
       end.

Definition classify_transaction (self : MempoolInner) (tx : PendingTx) : run TxClassification :=
  match account_queues self !! sender tx with
  | None => Val NonceBound
  | Some queue =>
      n ← sub_w u64 (nonce tx) (confirmed_nonce queue);
      Val (if blocked_before self (slots queue) n then NonceBound
           else if max_fee_per_gas tx <? current_base_fee self then BaseFeeInvalid
           else if effective_priority_fee self tx =? 0 then Unmarketable
           else Marketable)
  end.

Definition all_txs (self : MempoolInner) : list PendingTx :=
  omap (fun slot => slot) (hash_entries (account_queues self) ≫= fun entry => slots entry.2).

Definition find_tx_by_id (self : MempoolInner) (tx_id : Z) : option PendingTx :=
  head (filter (fun tx => id tx = tx_id) (all_txs self)).

Definition find_tx_by_addr_and_nonce (self : MempoolInner) (addr n : Z) : option PendingTx :=
  match account_queues self !! addr with
  | None => None
  | Some queue =>
      if n >=? confirmed_nonce queue then
        match slot_get (slots queue) (n - confirmed_nonce queue) with
        | Some (Some tx) => Some tx
        | _ => None
        end
      else None
  end.

(** ** [MempoolTracker] *)

Definition empty_inner (config : TrackerConfig) : MempoolInner := {|
  account_queues := ∅;
  base_fee_eligibility := [];
  priority_queue := [];
  config := config;
  current_base_fee := initial_base_fee config;
  private_flow_ratio := private_flow_prior config;
  last_block_gas_limit := 30000000;
|}.

(** The state [from_channel] shares between the handle and the tracker. *)
Definition from_channel (initial_txs : list PendingTx) (config : TrackerConfig) : run MempoolInner :=
  for_each (fun tx self => insert self tx) initial_txs (empty_inner config).

Definition handle_event (event : MempoolEvent) (self : MempoolInner) : run MempoolInner :=
  match event with
  | PendingTransaction tx => insert self tx
  | NewBlock block => apply_block self block
  end.

(** [run]: the events received until the sender is dropped. *)
Definition tracker_run (events : list MempoolEvent) (self : MempoolInner) : run MempoolInner :=
  for_each handle_event events self.

(** ** [MempoolHandle] *)

Definition classification (self : MempoolInner) (tx_id : Z) : run (option TxClassification) :=
  match find_tx_by_id self tx_id with
  | None => Val None
  | Some tx => c ← classify_transaction self tx; Val (Some c)
  end.

Definition gas_ahead (self : MempoolInner) (tx_id : Z) : run (option Z) :=
  match find_tx_by_id self tx_id with
  | None => Val None
  | Some tx =>
      c ← classify_transaction self tx;
      if decide (c = Marketable) then
        let key_for_tx := (effective_priority_fee self tx, sender tx, nonce tx) in
        gas ← for_each
          (fun '(_, addr, n) gas_ahead =>
             match find_tx_by_addr_and_nonce self addr n with
             | Some tx_ahead => add_w u64 gas_ahead (gas_limit tx_ahead)
             | None => Val gas_ahead
             end)
          (ord_range_to rev_key_cmp key_for_tx (priority_queue self)) 0;
        Val (Some gas)
      else Val None
  end.

Definition usable_capacity (self : MempoolInner) : Z :=
  f64_to_uint u64 (f64_mul (f64_of_Z (last_block_gas_limit self))
                           (f64_sub f64_one (private_flow_ratio self))).

Definition estimated_blocks_to_confirm (self : MempoolInner) (tx_id : Z) : run (option Z) :=
  match find_tx_by_id self tx_id with
  | None => Val None
  | Some tx =>
      ahead ← gas_ahead self tx_id;
      match ahead with
      | None => Val None
      | Some gas_ahead =>
          let capacity := usable_capacity self in
          Val (Some (if capacity =? 0 then max_w u64
                     else saturating_add u64 gas_ahead (gas_limit tx) / capacity))
      end
  end.

Definition is_marketable (self : MempoolInner) (tx_id : Z) : run (option bool) :=
  c ← classification self tx_id;
  Val (option_map (fun c => bool_decide (c = Marketable)) c).

(** [priority_queue()]: the keys of the B-tree in its order. *)
Definition priority_queue_entries (self : MempoolInner) : list (Z * Z * Z) := priority_queue self.

End tracker.
