(* ===== verification/MempoolInv.v ===== *)
(** * The tracker keeps its state well formed

    [mempool_ok] is the invariant of [MempoolInner]: every account has at
    most [per_account_capacity] slots, the transaction in slot [i] has the
    nonce [confirmed_nonce + i] of that account, the indexes are ordered sets
    and no key of the priority queue is below the confirmed nonce of its
    account.  Every event keeps it and none panics. *)

From stdpp Require Import gmap sorting.
From S2P Require Import Prelude Float64 OrdSet Mempool.

(** ** The invariant *)

Record tx_sane (tx : PendingTx) : Prop := {
  sane_nonce : 0 <= nonce tx < 2 ^ 63;
  sane_max_fee : in_range u128 (max_fee_per_gas tx);
  sane_tip : in_range u128 (max_priority_fee_per_gas tx);
  sane_gas : in_range u64 (gas_limit tx);
}.

Record account_ok (cap addr : Z) (q : AccountQueue) : Prop := {
  acc_confirmed : 0 <= confirmed_nonce q <= 2 ^ 63;
  acc_capacity : Z.of_nat (length (slots q)) <= cap;
  acc_slots : forall i tx, slots q !! i = Some (Some tx) ->
    sender tx = addr /\ nonce tx = confirmed_nonce q + Z.of_nat i /\ tx_sane tx;
}.

Record core_ok (self : MempoolInner) : Prop := {
  ok_config : 0 <= per_account_capacity (config self) < 2 ^ 63;
  ok_accounts : forall a q, account_queues self !! a = Some q ->
    account_ok (per_account_capacity (config self)) a q;
  ok_elig : ord_ok key_cmp (base_fee_eligibility self);
  ok_pq : ord_ok rev_key_cmp (priority_queue self);
}.

(** No key of the priority queue is stale enough to underflow. *)
Definition keys_ok (self : MempoolInner) : Prop :=
  forall f a n, (f, a, n) ∈ priority_queue self ->
    exists q, account_queues self !! a = Some q /\ confirmed_nonce q <= n < 2 ^ 63.

Definition mempool_ok (self : MempoolInner) : Prop := core_ok self /\ keys_ok self.

(** A block whose transactions are typed and whose gas limits add up to a u64. *)
Definition total_gas (txs : list PendingTx) : Z := foldr (fun tx s => gas_limit tx + s) 0 txs.

Definition block_sane (block : BlockUpdate) : Prop :=
  Forall tx_sane (included_txs block) /\ total_gas (included_txs block) < 2 ^ 64.

Definition event_sane (event : MempoolEvent) : Prop :=
  match event with
  | PendingTransaction tx => tx_sane tx
  | NewBlock block => block_sane block
  end.

Definition config_sane (c : TrackerConfig) : Prop := 0 <= per_account_capacity c < 2 ^ 63.

(** ** Vectors and loops *)

Section helpers.
Context `{BuildProfile}.

Lemma for_each_ind {A S} (f : A -> S -> run S) (I : S -> Prop) (l : list A) s :
  (forall a s, a ∈ l -> I s -> exists s', f a s = Val s' /\ I s') ->
  I s -> exists s', for_each f l s = Val s' /\ I s'.
Proof.
  revert s. induction l as [|a l IH]; intros s Hf Hs; simpl; [eauto|].
  destruct (Hf a s) as (s1 & -> & Hs1); [by left|done|]. simpl.
  apply IH; [|done]. intros b s2 Hb. apply Hf. by right.
Qed.

Lemma for_each_app {A S} (f : A -> S -> run S) (l1 l2 : list A) s :
  for_each f (l1 ++ l2) s = (s' ← for_each f l1 s; for_each f l2 s').
Proof.
  revert s. induction l1 as [|a l1 IH]; intros s; [done|]. simpl.
  destruct (f a s) as [s'|]; simpl; [apply IH|done].
Qed.

Lemma slot_get_Some sl i x :
  slot_get sl i = Some x <-> 0 <= i /\ sl !! Z.to_nat i = Some x.
Proof.
  unfold slot_get. destruct (Z.leb_spec 0 i), (Z.ltb_spec i (Z.of_nat (length sl))); simpl;
    (split; [|intros [? Hl]]); try done; try lia.
  apply lookup_lt_Some in Hl. lia.
Qed.

Lemma slot_set_ok sl i x v :
  slot_get sl i = Some x -> slot_set sl i v = Val (<[Z.to_nat i := v]> sl).
Proof.
  intros [Hi Hl]%slot_get_Some. apply lookup_lt_Some in Hl. unfold slot_set.
  destruct (Z.leb_spec 0 i), (Z.ltb_spec i (Z.of_nat (length sl))); simpl; try done; lia.
Qed.

Lemma slot_resize_lookup sl n i tx :
  slot_resize sl n !! i = Some (Some tx) <-> sl !! i = Some (Some tx).
Proof.
  unfold slot_resize. rewrite lookup_app. destruct (sl !! i) as [o|] eqn:Hi; [done|].
  split; [|done]. intros Hr. apply lookup_replicate in Hr as [? _]. done.
Qed.

Lemma slot_resize_length sl n :
  length (slot_resize sl n) = Nat.max (length sl) (Z.to_nat n).
Proof. unfold slot_resize. rewrite length_app, length_replicate. lia. Qed.

End helpers.

(** Clearing a slot keeps an account well formed. *)
Lemma account_ok_clear cap a q i :
  account_ok cap a q ->
  account_ok cap a {| confirmed_nonce := confirmed_nonce q; slots := <[i := None]> (slots q) |}.
Proof.
  intros [Hc Hl Hs]. split; simpl; [done|by rewrite length_insert|].
  intros j tx Hj. destruct (decide (i = j)) as [->|Hij].
  - destruct (decide (j < length (slots q))%nat).
    + rewrite list_lookup_insert_eq in Hj by done. done.
    + rewrite list_insert_ge in Hj by lia. by apply Hs.
  - rewrite list_lookup_insert_ne in Hj by done. by apply Hs.
Qed.

(** ** Updating one account *)

Lemma core_ok_account self a q :
  core_ok self -> account_ok (per_account_capacity (config self)) a q ->
  core_ok (set_accounts (<[a := q]> (account_queues self)) self).
Proof.
  intros [Hc Ha He Hp] Hq. split; simpl; try done.
  intros b r [[<- <-]|[? ?]]%lookup_insert_Some; [done|by apply Ha].
Qed.

Lemma keys_ok_account self a q :
  keys_ok self ->
  (forall r, account_queues self !! a = Some r -> confirmed_nonce q <= confirmed_nonce r) ->
  keys_ok (set_accounts (<[a := q]> (account_queues self)) self).
Proof.
  intros Hk Hle f b n Hin. destruct (Hk f b n Hin) as (r & Hr & Hn). simpl.
  destruct (decide (a = b)) as [->|]; [|exists r; by rewrite lookup_insert_ne].
  exists q. rewrite lookup_insert_eq. split; [done|]. specialize (Hle r Hr). lia.
Qed.

Lemma mempool_ok_account self a q :
  mempool_ok self -> account_ok (per_account_capacity (config self)) a q ->
  (forall r, account_queues self !! a = Some r -> confirmed_nonce q <= confirmed_nonce r) ->
  mempool_ok (set_accounts (<[a := q]> (account_queues self)) self).
Proof. intros [Hc Hk] Hq Hle. split; [by apply core_ok_account|by apply keys_ok_account]. Qed.

Lemma core_ok_indexes self elig pq :
  core_ok self -> ord_ok key_cmp elig -> ord_ok rev_key_cmp pq ->
  core_ok (set_indexes elig pq self).
Proof. intros [Hc Ha _ _] He Hp. by split. Qed.

(** Fewer keys are still well formed. *)
Lemma keys_ok_subset self elig pq :
  keys_ok self -> (forall k, k ∈ pq -> k ∈ priority_queue self) ->
  keys_ok (set_indexes elig pq self).
Proof. intros Hk Hsub f a n Hin. apply (Hk f a n), Hsub, Hin. Qed.

(** ** [insert] *)

Section insert.
Context `{BuildProfile}.


Lemma pop_worst_ok self :
  mempool_ok self ->
  exists r, pop_worst self = Val r /\
    match r with
    | None => priority_queue self = []
    | Some self' => mempool_ok self' /\ config self' = config self /\
        current_base_fee self' = current_base_fee self
    end.
Proof.
  intros [Hc Hk]. unfold pop_worst.
  destruct (ord_pop_first (priority_queue self)) as [[[[f a] n] pq]|] eqn:Hpop.
  2: { exists None. split; [done|]. by destruct (priority_queue self). }
  destruct (ord_pop_first_spec _ _ _ _ Hpop (ok_pq _ Hc)) as (Hpq & Hok & _ & _).
  destruct (Hk f a n) as (q & Hq & Hn); [rewrite Hpq; by left|].
  assert (mempool_ok (set_indexes (base_fee_eligibility self) pq self)) as Hpopped.
  { split; [apply core_ok_indexes; [done|apply Hc|done]|].
    apply keys_ok_subset; [done|]. intros k Hin. rewrite Hpq. by right. }
  simpl. rewrite Hq. pose proof (ok_accounts _ Hc a q Hq) as Hacc.
  rewrite sub_w_ok by (destruct Hacc as [[? ?] _ _]; two63; word). simpl.
  destruct (slot_get (slots q) (n - confirmed_nonce q)) as [[tx|]|] eqn:Hslot; [|by (eexists; split)..].
  rewrite (slot_set_ok _ _ _ None Hslot). simpl. eexists. split; [done|]. split; [|done].
  pose proof (mempool_ok_account (set_indexes
    (ord_remove key_cmp (max_fee_per_gas tx, a, n) (base_fee_eligibility self)) pq self) a
    {| confirmed_nonce := confirmed_nonce q;
       slots := <[Z.to_nat (n - confirmed_nonce q) := None]> (slots q) |}) as Hm.
  apply Hm.
  - destruct Hpopped as [Hpc Hpk]. split; [|done].
    apply core_ok_indexes; [done|apply ord_remove_ok; [apply _|apply Hc]|done].
  - by apply account_ok_clear.
  - simpl. intros r Hr. rewrite Hq in Hr. by injection Hr as <-.
Qed.

Lemma make_room_ok self tx :
  mempool_ok self ->
  exists r, make_room self tx = Val r /\
    match r with
    | None => True
    | Some self' => mempool_ok self' /\ config self' = config self /\
        current_base_fee self' = current_base_fee self
    end.
Proof.
  intros Hok. destruct (pop_worst_ok self Hok) as (r & Hr & Hpost). unfold make_room.
  destruct (_ <=? _); [|by exists (Some self)].
  destruct (ord_first (priority_queue self)) as [[[w a] n]|].
  - destruct (effective_priority_fee self tx <=? w); [by exists None|].
    exists r. split; [done|]. by destruct r.
  - exists r. split; [done|]. by destruct r.
Qed.

(** The account the insertion works on. *)
Lemma entry_ok self tx :
  core_ok self -> tx_sane tx ->
  account_ok (per_account_capacity (config self)) (sender tx) (entry_or_insert self tx) /\
  (forall r, account_queues self !! sender tx = Some r ->
     entry_or_insert self tx = r).
Proof.
  intros Hc Ht. unfold entry_or_insert. destruct (account_queues self !! sender tx) as [q|] eqn:Hq.
  - split; [by apply (ok_accounts _ Hc)|]. by intros r [= ->].
  - split; [|done]. destruct Hc as [Hcap _ _ _]. destruct Ht as [Hn _ _ _].
    split; simpl; [lia|lia|]. intros i t. by rewrite lookup_nil.
Qed.

Lemma prepend_ok self tx q :
  core_ok self -> tx_sane tx ->
  account_ok (per_account_capacity (config self)) (sender tx) q ->
  exists r, prepend_slots self tx q = Val r /\
    match r with
    | None => nonce tx < confirmed_nonce q
    | Some q' => account_ok (per_account_capacity (config self)) (sender tx) q' /\
        confirmed_nonce q' = Z.min (nonce tx) (confirmed_nonce q)
    end.
Proof.
  intros Hcore [Htn _ _ _] Hq. destruct (Hq) as [Hcn Hl Hs].
  pose proof (ok_config _ Hcore) as Hcap. unfold prepend_slots.
  destruct (Z.ltb_spec (nonce tx) (confirmed_nonce q)) as [Hlt|Hge].
  2: { exists (Some q). split; [done|]. split; [done|lia]. }
  two63. rewrite sub_w_ok by word. simpl. rewrite add_w_ok by word. simpl.
  rewrite Z.gtb_ltb. destruct (Z.ltb_spec (per_account_capacity (config self))
    (confirmed_nonce q - nonce tx + Z.of_nat (length (slots q)))) as [|Hfit]; [by exists None|].
  eexists. split; [done|]. simpl. split; [|lia]. split; simpl.
  - two63. lia.
  - rewrite length_app, length_replicate. lia.
  - intros i t Hi. rewrite lookup_app in Hi.
    destruct (replicate (Z.to_nat (confirmed_nonce q - nonce tx)) None !! i) as [o|] eqn:Hrep.
    + apply lookup_replicate in Hrep as [-> _]. done.
    + rewrite length_replicate in Hi. apply lookup_replicate_None in Hrep.
      destruct (Hs _ _ Hi) as (? & Hn & ?). split; [done|]. split; [lia|done].
Qed.

Lemma fill_slot_ok self tx q :
  core_ok self -> tx_sane tx ->
  account_ok (per_account_capacity (config self)) (sender tx) q ->
  confirmed_nonce q <= nonce tx ->
  exists r, fill_slot self tx q = Val r /\
    match r with
    | None => per_account_capacity (config self) <= nonce tx - confirmed_nonce q
    | Some q' =>
        account_ok (per_account_capacity (config self)) (sender tx) q' /\
        confirmed_nonce q' = confirmed_nonce q /\
        slots q' !! Z.to_nat (nonce tx - confirmed_nonce q) = Some (Some tx) /\
        (forall i t, i <> Z.to_nat (nonce tx - confirmed_nonce q) ->
           slots q' !! i = Some (Some t) <-> slots q !! i = Some (Some t))
    end.
Proof.
  intros Hcore Ht Hq Hle. destruct (Hq) as [Hcn Hl Hs]. pose proof (sane_nonce _ Ht) as Hn.
  pose proof (ok_config _ Hcore) as Hcap. unfold fill_slot. set (o := nonce tx - confirmed_nonce q).
  two63. rewrite sub_w_ok by word. simpl. fold o. rewrite Z.geb_leb.
  destruct (Z.leb_spec (per_account_capacity (config self)) o) as [|Ho]; [by exists None|].
  assert (exists sl : list (option PendingTx), (if o >=? Z.of_nat (length (slots q)) then
      n ← add_w usize o 1; Val (slot_resize (slots q) n) else Val (slots q)) = Val sl /\
      (0 <= o < Z.of_nat (length sl) /\
       Z.of_nat (length sl) <= per_account_capacity (config self)) /\
      forall i t, sl !! i = Some (Some t) <-> slots q !! i = Some (Some t))
    as (sl & Hsl & [Hlo Hhi] & Hsame).
  { rewrite Z.geb_leb. destruct (Z.leb_spec (Z.of_nat (length (slots q))) o) as [Hge|Hlt].
    - rewrite add_w_ok by word. simpl. eexists. split; [done|]. rewrite slot_resize_length.
      split; [lia|]. intros i t. apply slot_resize_lookup.
    - eexists. split; [done|]. split; [lia|done]. }
  rewrite Hsl. simpl. destruct (lookup_lt_is_Some_2 sl (Z.to_nat o)) as [x Hx]; [lia|].
  rewrite (slot_set_ok sl o x) by (apply slot_get_Some; split; [lia|done]). simpl.
  eexists. split; [done|]. simpl. split; [split; simpl|].
  - done.
  - rewrite length_insert. lia.
  - intros i t Hi. destruct (decide (i = Z.to_nat o)) as [->|Hne].
    + rewrite list_lookup_insert_eq in Hi by lia. injection Hi as <-. split; [done|]. split; [lia|done].
    + rewrite list_lookup_insert_ne in Hi by done. by apply Hs, Hsame.
  - split; [done|]. split; [by apply list_lookup_insert_eq; lia|].
    intros i t Hne. rewrite list_lookup_insert_ne by done. apply Hsame.
Qed.

Lemma index_tx_ok self tx q :
  mempool_ok self -> account_queues self !! sender tx = Some q ->
  confirmed_nonce q <= nonce tx < 2 ^ 63 -> mempool_ok (index_tx self tx).
Proof.
  intros [Hc Hk] Hq Hn. split.
  - apply core_ok_indexes; [done| |]; apply ord_insert_ok; try apply _; apply Hc.
  - intros f a n. simpl. rewrite elem_of_ord_insert by apply _.
    intros [[= -> -> ->]|Hin]; [by exists q|by eapply Hk].
Qed.

Lemma put_queue_ok self tx q :
  mempool_ok self -> account_ok (per_account_capacity (config self)) (sender tx) q ->
  confirmed_nonce q <= confirmed_nonce (entry_or_insert self tx) ->
  mempool_ok (put_queue self tx q).
Proof.
  intros Hok Hq Hle. apply mempool_ok_account; [done|done|].
  intros r Hr. unfold entry_or_insert in Hle. by rewrite Hr in Hle.
Qed.

Lemma insert_ok self tx :
  mempool_ok self -> tx_sane tx ->
  exists self', insert self tx = Val self' /\ mempool_ok self' /\ config self' = config self.
Proof.
  intros Hok Ht. unfold insert.
  destruct (make_room_ok self tx Hok) as ([s1|] & -> & Hroom); simpl; [|by eauto].
  destruct Hroom as (Hok1 & Hcfg & _). rewrite <- Hcfg. clear Hcfg Hok self.
  destruct (entry_ok s1 tx (proj1 Hok1) Ht) as [Hq _]. set (q := entry_or_insert s1 tx) in *.
  destruct (prepend_ok s1 tx q (proj1 Hok1) Ht Hq) as ([q1|] & -> & Hpre); simpl.
  2: { eexists. split; [done|]. split; [by apply put_queue_ok|done]. }
  destruct Hpre as [Hq1 Hmin].
  destruct (fill_slot_ok s1 tx q1 (proj1 Hok1) Ht Hq1) as ([q2|] & -> & Hfill); simpl; [lia| |].
  2: { eexists. split; [done|]. split; [apply put_queue_ok; [done|done|fold q; lia]|done]. }
  destruct Hfill as (Hq2 & Hcn & _). eexists. split; [done|]. split; [|done].
  apply index_tx_ok with (q := q2).
  - apply put_queue_ok; [done|done|fold q; lia].
  - by apply lookup_insert_eq.
  - destruct (sane_nonce _ Ht). lia.
Qed.

End insert.

(** ** [apply_block] *)

Section apply_block.
Context `{BuildProfile} `{IterationOrder}.


Lemma count_known_gas_ok self tx g :
  core_ok self -> tx_sane tx -> 0 <= g -> g + gas_limit tx < 2 ^ 64 ->
  exists g', count_known_gas self tx g = Val g' /\ g <= g' <= g + gas_limit tx.
Proof.
  intros Hc Ht Hg Hsum. pose proof (sane_gas _ Ht) as Hgas. pose proof (sane_nonce _ Ht) as Hn.
  unfold count_known_gas. destruct (account_queues self !! sender tx) as [q|] eqn:Hq.
  2: { eexists. split; [done|]. word. }
  destruct (ok_accounts _ Hc _ _ Hq) as [Hcn _ _]. rewrite Z.geb_leb.
  destruct (Z.leb_spec (confirmed_nonce q) (nonce tx)); [|eexists; split; [done|]; word].
  two63. rewrite sub_w_ok by word. simpl.
  destruct (slot_get _ _) as [[t|]|]; [rewrite add_w_ok by word|..];
    (eexists; split; [done|]; word).
Qed.

Lemma known_gas_ok self txs g :
  core_ok self -> Forall tx_sane txs -> 0 <= g -> g + total_gas txs < 2 ^ 64 ->
  exists g', for_each (count_known_gas self) txs g = Val g' /\ g <= g' <= g + total_gas txs.
Proof.
  intros Hc. revert g. induction txs as [|tx txs IH]; intros g Hts Hg Hsum; simpl in *.
  { eexists. split; [done|]. lia. }
  apply Forall_cons in Hts as [Ht Hts]. pose proof (sane_gas _ Ht) as Hgas.
  assert (0 <= total_gas txs) as Hpos.
  { clear -Hts. induction Hts as [|t ts Ht _ IH]; simpl; [lia|].
    pose proof (sane_gas _ Ht). unfold in_range in *. lia. }
  destruct (count_known_gas_ok self tx g Hc Ht Hg) as (g1 & -> & Hg1); [lia|]. simpl.
  destruct (IH g1 Hts) as (g' & -> & Hg'); [lia..|]. exists g'. split; [done|]. lia.
Qed.

Lemma remove_included_ok self tx :
  core_ok self -> tx_sane tx ->
  exists self', remove_included tx self = Val self' /\ core_ok self' /\ config self' = config self.
Proof.
  intros Hc Ht. pose proof (sane_nonce _ Ht) as Hn. unfold remove_included.
  destruct (account_queues self !! sender tx) as [q|] eqn:Hq; [|by eauto].
  pose proof (ok_accounts _ Hc _ _ Hq) as Hacc. destruct (acc_confirmed _ _ _ Hacc) as [Hcn Hcn'].
  rewrite Z.geb_leb. destruct (Z.leb_spec (confirmed_nonce q) (nonce tx)); [|by eauto].
  two63. rewrite sub_w_ok by word. simpl.
  destruct (slot_get (slots q) (nonce tx - confirmed_nonce q)) as [[t|]|] eqn:Hslot; [|by eauto..].
  rewrite (slot_set_ok _ _ _ None Hslot). simpl. eexists. split; [done|]. split; [|done].
  apply (core_ok_account (set_indexes _ _ self)).
  - apply core_ok_indexes; [done| |]; apply ord_remove_ok; try apply _; apply Hc.
  - by apply account_ok_clear.
Qed.

(** Advancing drops the slots below the new confirmed nonce. *)
Lemma advance_queue_ok cap a tx q :
  account_ok cap a q -> tx_sane tx ->
  let d := Z.max (confirmed_nonce q) (nonce tx + 1) - confirmed_nonce q in
  advance_queue tx q = Val {| confirmed_nonce := Z.max (confirmed_nonce q) (nonce tx + 1);
                              slots := drop (Z.to_nat d) (slots q) |} /\
  account_ok cap a {| confirmed_nonce := Z.max (confirmed_nonce q) (nonce tx + 1);
                      slots := drop (Z.to_nat d) (slots q) |}.
Proof.
  intros [Hcn Hl Hs] [Hn _ _ _] d. split.
  - unfold advance_queue. two63. rewrite add_w_ok by word. simpl. rewrite sub_w_ok by word. simpl.
    fold d. f_equal. f_equal. rewrite Z.gtb_ltb. destruct (Z.ltb_spec 0 d).
    + destruct (Z.ltb_spec d (Z.of_nat (length (slots q)))); [done|].
      symmetry. apply drop_ge. lia.
    + replace (Z.to_nat d) with 0%nat by lia. by rewrite drop_0.
  - split; simpl; [two63; lia|rewrite length_drop; lia|].
    intros i t. rewrite lookup_drop. intros Hi. destruct (Hs _ _ Hi) as (? & ? & ?).
    split; [done|]. split; [|done]. lia.
Qed.

Lemma advance_account_ok self tx :
  core_ok self -> tx_sane tx ->
  exists self', advance_account tx self = Val self' /\ core_ok self' /\ config self' = config self.
Proof.
  intros Hc Ht. unfold advance_account.
  destruct (account_queues self !! sender tx) as [q|] eqn:Hq; [|by eauto].
  destruct (advance_queue_ok _ _ tx q (ok_accounts _ Hc _ _ Hq) Ht) as [-> Hacc]. simpl.
  eexists. split; [done|]. split; [by apply core_ok_account|done].
Qed.

(** ** The rebuilt priority queue *)

(** The transactions of an account before the first gap and the first that
    cannot pay. *)
Fixpoint marketable_prefix (self : MempoolInner) (slots : list (option PendingTx)) : list PendingTx :=
  match slots with
  | Some tx :: slots =>
      if blocks_later self tx then [] else tx :: marketable_prefix self slots
  | _ => []
  end.

Definition tx_key (self : MempoolInner) (tx : PendingTx) : key :=
  (effective_priority_fee self tx, sender tx, nonce tx).

Lemma effective_nonneg self tx : tx_sane tx -> 0 <= effective_priority_fee self tx.
Proof. intros [_ _ Ht _]. unfold effective_priority_fee. word. Qed.

Lemma rebuild_bound self sl pq : foldl (rebuild_slot self) (true, pq) sl = (true, pq).
Proof. induction sl as [|[tx|] sl IH]; simpl; done. Qed.

Lemma rebuild_slots_prefix self sl pq :
  (forall i tx, sl !! i = Some (Some tx) -> tx_sane tx) ->
  snd (foldl (rebuild_slot self) (false, pq) sl) =
    foldl (fun pq tx => ord_insert rev_key_cmp (tx_key self tx) pq) pq (marketable_prefix self sl).
Proof.
  revert pq. induction sl as [|[tx|] sl IH]; intros pq Hs; simpl; [done| |by rewrite rebuild_bound].
  assert (tx_sane tx) as Ht by (apply (Hs 0%nat); done).
  assert (forall i t, sl !! i = Some (Some t) -> tx_sane t) as Hsl by (intros i; apply (Hs (S i))).
  pose proof (effective_nonneg self tx Ht) as Hnn. unfold blocks_later.
  destruct (max_fee_per_gas tx <? current_base_fee self); simpl; [by rewrite rebuild_bound|].
  rewrite Z.gtb_ltb. destruct (Z.ltb_spec 0 (effective_priority_fee self tx)) as [Hlt|Hle].
  - destruct (Z.eqb_spec (effective_priority_fee self tx) 0); [lia|]. simpl. by apply IH.
  - destruct (Z.eqb_spec (effective_priority_fee self tx) 0); [simpl|lia]. by rewrite rebuild_bound.
Qed.

Lemma insert_keys_spec self txs pq :
  ord_ok rev_key_cmp pq ->
  let pq' := foldl (fun pq tx => ord_insert rev_key_cmp (tx_key self tx) pq) pq txs in
  ord_ok rev_key_cmp pq' /\
  forall k, k ∈ pq' <-> k ∈ pq \/ exists tx, tx ∈ txs /\ k = tx_key self tx.
Proof.
  revert pq. induction txs as [|tx txs IH]; intros pq Hpq; simpl; [set_solver|].
  destruct (IH (ord_insert rev_key_cmp (tx_key self tx) pq)) as [Hok Hin];
    [apply ord_insert_ok; [apply _|done]|].
  split; [done|]. intros k. rewrite Hin, elem_of_ord_insert by apply _. set_solver.
Qed.

Lemma rebuild_accounts_spec self entries pq :
  (forall e, e ∈ entries -> forall i tx, slots e.2 !! i = Some (Some tx) -> tx_sane tx) ->
  ord_ok rev_key_cmp pq ->
  let pq' := foldl (rebuild_account self) pq entries in
  ord_ok rev_key_cmp pq' /\
  forall k, k ∈ pq' <-> k ∈ pq \/ exists e tx, e ∈ entries /\
    tx ∈ marketable_prefix self (slots e.2) /\ k = tx_key self tx.
Proof.
  revert pq. induction entries as [|e entries IH]; intros pq Hs Hpq; simpl.
  { split; [done|]. intros k. set_solver. }
  assert (rebuild_account self pq e =
    foldl (fun pq tx => ord_insert rev_key_cmp (tx_key self tx) pq) pq
      (marketable_prefix self (slots e.2))) as ->.
  { apply rebuild_slots_prefix. apply Hs. by left. }
  destruct (insert_keys_spec self (marketable_prefix self (slots e.2)) pq Hpq) as [Hok1 Hin1].
  destruct (IH (foldl (fun pq tx => ord_insert rev_key_cmp (tx_key self tx) pq) pq
    (marketable_prefix self (slots e.2)))) as [Hok2 Hin2]; [intros e' He'; apply Hs; by right|done|].
  split; [done|]. intros k. rewrite Hin2, Hin1. set_solver.
Qed.

(** The priority queue holds exactly the keys of the marketable prefixes. *)
Definition pq_exact (self : MempoolInner) : Prop :=
  forall k, k ∈ priority_queue self <->
    exists a q tx, account_queues self !! a = Some q /\
      tx ∈ marketable_prefix self (slots q) /\ k = tx_key self tx.

Lemma hash_entry m a q : (a, q) ∈ hash_entries m <-> m !! a = Some q.
Proof. rewrite hash_entries_perm. apply elem_of_map_to_list. Qed.

Lemma marketable_prefix_spec self sl tx :
  tx ∈ marketable_prefix self sl <->
  exists i, sl !! i = Some (Some tx) /\ blocked_before self sl (Z.of_nat i) = false /\
    blocks_later self tx = false.
Proof.
  induction sl as [|[t|] sl IH]; simpl.
  - split; [by intros ?%elem_of_nil|]. by intros (i & Hi & _).
  - destruct (blocks_later self t) eqn:Hb.
    + split; [by intros ?%elem_of_nil|]. intros ([|i] & Hi & Hbb & Hbl); simpl in *; [congruence|].
      destruct (Z.leb_spec (Z.of_nat (S i)) 0); [lia|done].
    + rewrite elem_of_cons, IH. split.
      * intros [->|(i & Hi & Hbb & Hbl)]; [by exists 0%nat|]. exists (S i). split; [done|].
        destruct (Z.leb_spec (Z.of_nat (S i)) 0); [lia|]. simpl.
        replace (Z.of_nat (S i) - 1) with (Z.of_nat i) by lia. done.
      * intros ([|i] & Hi & Hbb & Hbl); simpl in Hi; [left; congruence|right].
        exists i. destruct (Z.leb_spec (Z.of_nat (S i)) 0); [lia|]. simpl in Hbb.
        replace (Z.of_nat (S i) - 1) with (Z.of_nat i) in Hbb by lia. done.
  - split; [by intros ?%elem_of_nil|]. intros ([|i] & Hi & Hbb & _); simpl in *; [done|].
    destruct (Z.leb_spec (Z.of_nat (S i)) 0); [lia|done].
Qed.

(** Only the base fee of the state matters. *)
Lemma marketable_prefix_base self self' sl :
  current_base_fee self = current_base_fee self' ->
  marketable_prefix self sl = marketable_prefix self' sl.
Proof.
  intros Hb. induction sl as [|[tx|] sl IH]; simpl; [done| |done].
  rewrite IH. unfold blocks_later, effective_priority_fee. by rewrite Hb.
Qed.

Lemma rebuild_ok self :
  core_ok self ->
  let self' := rebuild_priority_queue self in
  mempool_ok self' /\ config self' = config self /\ pq_exact self'.
Proof.
  intros Hc self'.
  destruct (rebuild_accounts_spec self (hash_entries (account_queues self)) []) as [Hok Hin].
  { intros [a q] He%hash_entry i tx Hi. by apply (acc_slots _ _ _ (ok_accounts _ Hc _ _ He) i). }
  { apply ord_ok_nil. }
  assert (pq_exact self') as Hexact.
  { intros k. simpl. rewrite Hin. split.
    - intros [?%elem_of_nil|([a q] & tx & He%hash_entry & Htx & ->)]; [done|].
      exists a, q, tx. by rewrite (marketable_prefix_base self' self).
    - intros (a & q & tx & Hq & Htx & ->). right. exists (a, q), tx.
      rewrite (marketable_prefix_base self' self) in Htx by done.
      split; [by apply hash_entry|done]. }
  split; [|done]. split; [apply core_ok_indexes; [done|apply Hc|done]|].
  intros f a n Hk. apply Hexact in Hk as (b & q & tx & Hq & Htx & [= -> -> ->]).
  apply marketable_prefix_spec in Htx as (i & Hi & _).
  destruct (ok_accounts _ Hc _ _ Hq) as [_ _ Hs]. destruct (Hs _ _ Hi) as (<- & Hn & Hsane).
  exists q. split; [done|]. destruct (sane_nonce _ Hsane). lia.
Qed.

Lemma apply_block_ok self block :
  core_ok self -> block_sane block ->
  exists self', apply_block self block = Val self' /\ mempool_ok self' /\
    config self' = config self /\ pq_exact self'.
Proof.
  intros Hc [Hts Hgas]. unfold apply_block.
  destruct (known_gas_ok self (included_txs block) 0 Hc Hts) as (g & -> & _); [lia..|]. simpl.
  rewrite Forall_forall in Hts.
  set (I := fun s => core_ok s /\ config s = config self).
  destruct (for_each_ind remove_included I (included_txs block)
    (set_block_gas (update_private_flow self block g) (block_gas_limit block) self))
    as (s1 & -> & Hs1).
  { intros tx s Hin [Hs Hcfg]. destruct (remove_included_ok s tx Hs) as (s' & ? & ? & ?); [auto|].
    exists s'. split; [done|]. split; [done|congruence]. }
  { split; [|done]. destruct Hc. by split. }
  simpl. destruct (for_each_ind advance_account I (included_txs block) s1) as (s2 & -> & Hs2 & Hcfg2).
  { intros tx s Hin [Hs Hcfg]. destruct (advance_account_ok s tx Hs) as (s' & ? & ? & ?); [auto|].
    exists s'. split; [done|]. split; [done|congruence]. }
  { done. }
  simpl. eexists. split; [done|].
  destruct (rebuild_ok (set_base_fee (new_base_fee block) s2)) as (? & Hcfg & ?).
  { destruct Hs2. by split. }
  split; [done|]. split; [by rewrite Hcfg|done].
Qed.

End apply_block.
