(* ===== verification/MempoolProps.v ===== *)
(** * What the tracker computes

    The stored transactions as a function of account and nonce
    ([find_tx_by_addr_and_nonce]), and what [insert], [apply_block], the
    classification and [gas_ahead] do in these terms. *)

From stdpp Require Import gmap sorting.
From S2P Require Import Prelude Float64 OrdSet Mempool MempoolInv.

Section props.
Context `{BuildProfile} `{IterationOrder}.


(** ** Lookups *)

Definition find_in (q : AccountQueue) (n : Z) : option PendingTx :=
  if n >=? confirmed_nonce q then
    match slot_get (slots q) (n - confirmed_nonce q) with
    | Some (Some tx) => Some tx
    | _ => None
    end
  else None.

Lemma find_tx_eq self a n :
  find_tx_by_addr_and_nonce self a n = account_queues self !! a ≫= fun q => find_in q n.
Proof. unfold find_tx_by_addr_and_nonce. by destruct (account_queues self !! a). Qed.

Lemma find_in_Some q n tx :
  find_in q n = Some tx <->
  confirmed_nonce q <= n /\ slots q !! Z.to_nat (n - confirmed_nonce q) = Some (Some tx).
Proof.
  unfold find_in. rewrite Z.geb_leb. destruct (Z.leb_spec (confirmed_nonce q) n).
  2: { split; [done|lia]. }
  destruct (slot_get (slots q) (n - confirmed_nonce q)) as [[t|]|] eqn:Hs.
  - apply slot_get_Some in Hs as [_ Hs]. rewrite Hs. naive_solver.
  - apply slot_get_Some in Hs as [_ Hs]. rewrite Hs. naive_solver.
  - split; [done|]. intros [_ Hl].
    assert (slot_get (slots q) (n - confirmed_nonce q) = Some (Some tx)) by
      (apply slot_get_Some; split; [lia|done]). congruence.
Qed.

Lemma find_in_ext q q' n :
  (forall tx, find_in q n = Some tx <-> find_in q' n = Some tx) -> find_in q n = find_in q' n.
Proof. intros Heq. apply option_eq. exact Heq. Qed.

Lemma find_tx_spec self a n tx :
  core_ok self -> find_tx_by_addr_and_nonce self a n = Some tx ->
  exists q, account_queues self !! a = Some q /\ sender tx = a /\ nonce tx = n /\
    confirmed_nonce q <= n /\ tx_sane tx /\
    slots q !! Z.to_nat (n - confirmed_nonce q) = Some (Some tx).
Proof.
  intros Hc. rewrite find_tx_eq. destruct (account_queues self !! a) as [q|] eqn:Hq; simpl; [|done].
  intros [Hn Hs]%find_in_Some. destruct (acc_slots _ _ _ (ok_accounts _ Hc _ _ Hq) _ _ Hs)
    as (? & ? & ?).
  exists q. split; [done|]. split; [done|]. split; [lia|]. done.
Qed.

(** Clearing the slot of [n]. *)
Lemma find_in_clear q n m :
  confirmed_nonce q <= n ->
  find_in {| confirmed_nonce := confirmed_nonce q;
             slots := <[Z.to_nat (n - confirmed_nonce q) := None]> (slots q) |} m =
  if decide (m = n) then None else find_in q m.
Proof.
  intros Hn. apply option_eq. intros tx. rewrite find_in_Some. simpl.
  destruct (decide (m = n)) as [->|Hne].
  - split; [|done]. intros [_ Hl]. apply list_lookup_insert_Some in Hl as [(_ & Hl & _)|[? _]]; done.
  - rewrite find_in_Some. split; intros [Hle Hl]; (split; [done|]).
    + rewrite list_lookup_insert_ne in Hl by lia. done.
    + rewrite list_lookup_insert_ne by lia. done.
Qed.

(** Dropping the slots below a new confirmed nonce. *)
Lemma find_in_drop q c m :
  confirmed_nonce q <= c ->
  find_in {| confirmed_nonce := c; slots := drop (Z.to_nat (c - confirmed_nonce q)) (slots q) |} m =
  if decide (m < c) then None else find_in q m.
Proof.
  intros Hc. apply option_eq. intros tx. rewrite find_in_Some. simpl. rewrite lookup_drop.
  destruct (decide (m < c)); [split; [lia|done]|]. rewrite find_in_Some.
  replace (Z.to_nat (c - confirmed_nonce q) + Z.to_nat (m - c))%nat
    with (Z.to_nat (m - confirmed_nonce q)) by lia.
  split; intros [? ?]; (split; [lia|done]).
Qed.

(** Shifting the slots to a lower confirmed nonce. *)
Lemma find_in_prepend q c m :
  c <= confirmed_nonce q ->
  find_in {| confirmed_nonce := c;
             slots := replicate (Z.to_nat (confirmed_nonce q - c)) None ++ slots q |} m =
  find_in q m.
Proof.
  intros Hc. apply option_eq. intros tx. rewrite !find_in_Some. simpl. rewrite lookup_app.
  destruct (replicate (Z.to_nat (confirmed_nonce q - c)) None !! Z.to_nat (m - c)) as [o|] eqn:Hr.
  - apply lookup_replicate in Hr as [-> ?]. split; [by intros [_ [=]]|]. intros [? ?]. lia.
  - apply lookup_replicate_None in Hr. rewrite length_replicate.
    replace (Z.to_nat (m - c) - Z.to_nat (confirmed_nonce q - c))%nat
      with (Z.to_nat (m - confirmed_nonce q)) by lia.
    split; intros [? ?]; (split; [lia|done]).
Qed.

(** ** Where an insertion goes *)

(** The nonce is within the slots its account may have. *)
Definition fits (self : MempoolInner) (tx : PendingTx) : Prop :=
  let q := entry_or_insert self tx in
  let cap := per_account_capacity (config self) in
  if decide (nonce tx < confirmed_nonce q)
  then confirmed_nonce q - nonce tx + Z.of_nat (length (slots q)) <= cap
  else nonce tx - confirmed_nonce q < cap.

#[export] Instance fits_dec self tx : Decision (fits self tx).
Proof. unfold fits. case_decide; apply _. Defined.

Lemma find_tx_put self tx q a m :
  find_tx_by_addr_and_nonce (put_queue self tx q) a m =
  if decide (a = sender tx) then find_in q m else find_tx_by_addr_and_nonce self a m.
Proof.
  rewrite !find_tx_eq. simpl. destruct (decide (a = sender tx)) as [->|].
  - by rewrite lookup_insert_eq.
  - by rewrite lookup_insert_ne.
Qed.

Lemma find_in_entry self tx m :
  find_in (entry_or_insert self tx) m = find_tx_by_addr_and_nonce self (sender tx) m.
Proof.
  rewrite find_tx_eq. unfold entry_or_insert.
  destruct (account_queues self !! sender tx) as [q|]; simpl; [done|].
  apply option_eq. intros t. rewrite find_in_Some. simpl. rewrite lookup_nil. naive_solver.
Qed.

Lemma find_in_fill q q' tx m :
  confirmed_nonce q' = confirmed_nonce q -> confirmed_nonce q <= nonce tx ->
  slots q' !! Z.to_nat (nonce tx - confirmed_nonce q) = Some (Some tx) ->
  (forall i t, i <> Z.to_nat (nonce tx - confirmed_nonce q) ->
     slots q' !! i = Some (Some t) <-> slots q !! i = Some (Some t)) ->
  find_in q' m = if decide (m = nonce tx) then Some tx else find_in q m.
Proof.
  intros Hc Hle Hs Hsame. apply option_eq. intros t. rewrite find_in_Some, Hc.
  destruct (decide (m = nonce tx)) as [->|Hne].
  - rewrite Hs. split; [by intros [_ [= ->]]|]. by intros [= ->].
  - rewrite find_in_Some. split; intros [Hm Hl]; (split; [done|]).
    + apply Hsame; [lia|done].
    + apply Hsame; [lia|done].
Qed.

Lemma prepend_slots_eq self tx q :
  core_ok self -> tx_sane tx ->
  account_ok (per_account_capacity (config self)) (sender tx) q ->
  prepend_slots self tx q = Val (
    if decide (nonce tx < confirmed_nonce q) then
      if decide (confirmed_nonce q - nonce tx + Z.of_nat (length (slots q)) <=
                 per_account_capacity (config self))
      then Some {| confirmed_nonce := nonce tx;
                   slots := replicate (Z.to_nat (confirmed_nonce q - nonce tx)) None ++ slots q |}
      else None
    else Some q).
Proof.
  intros Hcore [Htn _ _ _] [Hcn Hl _]. pose proof (ok_config _ Hcore) as Hcap. unfold prepend_slots.
  destruct (Z.ltb_spec (nonce tx) (confirmed_nonce q)) as [Hlt|Hge];
    [rewrite decide_True by done|rewrite decide_False by lia; done].
  two63. rewrite sub_w_ok by word. simpl. rewrite add_w_ok by word. simpl. rewrite Z.gtb_ltb.
  destruct (Z.ltb_spec (per_account_capacity (config self))
    (confirmed_nonce q - nonce tx + Z.of_nat (length (slots q))));
    [by rewrite decide_False by lia|by rewrite decide_True by lia].
Qed.

(** The account after a successful or refused insertion. *)
Lemma account_insertion s1 tx :
  core_ok s1 -> tx_sane tx ->
  exists r q', prepend_slots s1 tx (entry_or_insert s1 tx) = Val r /\
    match r with
    | None => q' = entry_or_insert s1 tx /\ ~ fits s1 tx
    | Some q1 => exists o, fill_slot s1 tx q1 = Val o /\
        match o with
        | None => q' = q1 /\ ~ fits s1 tx
        | Some q2 => q' = q2 /\ fits s1 tx
        end
    end /\
    forall m, find_in q' m =
      if decide (fits s1 tx /\ m = nonce tx) then Some tx
      else find_tx_by_addr_and_nonce s1 (sender tx) m.
Proof.
  intros Hc Ht. destruct (entry_ok s1 tx Hc Ht) as [Hq _].
  pose proof (find_in_entry s1 tx) as Hentry. pose proof (prepend_slots_eq s1 tx _ Hc Ht Hq) as Hpre.
  destruct (prepend_ok s1 tx _ Hc Ht Hq) as (r & Hr & Hpost). rewrite Hr in Hpre.
  injection Hpre as Hr'. exists r.
  assert (fits s1 tx <-> if decide (nonce tx < confirmed_nonce (entry_or_insert s1 tx))
    then confirmed_nonce (entry_or_insert s1 tx) - nonce tx +
      Z.of_nat (length (slots (entry_or_insert s1 tx))) <= per_account_capacity (config s1)
    else nonce tx - confirmed_nonce (entry_or_insert s1 tx) < per_account_capacity (config s1))
    as Hdef by done.
  remember (entry_or_insert s1 tx) as q eqn:Eq. clear Eq.
  set (cap := per_account_capacity (config s1)) in *.
  destruct r as [q1|].
  2: { exists q. split; [done|]. destruct (decide (nonce tx < confirmed_nonce q)); [|done].
       destruct (decide (_ <= cap)); [done|]. split; [tauto|].
       intros m. rewrite decide_False by tauto. apply Hentry. }
  destruct Hpost as [Hq1 Hmin]. assert (confirmed_nonce q1 <= nonce tx) as Hle by lia.
  assert (forall m, find_in q1 m = find_tx_by_addr_and_nonce s1 (sender tx) m) as Hfind.
  { intros m. rewrite <- Hentry. destruct (decide (nonce tx < confirmed_nonce q)); [|congruence].
    destruct (decide (_ <= cap)); [|done]. injection Hr' as ->. apply find_in_prepend. lia. }
  destruct (fill_slot_ok s1 tx q1 Hc Ht Hq1 Hle) as (o & Ho & Hfill). fold cap in Hfill.
  assert (match o with None => cap <= nonce tx - confirmed_nonce q1
          | Some _ => nonce tx - confirmed_nonce q1 < cap end) as Hcap.
  { destruct o as [q2|]; [|done]. destruct Hfill as (Hq2 & _ & Hl & _).
    apply lookup_lt_Some in Hl. pose proof (acc_capacity _ _ _ Hq2) as Hlen. fold cap in Hlen. lia. }
  assert (fits s1 tx <-> o <> None) as Hfits.
  { rewrite Hdef. destruct (decide (nonce tx < confirmed_nonce q)).
    - destruct (decide (_ <= cap)); [|done]. split; [|done]. intros _ ->. lia.
    - injection Hr' as ->. destruct o; split; try done; lia. }
  exists (default q1 o). split; [done|]. split.
  - exists o. split; [done|]. destruct o; simpl; split; try done; rewrite Hfits; naive_solver.
  - intros m. destruct o as [q2|]; simpl.
    + destruct Hfill as (_ & Hcn & Hl & Hsame).
      rewrite (find_in_fill q1 q2 tx m Hcn Hle Hl Hsame), Hfind.
      destruct (decide (m = nonce tx)).
      * rewrite decide_True; [done|]. split; [by apply Hfits|done].
      * rewrite decide_False; [done|tauto].
    + rewrite decide_False; [apply Hfind|]. rewrite Hfits. tauto.
Qed.

(** [insert] once there is room: the transaction is stored and indexed if it
    fits; nothing else that is stored changes and no key is removed. *)
(** The key of a transaction in [base_fee_eligibility]. *)
Definition fee_key (tx : PendingTx) : key := (max_fee_per_gas tx, sender tx, nonce tx).

Lemma insert_placed self tx s1 :
  mempool_ok s1 -> tx_sane tx -> make_room self tx = Val (Some s1) ->
  exists self', insert self tx = Val self' /\
    (forall a m, find_tx_by_addr_and_nonce self' a m =
       if decide (fits s1 tx /\ a = sender tx /\ m = nonce tx) then Some tx
       else find_tx_by_addr_and_nonce s1 a m) /\
    (forall k, k ∈ priority_queue self' <->
       k ∈ priority_queue s1 \/ fits s1 tx /\ k = tx_key s1 tx) /\
    (forall k, k ∈ base_fee_eligibility self' <->
       k ∈ base_fee_eligibility s1 \/ fits s1 tx /\ k = fee_key tx).
Proof.
  intros [Hc _] Ht Hroom. unfold insert. rewrite Hroom. simpl.
  destruct (account_insertion s1 tx Hc Ht) as (r & q' & -> & Hcase & Hfind). simpl.
  assert (forall a m, find_tx_by_addr_and_nonce (put_queue s1 tx q') a m =
       if decide (fits s1 tx /\ a = sender tx /\ m = nonce tx) then Some tx
       else find_tx_by_addr_and_nonce s1 a m) as Hput.
  { intros a m. rewrite find_tx_put. destruct (decide (a = sender tx)) as [->|Hne].
    - rewrite Hfind. do 2 case_decide; tauto.
    - rewrite decide_False by tauto. done. }
  assert (~ fits s1 tx -> (forall k, k ∈ priority_queue s1 <->
      k ∈ priority_queue s1 \/ fits s1 tx /\ k = tx_key s1 tx) /\
    (forall k, k ∈ base_fee_eligibility s1 <->
      k ∈ base_fee_eligibility s1 \/ fits s1 tx /\ k = fee_key tx)) as Hkeys by (split; tauto).
  destruct r as [q1|]; simpl; [|destruct Hcase as [-> Hnf]; by eauto].
  destruct Hcase as ([q2|] & -> & -> & Hf); simpl; [|by eauto].
  eexists. split; [done|]. split; [exact Hput|]. split; intros k; simpl; rewrite elem_of_ord_insert by apply _.
  - change (effective_priority_fee (put_queue s1 tx q2) tx) with (effective_priority_fee s1 tx).
    unfold tx_key. tauto.
  - unfold fee_key. tauto.
Qed.

(** ** What a block removes *)

Lemma find_tx_set self a q b m :
  find_tx_by_addr_and_nonce (set_accounts (<[a := q]> (account_queues self)) self) b m =
  if decide (b = a) then find_in q m else find_tx_by_addr_and_nonce self b m.
Proof.
  rewrite !find_tx_eq. simpl. destruct (decide (b = a)) as [->|].
  - by rewrite lookup_insert_eq.
  - by rewrite lookup_insert_ne.
Qed.

Lemma remove_included_find self tx :
  core_ok self -> tx_sane tx ->
  exists self', remove_included tx self = Val self' /\ core_ok self' /\
    forall a m, find_tx_by_addr_and_nonce self' a m =
      if decide (a = sender tx /\ m = nonce tx) then None
      else find_tx_by_addr_and_nonce self a m.
Proof.
  intros Hc Ht. destruct (remove_included_ok self tx Hc Ht) as (self' & Hr & Hok & _).
  exists self'. split; [done|]. split; [done|]. intros a m.
  assert (find_tx_by_addr_and_nonce self (sender tx) (nonce tx) = None ->
    find_tx_by_addr_and_nonce self a m = if decide (a = sender tx /\ m = nonce tx) then None
      else find_tx_by_addr_and_nonce self a m) as Hnone.
  { intros Hn. by destruct (decide _) as [[-> ->]|]. }
  unfold remove_included in Hr. pose proof (find_tx_eq self (sender tx) (nonce tx)) as Hfind.
  destruct (account_queues self !! sender tx) as [q|] eqn:Hq; simpl in Hfind.
  2: { injection Hr as <-. auto. }
  destruct (ok_accounts _ Hc _ _ Hq) as [[Hcn Hcn'] _ _]. pose proof (sane_nonce _ Ht) as Hn.
  unfold find_in in Hfind. rewrite Z.geb_leb in Hr, Hfind.
  destruct (Z.leb_spec (confirmed_nonce q) (nonce tx)); [|injection Hr as <-; auto].
  two63. rewrite sub_w_ok in Hr by word. simpl in Hr.
  destruct (slot_get (slots q) (nonce tx - confirmed_nonce q)) as [[t|]|] eqn:Hs;
    [|injection Hr as <-; auto..].
  rewrite (slot_set_ok _ _ _ None Hs) in Hr. simpl in Hr. injection Hr as <-.
  match goal with |- context [set_accounts _ ?s] =>
    change (account_queues self) with (account_queues s) end.
  rewrite find_tx_set. destruct (decide (a = sender tx)) as [->|Hne].
  - rewrite find_in_clear by done. rewrite find_tx_eq, Hq. simpl.
    destruct (decide (m = nonce tx)) as [->|].
    + by rewrite decide_True.
    + by rewrite decide_False by tauto.
  - rewrite decide_False by tauto. by rewrite !find_tx_eq.
Qed.

Lemma advance_account_find self tx :
  core_ok self -> tx_sane tx ->
  exists self', advance_account tx self = Val self' /\ core_ok self' /\
    forall a m, find_tx_by_addr_and_nonce self' a m =
      if decide (a = sender tx /\ m <= nonce tx) then None
      else find_tx_by_addr_and_nonce self a m.
Proof.
  intros Hc Ht. destruct (advance_account_ok self tx Hc Ht) as (self' & Hr & Hok & _).
  exists self'. split; [done|]. split; [done|]. intros a m. unfold advance_account in Hr.
  pose proof (find_tx_eq self (sender tx) m) as Hfind.
  destruct (account_queues self !! sender tx) as [q|] eqn:Hq; simpl in Hfind.
  2: { injection Hr as <-. by destruct (decide _) as [[-> _]|]. }
  destruct (advance_queue_ok _ _ tx q (ok_accounts _ Hc _ _ Hq) Ht) as [Ha _].
  rewrite Ha in Hr. simpl in Hr. injection Hr as <-. rewrite find_tx_set.
  destruct (decide (a = sender tx)) as [->|Hne]; [|by rewrite decide_False by tauto].
  rewrite find_in_drop, Hfind by lia. destruct (decide (m <= nonce tx)).
  - rewrite decide_True by lia. by rewrite decide_True.
  - rewrite (decide_False (P := _ /\ _)) by tauto. case_decide; [|done].
    symmetry. apply eq_None_not_Some. intros [t Hf]. apply find_in_Some in Hf as [? _]. lia.
Qed.

Definition at_nonce (tx : PendingTx) (m : Z) : Prop := m = nonce tx.
Definition up_to_nonce (tx : PendingTx) (m : Z) : Prop := m <= nonce tx.
#[export] Instance at_nonce_dec tx m : Decision (at_nonce tx m).
Proof. unfold at_nonce. apply _. Defined.
#[export] Instance up_to_nonce_dec tx m : Decision (up_to_nonce tx m).
Proof. unfold up_to_nonce. apply _. Defined.

Lemma for_each_find (f : PendingTx -> MempoolInner -> run MempoolInner)
    (gone : PendingTx -> Z -> Prop) `{!forall tx m, Decision (gone tx m)} txs self :
  (forall self tx, core_ok self -> tx_sane tx ->
     exists self', f tx self = Val self' /\ core_ok self' /\
       forall a m, find_tx_by_addr_and_nonce self' a m =
         if decide (a = sender tx /\ gone tx m) then None else find_tx_by_addr_and_nonce self a m) ->
  core_ok self -> Forall tx_sane txs ->
  exists self', for_each f txs self = Val self' /\ core_ok self' /\
    forall a m, find_tx_by_addr_and_nonce self' a m =
      if decide (Exists (fun tx => a = sender tx /\ gone tx m) txs) then None
      else find_tx_by_addr_and_nonce self a m.
Proof.
  intros Hf. revert self. induction txs as [|tx txs IH]; intros self Hc Hts; cbn [for_each].
  { exists self. split; [done|]. split; [done|]. intros a m.
    rewrite decide_False; [done|]. intros He. inversion He. }
  apply Forall_cons in Hts as [Ht Hts]. destruct (Hf self tx Hc Ht) as (s1 & -> & Hc1 & F1). simpl.
  destruct (IH s1 Hc1 Hts) as (s2 & -> & Hc2 & F2). exists s2. split; [done|]. split; [done|].
  intros a m. rewrite F2, F1.
  destruct (decide (Exists _ txs)), (decide (a = sender tx /\ gone tx m));
    destruct (decide (Exists _ (tx :: txs))) as [He|He]; try done;
    rewrite Exists_cons in He; tauto.
Qed.

Lemma apply_block_find self block :
  core_ok self -> block_sane block ->
  exists self', apply_block self block = Val self' /\
    current_base_fee self' = new_base_fee block /\
    forall a m, find_tx_by_addr_and_nonce self' a m =
      if decide (Exists (fun tx => a = sender tx /\ up_to_nonce tx m) (included_txs block)) then None
      else find_tx_by_addr_and_nonce self a m.
Proof.
  intros Hc [Hts Hgas]. unfold apply_block.
  destruct (known_gas_ok self (included_txs block) 0 Hc Hts) as (g & -> & _); [lia..|]. simpl.
  set (s0 := set_block_gas _ _ self). assert (core_ok s0) as Hc0 by (destruct Hc; by split).
  destruct (for_each_find remove_included at_nonce (included_txs block) s0)
    as (s1 & Hr1 & Hc1 & F1); [apply remove_included_find|done|done|].
  destruct (for_each_find advance_account up_to_nonce (included_txs block) s1)
    as (s2 & Hr2 & Hc2 & F2); [apply advance_account_find|done|done|].
  rewrite Hr1. simpl. rewrite Hr2. simpl. eexists. split; [done|]. split; [done|].
  intros a m. trans (find_tx_by_addr_and_nonce s2 a m); [by rewrite !find_tx_eq|].
  rewrite F2, F1. destruct (decide (Exists _ (included_txs block))) as [|Hle]; [done|].
  rewrite decide_False; [by rewrite !find_tx_eq|]. intros He. apply Hle.
  eapply Exists_impl; [exact He|]. simpl. intros tx [-> ->]. by split; [|unfold up_to_nonce].
Qed.

(** ** The classification in terms of the stored transactions *)

(** It pays the base fee and leaves a tip. *)
Definition can_pay (self : MempoolInner) (tx : PendingTx) : Prop :=
  current_base_fee self < max_fee_per_gas tx /\ 0 < max_priority_fee_per_gas tx.

#[export] Instance can_pay_dec self tx : Decision (can_pay self tx).
Proof. unfold can_pay. apply _. Defined.

(** Every nonce of the account from its confirmed one up to [n] is stored and
    can pay. *)
Definition unblocked (self : MempoolInner) (a n : Z) : Prop :=
  exists q, account_queues self !! a = Some q /\
    forall m, confirmed_nonce q <= m < n ->
      exists t, find_tx_by_addr_and_nonce self a m = Some t /\ can_pay self t.

Lemma blocks_later_spec self tx :
  tx_sane tx -> blocks_later self tx = bool_decide (~ can_pay self tx).
Proof.
  intros [_ Hm Ht _]. unfold blocks_later, can_pay, effective_priority_fee.
  apply Bool.eq_iff_eq_true. rewrite Bool.orb_true_iff, Z.ltb_lt, Z.eqb_eq, bool_decide_eq_true.
  word.
Qed.

Lemma blocked_before_spec self sl n :
  blocked_before self sl (Z.of_nat n) = false <->
  forall i, (i < n)%nat -> exists t, sl !! i = Some (Some t) /\ blocks_later self t = false.
Proof.
  revert n. induction sl as [|[t|] sl IH]; intros n; simpl; destruct (Z.leb_spec (Z.of_nat n) 0) as [Hn|Hn];
    try (split; [intros _ i Hi; lia|done]).
  - split; [done|]. intros Hall. destruct (Hall 0%nat) as (t & Ht & _); [lia|done].
  - rewrite Bool.orb_false_iff. destruct n as [|n]; [lia|].
    replace (Z.of_nat (S n) - 1) with (Z.of_nat n) by lia. rewrite IH. split.
    + intros [Hb Hall] [|i] Hi; simpl; [by exists t|apply Hall; lia].
    + intros Hall. split; [by destruct (Hall 0%nat) as (t' & [= ->] & ?); [lia|]|].
      intros i Hi. apply (Hall (S i)). lia.
  - split; [done|]. intros Hall. destruct (Hall 0%nat) as (t & Ht & _); [lia|done].
Qed.

Lemma blocked_unblocked self a n q tx :
  core_ok self -> account_queues self !! a = Some q ->
  find_tx_by_addr_and_nonce self a n = Some tx ->
  blocked_before self (slots q) (n - confirmed_nonce q) = false <-> unblocked self a n.
Proof.
  intros Hc Hq Hf. destruct (find_tx_spec self a n tx Hc Hf) as (q' & Hq' & _ & _ & Hle & _ & _).
  replace q' with q in * by congruence. clear q' Hq'.
  replace (n - confirmed_nonce q) with (Z.of_nat (Z.to_nat (n - confirmed_nonce q))) by lia.
  rewrite blocked_before_spec. pose proof (acc_slots _ _ _ (ok_accounts _ Hc _ _ Hq)) as Hs.
  split.
  - intros Hall. exists q. split; [done|]. intros m Hm.
    destruct (Hall (Z.to_nat (m - confirmed_nonce q))) as (t & Ht & Hb); [lia|].
    exists t. rewrite find_tx_eq, Hq. simpl. split; [apply find_in_Some; split; [lia|done]|].
    destruct (Hs _ _ Ht) as (_ & _ & Hsane). rewrite blocks_later_spec in Hb by done.
    apply bool_decide_eq_false in Hb. by destruct (decide (can_pay self t)).
  - intros (q' & Hq' & Hall) i Hi. replace q' with q in * by congruence.
    destruct (Hall (confirmed_nonce q + Z.of_nat i)) as (t & Ht & Hp); [lia|].
    rewrite find_tx_eq, Hq in Ht. simpl in Ht. apply find_in_Some in Ht as [_ Ht].
    replace (Z.to_nat (confirmed_nonce q + Z.of_nat i - confirmed_nonce q)) with i in Ht by lia.
    exists t. split; [done|]. destruct (Hs _ _ Ht) as (_ & _ & Hsane).
    rewrite blocks_later_spec by done. apply bool_decide_eq_false. tauto.
Qed.

Lemma classify_stored self a n tx :
  core_ok self -> find_tx_by_addr_and_nonce self a n = Some tx ->
  exists c, classify_transaction self tx = Val c /\
    (c <> NonceBound <-> unblocked self a n) /\
    (c = BaseFeeInvalid <-> unblocked self a n /\ max_fee_per_gas tx < current_base_fee self) /\
    (c = Unmarketable <-> unblocked self a n /\
       current_base_fee self <= max_fee_per_gas tx /\ ~ can_pay self tx) /\
    (c = Marketable <-> unblocked self a n /\ can_pay self tx).
Proof.
  intros Hc Hf. destruct (find_tx_spec self a n tx Hc Hf) as (q & Hq & Hsd & Hn & Hle & Ht & Hl).
  pose proof (blocked_unblocked self a n q tx Hc Hq Hf) as Hblocked.
  destruct (ok_accounts _ Hc _ _ Hq) as [[Hcn Hcn'] _ _]. pose proof (sane_nonce _ Ht) as Hnr.
  unfold classify_transaction. rewrite Hsd, Hq, Hn. two63. rewrite sub_w_ok by word. simpl.
  eexists. split; [done|]. destruct (blocked_before self (slots q) (n - confirmed_nonce q)).
  - assert (~ unblocked self a n) as Hnu by by intros Hu%Hblocked.
    split; [|split; [|split]]; split; try done; intros Hu; exfalso; tauto.
  - assert (unblocked self a n) as Hu by by apply Hblocked.
    pose proof (blocks_later_spec self tx Ht) as Hb. unfold blocks_later in Hb.
    destruct (Z.ltb_spec (max_fee_per_gas tx) (current_base_fee self)) as [Hlt|Hge]; simpl in Hb.
    + symmetry in Hb. apply bool_decide_eq_true in Hb.
      split; [|split; [|split]]; split; try done; intros; try tauto. lia.
    + destruct (effective_priority_fee self tx =? 0); symmetry in Hb;
        [apply bool_decide_eq_true in Hb|apply bool_decide_eq_false in Hb];
        (split; [|split; [|split]]; split; try done; intros; try tauto; try lia).
      split; [done|]. by destruct (decide (can_pay self tx)).
Qed.

(** ** [gas_ahead] *)

(** The gas of the stored transaction of a key. *)
Definition key_gas (self : MempoolInner) (k : key) : Z :=
  let '(_, a, n) := k in
  match find_tx_by_addr_and_nonce self a n with Some tx => gas_limit tx | None => 0 end.

Definition sum_gas (self : MempoolInner) (ks : list key) : Z := foldr (fun k s => key_gas self k + s) 0 ks.

Lemma key_gas_range self k : core_ok self -> in_range u64 (key_gas self k).
Proof.
  intros Hc. destruct k as [[f a] n]. simpl.
  destruct (find_tx_by_addr_and_nonce self a n) as [tx|] eqn:Hf; [|by vm_compute].
  destruct (find_tx_spec self a n tx Hc Hf) as (_ & _ & _ & _ & _ & Ht & _). apply Ht.
Qed.

Lemma sum_gas_nonneg self ks : core_ok self -> 0 <= sum_gas self ks.
Proof.
  intros Hc. induction ks as [|k ks IH]; simpl; [lia|].
  pose proof (key_gas_range self k Hc). unfold in_range in *. lia.
Qed.

Lemma sum_gas_filter self (P : key -> Prop) `{!forall k, Decision (P k)} ks :
  core_ok self -> sum_gas self (filter P ks) <= sum_gas self ks.
Proof.
  intros Hc. induction ks as [|k ks IH]; [done|]. pose proof (key_gas_range self k Hc) as Hk.
  destruct (decide (P k)).
  - rewrite filter_cons_True by done. simpl. lia.
  - rewrite filter_cons_False by done. simpl. unfold in_range in Hk. lia.
Qed.

Lemma add_gas_loop self ks g :
  core_ok self -> 0 <= g -> g + sum_gas self ks < 2 ^ 64 ->
  for_each (fun '(_, addr, n) gas_ahead =>
     match find_tx_by_addr_and_nonce self addr n with
     | Some tx_ahead => add_w u64 gas_ahead (gas_limit tx_ahead)
     | None => Val gas_ahead
     end) ks g = Val (g + sum_gas self ks).
Proof.
  intros Hc. revert g. induction ks as [|[[f a] n] ks IH]; intros g Hg Hsum; simpl in *.
  { f_equal. lia. }
  pose proof (key_gas_range self (f, a, n) Hc) as Hk. simpl in Hk.
  pose proof (sum_gas_nonneg self ks Hc).
  destruct (find_tx_by_addr_and_nonce self a n) as [tx|].
  - rewrite add_w_ok by word. simpl. rewrite IH; [f_equal; lia|word|lia].
  - simpl. rewrite IH; [done|lia|lia].
Qed.

(** Searching by identifier finds a stored transaction. *)
Lemma find_tx_by_id_stored self i tx :
  core_ok self -> find_tx_by_id self i = Some tx ->
  find_tx_by_addr_and_nonce self (sender tx) (nonce tx) = Some tx.
Proof.
  intros Hc Hf. assert (tx ∈ all_txs self) as Hin.
  { unfold find_tx_by_id in Hf. apply head_Some_elem_of, list_elem_of_filter in Hf as [_ Hf]. done. }
  unfold all_txs in Hin. apply list_elem_of_omap in Hin as (slot & Hin & ->).
  apply list_elem_of_bind in Hin as ([a q] & Hin & He%hash_entry). simpl in Hin.
  apply list_elem_of_lookup in Hin as [j Hj].
  destruct (acc_slots _ _ _ (ok_accounts _ Hc _ _ He) _ _ Hj) as (<- & Hn & _).
  rewrite find_tx_eq, He. simpl. apply find_in_Some. split; [lia|].
  replace (Z.to_nat (nonce tx - confirmed_nonce q)) with j by lia. done.
Qed.

Lemma classify_found self i tx :
  core_ok self -> find_tx_by_id self i = Some tx -> exists c, classify_transaction self tx = Val c.
Proof.
  intros Hc Hf. destruct (classify_stored self _ _ tx Hc (find_tx_by_id_stored self i tx Hc Hf))
    as (c & Hcl & _). by exists c.
Qed.

(** The sum over the keys that come first. *)
Lemma gas_ahead_eq self i tx c :
  core_ok self -> sum_gas self (priority_queue self) < 2 ^ 64 ->
  find_tx_by_id self i = Some tx -> classify_transaction self tx = Val c ->
  gas_ahead self i = Val (
    if decide (c = Marketable) then
      Some (sum_gas self
        (filter (fun k => key_lt rev_key_cmp k (tx_key self tx)) (priority_queue self)))
    else None).
Proof.
  intros Hc Hsum Hf Hcl. unfold gas_ahead. rewrite Hf, Hcl. simpl.
  destruct (decide (c = Marketable)); [|done].
  rewrite (ord_range_to_filter rev_key_cmp) by apply Hc. fold (tx_key self tx).
  pose proof (sum_gas_filter self (fun k => key_lt rev_key_cmp k (tx_key self tx))
    (priority_queue self) Hc).
  by rewrite add_gas_loop by (done || lia).
Qed.

Lemma estimated_blocks_run self i :
  core_ok self -> sum_gas self (priority_queue self) < 2 ^ 64 ->
  exists blocks, estimated_blocks_to_confirm self i = Val blocks.
Proof.
  intros Hc Hsum. unfold estimated_blocks_to_confirm.
  destruct (find_tx_by_id self i) as [tx|] eqn:Hf; [|eauto].
  destruct (classify_found self i tx Hc Hf) as [c Hcl].
  rewrite (gas_ahead_eq self i tx c Hc Hsum Hf Hcl). simpl. case_decide; simpl; eauto.
Qed.

(** ** The eviction *)

(** An exact priority queue holds the keys of the stored transactions that
    [classify_transaction] calls marketable. *)
Lemma exact_marketable self f a n :
  core_ok self -> pq_exact self ->
  (f, a, n) ∈ priority_queue self <->
    exists tx, find_tx_by_addr_and_nonce self a n = Some tx /\
      classify_transaction self tx = Val Marketable /\ f = effective_priority_fee self tx.
Proof.
  intros Hc Hex. rewrite (Hex (f, a, n)). split.
  - intros (b & q & tx & Hq & Htx & [= -> -> ->]).
    apply marketable_prefix_spec in Htx as (i & Hi & Hbb & Hbl).
    destruct (acc_slots _ _ _ (ok_accounts _ Hc _ _ Hq) _ _ Hi) as (Hs & Hn & Ht). exists tx.
    assert (find_tx_by_addr_and_nonce self (sender tx) (nonce tx) = Some tx) as Hf.
    { rewrite find_tx_eq, Hs, Hq. simpl. apply find_in_Some. split; [lia|].
      replace (Z.to_nat (nonce tx - confirmed_nonce q)) with i by lia. done. }
    split; [done|]. split; [|done].
    destruct (classify_stored self _ _ tx Hc Hf) as (c & -> & _ & _ & _ & Hm).
    f_equal. apply Hm. split.
    + rewrite <- Hs in Hq. apply (blocked_unblocked self _ _ q tx Hc Hq Hf).
      by replace (nonce tx - confirmed_nonce q) with (Z.of_nat i) by lia.
    + rewrite blocks_later_spec in Hbl by done. apply bool_decide_eq_false in Hbl.
      by destruct (decide (can_pay self tx)).
  - intros (tx & Hf & Hcl & ->).
    destruct (find_tx_spec self a n tx Hc Hf) as (q & Hq & <- & <- & Hle & Ht & Hl).
    exists (sender tx), q, tx. split; [done|]. split; [|done].
    destruct (classify_stored self _ _ tx Hc Hf) as (c & Hc2 & _ & _ & _ & Hm).
    replace c with Marketable in Hm by congruence. destruct (proj1 Hm eq_refl) as [Hu Hp].
    apply marketable_prefix_spec. exists (Z.to_nat (nonce tx - confirmed_nonce q)).
    split; [done|]. split; [|rewrite blocks_later_spec by done; apply bool_decide_eq_false; tauto].
    apply (blocked_unblocked self _ _ q tx Hc Hq Hf) in Hu.
    by replace (Z.of_nat (Z.to_nat (nonce tx - confirmed_nonce q)))
      with (nonce tx - confirmed_nonce q) by lia.
Qed.

Lemma pop_worst_effect self w a n rest :
  mempool_ok self -> priority_queue self = (w, a, n) :: rest ->
  exists s1, pop_worst self = Val (Some s1) /\ mempool_ok s1 /\ priority_queue s1 = rest /\
    current_base_fee s1 = current_base_fee self /\
    forall b m, find_tx_by_addr_and_nonce s1 b m =
      if decide (b = a /\ m = n) then None else find_tx_by_addr_and_nonce self b m.
Proof.
  intros Hok Hpq. destruct (pop_worst_ok self Hok) as (r & Hr & Hpost).
  destruct r as [s1|]; [|by rewrite Hpq in Hpost]. destruct Hpost as (Hok1 & _ & Hfee).
  exists s1. split; [done|]. split; [done|]. destruct Hok as [Hc Hk].
  destruct (Hk w a n) as (q & Hq & Hn); [rewrite Hpq; by left|].
  destruct (ok_accounts _ Hc _ _ Hq) as [[Hcn Hcn'] _ _].
  unfold pop_worst in Hr. rewrite Hpq in Hr. simpl in Hr. rewrite Hq in Hr.
  two63. rewrite sub_w_ok in Hr by word. simpl in Hr.
  assert (find_in q n = None -> forall b m, find_tx_by_addr_and_nonce self b m =
      if decide (b = a /\ m = n) then None else find_tx_by_addr_and_nonce self b m) as Hnone.
  { intros Hf b m. destruct (decide _) as [[-> ->]|]; [|done]. by rewrite find_tx_eq, Hq. }
  unfold find_in in Hnone. rewrite Z.geb_leb in Hnone.
  destruct (Z.leb_spec (confirmed_nonce q) n); [|lia].
  destruct (slot_get (slots q) (n - confirmed_nonce q)) as [[t|]|] eqn:Hs.
  2,3: injection Hr as <-; (split; [done|]; split; [done|]);
       intros b m; rewrite <- Hnone by done; by rewrite !find_tx_eq.
  rewrite (slot_set_ok _ _ _ None Hs) in Hr. simpl in Hr. injection Hr as <-.
  split; [done|]. split; [done|]. intros b m. rewrite !find_tx_eq. simpl.
  destruct (decide (b = a)) as [->|Hne].
  - rewrite lookup_insert_eq, Hq. simpl. rewrite find_in_clear by done.
    destruct (decide (m = n)) as [->|]; [by rewrite decide_True|by rewrite decide_False by tauto].
  - rewrite lookup_insert_ne by done. by rewrite decide_False by tauto.
Qed.

End props.
