(* ===== verification/MempoolSpec.v ===== *)
(** * The properties of the tracker

    The theorems about [insert], [apply_block], the event loop and the
    queries of the handle, for every order in which a hash map may be
    visited, and their instances on a small mempool. *)

From stdpp Require Import gmap sorting.
From S2P Require Import Prelude Float64 OrdSet Mempool MempoolInv MempoolProps.

Section properties.
Context `{BuildProfile}.

Lemma from_channel_ok cfg initial :
  config_sane cfg -> Forall tx_sane initial ->
  exists self, from_channel initial cfg = Val self /\ mempool_ok self /\ config self = cfg.
Proof.
  intros Hcfg Hinit. rewrite Forall_forall in Hinit.
  destruct (for_each_ind (fun tx self => insert self tx)
    (fun s => mempool_ok s /\ config s = cfg) initial (empty_inner cfg)) as (s1 & Hs1 & Hok1).
  - intros tx s Hin [Hs Hc]. destruct (insert_ok s tx Hs) as (s' & ? & ? & ?); [auto|].
    exists s'. split; [done|]. split; [done|congruence].
  - split; [|done]. split; [split; simpl|]; try apply ord_ok_nil; [done| |].
    + intros a q. by rewrite lookup_empty.
    + intros f a n. simpl. by intros ?%elem_of_nil.
  - exists s1. by split.
Qed.

Lemma tracker_events_ok `{IterationOrder} events self :
  mempool_ok self -> Forall event_sane events ->
  exists self', tracker_run events self = Val self' /\ mempool_ok self' /\ config self' = config self.
Proof.
  intros Hok Hev. rewrite Forall_forall in Hev.
  destruct (for_each_ind handle_event (fun s => mempool_ok s /\ config s = config self) events self)
    as (s2 & Hs2 & Hok2 & Hc2); [|done|].
  { intros [tx|block] s Hin [Hs Hc]; simpl.
    - destruct (insert_ok s tx Hs) as (s' & ? & ? & ?); [by apply (Hev (PendingTransaction tx))|].
      exists s'. split; [done|]. split; [done|congruence].
    - destruct (apply_block_ok s block (proj1 Hs)) as (s' & ? & ? & ? & _);
        [by apply (Hev (NewBlock block))|].
      exists s'. split; [done|]. split; [done|congruence]. }
  unfold tracker_run. by exists s2.
Qed.

(** C11: from any initial transactions and through any events the tracker
    never panics and stays well formed: no account exceeds its capacity,
    every slot holds the transaction of its account and nonce, the indexes
    are ordered sets, and no key of the priority queue lies below the
    confirmed nonce of its account. *)
Theorem tracker_run_ok `{IterationOrder} cfg initial events :
  config_sane cfg -> Forall tx_sane initial -> Forall event_sane events ->
  exists self, (start ← from_channel initial cfg; tracker_run events start) = Val self /\
    mempool_ok self /\ config self = cfg.
Proof.
  intros Hcfg Hinit Hev. destruct (from_channel_ok cfg initial Hcfg Hinit) as (s1 & -> & Hok1 & <-).
  by apply tracker_events_ok.
Qed.

(** C12: after a block the priority queue holds exactly the keys of the
    stored transactions that [classify_transaction] calls marketable, with
    their effective fees at the new base fee. *)
Theorem apply_block_marketable `{IterationOrder} self block :
  mempool_ok self -> block_sane block ->
  exists self', apply_block self block = Val self' /\
    current_base_fee self' = new_base_fee block /\
    (forall f a n, (f, a, n) ∈ priority_queue self' <->
       exists tx, find_tx_by_addr_and_nonce self' a n = Some tx /\
         classify_transaction self' tx = Val Marketable /\ f = effective_priority_fee self' tx).
Proof.
  intros [Hc _] Hb. destruct (apply_block_ok self block Hc Hb) as (self' & Hr & [Hc' _] & _ & Hex).
  destruct (apply_block_find self block Hc Hb) as (s' & Hr' & Hfee & _).
  replace s' with self' in * by congruence.
  exists self'. split; [done|]. split; [done|]. intros f a n. by apply exact_marketable.
Qed.

(** The order of the hash map is irrelevant to a block and to any events. *)
Lemma apply_block_order (o1 o2 : IterationOrder) self block :
  mempool_ok self -> block_sane block ->
  @apply_block _ o1 self block = @apply_block _ o2 self block.
Proof.
  intros [Hc _] [Hts Hgas]. unfold apply_block.
  destruct (known_gas_ok self (included_txs block) 0 Hc Hts) as (g & -> & _); [lia..|]. simpl.
  set (s0 := set_block_gas _ _ self). assert (core_ok s0) as Hc0 by (destruct Hc; by split).
  destruct (for_each_find remove_included at_nonce (included_txs block) s0)
    as (s1 & Hr1 & Hc1 & _); [apply remove_included_find|done|done|].
  destruct (for_each_find advance_account up_to_nonce (included_txs block) s1)
    as (s2 & Hr2 & Hc2 & _); [apply advance_account_find|done|done|].
  rewrite Hr1. simpl. rewrite Hr2. simpl. f_equal.
  assert (core_ok (set_base_fee (new_base_fee block) s2)) as Hc3 by (destruct Hc2; by split).
  destruct (@rebuild_ok o1 _ Hc3) as ([Hok1 _] & _ & Hex1).
  destruct (@rebuild_ok o2 _ Hc3) as ([Hok2 _] & _ & Hex2).
  unfold rebuild_priority_queue at 1 2. f_equal.
  apply (ord_ext rev_key_cmp); [apply (ok_pq _ Hok1)|apply (ok_pq _ Hok2)|].
  intros k. etransitivity; [apply (Hex1 k)|]. symmetry. etransitivity; [apply (Hex2 k)|].
  split; intros (a & q & tx & Hq & Htx & ->); exists a, q, tx; (split; [done|]; split; [|done]);
    rewrite (marketable_prefix_base _ (set_base_fee (new_base_fee block) s2)) in Htx by done;
    by rewrite (marketable_prefix_base _ (set_base_fee (new_base_fee block) s2)).
Qed.

Lemma tracker_run_order (o1 o2 : IterationOrder) events self :
  mempool_ok self -> Forall event_sane events ->
  @tracker_run _ o1 events self = @tracker_run _ o2 events self.
Proof.
  intros Hok Hev. revert self Hok. induction Hev as [|event events He _ IH]; intros self Hok; [done|].
  unfold tracker_run in *. simpl.
  assert (@handle_event _ o1 event self = @handle_event _ o2 event self) as ->
    by (destruct event; [done|by apply apply_block_order]).
  destruct (@tracker_events_ok o2 [event] self Hok) as (s & Hs & Hok' & _); [by repeat constructor|].
  unfold tracker_run in Hs. simpl in Hs.
  destruct (@handle_event _ o2 event self) as [s'|]; [|done]. injection Hs as ->. by apply IH.
Qed.

(** The state after a block does not depend on the order in which the
    hash map of accounts is visited. *)
Theorem apply_block_any_order (o1 o2 : IterationOrder) self block :
  mempool_ok self -> block_sane block ->
  @apply_block _ o1 self block = @apply_block _ o2 self block.
Proof. apply apply_block_order. Qed.

(** C31: a block removes from each account exactly the nonces up to the
    highest one it includes, whether the tracker knew the transaction or not,
    and keeps every other stored transaction. *)
Theorem apply_block_removes `{IterationOrder} self block :
  mempool_ok self -> block_sane block ->
  exists self', apply_block self block = Val self' /\
    forall a m tx, find_tx_by_addr_and_nonce self' a m = Some tx <->
      find_tx_by_addr_and_nonce self a m = Some tx /\
      forall t, t ∈ included_txs block -> sender t = a -> nonce t < m.
Proof.
  intros [Hc _] Hb. destruct (apply_block_find self block Hc Hb) as (self' & Hr & _ & Hfind).
  exists self'. split; [done|]. intros a m tx. rewrite Hfind.
  destruct (decide (Exists _ _)) as [He|He].
  - split; [done|]. intros [_ Hall]. apply Exists_exists in He as (t & Hin & -> & Hle).
    specialize (Hall t Hin eq_refl). unfold up_to_nonce in Hle. lia.
  - split; [|by intros [? _]]. intros Hf. split; [done|]. intros t Hin <-.
    destruct (decide (m <= nonce t)) as [Hle|]; [|lia].
    destruct He. apply Exists_exists. by exists t.
Qed.

(** C13: below the global capacity an insertion stores and indexes the
    transaction in both indexes exactly when its nonce fits the slots of its
    account, leaves every other stored transaction alone, and removes no key
    from either index: replacing a transaction leaves the keys of the old one,
    and the index that the capacity counts grows by one unless it held the
    very key. *)
Theorem insert_below_capacity self tx :
  mempool_ok self -> tx_sane tx ->
  Z.of_nat (length (base_fee_eligibility self)) < global_capacity (config self) ->
  exists self', insert self tx = Val self' /\
    (forall a m, find_tx_by_addr_and_nonce self' a m =
       if decide (fits self tx /\ a = sender tx /\ m = nonce tx) then Some tx
       else find_tx_by_addr_and_nonce self a m) /\
    (forall k, k ∈ priority_queue self' <->
       k ∈ priority_queue self \/ fits self tx /\ k = tx_key self tx) /\
    (forall k, k ∈ base_fee_eligibility self' <->
       k ∈ base_fee_eligibility self \/ fits self tx /\ k = fee_key tx) /\
    length (base_fee_eligibility self') =
      (length (base_fee_eligibility self) +
       if decide (fits self tx /\ fee_key tx ∉ base_fee_eligibility self) then 1 else 0)%nat.
Proof.
  intros Hok Ht Hcap. destruct (insert_placed self tx self Hok Ht) as (self' & Hins & Hstored & Hkeys & Helig).
  { unfold make_room. destruct (Z.leb_spec (global_capacity (config self))
      (Z.of_nat (length (base_fee_eligibility self)))); [lia|done]. }
  exists self'. split; [done|]. split; [done|]. split; [done|]. split; [done|].
  destruct (insert_ok self tx Hok Ht) as (self2 & Hins2 & Hok2 & _).
  assert (self2 = self') as -> by congruence.
  apply (length_one_more (fits self tx)); [|  |done];
    (apply (ord_ok_nodup key_cmp), ok_elig; first [apply Hok | apply Hok2]).
Qed.

(** C14: at the global capacity the key the code calls the worst is the best
    one, with the highest effective fee of the queue: a transaction that does
    not beat it is refused, and one that does takes the place of that best
    transaction, which is removed. *)
Theorem eviction_takes_best self tx w a n rest :
  mempool_ok self -> tx_sane tx ->
  global_capacity (config self) <= Z.of_nat (length (base_fee_eligibility self)) ->
  priority_queue self = (w, a, n) :: rest ->
  (forall f b m, (f, b, m) ∈ priority_queue self -> f <= w) /\
  (effective_priority_fee self tx <= w -> insert self tx = Val self) /\
  (w < effective_priority_fee self tx ->
   exists self', insert self tx = Val self' /\ ~ (w, a, n) ∈ priority_queue self' /\
     (forall k, k ∈ rest -> k ∈ priority_queue self') /\
     (a <> sender tx \/ n <> nonce tx -> find_tx_by_addr_and_nonce self' a n = None)).
Proof.
  intros Hok Ht Hcap Hpq. pose proof (ok_pq _ (proj1 Hok)) as Hsorted. rewrite Hpq in Hsorted.
  apply (ord_ok_cons rev_key_cmp) in Hsorted as [Hrest Hlt].
  assert (make_room self tx = if effective_priority_fee self tx <=? w then Val None
    else pop_worst self) as Hroom.
  { unfold make_room. rewrite Hpq. simpl. destruct (Z.leb_spec (global_capacity (config self))
      (Z.of_nat (length (base_fee_eligibility self)))); [done|lia]. }
  split; [|split].
  - intros f b m. rewrite Hpq. intros [[= -> -> ->]|Hin]%elem_of_cons; [lia|].
    specialize (Hlt _ Hin). unfold key_lt, rev_key_cmp in Hlt. apply lex_lt in Hlt. lia.
  - intros Hle. unfold insert. rewrite Hroom.
    by destruct (Z.leb_spec (effective_priority_fee self tx) w); [|lia].
  - intros Hgt. destruct (pop_worst_effect self w a n rest Hok Hpq)
      as (s1 & Hpop & Hok1 & Hpq1 & Hfee & Hfind).
    destruct (insert_placed self tx s1 Hok1 Ht) as (self' & Hins & Hstored & Hkeys & _).
    { rewrite Hroom. destruct (Z.leb_spec (effective_priority_fee self tx) w); [lia|done]. }
    exists self'. split; [done|]. split; [|split].
    + rewrite Hkeys, Hpq1. unfold tx_key, effective_priority_fee. rewrite Hfee.
      fold (effective_priority_fee self tx). intros [Hin|[_ [= Heq _ _]]]; [|lia].
      by apply (key_lt_irrefl rev_key_cmp (w, a, n)), Hlt.
    + intros k Hk. apply Hkeys. left. by rewrite Hpq1.
    + intros Hne. rewrite Hstored, Hfind, (decide_False (P := fits s1 tx /\ _)) by naive_solver.
      by rewrite decide_True.
Qed.

(** a stored transaction is nonce-bound exactly when a nonce between the
    confirmed one and its own is missing or cannot pay the base fee and a
    tip; otherwise its own fees decide. *)
Theorem classification_spec self a n tx :
  mempool_ok self -> find_tx_by_addr_and_nonce self a n = Some tx ->
  exists c, classify_transaction self tx = Val c /\
    (c <> NonceBound <-> unblocked self a n) /\
    (c = BaseFeeInvalid <-> unblocked self a n /\ max_fee_per_gas tx < current_base_fee self) /\
    (c = Unmarketable <-> unblocked self a n /\
       current_base_fee self <= max_fee_per_gas tx /\ ~ can_pay self tx) /\
    (c = Marketable <-> unblocked self a n /\ can_pay self tx).
Proof. intros [Hc _] Hf. by apply classify_stored. Qed.

(** [gas_ahead] of a marketable transaction is the total gas limit of the
    stored transactions whose keys come before its own, and [None] for an
    unknown or unmarketable one; the sum does not overflow when the gas of
    the whole queue fits in a u64. *)
Theorem gas_ahead_spec `{IterationOrder} self tx_id :
  mempool_ok self -> sum_gas self (priority_queue self) < 2 ^ 64 ->
  match find_tx_by_id self tx_id with
  | None => gas_ahead self tx_id = Val None
  | Some tx => forall c, classify_transaction self tx = Val c ->
      gas_ahead self tx_id = Val (
        if decide (c = Marketable) then
          Some (sum_gas self
            (filter (fun k => key_lt rev_key_cmp k (tx_key self tx)) (priority_queue self)))
        else None)
  end.
Proof.
  intros [Hc _] Hsum. destruct (find_tx_by_id self tx_id) as [tx|] eqn:Hf.
  - intros c Hcl. by apply gas_ahead_eq.
  - unfold gas_ahead. by rewrite Hf.
Qed.

End properties.

Section witnesses.
#[local] Instance ci_checks : BuildProfile := true.
#[local] Instance list_order : IterationOrder :=
  {| hash_entries := map_to_list; hash_entries_perm := fun m => Permutation_refl _ |}.

Definition demo_config : TrackerConfig :=
  {| initial_base_fee := 10; global_capacity := 3; per_account_capacity := 4;
     private_flow_prior := f64_of_Z 0 |}.

(** Two accounts; the second transaction of account 1 cannot pay a tip. *)
Definition tx_a0 := MkPendingTx 100 1 0 50 5 21000.
Definition tx_a1 := MkPendingTx 101 1 1 10 5 21000.
Definition tx_b7 := MkPendingTx 102 2 7 40 3 90000.
Definition tx_c0 := MkPendingTx 103 3 0 90 9 21000.
Definition demo_txs : list PendingTx := [tx_a0; tx_a1; tx_b7].

Definition demo_block : BlockUpdate :=
  {| included_txs := [tx_a0]; new_base_fee := 8; gas_used := 30000; block_gas_limit := 100000 |}.

Lemma demo_config_sane : config_sane demo_config.
Proof. split; [simpl; lia|by vm_compute]. Qed.

Lemma demo_txs_sane : Forall tx_sane demo_txs.
Proof. repeat constructor; by vm_compute. Qed.

Lemma tx_c0_sane : tx_sane tx_c0.
Proof. constructor; by vm_compute. Qed.

Lemma demo_block_sane : block_sane demo_block.
Proof. split; [repeat constructor; by vm_compute|by vm_compute]. Qed.

Definition demo_pool : MempoolInner :=
  match from_channel demo_txs demo_config with Val s => s | Panic _ => empty_inner demo_config end.

Lemma demo_pool_ok : mempool_ok demo_pool.
Proof.
  destruct (from_channel_ok demo_config demo_txs demo_config_sane demo_txs_sane) as (s & Hs & Hok & _).
  unfold demo_pool. by rewrite Hs.
Qed.

Example demo_queue : priority_queue demo_pool = [(5, 1, 0); (3, 2, 7); (0, 1, 1)].
Proof. vm_compute. reflexivity. Qed.

Lemma tracker_run_ok_witness :
  exists self, (start ← from_channel demo_txs demo_config;
    tracker_run [NewBlock demo_block; PendingTransaction tx_c0] start) = Val self /\ mempool_ok self.
Proof.
  destruct (tracker_run_ok demo_config demo_txs [NewBlock demo_block; PendingTransaction tx_c0])
    as (self & H1 & H2 & _).
  - exact demo_config_sane.
  - exact demo_txs_sane.
  - constructor; [exact demo_block_sane|]. constructor; [exact tx_c0_sane|constructor].
  - exists self. split; [exact H1|exact H2].
Defined.

Lemma apply_block_marketable_witness :
  exists self', apply_block demo_pool demo_block = Val self' /\
    ((2, 1, 1) ∈ priority_queue self' -> exists tx,
      find_tx_by_addr_and_nonce self' 1 1 = Some tx /\
      classify_transaction self' tx = Val Marketable /\ 2 = effective_priority_fee self' tx).
Proof.
  destruct (apply_block_marketable demo_pool demo_block demo_pool_ok demo_block_sane)
    as (self' & H1 & _ & H2).
  exists self'. split; [exact H1|]. intros Hin. exact (proj1 (H2 2 1 1) Hin).
Defined.

#[local] Instance reversed_order : IterationOrder :=
  {| hash_entries := fun m => rev (map_to_list m);
     hash_entries_perm := fun m => Permutation_sym (Permutation_rev (map_to_list m)) |}.

Lemma apply_block_any_order_witness :
  @apply_block _ list_order demo_pool demo_block = @apply_block _ reversed_order demo_pool demo_block.
Proof. exact (apply_block_any_order _ _ demo_pool demo_block demo_pool_ok demo_block_sane). Defined.

Lemma apply_block_removes_witness :
  exists self', @apply_block _ list_order demo_pool demo_block = Val self' /\
    (find_tx_by_addr_and_nonce self' 1 1 = Some tx_a1 <->
      find_tx_by_addr_and_nonce demo_pool 1 1 = Some tx_a1 /\
      forall t, t ∈ included_txs demo_block -> sender t = 1 -> nonce t < 1).
Proof.
  destruct (@apply_block_removes _ list_order demo_pool demo_block demo_pool_ok demo_block_sane)
    as (self' & H1 & H2).
  exists self'. split; [exact H1|exact (H2 1 1 tx_a1)].
Defined.

Definition small_pool : MempoolInner :=
  match from_channel [tx_a0; tx_b7] demo_config with Val s => s | Panic _ => empty_inner demo_config end.

Lemma small_pool_ok : mempool_ok small_pool.
Proof.
  destruct (from_channel_ok demo_config [tx_a0; tx_b7] demo_config_sane) as (s & Hs & Hok & _).
  - repeat constructor; by vm_compute.
  - unfold small_pool. by rewrite Hs.
Qed.

(** A replacement of [tx_a0] leaves its key in the queue. *)
Definition tx_a0' := MkPendingTx 104 1 0 60 7 21000.

Lemma insert_below_capacity_witness :
  exists self', insert small_pool tx_a0' = Val self' /\
    ((5, 1, 0) ∈ priority_queue self' <->
     (5, 1, 0) ∈ priority_queue small_pool \/
     fits small_pool tx_a0' /\ (5, 1, 0) = tx_key small_pool tx_a0') /\
    length (base_fee_eligibility self') = 3%nat.
Proof.
  destruct (insert_below_capacity small_pool tx_a0' small_pool_ok) as (self' & H1 & _ & H2 & _ & H3).
  - constructor; by vm_compute.
  - by vm_compute.
  - exists self'. split; [exact H1|]. split; [exact (H2 (5, 1, 0))|].
    rewrite H3. by vm_compute.
Defined.

Lemma eviction_takes_best_witness :
  exists self', insert demo_pool tx_c0 = Val self' /\
    find_tx_by_addr_and_nonce self' 1 0 = None.
Proof.
  destruct (eviction_takes_best demo_pool tx_c0 5 1 0 [(3, 2, 7); (0, 1, 1)] demo_pool_ok tx_c0_sane)
    as (_ & _ & H).
  - by vm_compute.
  - by vm_compute.
  - destruct H as (self' & H1 & _ & _ & H2); [by vm_compute|].
    exists self'. split; [exact H1|]. apply H2. left. discriminate.
Defined.

Lemma classification_spec_witness :
  exists c, classify_transaction demo_pool tx_a1 = Val c /\
    (c = Marketable <-> unblocked demo_pool 1 1 /\ can_pay demo_pool tx_a1).
Proof.
  destruct (classification_spec demo_pool 1 1 tx_a1 demo_pool_ok) as (c & H1 & _ & _ & _ & H2).
  - by vm_compute.
  - exists c. split; [exact H1|exact H2].
Defined.

Lemma gas_ahead_spec_witness : @gas_ahead _ list_order demo_pool 102 = Val (Some 21000).
Proof.
  assert (sum_gas demo_pool (priority_queue demo_pool) < 2 ^ 64) as Hsum by (vm_compute; reflexivity).
  pose proof (@gas_ahead_spec _ list_order demo_pool 102 demo_pool_ok Hsum) as H.
  assert (@find_tx_by_id list_order demo_pool 102 = Some tx_b7) as Hf by (vm_compute; reflexivity).
  rewrite Hf in H. rewrite (H Marketable); [|vm_compute; reflexivity].
  vm_compute. reflexivity.
Defined.
End witnesses.
