(* ===== verification/MempoolRefine.v ===== *)
(** * The tracker refines a specification on finite maps

    [Spec] is the mempool without its representation: the stored transactions
    by account and nonce, the window of nonces each account has slots for, the
    two indexes as sets.  [spec_event] says what an event does to it, with no
    loop over slots, no vector and no order of a hash map; [represents]
    relates a state of the code to it, and [handle_event] and the queries of
    the handle are shown to follow the specification on every branch. *)

From stdpp Require Import gmap sorting.
From S2P Require Import Prelude Float64 OrdSet Mempool MempoolInv MempoolProps MempoolSpec.

(** ** The specification *)

Record Spec := MkSpec {
  pool : gmap (Z * Z) PendingTx;     (* by account and nonce *)
  window : gmap Z (Z * Z);           (* the nonces from .. up to .. of an account *)
  eligible : gset key;
  queue : gset key;
  sp_config : TrackerConfig;
  sp_base_fee : Z;
  sp_ratio : f64;
  sp_limit : Z;
}.

Definition spec_initial (config : TrackerConfig) : Spec := {|
  pool := ∅; window := ∅; eligible := ∅; queue := ∅;
  sp_config := config;
  sp_base_fee := initial_base_fee config;
  sp_ratio := private_flow_prior config;
  sp_limit := 30000000;
|}.

(** The tip a transaction pays at the current base fee. *)
Definition sp_fee (s : Spec) (tx : PendingTx) : Z :=
  Z.min (max_priority_fee_per_gas tx) (Z.max 0 (max_fee_per_gas tx - sp_base_fee s)).

Definition elig_key (tx : PendingTx) : key := (max_fee_per_gas tx, sender tx, nonce tx).
Definition queue_key (s : Spec) (tx : PendingTx) : key := (sp_fee s tx, sender tx, nonce tx).

(** *** Insertion *)

Definition best (s : Spec) (k : key) : Prop :=
  k ∈ queue s /\ forall k', k' ∈ queue s -> k' = k \/ key_lt rev_key_cmp k k'.

Definition full (s : Spec) : Prop := global_capacity (sp_config s) <= Z.of_nat (size (eligible s)).

Definition sp_evict (k : key) (s : Spec) : Spec :=
  let '(_, a, n) := k in
  {| pool := delete (a, n) (pool s); window := window s;
     eligible := match pool s !! (a, n) with
                 | Some tx => eligible s ∖ {[(max_fee_per_gas tx, a, n)]}
                 | None => eligible s
                 end;
     queue := queue s ∖ {[k]};
     sp_config := sp_config s; sp_base_fee := sp_base_fee s; sp_ratio := sp_ratio s;
     sp_limit := sp_limit s |}.

Definition window_of (s : Spec) (tx : PendingTx) : Z * Z :=
  default (nonce tx, nonce tx) (window s !! sender tx).

(** The window of the account may be extended to the nonce. *)
Definition sp_fits (s : Spec) (tx : PendingTx) : bool :=
  let '(lo, hi) := window_of s tx in
  let cap := per_account_capacity (sp_config s) in
  if nonce tx <? lo then hi - nonce tx <=? cap else nonce tx - lo <? cap.

Definition sp_place (tx : PendingTx) (s : Spec) : Spec :=
  let '(lo, hi) := window_of s tx in
  let w := if sp_fits s tx then (Z.min lo (nonce tx), Z.max hi (nonce tx + 1)) else (lo, hi) in
  {| pool := if sp_fits s tx then <[(sender tx, nonce tx) := tx]> (pool s) else pool s;
     window := <[sender tx := w]> (window s);
     eligible := if sp_fits s tx then {[elig_key tx]} ∪ eligible s else eligible s;
     queue := if sp_fits s tx then {[queue_key s tx]} ∪ queue s else queue s;
     sp_config := sp_config s; sp_base_fee := sp_base_fee s; sp_ratio := sp_ratio s;
     sp_limit := sp_limit s |}.

(** *** A block *)

(** The stored transactions at the places of the included ones. *)
Definition known (s : Spec) (txs : list PendingTx) : list PendingTx :=
  omap (fun tx => pool s !! (sender tx, nonce tx)) txs.

Definition known_gas (s : Spec) (txs : list PendingTx) : Z :=
  foldr (fun tx g => match pool s !! (sender tx, nonce tx) with Some _ => gas_limit tx | None => 0 end + g) 0 txs.

Definition sp_flow (s : Spec) (block : BlockUpdate) : f64 :=
  if block_gas_limit block >? 0 then
    let private_gas := Z.max 0 (gas_used block - known_gas s (included_txs block)) in
    let observed := f64_div (f64_of_Z private_gas) (f64_of_Z (block_gas_limit block)) in
    f64_add (f64_mul f64_tenth observed) (f64_mul (f64_sub f64_one f64_tenth) (sp_ratio s))
  else sp_ratio s.

(** Included at this nonce or a later one of the account. *)
Definition gone (txs : list PendingTx) (an : Z * Z) : Prop :=
  Exists (fun tx => an.1 = sender tx /\ an.2 <= nonce tx) txs.

(** The first nonce after the included ones of the account. *)
Definition next_nonce (txs : list PendingTx) (a lo : Z) : Z :=
  foldr (fun tx n => if decide (sender tx = a) then Z.max (nonce tx + 1) n else n) lo txs.

Definition pays (s : Spec) (tx : PendingTx) : bool :=
  (sp_base_fee s <? max_fee_per_gas tx) && (0 <? max_priority_fee_per_gas tx).

(** All nonces of the account before [n] are stored and pay. *)
Definition sp_unblocked (s : Spec) (a n : Z) : bool :=
  match window s !! a with
  | None => false
  | Some (lo, _) =>
      forallb (fun m => match pool s !! (a, m) with Some t => pays s t | None => false end)
        (seqZ lo (n - lo))
  end.

Definition sp_classify (s : Spec) (tx : PendingTx) : TxClassification :=
  if negb (sp_unblocked s (sender tx) (nonce tx)) then NonceBound
  else if max_fee_per_gas tx <? sp_base_fee s then BaseFeeInvalid
  else if negb (pays s tx) then Unmarketable
  else Marketable.

Definition marketable_keys (s : Spec) : gset key :=
  list_to_set (queue_key s <$> filter (fun tx => sp_classify s tx = Marketable)
    (map_to_list (pool s)).*2).

Definition set_queue (q : gset key) (s : Spec) : Spec :=
  {| pool := pool s; window := window s; eligible := eligible s; queue := q;
     sp_config := sp_config s; sp_base_fee := sp_base_fee s; sp_ratio := sp_ratio s;
     sp_limit := sp_limit s |}.

Definition sp_confirm (block : BlockUpdate) (s : Spec) : Spec :=
  let txs := included_txs block in
  {| pool := filter (fun x => ~ gone txs x.1) (pool s);
     window := map_imap (fun a '(lo, hi) =>
       Some (next_nonce txs a lo, Z.max hi (next_nonce txs a lo))) (window s);
     eligible := eligible s ∖ list_to_set (elig_key <$> known s txs);
     queue := ∅;
     sp_config := sp_config s; sp_base_fee := new_base_fee block; sp_ratio := sp_flow s block;
     sp_limit := block_gas_limit block |}.

Definition sp_block (block : BlockUpdate) (s : Spec) : Spec :=
  set_queue (marketable_keys (sp_confirm block s)) (sp_confirm block s).

Inductive spec_event : Spec -> MempoolEvent -> Spec -> Prop :=
  | spec_place s tx :
      ~ full s -> spec_event s (PendingTransaction tx) (sp_place tx s)
  | spec_refuse s tx k :
      full s -> best s k -> sp_fee s tx <= k.1.1 -> spec_event s (PendingTransaction tx) s
  | spec_no_victim s tx :
      full s -> queue s = ∅ -> spec_event s (PendingTransaction tx) s
  | spec_evict s tx k :
      full s -> best s k -> k.1.1 < sp_fee s tx ->
      spec_event s (PendingTransaction tx) (sp_place tx (sp_evict k s))
  | spec_block s block :
      spec_event s (NewBlock block) (sp_block block s).

Inductive spec_run : Spec -> list MempoolEvent -> Spec -> Prop :=
  | spec_done s : spec_run s [] s
  | spec_next s e s1 es s2 : spec_event s e s1 -> spec_run s1 es s2 -> spec_run s (e :: es) s2.

(** ** The representation *)

Record represents (self : MempoolInner) (s : Spec) : Prop := {
  rep_pool : forall a n, pool s !! (a, n) = find_tx_by_addr_and_nonce self a n;
  rep_window : forall a, window s !! a =
    (fun q => (confirmed_nonce q, confirmed_nonce q + Z.of_nat (length (slots q))))
      <$> account_queues self !! a;
  rep_eligible : forall k, k ∈ eligible s <-> k ∈ base_fee_eligibility self;
  rep_queue : forall k, k ∈ queue s <-> k ∈ priority_queue self;
  rep_config : sp_config s = config self;
  rep_base_fee : sp_base_fee s = current_base_fee self;
  rep_ratio : sp_ratio s = private_flow_ratio self;
  rep_limit : sp_limit s = last_block_gas_limit self;
}.

(** The specification has one outcome per event. *)
Lemma best_unique s k k' : best s k -> best s k' -> k = k'.
Proof.
  intros [Hk Hlt] [Hk' Hlt']. destruct (Hlt _ Hk') as [|H1]; [done|].
  destruct (Hlt' _ Hk) as [|H2]; [done|].
  exfalso. apply (key_lt_irrefl rev_key_cmp k). exact (key_lt_trans rev_key_cmp _ _ _ H1 H2).
Qed.

Lemma spec_event_deterministic s e s1 s2 : spec_event s e s1 -> spec_event s e s2 -> s1 = s2.
Proof.
  assert (forall k, best s k -> queue s <> ∅) as Hne by (intros k [Hk _]; set_solver).
  intros H1 H2. inversion H1; subst; inversion H2; subst; try done; try (exfalso; by eauto).
  - pose proof (best_unique _ _ _ H0 H6) as <-. lia.
  - by destruct (Hne k).
  - pose proof (best_unique _ _ _ H0 H6) as <-. lia.
  - by destruct (Hne k).
  - by pose proof (best_unique _ _ _ H0 H6) as <-.
Qed.

Lemma spec_run_app s1 es1 s2 es2 s3 :
  spec_run s1 es1 s2 -> spec_run s2 es2 s3 -> spec_run s1 (es1 ++ es2) s3.
Proof. induction 1; simpl; [done|]. intros ?. econstructor; eauto. Qed.

(** ** Insertion *)

Section insertion.
Context `{BuildProfile}.

Lemma represents_fee self s tx :
  represents self s -> sp_fee s tx = effective_priority_fee self tx.
Proof. intros Hr. unfold sp_fee, effective_priority_fee, saturating_sub. by rewrite (rep_base_fee _ _ Hr). Qed.

Lemma represents_full self s :
  core_ok self -> represents self s ->
  size (eligible s) = length (base_fee_eligibility self).
Proof.
  intros Hc Hr. pose proof (ord_ok_nodup key_cmp _ (ok_elig _ Hc)) as Hnd.
  rewrite <- (size_list_to_set (C := gset key) (base_fee_eligibility self)) by done. f_equal.
  apply set_eq. intros k. by rewrite elem_of_list_to_set, (rep_eligible _ _ Hr).
Qed.

Lemma represents_best self s k rest :
  core_ok self -> represents self s -> priority_queue self = k :: rest -> best s k.
Proof.
  intros Hc Hr Hpq. pose proof (ok_pq _ Hc) as Hsorted. rewrite Hpq in Hsorted.
  apply (ord_ok_cons rev_key_cmp) in Hsorted as [_ Hlt]. split.
  - apply (rep_queue _ _ Hr). rewrite Hpq. by left.
  - intros k'. rewrite (rep_queue _ _ Hr), Hpq, elem_of_cons. intros [->|Hk]; [by left|]. right. by apply Hlt.
Qed.

(** The eviction takes the best key and its transaction. *)
Lemma evict_refines self s k rest :
  mempool_ok self -> represents self s -> priority_queue self = k :: rest ->
  exists s1, pop_worst self = Val (Some s1) /\ mempool_ok s1 /\ represents s1 (sp_evict k s).
Proof.
  intros Hok Hr Hpq. destruct k as [[w a] n].
  destruct (pop_worst_effect self w a n rest Hok Hpq) as (s1 & Hpop & Hok1 & Hpq1 & Hfee & Hfind).
  exists s1. split; [done|]. split; [done|].
  pose proof (ok_pq _ (proj1 Hok)) as Hsorted. rewrite Hpq in Hsorted.
  apply (ord_ok_cons rev_key_cmp) in Hsorted as [_ Hlt].
  assert ((w, a, n) ∉ rest) as Hni by (intros Hin%Hlt; by apply (key_lt_irrefl rev_key_cmp (w, a, n))).
  destruct (proj2 Hok w a n) as (q & Hq & Hn); [rewrite Hpq; by left|].
  assert (pool s !! (a, n) = find_in q n) as Hpool.
  { by rewrite (rep_pool _ _ Hr), find_tx_eq, Hq. }
  unfold pop_worst in Hpop. rewrite Hpq in Hpop. simpl in Hpop. rewrite Hq in Hpop.
  destruct (ok_accounts _ (proj1 Hok) _ _ Hq) as [[Hcn Hcn'] _ _].
  two63. rewrite sub_w_ok in Hpop by word. simpl in Hpop.
  unfold find_in in Hpool. rewrite Z.geb_leb in Hpool.
  destruct (Z.leb_spec (confirmed_nonce q) n); [|lia].
  assert (forall b m, delete (a, n) (pool s) !! (b, m) = find_tx_by_addr_and_nonce s1 b m) as Hp.
  { intros b m. rewrite Hfind. destruct (decide (b = a /\ m = n)) as [[-> ->]|Hne].
    - apply lookup_delete_eq.
    - rewrite lookup_delete_ne by naive_solver. apply (rep_pool _ _ Hr). }
  assert (forall k, k ∈ queue s ∖ {[(w, a, n)]} <-> k ∈ priority_queue s1) as Hqueue.
  { intros k. rewrite elem_of_difference, elem_of_singleton, (rep_queue _ _ Hr), Hpq, Hpq1, elem_of_cons.
    naive_solver. }
  destruct (slot_get (slots q) (n - confirmed_nonce q)) as [[t|]|] eqn:Hs.
  2,3: injection Hpop as <-; destruct Hr; split; simpl in *; rewrite ?Hpool; done.
  rewrite (slot_set_ok _ _ _ None Hs) in Hpop. simpl in Hpop. injection Hpop as <-.
  destruct Hr as [R1 R2 R3 R4 R5 R6 R7 R8]. split; simpl in *; rewrite ?Hpool; try done.
  - intros b. rewrite R2. destruct (decide (a = b)) as [<-|]; [|by rewrite lookup_insert_ne].
    rewrite lookup_insert_eq, Hq. simpl. by rewrite length_insert.
  - intros k. rewrite elem_of_difference, elem_of_singleton, R3.
    rewrite (elem_of_ord_remove key_cmp) by apply Hok. tauto.
Qed.

(** The end of the window of an account. *)
Definition slots_end (q : AccountQueue) : Z := confirmed_nonce q + Z.of_nat (length (slots q)).

Lemma fill_slot_window self tx q q2 :
  core_ok self -> tx_sane tx -> account_ok (per_account_capacity (config self)) (sender tx) q ->
  confirmed_nonce q <= nonce tx -> fill_slot self tx q = Val (Some q2) ->
  confirmed_nonce q2 = confirmed_nonce q /\ slots_end q2 = Z.max (slots_end q) (nonce tx + 1).
Proof.
  intros Hc [Htn _ _ _] [Hcn Hl _] Hle. pose proof (ok_config _ Hc) as Hcap. two63.
  unfold fill_slot. rewrite sub_w_ok by word. simpl. rewrite !Z.geb_leb.
  destruct (Z.leb_spec (per_account_capacity (config self)) (nonce tx - confirmed_nonce q)); [done|].
  destruct (Z.leb_spec (Z.of_nat (length (slots q))) (nonce tx - confirmed_nonce q)).
  - rewrite add_w_ok by word. simpl. unfold slot_set. rewrite slot_resize_length.
    case_match; [|done]. intros [= <-]. unfold slots_end. simpl.
    rewrite length_insert, slot_resize_length. split; [done|lia].
  - simpl. unfold slot_set. case_match; [|done]. intros [= <-]. unfold slots_end. simpl.
    rewrite length_insert. split; [done|lia].
Qed.

(** What [insert] does once there is room. *)
Lemma insert_placed_eq self tx s1 :
  mempool_ok s1 -> tx_sane tx -> make_room self tx = Val (Some s1) ->
  let e := entry_or_insert s1 tx in
  exists q', insert self tx = Val (if decide (fits s1 tx) then index_tx (put_queue s1 tx q') tx
                                   else put_queue s1 tx q') /\
    (confirmed_nonce q', slots_end q') =
      (if decide (fits s1 tx)
       then (Z.min (confirmed_nonce e) (nonce tx), Z.max (slots_end e) (nonce tx + 1))
       else (confirmed_nonce e, slots_end e)) /\
    forall m, find_in q' m = if decide (fits s1 tx /\ m = nonce tx) then Some tx
      else find_tx_by_addr_and_nonce s1 (sender tx) m.
Proof.
  intros [Hc _] Ht Hroom e. unfold insert. rewrite Hroom. simpl. fold e.
  destruct (entry_ok s1 tx Hc Ht) as [He _]. fold e in He.
  pose proof (prepend_slots_eq s1 tx e Hc Ht He) as Hpre.
  destruct (account_insertion s1 tx Hc Ht) as (r & q' & Hr & Hcase & Hfind). fold e in Hr, Hcase.
  rewrite Hr. simpl. exists q'. assert (fits s1 tx <-> if decide (nonce tx < confirmed_nonce e)
    then confirmed_nonce e - nonce tx + Z.of_nat (length (slots e)) <= per_account_capacity (config s1)
    else nonce tx - confirmed_nonce e < per_account_capacity (config s1)) as Hfits by done.
  destruct r as [q1|].
  2: { destruct Hcase as [-> Hnf]. by rewrite !decide_False by done. }
  destruct (prepend_ok s1 tx e Hc Ht He) as (r & Hr' & Hpost). rewrite Hr in Hr'. injection Hr' as <-.
  destruct Hpost as [Hq1 Hmin]. rewrite Hr in Hpre.
  assert (slots_end q1 = slots_end e) as Hend.
  { unfold slots_end. destruct (decide (nonce tx < confirmed_nonce e)); [|by injection Hpre as ->].
    destruct (decide (_ <= _)); [|done]. injection Hpre as ->. simpl.
    rewrite length_app, length_replicate. lia. }
  destruct Hcase as ([q2|] & Ho & -> & Hf); rewrite Ho; simpl.
  - rewrite !(decide_True (P := fits s1 tx)) by done. split; [done|]. split; [|done].
    destruct (fill_slot_window s1 tx q1 q2 Hc Ht Hq1 ltac:(lia) Ho) as [-> ->]. f_equal; lia.
  - rewrite !(decide_False (P := fits s1 tx)) by done. split; [|split; [|done]].
    + destruct (decide (nonce tx < confirmed_nonce e)); [|by injection Hpre as ->].
      destruct (decide (_ <= _)); [|done]. by destruct Hf; apply Hfits.
    + rewrite Hend. f_equal. rewrite Hmin.
      destruct (decide (nonce tx < confirmed_nonce e)); [|lia].
      destruct (decide (_ <= _)); [|done]. by destruct Hf; apply Hfits.
Qed.

Lemma represents_window self s tx :
  represents self s ->
  window_of s tx = (confirmed_nonce (entry_or_insert self tx), slots_end (entry_or_insert self tx)).
Proof.
  intros Hr. unfold window_of, entry_or_insert. rewrite (rep_window _ _ Hr).
  destruct (account_queues self !! sender tx) as [q|]; simpl; [done|].
  unfold slots_end. simpl. f_equal. lia.
Qed.

Lemma represents_fits self s tx :
  represents self s -> sp_fits s tx = bool_decide (fits self tx).
Proof.
  intros Hr. unfold sp_fits, fits. rewrite (represents_window _ _ _ Hr), (rep_config _ _ Hr).
  unfold slots_end. apply Bool.eq_iff_eq_true. rewrite bool_decide_eq_true.
  destruct (Z.ltb_spec (nonce tx) (confirmed_nonce (entry_or_insert self tx)));
    [rewrite decide_True by done|rewrite decide_False by lia]; lia.
Qed.

Lemma place_refines self tx s1 sp1 :
  mempool_ok s1 -> tx_sane tx -> make_room self tx = Val (Some s1) -> represents s1 sp1 ->
  exists self', insert self tx = Val self' /\ represents self' (sp_place tx sp1).
Proof.
  intros Hok Ht Hroom Hr. pose proof (represents_window _ _ tx Hr) as Hw.
  destruct (insert_placed_eq self tx s1 Hok Ht Hroom) as (q' & Hins & Hwin & Hfind).
  pose proof (represents_fee _ _ tx Hr) as Hfee.
  eexists. split; [exact Hins|]. unfold sp_place. rewrite Hw, (represents_fits _ _ _ Hr).
  assert (forall self', account_queues self' = account_queues (put_queue s1 tx q') ->
    forall a n, (if bool_decide (fits s1 tx) then <[(sender tx, nonce tx) := tx]> (pool sp1) else pool sp1)
      !! (a, n) = find_tx_by_addr_and_nonce self' a n) as Hpool.
  { intros self' Ha a n. rewrite find_tx_eq, Ha, <- find_tx_eq, find_tx_put.
    pose proof (rep_pool _ _ Hr) as Hp. case_bool_decide as Hf.
    - destruct (decide ((a, n) = (sender tx, nonce tx))) as [[= -> ->]|Hne].
      + by rewrite lookup_insert_eq, decide_True, Hfind, decide_True.
      + rewrite lookup_insert_ne, Hp by done. destruct (decide (a = sender tx)) as [->|]; [|done].
        rewrite Hfind, decide_False; [done|]. intros [_ ->]. done.
    - rewrite Hp. destruct (decide (a = sender tx)) as [->|]; [|done].
      rewrite Hfind, decide_False; [done|]. by intros [? _]. }
  assert (forall a, <[sender tx := (confirmed_nonce q', slots_end q')]> (window sp1) !! a =
      (fun q => (confirmed_nonce q, slots_end q)) <$> <[sender tx := q']> (account_queues s1) !! a)
    as Hwindow.
  { intros a. destruct (decide (sender tx = a)) as [<-|].
    - by rewrite !lookup_insert_eq.
    - rewrite !lookup_insert_ne by done. apply (rep_window _ _ Hr). }
  destruct Hr as [R1 R2 R3 R4 R5 R6 R7 R8].
  case_bool_decide as Hf; [rewrite decide_True in Hwin by done|rewrite decide_False in Hwin by done];
    [rewrite decide_True by done|rewrite decide_False by done]; rewrite <- Hwin;
    (split; simpl; try done; try by apply Hpool).
  - intros k. rewrite elem_of_union, elem_of_singleton, R3. by rewrite elem_of_ord_insert by apply _.
  - intros k. rewrite elem_of_union, elem_of_singleton, R4. rewrite elem_of_ord_insert by apply _.
    unfold queue_key. rewrite Hfee.
    by change (effective_priority_fee (put_queue s1 tx q') tx) with (effective_priority_fee s1 tx).
Qed.

Lemma insert_refines self s tx :
  mempool_ok self -> tx_sane tx -> represents self s ->
  exists self' s', insert self tx = Val self' /\ spec_event s (PendingTransaction tx) s' /\
    represents self' s'.
Proof.
  intros Hok Ht Hr. pose proof (represents_fee _ _ tx Hr) as Hfee.
  pose proof (represents_full _ _ (proj1 Hok) Hr) as Hsize.
  assert (full s <-> global_capacity (config self) <= Z.of_nat (length (base_fee_eligibility self)))
    as Hfull by (unfold full; by rewrite Hsize, (rep_config _ _ Hr)).
  unfold insert at 1. destruct (Z.leb_spec (global_capacity (config self))
    (Z.of_nat (length (base_fee_eligibility self)))) as [Hcap|Hcap].
  2: { destruct (place_refines self tx self s) as (self' & Hins & Hr'); [done..| |done|].
       { unfold make_room. by destruct (Z.leb_spec (global_capacity (config self))
           (Z.of_nat (length (base_fee_eligibility self)))); [lia|]. }
       exists self', (sp_place tx s). split; [exact Hins|]. split; [|done]. apply spec_place. rewrite Hfull. lia. }
  assert (make_room self tx = match ord_first (priority_queue self) with
    | Some (worst_fee, _, _) =>
        if effective_priority_fee self tx <=? worst_fee then Val None else pop_worst self
    | None => pop_worst self end) as Hroom.
  { unfold make_room. by destruct (Z.leb_spec (global_capacity (config self))
      (Z.of_nat (length (base_fee_eligibility self)))); [|lia]. }
  destruct (priority_queue self) as [|[[w a] n] rest] eqn:Hpq.
  - assert (pop_worst self = Val None) as Hpop by (unfold pop_worst; by rewrite Hpq).
    simpl in Hroom. rewrite Hroom, Hpop. simpl. exists self, s. split; [done|]. split; [|done].
    apply spec_no_victim; [by apply Hfull|]. apply set_eq. intros k.
    by rewrite (rep_queue _ _ Hr), Hpq, elem_of_nil, elem_of_empty.
  - pose proof (represents_best _ _ _ _ (proj1 Hok) Hr Hpq) as Hbest. simpl in Hroom.
    destruct (Z.leb_spec (effective_priority_fee self tx) w) as [Hle|Hgt].
    + rewrite Hroom. simpl. exists self, s. split; [done|]. split; [|done].
      eapply spec_refuse; [by apply Hfull|done|]. simpl. lia.
    + destruct (evict_refines self s _ _ Hok Hr Hpq) as (s1 & Hpop & Hok1 & Hr1).
      destruct (place_refines self tx s1 (sp_evict (w, a, n) s) Hok1 Ht) as (self' & Hins & Hr');
        [congruence|exact Hr1|].
      exists self', (sp_place tx (sp_evict (w, a, n) s)). split; [exact Hins|]. split; [|done].
      eapply spec_evict; [by apply Hfull|done|]. simpl. lia.
Qed.

End insertion.

(** ** A block *)

Section block.
Context `{BuildProfile}.

Lemma count_refines self s tx g :
  core_ok self -> represents self s -> tx_sane tx -> 0 <= g -> g + gas_limit tx < 2 ^ 64 ->
  count_known_gas self tx g =
    Val (match pool s !! (sender tx, nonce tx) with Some _ => gas_limit tx | None => 0 end + g).
Proof.
  intros Hc Hr [Hn _ _ Hgas] Hg Hsum. rewrite (rep_pool _ _ Hr), find_tx_eq. unfold count_known_gas.
  destruct (account_queues self !! sender tx) as [q|] eqn:Hq; simpl; [|done].
  destruct (ok_accounts _ Hc _ _ Hq) as [Hcn _ _]. unfold find_in. rewrite !Z.geb_leb.
  destruct (Z.leb_spec (confirmed_nonce q) (nonce tx)); [|done].
  two63. rewrite sub_w_ok by word. simpl.
  destruct (slot_get (slots q) (nonce tx - confirmed_nonce q)) as [[t|]|]; [|done..].
  rewrite add_w_ok by word. f_equal. lia.
Qed.

Lemma known_gas_refines self s txs g :
  core_ok self -> represents self s -> Forall tx_sane txs -> 0 <= g -> g + total_gas txs < 2 ^ 64 ->
  for_each (count_known_gas self) txs g = Val (known_gas s txs + g).
Proof.
  intros Hc Hr. revert g. induction txs as [|tx txs IH]; intros g Hts Hg Hsum; simpl in *; [done|].
  apply Forall_cons in Hts as [Ht Hts]. pose proof (sane_gas _ Ht) as Hgas.
  assert (0 <= total_gas txs) as Hpos.
  { clear - Hts. induction Hts as [|t ts [_ _ _ Ht] _ IH]; simpl; unfold in_range in *; lia. }
  rewrite (count_refines self s) by (done || lia). simpl.
  rewrite IH; [f_equal; lia|done|..]; unfold in_range in *; case_match; lia.
Qed.

(** What the two loops over the included transactions leave alone. *)
Record same_frame (self self' : MempoolInner) : Prop := {
  frame_config : config self' = config self;
  frame_base_fee : current_base_fee self' = current_base_fee self;
  frame_ratio : private_flow_ratio self' = private_flow_ratio self;
  frame_limit : last_block_gas_limit self' = last_block_gas_limit self;
}.

Lemma same_frame_trans s1 s2 s3 : same_frame s1 s2 -> same_frame s2 s3 -> same_frame s1 s3.
Proof. intros [] []. split; congruence. Qed.

Definition windows (self : MempoolInner) (a : Z) : option (Z * Z) :=
  (fun q => (confirmed_nonce q, slots_end q)) <$> account_queues self !! a.

Lemma remove_one self tx self' :
  core_ok self -> tx_sane tx -> remove_included tx self = Val self' ->
  same_frame self self' /\ (forall a, windows self' a = windows self a) /\
  forall k, k ∈ base_fee_eligibility self' <-> k ∈ base_fee_eligibility self /\
    forall t, find_tx_by_addr_and_nonce self (sender tx) (nonce tx) = Some t -> k <> elig_key t.
Proof.
  intros Hc [Hn _ _ _]. unfold remove_included, windows. rewrite find_tx_eq.
  destruct (account_queues self !! sender tx) as [q|] eqn:Hq; simpl.
  2: { intros [= <-]. split; [done|]. split; [done|]. naive_solver. }
  destruct (ok_accounts _ Hc _ _ Hq) as [Hcn _ _]. unfold find_in. rewrite !Z.geb_leb.
  destruct (Z.leb_spec (confirmed_nonce q) (nonce tx)).
  2: { intros [= <-]. split; [done|]. split; [done|]. naive_solver. }
  two63. rewrite sub_w_ok by word. simpl.
  destruct (slot_get (slots q) (nonce tx - confirmed_nonce q)) as [[t|]|] eqn:Hs.
  2,3: intros [= <-]; split; [done|]; split; [done|]; naive_solver.
  rewrite (slot_set_ok _ _ _ None Hs). simpl. intros [= <-]. split; [done|]. split.
  - intros a. simpl. destruct (decide (sender tx = a)) as [<-|]; [|by rewrite lookup_insert_ne].
    rewrite lookup_insert_eq, Hq. unfold slots_end. simpl. by rewrite length_insert.
  - intros k. simpl. rewrite (elem_of_ord_remove key_cmp) by apply Hc. unfold elig_key. naive_solver.
Qed.

Lemma remove_all txs self :
  core_ok self -> Forall tx_sane txs ->
  exists self', for_each remove_included txs self = Val self' /\ core_ok self' /\
    same_frame self self' /\ (forall a, windows self' a = windows self a) /\
    (forall k, k ∈ base_fee_eligibility self' <-> k ∈ base_fee_eligibility self /\
       forall tx t, tx ∈ txs -> find_tx_by_addr_and_nonce self (sender tx) (nonce tx) = Some t ->
         k <> elig_key t) /\
    (forall a m, find_tx_by_addr_and_nonce self' a m =
       if decide (Exists (fun tx => a = sender tx /\ at_nonce tx m) txs) then None
       else find_tx_by_addr_and_nonce self a m).
Proof.
  intros Hc Hts. revert self Hc. induction Hts as [|tx txs Ht Hts IH]; intros self Hc; cbn [for_each].
  { exists self. split; [done|]. split; [done|]. split; [done|]. split; [done|]. split.
    - intros k. split; [|by intros []]. intros Hk. split; [done|]. by intros tx t ?%not_elem_of_nil.
    - intros a m. rewrite decide_False; [done|]. intros He. inversion He. }
  destruct (remove_included_find self tx Hc Ht) as (s1 & Hs1 & Hc1 & F1). rewrite Hs1. simpl.
  destruct (remove_one self tx s1 Hc Ht Hs1) as (Hfr1 & Hw1 & He1).
  destruct (IH s1 Hc1) as (s2 & Hs2 & Hc2 & Hfr2 & Hw2 & He2 & F2).
  exists s2. split; [done|]. split; [done|]. split; [by eapply same_frame_trans|].
  split; [intros a; by rewrite Hw2, Hw1|]. split.
  - intros k. rewrite He2, He1. split.
    + intros [[Hk Hne] Hrest]. split; [done|]. intros tx' t [->|Hin]%elem_of_cons Hf; [by apply Hne|].
      destruct (decide (sender tx' = sender tx /\ nonce tx' = nonce tx)) as [[E1 E2]|Hd].
      * apply Hne. by rewrite <- E1, <- E2.
      * eapply Hrest; [exact Hin|]. rewrite F1, decide_False; done.
    + intros [Hk Hne]. split; [split; [done|]|].
      * intros t Hf. eapply Hne; [by left|done].
      * intros tx' t Hin Hf. rewrite F1 in Hf. case_decide; [done|].
        eapply Hne; [by right|done].
  - intros a m. rewrite F2, F1.
    destruct (decide (Exists _ txs)), (decide (a = sender tx /\ m = nonce tx));
      destruct (decide (Exists _ (tx :: txs))) as [He|He]; try done;
      rewrite Exists_cons in He; unfold at_nonce in *; tauto.
Qed.

Lemma next_nonce_max txs a lo x :
  next_nonce txs a (Z.max lo x) = Z.max (next_nonce txs a lo) x.
Proof. induction txs as [|tx txs IH]; simpl; [done|]. case_decide; lia. Qed.

Lemma next_nonce_ge txs a lo : lo <= next_nonce txs a lo.
Proof. induction txs as [|tx txs IH]; simpl; [done|]. case_decide; lia. Qed.

Lemma advance_one self tx self' :
  core_ok self -> tx_sane tx -> advance_account tx self = Val self' ->
  same_frame self self' /\ base_fee_eligibility self' = base_fee_eligibility self /\
  forall a, windows self' a = (fun '(lo, hi) =>
    let lo' := if decide (sender tx = a) then Z.max lo (nonce tx + 1) else lo in (lo', Z.max hi lo'))
    <$> windows self a.
Proof.
  intros Hc Ht. unfold advance_account, windows.
  destruct (account_queues self !! sender tx) as [q|] eqn:Hq; simpl.
  2: { intros [= <-]. split; [done|]. split; [done|]. intros a.
       destruct (account_queues self !! a) as [r|] eqn:Hr; simpl; [|done].
       rewrite decide_False by congruence. unfold slots_end. do 2 f_equal. lia. }
  destruct (advance_queue_ok _ _ tx q (ok_accounts _ Hc _ _ Hq) Ht) as [-> _]. simpl. intros [= <-].
  split; [done|]. split; [done|]. intros a. simpl. destruct (decide (sender tx = a)) as [<-|].
  - rewrite lookup_insert_eq, Hq. simpl. unfold slots_end. simpl. rewrite length_drop.
    do 2 f_equal. lia.
  - rewrite lookup_insert_ne by done. destruct (account_queues self !! a) as [r|]; simpl; [|done].
    unfold slots_end. do 2 f_equal. lia.
Qed.

Lemma advance_all_windows txs self :
  core_ok self -> Forall tx_sane txs ->
  exists self', for_each advance_account txs self = Val self' /\ core_ok self' /\
    same_frame self self' /\ base_fee_eligibility self' = base_fee_eligibility self /\
    (forall a, windows self' a =
       (fun '(lo, hi) => (next_nonce txs a lo, Z.max hi (next_nonce txs a lo))) <$> windows self a) /\
    (forall a m, find_tx_by_addr_and_nonce self' a m =
       if decide (Exists (fun tx => a = sender tx /\ up_to_nonce tx m) txs) then None
       else find_tx_by_addr_and_nonce self a m).
Proof.
  intros Hc Hts. revert self Hc. induction Hts as [|tx txs Ht Hts IH]; intros self Hc; cbn [for_each].
  { exists self. split; [done|]. split; [done|]. split; [done|]. split; [done|]. split.
    - intros a. simpl. unfold windows. destruct (account_queues self !! a); simpl; [|done].
      unfold slots_end. do 2 f_equal. lia.
    - intros a m. rewrite decide_False; [done|]. intros He. inversion He. }
  destruct (advance_account_find self tx Hc Ht) as (s1 & Hs1 & Hc1 & F1). rewrite Hs1. simpl.
  destruct (advance_one self tx s1 Hc Ht Hs1) as (Hfr1 & He1 & Hw1).
  destruct (IH s1 Hc1) as (s2 & Hs2 & Hc2 & Hfr2 & He2 & Hw2 & F2).
  exists s2. split; [done|]. split; [done|]. split; [by eapply same_frame_trans|].
  split; [congruence|]. split.
  - intros a. rewrite Hw2, Hw1. destruct (windows self a) as [[lo hi]|]; simpl; [|done].
    pose proof (next_nonce_ge txs a lo). case_decide.
    + rewrite next_nonce_max. do 2 f_equal; lia.
    + do 2 f_equal. lia.
  - intros a m. rewrite F2, F1.
    destruct (decide (Exists _ txs)), (decide (a = sender tx /\ m <= nonce tx));
      destruct (decide (Exists _ (tx :: txs))) as [He|He]; try done;
      rewrite Exists_cons in He; unfold up_to_nonce in *; tauto.
Qed.

End block.

(** ** Classification *)

Section classification.
Context `{BuildProfile}.

Lemma represents_pays self s tx :
  represents self s -> pays s tx = bool_decide (can_pay self tx).
Proof.
  intros Hr. unfold pays, can_pay. rewrite (rep_base_fee _ _ Hr).
  apply Bool.eq_iff_eq_true. rewrite bool_decide_eq_true, andb_true_iff, !Z.ltb_lt. done.
Qed.

Lemma represents_unblocked self s a n :
  represents self s -> sp_unblocked s a n = true <-> unblocked self a n.
Proof.
  intros Hr. unfold sp_unblocked, unblocked. rewrite (rep_window _ _ Hr).
  destruct (account_queues self !! a) as [q|]; simpl.
  2: { split; [done|]. by intros (q & [=] & _). }
  rewrite forallb_forall. split.
  - intros Hall. exists q. split; [done|]. intros m Hm.
    assert (In m (seqZ (confirmed_nonce q) (n - confirmed_nonce q))) as Hin.
    { apply list_elem_of_In, elem_of_seqZ. lia. }
    specialize (Hall m Hin). rewrite (rep_pool _ _ Hr) in Hall.
    destruct (find_tx_by_addr_and_nonce self a m) as [t|]; [|done]. exists t. split; [done|].
    rewrite (represents_pays _ _ _ Hr) in Hall. by apply bool_decide_eq_true in Hall.
  - intros (q' & [= <-] & Hall) m Hm. apply list_elem_of_In, elem_of_seqZ in Hm.
    destruct (Hall m) as (t & Ht & Hp); [lia|]. rewrite (rep_pool _ _ Hr), Ht.
    rewrite (represents_pays _ _ _ Hr). by apply bool_decide_eq_true.
Qed.

(** It reads the accounts and the base fee only. *)
Lemma classify_same self self' tx :
  account_queues self = account_queues self' -> current_base_fee self = current_base_fee self' ->
  classify_transaction self tx = classify_transaction self' tx.
Proof.
  intros Ha Hb. assert (forall t, effective_priority_fee self t = effective_priority_fee self' t) as He.
  { intros t. unfold effective_priority_fee. by rewrite Hb. }
  assert (forall sl n, blocked_before self sl n = blocked_before self' sl n) as Hbb.
  { induction sl as [|[t|] sl IH]; intros n; simpl; [done| |done].
    unfold blocks_later. by rewrite IH, Hb, He. }
  unfold classify_transaction. rewrite Ha, Hb, He.
  destruct (account_queues self' !! sender tx) as [q|]; [|done].
  destruct (sub_w u64 (nonce tx) (confirmed_nonce q)); simpl; [|done]. by rewrite Hbb.
Qed.

(** The classification of a stored transaction is that of the specification. *)
Lemma classify_refines self s a n tx :
  core_ok self -> represents self s -> find_tx_by_addr_and_nonce self a n = Some tx ->
  classify_transaction self tx = Val (sp_classify s tx).
Proof.
  intros Hc Hr Hf. destruct (find_tx_spec self a n tx Hc Hf) as (_ & _ & <- & <- & _ & Ht & _).
  destruct (classify_stored self _ _ tx Hc Hf) as (c & -> & Hb & Hi & Hu & Hm). f_equal.
  pose proof (represents_unblocked self s (sender tx) (nonce tx) Hr) as Hun.
  pose proof (represents_pays self s tx Hr) as Hp. unfold sp_classify.
  destruct (sp_unblocked s (sender tx) (nonce tx)); simpl.
  2: { destruct (decide (c = NonceBound)); [done|]. assert (false = true) by tauto. done. }
  rewrite (rep_base_fee _ _ Hr). destruct (Z.ltb_spec (max_fee_per_gas tx) (current_base_fee self)).
  { apply Hi. tauto. }
  rewrite Hp. case_bool_decide; simpl; [apply Hm; tauto|apply Hu; tauto].
Qed.

End classification.

(** ** The refinement *)

Section refinement.
Context `{BuildProfile} `{IterationOrder}.

Lemma known_elig self s txs k :
  core_ok self -> represents self s ->
  k ∈ (list_to_set (elig_key <$> known s txs) : gset key) <->
  exists tx t, tx ∈ txs /\ find_tx_by_addr_and_nonce self (sender tx) (nonce tx) = Some t /\
    k = elig_key t.
Proof.
  intros Hc Hr. rewrite elem_of_list_to_set, list_elem_of_fmap. unfold known.
  setoid_rewrite list_elem_of_omap. setoid_rewrite (rep_pool _ _ Hr). naive_solver.
Qed.

(** The state before the queue is rebuilt. *)
Lemma confirm_refines self s block :
  core_ok self -> block_sane block -> represents self s ->
  exists s2, apply_block self block = Val (rebuild_priority_queue s2) /\ core_ok s2 /\
    represents (set_indexes (base_fee_eligibility s2) [] s2) (sp_confirm block s).
Proof.
  intros Hc [Hts Hgas] Hr. unfold apply_block.
  rewrite (known_gas_refines self s) by (done || lia). rewrite Z.add_0_r.
  set (flow := update_private_flow self block (known_gas s (included_txs block))).
  assert (flow = sp_flow s block) as Hflow.
  { unfold flow, update_private_flow, sp_flow, saturating_sub. by rewrite (rep_ratio _ _ Hr). }
  cbn [mbind run_bind]. cbv zeta. fold flow.
  set (s0 := set_block_gas flow (block_gas_limit block) self).
  assert (core_ok s0) as Hc0 by (destruct Hc; by split).
  assert (forall a n, find_tx_by_addr_and_nonce s0 a n = find_tx_by_addr_and_nonce self a n) as F0
    by (intros; by rewrite !find_tx_eq).
  destruct (remove_all (included_txs block) s0) as (s1 & Hs1 & Hc1 & Hfr1 & Hw1 & He1 & F1); [done..|].
  destruct (advance_all_windows (included_txs block) s1) as (s2 & Hs2 & Hc2 & Hfr2 & He2 & Hw2 & F2);
    [done..|].
  rewrite Hs1. cbn [mbind run_bind]. rewrite Hs2. cbn [mbind run_bind].
  exists (set_base_fee (new_base_fee block) s2). split; [done|].
  split; [destruct Hc2; by split|].
  destruct (same_frame_trans _ _ _ Hfr1 Hfr2) as [Hcfg Hbf Hrat Hlim]. simpl in *.
  split; simpl; rewrite ?Hcfg, ?Hrat, ?Hlim; try done; [| | | |apply Hr].
  - intros a m. trans (find_tx_by_addr_and_nonce s2 a m); [|by rewrite !find_tx_eq].
    rewrite F2, F1, F0, <- (rep_pool _ _ Hr). rewrite map_lookup_filter.
    destruct (pool s !! (a, m)) as [t|]; simpl.
    2: { by repeat case_decide. }
    unfold gone. simpl. destruct (decide (Exists _ (included_txs block))) as [He|He].
    + rewrite option_guard_False; [done|]. by intros Hn.
    + rewrite option_guard_True by done. rewrite decide_False; [done|]. intros He'. apply He.
      eapply Exists_impl; [exact He'|]. simpl. unfold at_nonce, up_to_nonce. intros tx [-> ->]. by split.
  - intros a. rewrite map_lookup_imap, (rep_window _ _ Hr).
    specialize (Hw2 a). rewrite Hw1 in Hw2. unfold windows, slots_end in Hw2. simpl in Hw2. rewrite Hw2.
    by destruct (account_queues self !! a).
  - intros k. rewrite elem_of_difference, (rep_eligible _ _ Hr), He2, He1. simpl.
    rewrite (known_elig self) by done. setoid_rewrite F0. naive_solver.
  - intros k. by rewrite elem_of_empty, elem_of_nil.
Qed.

Lemma block_refines self s block :
  core_ok self -> block_sane block -> represents self s ->
  exists self', apply_block self block = Val self' /\ represents self' (sp_block block s).
Proof.
  intros Hc Hb Hr. destruct (confirm_refines self s block Hc Hb Hr) as (s2 & Happ & Hc2 & Hr2).
  destruct (rebuild_ok s2 Hc2) as ([Hc3 _] & _ & Hex).
  exists (rebuild_priority_queue s2). split; [done|]. set (sp2 := sp_confirm block s) in *.
  unfold sp_block. fold sp2.
  assert (represents (rebuild_priority_queue s2) (set_queue (marketable_keys sp2) sp2)
    <-> forall k, k ∈ marketable_keys sp2 <-> k ∈ priority_queue (rebuild_priority_queue s2)) as ->.
  { split; [by intros [_ _ _ ? _ _ _ _]|]. intros Hq. destruct Hr2 as [R1 R2 R3 R4 R5 R6 R7 R8].
    split; simpl; try done. }
  assert (forall k, k ∈ marketable_keys sp2 <-> exists tx a n,
    pool sp2 !! (a, n) = Some tx /\ sp_classify sp2 tx = Marketable /\ k = queue_key sp2 tx) as Hkeys.
  { intros k. unfold marketable_keys. rewrite elem_of_list_to_set, list_elem_of_fmap.
    setoid_rewrite list_elem_of_filter. setoid_rewrite list_elem_of_fmap. split.
    - intros (tx & -> & Hm & [[a n] tx'] & -> & Hin). apply elem_of_map_to_list in Hin. eauto 10.
    - intros (tx & a & n & Hp & Hm & ->). exists tx. split; [done|]. split; [done|].
      exists (a, n, tx). split; [done|]. by apply elem_of_map_to_list. }
  set (s3 := set_indexes (base_fee_eligibility s2) [] s2) in Hr2.
  assert (forall a n, find_tx_by_addr_and_nonce s3 a n =
    find_tx_by_addr_and_nonce (rebuild_priority_queue s2) a n) as Hfind by (intros; by rewrite !find_tx_eq).
  assert (forall tx, classify_transaction s3 tx = classify_transaction (rebuild_priority_queue s2) tx)
    as Hclass by (intros; by apply classify_same).
  assert (core_ok s3) as Hcs3.
  { destruct Hc2. split; simpl; try done. apply ord_ok_nil. }
  intros [[f a] n]. rewrite Hkeys, (exact_marketable _ _ _ _ Hc3 Hex). split.
  - intros (tx & b & m & Hp & Hm & Hk). rewrite (rep_pool _ _ Hr2) in Hp.
    destruct (find_tx_spec s3 b m tx Hcs3 Hp) as (_ & _ & <- & <- & _).
    injection Hk as -> -> ->. exists tx. rewrite <- Hfind, <- Hclass.
    rewrite (classify_refines s3 sp2 _ _ tx Hcs3 Hr2 Hp), Hm.
    split; [done|]. split; [done|]. by rewrite (represents_fee _ _ _ Hr2).
  - intros (tx & Hf & Hcl & ->). rewrite <- Hfind in Hf. rewrite <- Hclass in Hcl.
    rewrite (classify_refines s3 sp2 _ _ tx Hcs3 Hr2 Hf) in Hcl. injection Hcl as Hm.
    destruct (find_tx_spec s3 a n tx Hcs3 Hf) as (_ & _ & <- & <- & _).
    exists tx, (sender tx), (nonce tx). rewrite (rep_pool _ _ Hr2). split; [done|]. split; [done|].
    unfold queue_key. by rewrite (represents_fee _ _ _ Hr2).
Qed.

End refinement.

(** ** Events and queries *)

(** The gas of the stored transactions whose keys come before [tx]. *)
Definition gas_at (s : Spec) (k : key) : Z :=
  match pool s !! (k.1.2, k.2) with Some tx => gas_limit tx | None => 0 end.

Definition gas_of_keys (s : Spec) (ks : list key) : Z := foldr (fun k g => gas_at s k + g) 0 ks.

Definition sp_gas_ahead (s : Spec) (tx : PendingTx) : option Z :=
  if decide (sp_classify s tx = Marketable)
  then Some (gas_of_keys s (elements (filter (fun k => key_lt rev_key_cmp k (queue_key s tx)) (queue s))))
  else None.

#[export] Instance gas_of_keys_proper s : Proper (Permutation ==> eq) (gas_of_keys s).
Proof. intros l1 l2 Hl. unfold gas_of_keys. induction Hl; simpl; lia. Qed.

Section events.
Context `{BuildProfile} `{IterationOrder}.

Lemma event_refines self s event :
  mempool_ok self -> event_sane event -> represents self s ->
  exists self' s', handle_event event self = Val self' /\ mempool_ok self' /\
    spec_event s event s' /\ represents self' s'.
Proof.
  intros Hok Hev Hr. destruct event as [tx|block]; simpl in *.
  - destruct (insert_refines self s tx Hok Hev Hr) as (self' & s' & Hins & Hsp & Hr').
    destruct (insert_ok self tx Hok Hev) as (self'' & Hins' & Hok' & _).
    assert (self'' = self') as -> by congruence. by exists self', s'.
  - destruct (block_refines self s block (proj1 Hok) Hev Hr) as (self' & Happ & Hr').
    destruct (apply_block_ok self block (proj1 Hok) Hev) as (self'' & Happ' & Hok' & _).
    assert (self'' = self') as -> by congruence. exists self', (sp_block block s).
    split; [done|]. split; [done|]. split; [apply spec_block|done].
Qed.

Lemma run_refines events self s :
  mempool_ok self -> Forall event_sane events -> represents self s ->
  exists self' s', tracker_run events self = Val self' /\ mempool_ok self' /\
    spec_run s events s' /\ represents self' s'.
Proof.
  intros Hok Hev. revert self s Hok. induction Hev as [|event events He _ IH]; intros self s Hok Hr.
  { exists self, s. split; [done|]. split; [done|]. split; [constructor|done]. }
  destruct (event_refines self s event Hok He Hr) as (s1 & sp1 & Hs1 & Hok1 & Hsp1 & Hr1).
  destruct (IH s1 sp1 Hok1 Hr1) as (s2 & sp2 & Hs2 & Hok2 & Hsp2 & Hr2).
  exists s2, sp2. unfold tracker_run in *. cbn [for_each]. rewrite Hs1. simpl.
  split; [done|]. split; [done|]. split; [|done]. by econstructor.
Qed.

Lemma represents_initial cfg : represents (empty_inner cfg) (spec_initial cfg).
Proof.
  split; simpl; try done.
  - intros k. by rewrite elem_of_empty, elem_of_nil.
  - intros k. by rewrite elem_of_empty, elem_of_nil.
Qed.

(** The initial transactions are inserted one by one. *)
Lemma start_refines cfg initial :
  config_sane cfg -> Forall tx_sane initial ->
  exists self s, from_channel initial cfg = Val self /\ mempool_ok self /\
    spec_run (spec_initial cfg) (PendingTransaction <$> initial) s /\ represents self s.
Proof.
  intros Hcfg Hts. destruct (from_channel_ok cfg [] Hcfg (Forall_nil_2 _)) as (s0 & [= <-] & Hok0 & _).
  destruct (run_refines (PendingTransaction <$> initial) (empty_inner cfg) (spec_initial cfg))
    as (self & s & Hrun & ? & ? & ?); [done|by apply Forall_fmap|apply represents_initial|].
  exists self, s. split; [|done]. rewrite <- Hrun. unfold from_channel, tracker_run.
  clear. generalize (empty_inner cfg) as m. induction initial as [|tx l IH]; intros m; simpl; [done|].
  destruct (insert m tx); simpl; [apply IH|done].
Qed.

Lemma spec_run_deterministic s es s1 s2 : spec_run s es s1 -> spec_run s es s2 -> s1 = s2.
Proof.
  intros H1. revert s2. induction H1 as [|s e s1 es s3 He _ IH]; intros s2 H2.
  - by inversion H2.
  - inversion H2; subst. apply IH. by replace s1 with s4 by by eapply spec_event_deterministic.
Qed.

Lemma gas_ahead_refines self s i tx :
  core_ok self -> represents self s -> sum_gas self (priority_queue self) < 2 ^ 64 ->
  find_tx_by_id self i = Some tx -> gas_ahead self i = Val (sp_gas_ahead s tx).
Proof.
  intros Hc Hr Hsum Hf. pose proof (find_tx_by_id_stored self i tx Hc Hf) as Hst.
  rewrite (gas_ahead_eq self i tx (sp_classify s tx) Hc Hsum Hf)
    by (by eapply classify_refines). f_equal. unfold sp_gas_ahead.
  case_decide; [|done]. f_equal.
  assert (forall ks, sum_gas self ks = gas_of_keys s ks) as Hks.
  { induction ks as [|[[f a] n] ks IH]; simpl; [done|]. unfold gas_at. simpl.
    by rewrite IH, (rep_pool _ _ Hr). }
  rewrite Hks. apply gas_of_keys_proper, NoDup_Permutation.
  - apply NoDup_filter, (ord_ok_nodup rev_key_cmp), Hc.
  - apply NoDup_elements.
  - intros k. rewrite list_elem_of_filter, elem_of_elements, elem_of_filter, (rep_queue _ _ Hr).
    unfold queue_key, tx_key. by rewrite (represents_fee _ _ _ Hr).
Qed.

(** ** Properties *)

(** C10: the tracker refines the specification: from any initial transactions
    and through any events, for every order of the hash map, it computes
    without panic a state that represents the one outcome the specification
    has for the same events: the same stored transactions, windows, indexes as
    sets, fees and flow estimate.  The queries read off that outcome: the
    lookup is the pool's, the classification of a stored transaction and the
    gas ahead of it are those of the specification. *)
Theorem tracker_refines cfg initial events :
  config_sane cfg -> Forall tx_sane initial -> Forall event_sane events ->
  exists self s, (start ← from_channel initial cfg; tracker_run events start) = Val self /\
    spec_run (spec_initial cfg) ((PendingTransaction <$> initial) ++ events) s /\
    (forall s', spec_run (spec_initial cfg) ((PendingTransaction <$> initial) ++ events) s' -> s' = s) /\
    represents self s /\
    (forall a n tx, find_tx_by_addr_and_nonce self a n = Some tx ->
       classify_transaction self tx = Val (sp_classify s tx)) /\
    (sum_gas self (priority_queue self) < 2 ^ 64 -> forall i tx,
       find_tx_by_id self i = Some tx -> gas_ahead self i = Val (sp_gas_ahead s tx)).
Proof.
  intros Hcfg Hts Hev. destruct (start_refines cfg initial Hcfg Hts) as (s0 & sp0 & -> & Hok0 & Hsp0 & Hr0).
  destruct (run_refines events s0 sp0 Hok0 Hev Hr0) as (self & s & Hrun & [Hc Hk] & Hsp & Hr).
  assert (spec_run (spec_initial cfg) ((PendingTransaction <$> initial) ++ events) s) as Hall
    by by eapply spec_run_app.
  exists self, s. split; [done|]. split; [done|]. split; [|split; [done|split]].
  - intros s' Hs'. by eapply spec_run_deterministic.
  - intros a n tx Hf. by eapply classify_refines.
  - intros Hsum i tx Hf. by apply gas_ahead_refines.
Qed.

End events.

Section witnesses.
#[local] Instance refine_checks : BuildProfile := true.
#[local] Instance refine_order : IterationOrder :=
  {| hash_entries := map_to_list; hash_entries_perm := fun m => Permutation_refl _ |}.

Lemma tracker_refines_witness :
  exists self s, (start ← from_channel demo_txs demo_config;
    tracker_run [NewBlock demo_block; PendingTransaction tx_c0] start) = Val self /\
    spec_run (spec_initial demo_config)
      [PendingTransaction tx_a0; PendingTransaction tx_a1; PendingTransaction tx_b7;
       NewBlock demo_block; PendingTransaction tx_c0] s /\
    represents self s.
Proof.
  destruct (tracker_refines demo_config demo_txs [NewBlock demo_block; PendingTransaction tx_c0])
    as (self & s & H1 & H2 & _ & H3 & _).
  - exact demo_config_sane.
  - exact demo_txs_sane.
  - constructor; [exact demo_block_sane|]. constructor; [exact tx_c0_sane|constructor].
  - exists self, s. split; [exact H1|]. split; [exact H2|exact H3].
Defined.
End witnesses.
