(* ===== verification/Runtime.v ===== *)
(** * Telemetry of the tracker ([crates/mempooloracle/src/runtime.rs])

    The counters are atomics that only the transport tasks update; each update
    is one step, so the record is their joint value.  [fetch_add] wraps. *)

From S2P Require Import Prelude.

Inductive TransportKind := Rpc_kind | P2p_kind.

Definition transport_default : TransportKind := Rpc_kind.

Record RuntimeTelemetry := MkTelemetry {
  transport_kind : TransportKind;
  pending_seen : Z;            (* u64 *)
  block_count : Z;             (* u64 *)
  last_block_txs : Z;          (* usize *)
  last_block_gas_used : Z;     (* u64 *)
  initial_backfill_txs : Z;    (* usize *)
  p2p_peer_count : Z;          (* usize *)
  p2p_announced_txs : Z;       (* u64 *)
  p2p_imported_txs : Z;        (* u64 *)
}.

Definition RuntimeTelemetry_new (kind : TransportKind) : RuntimeTelemetry :=
  {| transport_kind := kind; pending_seen := 0; block_count := 0; last_block_txs := 0;
     last_block_gas_used := 0; initial_backfill_txs := 0; p2p_peer_count := 0;
     p2p_announced_txs := 0; p2p_imported_txs := 0 |}.

(** [fetch_add(1)] on an [AtomicU64]. *)
Definition bump_u64 (n : Z) : Z := cast_w u64 (n + 1).

Definition record_backfill_size (txs : Z) (t : RuntimeTelemetry) : RuntimeTelemetry :=
  {| transport_kind := transport_kind t; pending_seen := pending_seen t;
     block_count := block_count t; last_block_txs := last_block_txs t;
     last_block_gas_used := last_block_gas_used t; initial_backfill_txs := txs;
     p2p_peer_count := p2p_peer_count t; p2p_announced_txs := p2p_announced_txs t;
     p2p_imported_txs := p2p_imported_txs t |}.

Definition record_pending_seen (t : RuntimeTelemetry) : RuntimeTelemetry :=
  {| transport_kind := transport_kind t; pending_seen := bump_u64 (pending_seen t);
     block_count := block_count t; last_block_txs := last_block_txs t;
     last_block_gas_used := last_block_gas_used t;
     initial_backfill_txs := initial_backfill_txs t;
     p2p_peer_count := p2p_peer_count t; p2p_announced_txs := p2p_announced_txs t;
     p2p_imported_txs := p2p_imported_txs t |}.

Definition record_block (txs gas_used : Z) (t : RuntimeTelemetry) : RuntimeTelemetry :=
  {| transport_kind := transport_kind t; pending_seen := pending_seen t;
     block_count := bump_u64 (block_count t); last_block_txs := txs;
     last_block_gas_used := gas_used; initial_backfill_txs := initial_backfill_txs t;
     p2p_peer_count := p2p_peer_count t; p2p_announced_txs := p2p_announced_txs t;
     p2p_imported_txs := p2p_imported_txs t |}.

Definition record_p2p_peer_count (peers : Z) (t : RuntimeTelemetry) : RuntimeTelemetry :=
  {| transport_kind := transport_kind t; pending_seen := pending_seen t;
     block_count := block_count t; last_block_txs := last_block_txs t;
     last_block_gas_used := last_block_gas_used t;
     initial_backfill_txs := initial_backfill_txs t; p2p_peer_count := peers;
     p2p_announced_txs := p2p_announced_txs t; p2p_imported_txs := p2p_imported_txs t |}.

Definition record_p2p_announcement (t : RuntimeTelemetry) : RuntimeTelemetry :=
  {| transport_kind := transport_kind t; pending_seen := pending_seen t;
     block_count := block_count t; last_block_txs := last_block_txs t;
     last_block_gas_used := last_block_gas_used t;
     initial_backfill_txs := initial_backfill_txs t; p2p_peer_count := p2p_peer_count t;
     p2p_announced_txs := bump_u64 (p2p_announced_txs t);
     p2p_imported_txs := p2p_imported_txs t |}.

Definition record_p2p_import (t : RuntimeTelemetry) : RuntimeTelemetry :=
  {| transport_kind := transport_kind t; pending_seen := pending_seen t;
     block_count := block_count t; last_block_txs := last_block_txs t;
     last_block_gas_used := last_block_gas_used t;
     initial_backfill_txs := initial_backfill_txs t; p2p_peer_count := p2p_peer_count t;
     p2p_announced_txs := p2p_announced_txs t;
     p2p_imported_txs := bump_u64 (p2p_imported_txs t) |}.

(** [snapshot]: the loads, one per counter, of a quiet record. *)
Definition snapshot (t : RuntimeTelemetry) : RuntimeTelemetry :=
  {| transport_kind := transport_kind t; pending_seen := pending_seen t;
     block_count := block_count t; last_block_txs := last_block_txs t;
     last_block_gas_used := last_block_gas_used t;
     initial_backfill_txs := initial_backfill_txs t; p2p_peer_count := p2p_peer_count t;
     p2p_announced_txs := p2p_announced_txs t; p2p_imported_txs := p2p_imported_txs t |}.

(** ** The runtime of a transport

    [H] is the type of the handle.  The tasks are tokio's: aborting one that
    has finished does nothing.  The [watch] channel of the shutdown signal
    holds its last value and wakes the tasks that wait on [changed]. *)
Definition DEFAULT_SHUTDOWN_VALUE : bool := false.

Inductive TaskState := TaskRunning | TaskFinished | TaskAborted.

Record TrackerRuntime (H : Type) := MkRuntime {
  rt_handle : H;
  rt_telemetry : RuntimeTelemetry;
  rt_shutdown : bool;
  rt_tasks : list TaskState;
}.
Arguments MkRuntime {H}.
Arguments rt_handle {H}.
Arguments rt_telemetry {H}.
Arguments rt_shutdown {H}.
Arguments rt_tasks {H}.

Definition TrackerRuntime_new {H} (handle : H) (telemetry : RuntimeTelemetry) (shutdown : bool)
    (tasks : list TaskState) : TrackerRuntime H :=
  MkRuntime handle telemetry shutdown tasks.

Definition runtime_handle {H} (self : TrackerRuntime H) : H := rt_handle self.

Definition runtime_telemetry {H} (self : TrackerRuntime H) : RuntimeTelemetry := rt_telemetry self.

Definition abort (task : TaskState) : TaskState :=
  match task with TaskRunning => TaskAborted | _ => task end.

(** [Drop for TrackerRuntime]: the signal first, then every task. *)
Definition runtime_drop {H} (self : TrackerRuntime H) : TrackerRuntime H :=
  MkRuntime (rt_handle self) (rt_telemetry self) true (map abort (rt_tasks self)).

(** Dropping the runtime leaves no task running, however far each got, and the
    counters as they are. *)
Lemma runtime_drop_ends {H} (self : TrackerRuntime H) :
  rt_shutdown (runtime_drop self) = true /\
  ~ (TaskRunning ∈ rt_tasks (runtime_drop self)) /\
  length (rt_tasks (runtime_drop self)) = length (rt_tasks self) /\
  runtime_telemetry (runtime_drop self) = runtime_telemetry self.
Proof.
  split_and!; simpl; [done| |apply length_map|done].
  intros Hin. apply list_elem_of_In, in_map_iff in Hin as (t & Ht & _). by destruct t.
Qed.

(** [n] increments. *)
Lemma bump_u64_iter n x : in_range u64 x -> Nat.iter n bump_u64 x = cast_w u64 (x + Z.of_nat n).
Proof.
  intros Hx. induction n as [|n IH].
  - change (Nat.iter 0 bump_u64 x) with x. symmetry. rewrite cast_w_small; [lia|word].
  - change (Nat.iter (S n) bump_u64 x) with (bump_u64 (Nat.iter n bump_u64 x)).
    rewrite IH. unfold bump_u64, cast_w. rewrite Zplus_mod_idemp_l. f_equal. lia.
Qed.
