(* ===== verification/TrackerRpc.v ===== *)
(** * The RPC transport of the tracker ([crates/mempooloracle/src/transport/rpc.rs])

    The tasks that feed the tracker's channel.  A task reads what its
    [select!] chose in each round, a list of [Selected]; a list that ends
    leaves the task waiting.  The accessors of Alloy's transactions, blocks
    and headers are the fields of [RpcTransaction] and [RpcBlock]; a request
    under [timeout] is a [Timed] answer. *)

From stdpp Require Import strings sorting.
From S2P Require Import Prelude Float64 OrdSet Mempool Runtime.

(** ** Data *)

Record RpcTransaction := MkRpcTx {
  tx_hash : Z;
  tx_from : Z;
  rpc_nonce : Z;
  rpc_max_fee_per_gas : Z;
  rpc_max_priority_fee_per_gas : option Z;
  priority_fee_or_price : Z;
  rpc_gas_limit : Z;
}.

(** [next_block_base_fee] is [Header::next_block_base_fee] for the Ethereum
    parameters. *)
Record RpcBlock := MkRpcBlock {
  block_txns : list RpcTransaction;
  next_block_base_fee : option Z;
  base_fee_per_gas : option Z;
  block_gas_used : Z;
  header_gas_limit : Z;
}.

Inductive TrackerError :=
  | Transport (e : string)
  | Timeout_at (stage : string)
  | Setup (message : string)
  | FeatureDisabled (feature : string)
  | UnsupportedTransport (what : string).

(** What a round of a task's [select!] yields. *)
Inductive Selected (A : Type) :=
  | ShutdownSignal
  | StreamEnded
  | Next (a : A).
Arguments ShutdownSignal {A}.
Arguments StreamEnded {A}.
Arguments Next {A} a.

(** [timeout(limit, request).await] *)
Inductive Timed (A : Type) :=
  | TimedOut
  | Answered (r : result A string).
Arguments TimedOut {A}.
Arguments Answered {A} r.

(** The channel to the tracker and the telemetry; [receiver_quits] is how
    many events the receiver takes before it is dropped, if it is. *)
Record Pipe := MkPipe {
  telemetry : RuntimeTelemetry;
  sent : list MempoolEvent;
  receiver_quits : option nat;
}.

Definition with_telemetry (f : RuntimeTelemetry -> RuntimeTelemetry) (p : Pipe) : Pipe :=
  {| telemetry := f (telemetry p); sent := sent p; receiver_quits := receiver_quits p |}.

(** [event_tx.send(event)]; [None] when the receiver is gone. *)
Definition send_event (event : MempoolEvent) (p : Pipe) : option Pipe :=
  match receiver_quits p with
  | Some n => if (n <=? length (sent p))%nat then None
              else Some {| telemetry := telemetry p; sent := sent p ++ [event];
                           receiver_quits := receiver_quits p |}
  | None => Some {| telemetry := telemetry p; sent := sent p ++ [event];
                    receiver_quits := receiver_quits p |}
  end.

(** ** Conversions *)

Definition alloy_tx_to_pending_tx (tx : RpcTransaction) : PendingTx :=
  {| id := tx_hash tx;
     sender := tx_from tx;
     nonce := rpc_nonce tx;
     max_fee_per_gas := rpc_max_fee_per_gas tx;
     max_priority_fee_per_gas :=
       default (priority_fee_or_price tx) (rpc_max_priority_fee_per_gas tx);
     gas_limit := rpc_gas_limit tx |}.

(** The update built from a block; [or_else] then [unwrap_or_default]. *)
Definition block_update_of (block : RpcBlock) : BlockUpdate :=
  {| included_txs := alloy_tx_to_pending_tx <$> block_txns block;
     new_base_fee := match next_block_base_fee block with
                     | Some fee => fee
                     | None => default 0 (base_fee_per_gas block)
                     end;
     gas_used := block_gas_used block;
     block_gas_limit := header_gas_limit block |}.

(** ** The tasks *)

(** One round gets a header and the answer to [get_block_by_hash]. *)
Fixpoint run_block_subscription
    (rounds : list (Selected (result (option RpcBlock) string))) (p : Pipe) : Pipe :=
  match rounds with
  | [] => p
  | ShutdownSignal :: _ | StreamEnded :: _ => p
  | Next (Ok (Some block)) :: rounds =>
      let block_update := block_update_of block in
      let p := with_telemetry (record_block (Z.of_nat (length (included_txs block_update)))
                                            (gas_used block_update)) p in
      match send_event (NewBlock block_update) p with
      | None => p
      | Some p => run_block_subscription rounds p
      end
  | Next _ :: rounds => run_block_subscription rounds p
  end.

Fixpoint run_pending_subscription (rounds : list (Selected RpcTransaction)) (p : Pipe) : Pipe :=
  match rounds with
  | [] => p
  | ShutdownSignal :: _ | StreamEnded :: _ => p
  | Next tx :: rounds =>
      let p := with_telemetry record_pending_seen p in
      match send_event (PendingTransaction (alloy_tx_to_pending_tx tx)) p with
      | None => p
      | Some p => run_pending_subscription rounds p
      end
  end.

(** [TxpoolContents], its maps as their values in iteration order. *)
Record TxpoolContents := MkTxpool {
  pool_pending : list (list RpcTransaction);
  pool_queued : list (list RpcTransaction);
}.

Definition pool_txs (txpool : TxpoolContents) : list PendingTx :=
  alloy_tx_to_pending_tx <$> concat (pool_pending txpool ++ pool_queued txpool).

(** [backfill_mempool] with the answers to [txpool_contents] and, where it is
    asked, [txpool_content]. *)
Definition backfill_mempool (contents content : Timed TxpoolContents)
    : result (list PendingTx) TrackerError :=
  match contents with
  | Answered (Ok txpool) => Ok (pool_txs txpool)
  | _ =>
      match content with
      | TimedOut => Err (Timeout_at "txpool_content backfill")
      | Answered (Err e) => Err (Transport e)
      | Answered (Ok txpool) => Ok (pool_txs txpool)
      end
  end.

(** The loop of [run_backfill]; [changed] is what [has_changed] answers before
    each send. *)
Fixpoint send_backfill (txs : list PendingTx) (changed : nat -> bool) (p : Pipe) : Pipe :=
  match txs with
  | [] => p
  | tx :: txs =>
      if changed (length (sent p)) then p
      else match send_event (PendingTransaction tx) p with
           | None => p
           | Some p => send_backfill txs changed p
           end
  end.

Definition run_backfill (round : Selected (result (list PendingTx) TrackerError))
    (changed : nat -> bool) (p : Pipe) : Pipe :=
  match round with
  | Next (Ok txs) =>
      send_backfill txs changed (with_telemetry (record_backfill_size (Z.of_nat (length txs))) p)
  | _ => p
  end.

(** [connect_erased_provider] up to the spawning of the tasks: the two
    subscriptions and the errors they give. *)
Definition timed_out_or {A} (stage : string) (t : Timed A) : result A TrackerError :=
  match t with
  | TimedOut => Err (Timeout_at stage)
  | Answered (Err e) => Err (Transport e)
  | Answered (Ok a) => Ok a
  end.

Definition connect_erased_provider (block_sub pending_sub : Timed unit) : result Pipe TrackerError :=
  match timed_out_or "block subscription setup" block_sub with
  | Err e => Err e
  | Ok _ =>
      match timed_out_or "pending transaction subscription setup" pending_sub with
      | Err e => Err e
      | Ok _ => Ok {| telemetry := RuntimeTelemetry_new Rpc_kind; sent := []; receiver_quits := None |}
      end
  end.

Definition connect_with_builder (connected : Timed unit) (block_sub pending_sub : Timed unit)
    : result Pipe TrackerError :=
  match timed_out_or "websocket connect" connected with
  | Err e => Err e
  | Ok _ => connect_erased_provider block_sub pending_sub
  end.

(** ** Specification *)

(** The rounds of a task before it stops. *)
Fixpoint until_stop {A} (rounds : list (Selected A)) : list A :=
  match rounds with
  | Next a :: rounds => a :: until_stop rounds
  | _ => []
  end.

Definition found_block (r : result (option RpcBlock) string) : option RpcBlock :=
  match r with Ok b => b | Err _ => None end.

Lemma send_event_live event p :
  receiver_quits p = None ->
  send_event event p =
    Some {| telemetry := telemetry p; sent := sent p ++ [event]; receiver_quits := None |}.
Proof. intros Hq. unfold send_event. by rewrite Hq. Qed.

Lemma block_subscription_live rounds p :
  receiver_quits p = None ->
  let blocks := omap found_block (until_stop rounds) in
  run_block_subscription rounds p =
    {| telemetry := foldl (fun t b => record_block (Z.of_nat (length (block_txns b))) (block_gas_used b) t)
                      (telemetry p) blocks;
       sent := sent p ++ (NewBlock ∘ block_update_of <$> blocks);
       receiver_quits := None |}.
Proof.
  revert p. induction rounds as [|[| |[[block|]|e]] rounds IH]; intros p Hq; simpl;
    try (rewrite app_nil_r; destruct p; simpl in *; by rewrite Hq).
  - rewrite send_event_live by done. rewrite IH by done. simpl. rewrite length_fmap, <- app_assoc. done.
  - by apply IH.
  - by apply IH.
Qed.

Lemma pending_subscription_live rounds p :
  receiver_quits p = None ->
  let txs := until_stop rounds in
  run_pending_subscription rounds p =
    {| telemetry := Nat.iter (length txs) record_pending_seen (telemetry p);
       sent := sent p ++ (PendingTransaction ∘ alloy_tx_to_pending_tx <$> txs);
       receiver_quits := None |}.
Proof.
  revert p. induction rounds as [|[| |tx] rounds IH]; intros p Hq; simpl;
    try (rewrite app_nil_r; destruct p; simpl in *; by rewrite Hq).
  rewrite send_event_live by done. rewrite IH by done. simpl. rewrite <- app_assoc.
  f_equal. by rewrite <- Nat.iter_succ_r.
Qed.

Lemma send_event_quits event p n :
  receiver_quits p = Some n ->
  send_event event p =
    if (n <=? length (sent p))%nat then None
    else Some {| telemetry := telemetry p; sent := sent p ++ [event]; receiver_quits := Some n |}.
Proof. intros Hq. unfold send_event. by rewrite Hq. Qed.

Lemma take_sent (l : list MempoolEvent) xs n :
  (length l <= n)%nat -> (n <= length l)%nat -> take n (l ++ xs) = l.
Proof. intros. replace n with (length l) by lia. apply take_app_length. Qed.

Lemma pending_subscription_quits rounds p n :
  receiver_quits p = Some n -> (length (sent p) <= n)%nat ->
  sent (run_pending_subscription rounds p) =
    take n (sent p ++ (PendingTransaction ∘ alloy_tx_to_pending_tx <$> until_stop rounds)).
Proof.
  revert p. induction rounds as [|[| |tx] rounds IH]; intros p Hq Hl; simpl;
    try (by rewrite app_nil_r, take_ge by lia).
  rewrite (send_event_quits _ _ n) by done. simpl.
  destruct (Nat.leb_spec n (length (sent p))); simpl; [by rewrite take_sent by lia|].
  rewrite IH; simpl; [by rewrite <- app_assoc|done|rewrite length_app; simpl; lia].
Qed.

Lemma block_subscription_quits rounds p n :
  receiver_quits p = Some n -> (length (sent p) <= n)%nat ->
  sent (run_block_subscription rounds p) =
    take n (sent p ++ (NewBlock ∘ block_update_of <$> omap found_block (until_stop rounds))).
Proof.
  revert p. induction rounds as [|[| |[[block|]|e]] rounds IH]; intros p Hq Hl; simpl;
    try (by rewrite app_nil_r, take_ge by lia); [|by apply IH|by apply IH].
  rewrite (send_event_quits _ _ n) by done. simpl.
  destruct (Nat.leb_spec n (length (sent p))); simpl; [by rewrite take_sent by lia|].
  rewrite IH; simpl; [by rewrite <- app_assoc|done|rewrite length_app; simpl; lia].
Qed.

Lemma pending_seen_iter n t :
  in_range u64 (pending_seen t) ->
  pending_seen (Nat.iter n record_pending_seen t) = cast_w u64 (pending_seen t + Z.of_nat n).
Proof.
  intros Ht. rewrite <- bump_u64_iter by done. induction n as [|n IH]; [done|].
  change (pending_seen (Nat.iter (S n) record_pending_seen t))
    with (bump_u64 (pending_seen (Nat.iter n record_pending_seen t))). by rewrite IH.
Qed.

Lemma block_count_fold (blocks : list RpcBlock) t :
  in_range u64 (block_count t) ->
  block_count (foldl (fun t b => record_block (Z.of_nat (length (block_txns b))) (block_gas_used b) t)
    t blocks) = cast_w u64 (block_count t + Z.of_nat (length blocks)).
Proof.
  intros Ht. rewrite <- bump_u64_iter by done. revert t Ht.
  induction blocks as [|b blocks IH]; intros t Ht; [done|]. simpl foldl. rewrite IH.
  - simpl length. by rewrite Nat.iter_succ_r.
  - unfold record_block, bump_u64. simpl. unfold cast_w. apply Z.mod_pos_bound. lia.
Qed.

(** ** Properties *)

(** The two subscription tasks forward, in order, an event for every
    header whose block was found and for every pending transaction before
    their stream ends or shutdown is signalled, and the telemetry counts
    them; when the tracker goes away after [n] events, exactly the first [n]
    were sent. *)
Theorem subscriptions_forward block_rounds tx_rounds p :
  in_range u64 (pending_seen (telemetry p)) -> in_range u64 (block_count (telemetry p)) ->
  let blocks := NewBlock ∘ block_update_of <$> omap found_block (until_stop block_rounds) in
  let txs := PendingTransaction ∘ alloy_tx_to_pending_tx <$> until_stop tx_rounds in
  (receiver_quits p = None ->
     sent (run_block_subscription block_rounds p) = sent p ++ blocks /\
     sent (run_pending_subscription tx_rounds p) = sent p ++ txs /\
     block_count (telemetry (run_block_subscription block_rounds p)) =
       cast_w u64 (block_count (telemetry p) + Z.of_nat (length blocks)) /\
     pending_seen (telemetry (run_pending_subscription tx_rounds p)) =
       cast_w u64 (pending_seen (telemetry p) + Z.of_nat (length txs))) /\
  (forall n, receiver_quits p = Some n -> (length (sent p) <= n)%nat ->
     sent (run_block_subscription block_rounds p) = take n (sent p ++ blocks) /\
     sent (run_pending_subscription tx_rounds p) = take n (sent p ++ txs)).
Proof.
  intros Ht Hb blocks txs. split.
  - intros Hq. rewrite block_subscription_live, pending_subscription_live by done.
    split; [done|]. split; [done|]. cbn [telemetry].
    rewrite pending_seen_iter, block_count_fold by done. subst txs blocks. by rewrite !length_fmap.
  - intros n Hq Hl. split; [by apply block_subscription_quits|by apply pending_subscription_quits].
Qed.

Section witnesses.
Definition demo_rpc_tx (n : Z) : RpcTransaction := MkRpcTx (100 + n) 1 n 50 (Some 5) 5 21000.

Definition demo_rounds : list (Selected RpcTransaction) :=
  [Next (demo_rpc_tx 0); Next (demo_rpc_tx 1); ShutdownSignal; Next (demo_rpc_tx 2)].

Definition demo_pipe : Pipe :=
  {| telemetry := RuntimeTelemetry_new Rpc_kind; sent := []; receiver_quits := None |}.

Lemma subscriptions_forward_witness :
  length (sent (run_pending_subscription demo_rounds demo_pipe)) = 2%nat /\
  pending_seen (telemetry (run_pending_subscription demo_rounds demo_pipe)) = 2.
Proof.
  assert (in_range u64 (pending_seen (telemetry demo_pipe))) as Hr by (by vm_compute).
  assert (in_range u64 (block_count (telemetry demo_pipe))) as Hb by (by vm_compute).
  destruct (subscriptions_forward [] demo_rounds demo_pipe Hr Hb) as [H _].
  destruct (H eq_refl) as (_ & H1 & _ & H2). rewrite H1, H2. split; vm_compute; reflexivity.
Defined.
End witnesses.
