(* ===== verification/TrackerSystem.v ===== *)
(** * The RPC transport and the tracker together ([crates/mempooloracle/src/transport/rpc.rs], lib.rs, runtime.rs)

    What [connect_erased_provider] starts: the three tasks that feed the
    channel, each with what its stream will yield, the tracker's thread at
    the other end, and the runtime whose drop stops the tasks.  The tasks and
    the tracker interleave, a round of a task or one event of the tracker at
    a time. *)

From stdpp Require Import strings list relations gmap.
From S2P Require Import Prelude Prog Float64 OrdSet Mempool MempoolInv MempoolSpec Runtime TrackerRpc.

(** ** Definitions *)

(** What a round of a task works on: a header's block, a pending transaction,
    the answer of the pool, and a transaction of that answer. *)
Inductive Item :=
  | BlockItem (found : result (option RpcBlock) string)
  | PendingItem (tx : RpcTransaction)
  | FetchedItem (txs : nat)
  | BackfillItem (tx : PendingTx).

(** The round, by the loops of TrackerRpc.v. *)
Definition do_item (x : Item) (p : Pipe) : Pipe :=
  match x with
  | BlockItem found => run_block_subscription [Next found] p
  | PendingItem tx => run_pending_subscription [Next tx] p
  | FetchedItem txs => with_telemetry (record_backfill_size (Z.of_nat txs)) p
  | BackfillItem tx => send_backfill [tx] (fun _ => false) p
  end.

(** The event that the round sends. *)
Definition item_event (x : Item) : option MempoolEvent :=
  match x with
  | BlockItem found => NewBlock ∘ block_update_of <$> found_block found
  | PendingItem tx => Some (PendingTransaction (alloy_tx_to_pending_tx tx))
  | FetchedItem _ => None
  | BackfillItem tx => Some (PendingTransaction tx)
  end.

(** What a task will find, and whether its stream ends then or stays open. *)
Record Feed := MkFeed { items : list Item; closes : bool }.

Inductive TrackerAt :=
  | Listening (self : MempoolInner)
  | Stopped (self : MempoolInner)
  | Crashed (p : panic).

(** A task is its feed, or [None] once it has ended and dropped its sender;
    [taken] counts the events that the tracker has received. *)
Record TrackerSystem := MkSystem {
  sys_tasks : list (option Feed);
  sys_pipe : Pipe;
  taken : nat;
  sys_tracker : TrackerAt;
  sys_alive : bool;
}.

Definition is_listening (t : TrackerAt) : bool :=
  match t with Listening _ => true | _ => false end.

(** The channel as a task sees it: sends fail once the tracker is gone. *)
Definition channel_of (t : TrackerAt) (p : Pipe) : Pipe :=
  {| telemetry := telemetry p; sent := sent p;
     receiver_quits := if is_listening t then None else Some 0%nat |}.

Definition set_task (i : nat) (t : option Feed) (s : TrackerSystem) : TrackerSystem :=
  MkSystem (<[i := t]> (sys_tasks s)) (sys_pipe s) (taken s) (sys_tracker s) (sys_alive s).
Definition set_pipe (p : Pipe) (s : TrackerSystem) : TrackerSystem :=
  MkSystem (sys_tasks s) p (taken s) (sys_tracker s) (sys_alive s).

(** The task after a round: it ends when its send failed. *)
Definition feed_after (t : TrackerAt) (x : Item) (rest : Feed) : option Feed :=
  match item_event x with
  | Some _ => if is_listening t then Some rest else None
  | None => Some rest
  end.

Section system.
Context `{BuildProfile} `{IterationOrder}.

Inductive sys_step : TrackerSystem -> TrackerSystem -> Prop :=
  | task_round i x xs c s :
      sys_tasks s !! i = Some (Some (MkFeed (x :: xs) c)) ->
      sys_step s (set_task i (feed_after (sys_tracker s) x (MkFeed xs c))
                   (set_pipe (do_item x (channel_of (sys_tracker s) (sys_pipe s))) s))
  | task_closes i s :
      sys_tasks s !! i = Some (Some (MkFeed [] true)) -> sys_step s (set_task i None s)
  (* the shutdown signal, or the abort *)
  | task_stops i f s :
      sys_alive s = false -> sys_tasks s !! i = Some (Some f) -> sys_step s (set_task i None s)
  (* [rx.recv()] gives an event *)
  | tracker_takes ts p n self event b :
      sent p !! n = Some event ->
      sys_step (MkSystem ts p n (Listening self) b)
        (MkSystem ts p (S n)
           (match handle_event event self with Val self' => Listening self' | Panic r => Crashed r end) b)
  (* [rx.recv()] fails: the channel is empty and every sender is dropped *)
  | tracker_ends ts p n self b :
      sent p !! n = None -> Forall (fun t => t = None) ts ->
      sys_step (MkSystem ts p n (Listening self) b) (MkSystem ts p n (Stopped self) b)
  | runtime_dropped ts p n t :
      sys_step (MkSystem ts p n t true) (MkSystem ts p n t false).

End system.

(** The streams of [connect_erased_provider] and the answers to its backfill. *)
Record RpcFeeds := MkRpcFeeds {
  block_stream : list (result (option RpcBlock) string);
  block_closes : bool;
  pending_stream : list RpcTransaction;
  pending_closes : bool;
  contents_answer : Timed TxpoolContents;
  content_answer : Timed TxpoolContents;
}.

Definition backfill_items (contents content : Timed TxpoolContents) : list Item :=
  match backfill_mempool contents content with
  | Ok txs => FetchedItem (length txs) :: (BackfillItem <$> txs)
  | Err _ => []
  end.

Definition rpc_tasks (f : RpcFeeds) : list Feed :=
  [ MkFeed (BlockItem <$> block_stream f) (block_closes f);
    MkFeed (PendingItem <$> pending_stream f) (pending_closes f);
    MkFeed (backfill_items (contents_answer f) (content_answer f)) true ].

Definition system_start (feeds : list Feed) (p : Pipe) (self : MempoolInner) : TrackerSystem :=
  MkSystem (Some <$> feeds) p 0 (Listening self) true.

(** [connect_erased_provider]: the subscriptions, the tracker, the tasks. *)
Definition rpc_system `{BuildProfile} (f : RpcFeeds) (config : TrackerConfig) (block_sub pending_sub : Timed unit)
    : run (result TrackerSystem TrackerError) :=
  match connect_erased_provider block_sub pending_sub with
  | Err e => Val (Err e)
  | Ok p =>
      self ← from_channel [] config;
      Val (Ok (system_start (rpc_tasks f) p self))
  end.

(** ** Lemmas *)

Definition events_of (l : list Item) : list MempoolEvent := omap item_event l.

Lemma events_of_snoc l x : events_of (l ++ [x]) = events_of l ++ option_list (item_event x).
Proof. unfold events_of. rewrite omap_app. simpl. by destruct (item_event x). Qed.

(** A round on a live channel appends its event and nothing else; on a dead
    one it appends nothing. *)
Lemma do_item_sent x t p :
  sent (do_item x (channel_of t p)) =
    sent p ++ (if is_listening t then option_list (item_event x) else []).
Proof.
  destruct t; simpl; destruct x as [[[b|]|e]|tx|n|tx]; simpl;
    unfold send_event; simpl; by rewrite ?app_nil_r.
Qed.

(** What task [i] has put on the channel. *)
Definition from_task (i : nat) (log : list (nat * MempoolEvent)) : list MempoolEvent :=
  (filter (fun e => e.1 = i) log).*2.

Lemma from_task_app i l1 l2 : from_task i (l1 ++ l2) = from_task i l1 ++ from_task i l2.
Proof. unfold from_task. by rewrite filter_app, fmap_app. Qed.

Lemma from_task_tagged i j (l : list MempoolEvent) :
  from_task i (pair j <$> l) = if decide (i = j) then l else [].
Proof.
  unfold from_task. induction l as [|e l IH]; simpl; [by case_decide|].
  rewrite filter_cons. simpl. destruct (decide (i = j)) as [->|Hij].
  - rewrite decide_True by done. rewrite fmap_cons. f_equal. exact IH.
  - rewrite decide_False by congruence. exact IH.
Qed.

(** Each task has done a prefix of its feed, the rest is what it holds. *)
Definition progress (log : list (nat * MempoolEvent)) (i : nat) (f : Feed) (t : option Feed) : Prop :=
  exists did rest, items f = did ++ rest /\ from_task i log = events_of did /\
    match t with Some f' => items f' = rest /\ closes f' = closes f | None => True end.

Section invariant.
Context `{BuildProfile} `{IterationOrder}.
Variable feeds : list Feed.
Variable self0 : MempoolInner.
Hypothesis Hself0 : mempool_ok self0.
Hypothesis Hsane : forall f, f ∈ feeds -> Forall event_sane (events_of (items f)).

Record system_inv (s : TrackerSystem) : Prop := {
  inv_log : exists log, sent (sys_pipe s) = log.*2 /\
    (forall e, e ∈ log -> (e.1 < length feeds)%nat) /\
    length (sys_tasks s) = length feeds /\
    forall i f t, feeds !! i = Some f -> sys_tasks s !! i = Some t -> progress log i f t;
  inv_taken : (taken s <= length (sent (sys_pipe s)))%nat;
  inv_tracker : exists self, tracker_run (take (taken s) (sent (sys_pipe s))) self0 = Val self /\
    mempool_ok self /\
    (sys_tracker s = Listening self \/
     sys_tracker s = Stopped self /\ taken s = length (sent (sys_pipe s)) /\
       Forall (fun t => t = None) (sys_tasks s));
}.

Lemma log_sane ts p log :
  sent p = log.*2 -> (forall e, e ∈ log -> (e.1 < length feeds)%nat) ->
  length (ts) = length feeds ->
  (forall i f t, feeds !! i = Some f -> ts !! i = Some t -> progress log i f t) ->
  Forall event_sane (sent p).
Proof.
  intros Hsent Hin Hlen Hprog. rewrite Hsent. apply Forall_forall. intros e He.
  apply list_elem_of_fmap in He as ([i e'] & -> & He). simpl.
  destruct (lookup_lt_is_Some_2 feeds i) as [f Hf]; [by apply (Hin _ He)|].
  destruct (lookup_lt_is_Some_2 (ts) i) as [t Ht]; [rewrite Hlen; by apply (Hin _ He)|].
  destruct (Hprog i f t Hf Ht) as (did & rest & Hit & Hev & _).
  assert (e' ∈ events_of did) as Hd.
  { rewrite <- Hev. unfold from_task. apply list_elem_of_fmap. exists (i, e'). split; [done|].
    by apply list_elem_of_filter. }
  pose proof (Hsane f (list_elem_of_lookup_2 _ _ _ Hf)) as Hs. rewrite Forall_forall in Hs. apply Hs.
  rewrite Hit. unfold events_of. rewrite omap_app. apply elem_of_app. by left.
Qed.

(** While a task runs the tracker listens. *)
Lemma running_listens s i f :
  system_inv s -> sys_tasks s !! i = Some (Some f) -> exists self, sys_tracker s = Listening self.
Proof.
  intros [_ _ (self & _ & _ & [Hl|(_ & _ & Hnone)])] Hi; [by exists self|].
  rewrite Forall_forall in Hnone. by specialize (Hnone _ (list_elem_of_lookup_2 _ _ _ Hi)).
Qed.

(** A task that goes from [t] to [t'] and appends [evs]. *)
Lemma task_inv s i f t' p' evs :
  system_inv s -> sys_tasks s !! i = Some (Some f) -> sent p' = sent (sys_pipe s) ++ evs ->
  (forall f0 log, progress log i f0 (Some f) -> progress (log ++ (pair i <$> evs)) i f0 t') ->
  system_inv (set_task i t' (set_pipe p' s)).
Proof.
  intros Hi Htask Hsent Hstep. destruct (running_listens _ _ _ Hi Htask) as [self1 Hl].
  destruct Hi as [(log & Hlog & Hin & Hlen & Hprog) Htaken (self & Hrun & Hok & Htr)].
  assert (i < length feeds)%nat as Hilt by (rewrite <- Hlen; by eapply lookup_lt_Some).
  split; simpl; [|rewrite Hsent, length_app; lia|].
  - exists (log ++ (pair i <$> evs)). split_and!.
    + rewrite Hsent, Hlog, fmap_app. f_equal. rewrite <- list_fmap_compose.
      symmetry. apply list_fmap_id.
    + intros e [He|He]%elem_of_app; [by apply Hin|].
      apply list_elem_of_fmap in He as (e' & -> & _). done.
    + by rewrite length_insert.
    + intros j f0 t Hf Ht. destruct (decide (i = j)) as [<-|Hij].
      * rewrite list_lookup_insert_eq in Ht by (rewrite Hlen; done). injection Ht as <-. eauto.
      * rewrite list_lookup_insert_ne in Ht by done.
        destruct (Hprog j f0 t Hf Ht) as (did & rest & ? & Hev & ?). exists did, rest. split; [done|].
        split; [|done]. rewrite from_task_app, from_task_tagged, decide_False, app_nil_r by congruence. done.
  - rewrite Hsent, take_app_le by done. exists self. split; [done|]. split; [done|].
    left. destruct Htr as [Htr|[Htr _]]; congruence.
Qed.

Lemma sys_step_inv s s' : sys_step s s' -> system_inv s -> system_inv s'.
Proof.
  intros Hs Hi. destruct Hs as [i x xs c s Ht|i s Ht|i f s Ha Ht|ts p n self event b He|ts p n self b He Hn|ts p n t].
  - destruct (running_listens _ _ _ Hi Ht) as [self Hl].
    eapply task_inv; [done|done|apply do_item_sent|]. rewrite Hl. simpl.
    intros f0 log (did & rest & Hit & Hev & <- & Hc). exists (did ++ [x]), xs.
    split; [rewrite Hit; by rewrite <- app_assoc|]. split.
    + rewrite from_task_app, from_task_tagged, decide_True, events_of_snoc by done. by f_equal.
    + unfold feed_after. simpl. by destruct (item_event x).
  - eapply (task_inv s i _ None (sys_pipe s) []) in Hi; [by destruct s|done|by rewrite app_nil_r|].
    intros f0 log (did & rest & ? & ? & _). exists did, rest. by rewrite app_nil_r.
  - eapply (task_inv s i _ None (sys_pipe s) []) in Hi; [by destruct s|done|by rewrite app_nil_r|].
    intros f0 log (did & rest & ? & ? & _). exists did, rest. by rewrite app_nil_r.
  - destruct Hi as [Hlog Htaken (self' & Hrun & Hok & Htr)]. simpl in *.
    destruct Htr as [[= <-]|[[=] _]]. pose proof Hlog as (log & H1 & H2 & H3 & H4).
    assert (event_sane event) as Hes.
    { pose proof (log_sane ts p log H1 H2 H3 H4) as Hs. rewrite Forall_forall in Hs.
      apply Hs. by eapply list_elem_of_lookup_2. }
    split; simpl; [done|by apply lookup_lt_Some in He|].
    rewrite (take_S_r _ _ event) by done. unfold tracker_run in *. rewrite for_each_app, Hrun. simpl.
    destruct (tracker_events_ok [event] self Hok) as (self' & Hself' & Hok' & _); [by repeat constructor|].
    unfold tracker_run in Hself'. simpl in Hself'.
    destruct (handle_event event self) as [s2|]; [|done]. injection Hself' as ->.
    exists self'. split; [done|]. split; [done|]. by left.
  - destruct Hi as [Hlog Htaken (self' & Hrun & Hok & Htr)]. simpl in *.
    destruct Htr as [[= <-]|[[=] _]]. split; simpl; [done|done|]. exists self. split; [done|]. split; [done|].
    right. split; [done|]. split; [|done]. apply lookup_ge_None in He. lia.
  - destruct Hi as [Hlog Htaken Htr]. by split.
Qed.

Lemma start_inv p : sent p = [] -> system_inv (system_start feeds p self0).
Proof.
  intros Hp. split; simpl; [|lia|].
  - exists []. split; [done|]. split; [by intros e ?%elem_of_nil|]. split; [by rewrite length_fmap|].
    intros i f t Hf Ht. rewrite list_lookup_fmap, Hf in Ht. injection Ht as <-.
    exists [], (items f). done.
  - exists self0. split; [done|]. split; [done|]. by left.
Qed.

Lemma system_reachable_inv p s :
  sent p = [] -> rtc sys_step (system_start feeds p self0) s -> system_inv s.
Proof. intros Hp Hr. eapply rtc_inv; [apply sys_step_inv|exact Hr|by apply start_inv]. Qed.

End invariant.

(** ** Progress *)

Definition feed_work (t : option Feed) : nat :=
  match t with Some f => 2 * length (items f) + 1 | None => 0 end.

Definition system_work (s : TrackerSystem) : nat :=
  foldr (fun t n => feed_work t + n)%nat 0%nat (sys_tasks s) +
  (length (sent (sys_pipe s)) - taken s) +
  (if is_listening (sys_tracker s) then 1 else 0) + (if sys_alive s then 1 else 0).

Lemma feed_after_work t x f : (feed_work (feed_after t x f) <= feed_work (Some f))%nat.
Proof. unfold feed_after. destruct (item_event x), (is_listening t); simpl; lia. Qed.

Lemma sys_step_work `{BuildProfile} `{IterationOrder} s s' :
  sys_step s s' -> (system_work s' < system_work s)%nat.
Proof.
  intros [i x xs c s1 Ht|i s1 Ht|i f s1 Ha Ht|ts p n self event b He|ts p n self b He Hn|ts p n t];
    unfold system_work.
  - pose proof (total_insert feed_work _ _ _ (feed_after (sys_tracker s1) x (MkFeed xs c)) Ht) as Hw.
    pose proof (feed_after_work (sys_tracker s1) x (MkFeed xs c)) as Hf.
    cbn [set_task set_pipe sys_tasks sys_pipe taken sys_tracker sys_alive].
    rewrite do_item_sent, length_app.
    assert (length (if is_listening (sys_tracker s1) then option_list (item_event x) else []) <= 1)%nat
      by (destruct (is_listening _), (item_event x); simpl; lia).
    simpl in *. lia.
  - pose proof (total_insert feed_work _ _ _ None Ht) as Hw. simpl in *. lia.
  - pose proof (total_insert feed_work _ _ _ None Ht) as Hw. simpl in *. lia.
  - apply lookup_lt_Some in He. simpl. destruct (handle_event event self); simpl; lia.
  - simpl. lia.
  - simpl. lia.
Qed.

(** Some task still has something to do: a round, the end of its stream, or
    to stop. *)
Definition idle_task (alive : bool) (t : option Feed) : Prop :=
  match t with Some f => items f = [] /\ closes f = false /\ alive = true | None => True end.

#[export] Instance idle_task_dec alive t : Decision (idle_task alive t).
Proof.
  destruct t as [[[|x xs] c]|]; simpl; [|right; by intros (? & _)|by left].
  destruct (decide (c = false /\ alive = true)); [left; tauto|right; tauto].
Defined.

Lemma busy_steps `{BuildProfile} `{IterationOrder} s :
  Forall (idle_task (sys_alive s)) (sys_tasks s) \/
  exists s', sys_step s s' /\ sys_alive s' = sys_alive s.
Proof.
  destruct (decide (Forall (idle_task (sys_alive s)) (sys_tasks s))) as [|Hn]; [by left|].
  right. apply not_Forall_Exists in Hn; [|apply _]. apply Exists_exists in Hn as (t & Hin & Ht).
  apply list_elem_of_lookup in Hin as [i Hi]. destruct t as [[[|x xs] c]|]; simpl in Ht; [| |done].
  - destruct c.
    + eexists. split; [by apply task_closes|done].
    + destruct (sys_alive s) eqn:Ha; [by destruct Ht|]. eexists. split; [by eapply task_stops|done].
  - eexists. split; [by eapply task_round|done].
Qed.

(** At rest: no task can go on, and nothing but the drop is possible. *)
Lemma rest_of_system `{BuildProfile} `{IterationOrder} self0 s self :
  (taken s <= length (sent (sys_pipe s)))%nat ->
  tracker_run (take (taken s) (sent (sys_pipe s))) self0 = Val self ->
  sys_tracker s = Listening self \/
    sys_tracker s = Stopped self /\ taken s = length (sent (sys_pipe s)) /\
      Forall (fun t => t = None) (sys_tasks s) ->
  Forall (idle_task (sys_alive s)) (sys_tasks s) ->
  (forall s', sys_step s s' -> sys_alive s' <> sys_alive s) ->
  exists self, tracker_run (sent (sys_pipe s)) self0 = Val self /\
    Forall (idle_task (sys_alive s)) (sys_tasks s) /\
    (sys_tracker s = Stopped self \/
     sys_tracker s = Listening self /\ sys_alive s = true /\
       exists i feed, sys_tasks s !! i = Some (Some feed)) /\
    (sys_alive s = false -> sys_tracker s = Stopped self /\ Forall (fun t => t = None) (sys_tasks s)).
Proof.
  intros Htaken Hrun Htr Hidle Hrest.
  assert (sys_alive s = false -> Forall (fun t => t = None) (sys_tasks s)) as Hdead.
  { intros Ha. rewrite Ha in Hidle. eapply Forall_impl; [exact Hidle|].
    intros [f|]; [by intros (_ & _ & ?)|done]. }
  destruct Htr as [Hl|(Hst & Hn & Hnone)].
  2: { exists self. rewrite Hn, firstn_all in Hrun. split; [done|]. split; [done|]. split; [by left|done]. }
  destruct s as [ts q n t b]; simpl in *. subst t.
  destruct (sent q !! n) as [event|] eqn:He.
  { by destruct (Hrest _ (tracker_takes ts q n self event b He)). }
  assert (n = length (sent q)) as Hn by (apply lookup_ge_None in He; lia).
  rewrite Hn, firstn_all in Hrun. exists self. split; [done|]. split; [done|].
  destruct (decide (Forall (fun t => t = None) ts)) as [Hnone|Hsome].
  { by destruct (Hrest _ (tracker_ends ts q n self b He Hnone)). }
  split; [|intros ->; by destruct Hsome; apply Hdead]. right. split; [done|].
  split; [destruct b; [done|by destruct Hsome; apply Hdead]|].
  apply not_Forall_Exists in Hsome; [|apply _]. apply Exists_exists in Hsome as ([f|] & Hin & Hne); [|by destruct Hne].
  apply list_elem_of_lookup in Hin as [i Hi]. by exists i, f.
Qed.

(** What [rpc_system] starts from. *)
Record start_sane (f : RpcFeeds) (config : TrackerConfig) : Prop := {
  sane_config : config_sane config;
  sane_events : forall feed, feed ∈ rpc_tasks f -> Forall event_sane (events_of (items feed));
}.

Section theorems.
Context `{BuildProfile} `{IterationOrder}.
Variables (f : RpcFeeds) (cfg : TrackerConfig) (block_sub pending_sub : Timed unit).
Hypothesis Hsane : start_sane f cfg.

Lemma rpc_system_start s0 :
  rpc_system f cfg block_sub pending_sub = Val (Ok s0) ->
  exists p self0, s0 = system_start (rpc_tasks f) p self0 /\ sent p = [] /\
    from_channel [] cfg = Val self0 /\ mempool_ok self0.
Proof.
  unfold rpc_system, connect_erased_provider.
  destruct (from_channel_ok cfg []) as (self0 & -> & Hok & _); [apply Hsane|done|].
  destruct (timed_out_or _ block_sub); [|done]. destruct (timed_out_or _ pending_sub); [|done].
  intros [= <-]. by eexists _, self0.
Qed.

Lemma rpc_reachable s0 s :
  rpc_system f cfg block_sub pending_sub = Val (Ok s0) -> rtc sys_step s0 s ->
  exists self0, from_channel [] cfg = Val self0 /\ system_inv (rpc_tasks f) self0 s.
Proof.
  intros Hs0 Hr. destruct (rpc_system_start s0 Hs0) as (p & self0 & -> & Hp & Hself0 & Hok).
  exists self0. split; [done|]. eapply system_reachable_inv; [done|apply Hsane|done..].
Qed.

(** C28: in every state of the running transport the channel carries what the
    three tasks sent, each its own events in the order of its stream without
    gap or repetition; the tracker has not panicked, is well formed, and holds
    exactly the result of the events it has taken so far; and when its loop
    has ended, every task is gone and every event was applied. *)
Theorem tracker_follows_tasks s0 s :
  rpc_system f cfg block_sub pending_sub = Val (Ok s0) -> rtc sys_step s0 s ->
  (exists log, sent (sys_pipe s) = log.*2 /\ (forall e, e ∈ log -> (e.1 < 3)%nat) /\
     forall i feed, rpc_tasks f !! i = Some feed -> exists did rest,
       items feed = did ++ rest /\ from_task i log = events_of did /\
       forall feed', sys_tasks s !! i = Some (Some feed') -> items feed' = rest) /\
  exists self, (start ← from_channel [] cfg;
                tracker_run (take (taken s) (sent (sys_pipe s))) start) = Val self /\
    mempool_ok self /\
    (sys_tracker s = Listening self \/
     sys_tracker s = Stopped self /\ taken s = length (sent (sys_pipe s)) /\
       Forall (fun t => t = None) (sys_tasks s)).
Proof.
  intros Hs0 Hr. destruct (rpc_reachable s0 s Hs0 Hr) as (self0 & -> & [(log & Hl & Hin & Hlen & Hprog) _ Htr]).
  split; [|done]. exists log. split; [done|]. split; [done|]. intros i feed Hf.
  destruct (lookup_lt_is_Some_2 (sys_tasks s) i) as [t Ht]; [rewrite Hlen; by eapply lookup_lt_Some|].
  destruct (Hprog i feed t Hf Ht) as (did & rest & ? & ? & Hrest). exists did, rest. split; [done|].
  split; [done|]. intros feed' Hf'. rewrite Ht in Hf'. injection Hf' as ->. by destruct Hrest.
Qed.

(** C29: the transport always comes to rest: it has no infinite run.  While the
    runtime lives, a state in which only dropping it is possible has served
    every stream, with no task left or only tasks that wait on an open
    stream, and the tracker has applied every event.  Once the runtime is
    dropped the whole of it stops: where no step is left, all tasks have
    ended and the tracker has applied every event that was sent and
    returned. *)
Theorem tracker_system_rests s0 s :
  rpc_system f cfg block_sub pending_sub = Val (Ok s0) -> rtc sys_step s0 s ->
  sn sys_step s /\
  ((forall s', sys_step s s' -> sys_alive s' <> sys_alive s) ->
   exists self, (start ← from_channel [] cfg; tracker_run (sent (sys_pipe s)) start) = Val self /\
     Forall (idle_task (sys_alive s)) (sys_tasks s) /\
     (sys_tracker s = Stopped self \/
      sys_tracker s = Listening self /\ sys_alive s = true /\
        exists i feed, sys_tasks s !! i = Some (Some feed)) /\
     (sys_alive s = false -> sys_tracker s = Stopped self /\ Forall (fun t => t = None) (sys_tasks s))).
Proof.
  intros Hs0 Hr. split; [apply (sn_measure _ system_work), sys_step_work|]. intros Hrest.
  destruct (rpc_reachable s0 s Hs0 Hr) as (self0 & -> & [_ Htaken (self & Hrun & Hself & Htr)]).
  cbn [mbind run_bind]. destruct (busy_steps s) as [Hidle|(s' & Hs' & Ha)]; [|by destruct (Hrest s' Hs')].
  by eapply rest_of_system.
Qed.

End theorems.

Section witnesses.
#[local] Instance system_ci_checks : BuildProfile := true.
#[local] Instance system_order : IterationOrder :=
  {| hash_entries := map_to_list; hash_entries_perm := fun m => Permutation_refl _ |}.

Definition system_config : TrackerConfig :=
  {| initial_base_fee := 10; global_capacity := 10; per_account_capacity := 4;
     private_flow_prior := f64_tenth |}.

(** A block and a pending transaction, on streams that stay open, and a pool
    with one transaction. *)
Definition system_feeds : RpcFeeds := {|
  block_stream := [Err "gone"; Ok (Some (MkRpcBlock [] (Some 11) None 21000 30000000))];
  block_closes := false;
  pending_stream := [MkRpcTx 1 5 0 50 (Some 2) 2 21000];
  pending_closes := false;
  contents_answer := TimedOut;
  content_answer := Answered (Ok (MkTxpool [[MkRpcTx 2 6 0 50 None 3 21000]] []));
|}.

Lemma system_feeds_sane : start_sane system_feeds system_config.
Proof.
  split; [split; simpl; lia|]. apply Forall_forall. repeat constructor; by vm_compute.
Qed.

Definition connected_ok : Timed unit := Answered (Ok tt).

Definition system_pipe : Pipe :=
  {| telemetry := RuntimeTelemetry_new Rpc_kind; sent := []; receiver_quits := None |}.

Definition system_s0 : TrackerSystem :=
  system_start (rpc_tasks system_feeds) system_pipe (empty_inner system_config).

Lemma system_s0_start :
  rpc_system system_feeds system_config connected_ok connected_ok = Val (Ok system_s0).
Proof. reflexivity. Qed.

(** The pending task sends its transaction and the tracker takes it. *)
Lemma system_runs : exists s, rtc sys_step system_s0 s /\ taken s = 1%nat /\
  sent (sys_pipe s) = [PendingTransaction (MkPendingTx 1 5 0 50 2 21000)].
Proof.
  eexists. split; [|split].
  - eapply rtc_l; [by apply (task_round 1)|].
    eapply rtc_l; [by apply (tracker_takes _ _ 0)|]. apply rtc_refl.
  - reflexivity.
  - reflexivity.
Qed.

Lemma tracker_follows_tasks_witness :
  exists s self, rtc sys_step system_s0 s /\
    (start ← from_channel [] system_config;
     tracker_run [PendingTransaction (MkPendingTx 1 5 0 50 2 21000)] start) = Val self /\
    mempool_ok self.
Proof.
  destruct system_runs as (s & Hr & Hn & Hs).
  destruct (tracker_follows_tasks system_feeds system_config connected_ok connected_ok system_feeds_sane
    system_s0 s system_s0_start Hr) as (_ & self & Hrun & Hok & _).
  rewrite Hn, Hs in Hrun. by exists s, self.
Defined.

Lemma tracker_system_rests_witness : sn sys_step system_s0.
Proof.
  exact (proj1 (tracker_system_rests system_feeds system_config connected_ok connected_ok system_feeds_sane
    system_s0 system_s0 system_s0_start (rtc_refl _ _))).
Defined.
End witnesses.
