(* ===== verification/TrackerP2p.v ===== *)
(** * The P2P transport of the tracker ([crates/mempooloracle/src/transport/p2p.rs])

    The configuration of a transport and [MempoolTracker::connect] (lib.rs);
    [connect_with_config]; the tasks on the embedded pool and on the peer
    sessions; the block poller.  Reth's pool, network manager and sessions
    are parameters: the fields that the code reads and the answers that it
    gets.  A task reads what its [select!] chose in each round, as in
    TrackerRpc.v. *)

From stdpp Require Import strings gmap sorting.
From S2P Require Import Prelude Float64 OrdSet Mempool Runtime TrackerRpc.

(** ** Configuration *)

Inductive ConsensusTransportImplementation := Eth2Libp2p.

Record ConsensusTransportConfig := MkConsensus { implementation : ConsensusTransportImplementation }.

Inductive P2pBlockTransport :=
  | ExecutionPolling
  | Consensus (consensus : ConsensusTransportConfig).

(** [listen_addr] is a socket address in its textual form. *)
Record P2pTransportConfig := MkP2pConfig {
  chain : string;
  bootnodes : list string;
  discovery_v4 : bool;
  listen_addr : option string;
  block_transport : P2pBlockTransport;
}.

(** [ws] is the URL of Alloy's [WsConnect]. *)
Record RpcTransportConfig := MkRpcConfig { ws : string }.

Inductive TrackerTransport :=
  | RpcTransport (config : RpcTransportConfig)
  | P2pTransport (config : P2pTransportConfig).

(** The Cargo features of the crate; none is on by default. *)
Class Features := MkFeatures { reth_p2p : bool; consensus_p2p : bool }.

(** ** Connecting *)

Section connect.
Context `{Features}.
(** [TrustedPeer::from_str] and [NetworkManager::builder] of Reth. *)
Context {TrustedPeer : Type} (trusted_peer_from_str : string -> result TrustedPeer string).

(** What the builder of the network configuration collects; [boot_nodes] is
    [None] for the nodes of mainnet. *)
Record NetworkConfig := MkNetwork {
  network_addr : option string;
  boot_nodes : option (list TrustedPeer);
  discv4 : bool;
}.

Context (build_network : NetworkConfig -> result unit string).

Inductive TaskName :=
  | NetworkTask | TxpoolTask | PendingTask | BackfillTask | PeerEventsTask | BlockPollerTask.

(** The runtime that [connect_with_config] would return: its pipe and tasks. *)
Record P2pRuntime := MkP2pRuntime { p2p_pipe : Pipe; p2p_tasks : list TaskName }.

(** [collect] into a [Result]: the first error. *)
Fixpoint parse_bootnodes (nodes : list string) : result (list TrustedPeer) TrackerError :=
  match nodes with
  | [] => Ok []
  | node :: nodes =>
      match trusted_peer_from_str node with
      | Err err => Err (Setup ("failed to parse bootnode `" +:+ node +:+ "`: " +:+ err))
      | Ok peer =>
          match parse_bootnodes nodes with
          | Err e => Err e
          | Ok peers => Ok (peer :: peers)
          end
      end
  end.

(** The checks at the start; no arm of the match goes on. *)
Definition check_config (config : P2pTransportConfig) : result unit TrackerError :=
  if String.eqb (chain config) "mainnet" then
    match block_transport config with
    | ExecutionPolling =>
        Err (UnsupportedTransport "execution p2p block polling does not cover mainnet PoS head blocks; use a consensus block transport instead")
    | Consensus consensus =>
        if consensus_p2p then
          Err (UnsupportedTransport "consensus p2p block transport is not implemented yet")
        else Err (FeatureDisabled "consensus-p2p")
    end
  else Err (UnsupportedTransport "embedded reth p2p currently supports mainnet only").

(** The set-up that follows the checks. *)
Definition start_network (config : P2pTransportConfig) : result P2pRuntime TrackerError :=
  let nodes := match bootnodes config with
               | [] => Ok None
               | _ => match parse_bootnodes (bootnodes config) with
                      | Err e => Err e
                      | Ok boot_nodes => Ok (Some boot_nodes)
                      end
               end in
  match nodes with
  | Err e => Err e
  | Ok boot_nodes =>
      match build_network {| network_addr := listen_addr config; boot_nodes := boot_nodes;
                             discv4 := discovery_v4 config |} with
      | Err err => Err (Setup err)
      | Ok _ =>
          Ok {| p2p_pipe := {| telemetry := RuntimeTelemetry_new P2p_kind; sent := [];
                               receiver_quits := None |};
                p2p_tasks :=
                  [NetworkTask; TxpoolTask; PendingTask; BackfillTask; PeerEventsTask] ++
                  match block_transport config with
                  | ExecutionPolling => [BlockPollerTask]
                  | Consensus _ => []
                  end |}
      end
  end.

Definition p2p_connect_with_config (config : P2pTransportConfig) : result P2pRuntime TrackerError :=
  if reth_p2p then
    match check_config config with
    | Err e => Err e
    | Ok _ => start_network config
    end
  else Err (FeatureDisabled "reth-p2p").

(** [MempoolTracker::connect]; the answers of the RPC node as in
    [connect_with_builder]. *)
Definition connect (transport : TrackerTransport) (connected block_sub pending_sub : Timed unit)
    : result (Pipe + P2pRuntime) TrackerError :=
  match transport with
  | RpcTransport rpc_config =>
      match connect_with_builder connected block_sub pending_sub with
      | Err e => Err e
      | Ok pipe => Ok (inl pipe)
      end
  | P2pTransport p2p_config =>
      match p2p_connect_with_config p2p_config with
      | Err e => Err e
      | Ok runtime => Ok (inr runtime)
      end
  end.

End connect.

(** ** The embedded pool *)

(** [ValidPoolTransaction]; the tip is absent for a legacy transaction. *)
Record PoolTransaction := MkPoolTx {
  pool_hash : Z;
  pool_sender : Z;
  pool_nonce : Z;
  pool_max_fee : Z;
  pool_tip : option Z;
  pool_fee_or_price : Z;
  pool_gas_limit : Z;
}.

Definition pending_tx_from_reth (tx : PoolTransaction) : PendingTx :=
  {| id := pool_hash tx;
     sender := pool_sender tx;
     nonce := pool_nonce tx;
     max_fee_per_gas := pool_max_fee tx;
     max_priority_fee_per_gas := default (pool_fee_or_price tx) (pool_tip tx);
     gas_limit := pool_gas_limit tx |}.

(** A [select!] of one branch with an [else]: the [else] runs only when the
    pattern of the branch refuses the value of its future; [None] while the
    future has no value. *)
Definition select_or_else {A B} (future : option A) (pattern : A -> bool)
    (handler : A -> B) (otherwise : B) : option B :=
  match future with
  | None => None
  | Some a => Some (if pattern a then handler a else otherwise)
  end.

(** The loop of [run_backfill]; [changed] is what [shutdown.changed()] yields
    while so many transactions are left.  The pipe is what the task has sent
    when it ends or waits for good. *)
Fixpoint p2p_send_backfill (txs : list PendingTx) (changed : nat -> option (result unit unit))
    (p : Pipe) : Pipe :=
  match txs with
  | [] => p
  | tx :: rest =>
      match select_or_else (changed (length txs)) (fun _ => true) (fun _ => None)
              (send_event (PendingTransaction tx) p) with
      | None => p
      | Some None => p
      | Some (Some p) => p2p_send_backfill rest changed p
      end
  end.

Definition p2p_run_backfill (pooled : list PoolTransaction)
    (changed : nat -> option (result unit unit)) (p : Pipe) : Pipe :=
  let existing := pending_tx_from_reth <$> pooled in
  p2p_send_backfill existing changed
    (with_telemetry (record_backfill_size (Z.of_nat (length existing))) p).

Definition record_pooled (t : RuntimeTelemetry) : RuntimeTelemetry :=
  record_p2p_import (record_pending_seen t).

(** A round yields a hash of the listener, as what [pool.get] answers for it. *)
Fixpoint run_pending_listener (rounds : list (Selected (option PoolTransaction))) (p : Pipe) : Pipe :=
  match rounds with
  | [] => p
  | ShutdownSignal :: _ | StreamEnded :: _ => p
  | Next None :: rounds => run_pending_listener rounds p
  | Next (Some tx) :: rounds =>
      let p := with_telemetry record_pooled p in
      match send_event (PendingTransaction (pending_tx_from_reth tx)) p with
      | None => p
      | Some p => run_pending_listener rounds p
      end
  end.

(** ** Peer sessions *)

(** [requests] names the channel to the session. *)
Record PeerSession := MkSession {
  latest_block : option Z;   (* u64 *)
  head_hash : Z;
  requests : Z;
}.

Inductive NetworkEvent :=
  | ActivePeerSession (peer_id : Z) (session : PeerSession)
  | SessionClosed (peer_id : Z)
  | PeerRemoved (peer_id : Z)
  | OtherEvent.

(** The shared map of sessions and the telemetry. *)
Record Peers := MkPeers { sessions : gmap Z PeerSession; peer_telemetry : RuntimeTelemetry }.

Definition with_sessions (m : gmap Z PeerSession) (s : Peers) : Peers :=
  {| sessions := m;
     peer_telemetry := record_p2p_peer_count (Z.of_nat (size m)) (peer_telemetry s) |}.

Definition on_network_event (event : NetworkEvent) (s : Peers) : Peers :=
  match event with
  | ActivePeerSession peer_id session => with_sessions (<[peer_id := session]> (sessions s)) s
  | SessionClosed peer_id | PeerRemoved peer_id => with_sessions (delete peer_id (sessions s)) s
  | OtherEvent => s
  end.

Fixpoint run_peer_event_listener (rounds : list (Selected NetworkEvent)) (s : Peers) : Peers :=
  match rounds with
  | [] => s
  | ShutdownSignal :: _ | StreamEnded :: _ => s
  | Next event :: rounds => run_peer_event_listener rounds (on_network_event event s)
  end.

(** ** The block poller *)

Definition MAX_HEADERS_PER_POLL : Z := 8.

Inductive BlockHashOrNumber := ByHash (hash : Z) | ByNumber (number : Z).

(** [skip] is always 0 and the direction always [Rising]. *)
Record GetBlockHeaders := MkGetHeaders { start_block : BlockHashOrNumber; limit : Z }.

Record Header := MkHeader {
  header_hash : Z;                        (* hash_slow() *)
  header_number : Z;                      (* u64 *)
  header_next_base_fee : option Z;
  header_base_fee : option Z;
  header_gas_used : Z;
  p2p_gas_limit : Z;
}.

(** [signer] is what [recover_signer] gives. *)
Record TransactionSigned := MkSigned {
  signed_hash : Z;
  signer : option Z;
  signed_nonce : Z;
  signed_max_fee : Z;
  signed_tip : option Z;
  signed_gas_limit : Z;
}.

Record BlockBody := MkBody { transactions : list TransactionSigned }.

(** The outcomes of a request to a peer: the send, the timeout, the response
    channel and the response. *)
Inductive PeerAnswer (A : Type) :=
  | SendFailed (err : string)
  | NoResponse
  | ChannelDropped (err : string)
  | RequestFailed (err : string)
  | Responded (a : A).
Arguments SendFailed {A} err.
Arguments NoResponse {A}.
Arguments ChannelDropped {A} err.
Arguments RequestFailed {A} err.
Arguments Responded {A} a.

Definition pending_tx_from_signed (tx : TransactionSigned) : option PendingTx :=
  match signer tx with
  | None => None
  | Some sender =>
      Some {| id := signed_hash tx;
              sender := sender;
              nonce := signed_nonce tx;
              max_fee_per_gas := signed_max_fee tx;
              max_priority_fee_per_gas := default 0 (signed_tip tx);
              gas_limit := signed_gas_limit tx |}
  end.

Definition block_update_from_header_body (header : Header) (body : BlockBody) : BlockUpdate :=
  {| included_txs := omap pending_tx_from_signed (transactions body);
     new_base_fee := match header_next_base_fee header with
                     | Some fee => fee
                     | None => default 0 (header_base_fee header)
                     end;
     gas_used := header_gas_used header;
     block_gas_limit := p2p_gas_limit header |}.

(** The request of [request_next_headers]. *)
Definition headers_request (peer : PeerSession) (next_block_number : option Z) : GetBlockHeaders :=
  match next_block_number with
  | Some number => {| start_block := ByNumber number; limit := MAX_HEADERS_PER_POLL |}
  | None =>
      match latest_block peer with
      | Some number => {| start_block := ByNumber number; limit := 1 |}
      | None => {| start_block := ByHash (head_hash peer); limit := 1 |}
      end
  end.

Definition request_next_headers (ask : PeerSession -> GetBlockHeaders -> PeerAnswer (list Header))
    (peer : PeerSession) (next_block_number : option Z) : result (list Header) TrackerError :=
  match ask peer (headers_request peer next_block_number) with
  | SendFailed err => Err (Setup ("failed to request block headers: " +:+ err))
  | NoResponse => Err (Timeout_at "p2p getBlockHeaders")
  | ChannelDropped err => Err (Setup ("header response channel dropped: " +:+ err))
  | RequestFailed err => Err (Setup ("block header request failed: " +:+ err))
  | Responded headers => Ok headers
  end.

Definition request_block_body (ask : PeerSession -> Z -> PeerAnswer (list BlockBody))
    (peer : PeerSession) (block_hash : Z) : option BlockBody :=
  match ask peer block_hash with
  | Responded bodies => head bodies
  | _ => None
  end.

(** [Iterator::max_by_key]: the last of the greatest. *)
Definition max_by_key {A} (key : A -> Z) (l : list A) : option A :=
  foldl (fun best x => match best with
                       | Some b => if key b <=? key x then Some x else Some b
                       | None => Some x
                       end) None l.

Section poller.
Context `{BuildProfile}.

(** The filter of [select_peer], which computes [latest + 1] unguarded. *)
Definition can_serve (target : Z) (session : PeerSession) : run bool :=
  match latest_block session with
  | None => Val true
  | Some latest => next ← add_w u64 latest 1; Val (next >=? target)
  end.

Fixpoint filter_run {A} (f : A -> run bool) (l : list A) : run (list A) :=
  match l with
  | [] => Val []
  | a :: l => keep ← f a; rest ← filter_run f l; Val (if keep : bool then a :: rest else rest)
  end.

Definition block_height (session : PeerSession) : Z := default 0 (latest_block session).

(** [values] are the sessions of the map in one order of its traversal. *)
Definition select_peer (values : list PeerSession) (next_block_number : option Z)
    : run (option PeerSession) :=
  match next_block_number with
  | Some target =>
      able ← filter_run (can_serve target) values;
      Val (match max_by_key block_height able with
           | Some session => Some session
           | None => head values
           end)
  | None => Val (max_by_key block_height values)
  end.

(** The local variables of [run_block_poller] and its pipe. *)
Record PollState := MkPoll {
  next_block_number : option Z;
  last_block_hash : option Z;
  poll_pipe : Pipe;
}.

(** What the peers do in one round: the sessions and their answers. *)
Record PollRound := MkRound {
  round_sessions : list PeerSession;
  answer_headers : PeerSession -> GetBlockHeaders -> PeerAnswer (list Header);
  answer_body : PeerSession -> Z -> PeerAnswer (list BlockBody);
}.

(** The loop over the headers of a response; true when the task returns. *)
Fixpoint poll_headers (round : PollRound) (peer : PeerSession) (headers : list Header) (st : PollState)
    : run (PollState * bool) :=
  match headers with
  | [] => Val (st, false)
  | header :: headers =>
      if decide (last_block_hash st = Some (header_hash header)) then
        next ← add_w u64 (header_number header) 1;
        poll_headers round peer headers (MkPoll (Some next) (last_block_hash st) (poll_pipe st))
      else
        match request_block_body (answer_body round) peer (header_hash header) with
        | None => Val (st, false)
        | Some body =>
            let block_update := block_update_from_header_body header body in
            let p := with_telemetry (record_block (Z.of_nat (length (included_txs block_update)))
                                                  (gas_used block_update)) (poll_pipe st) in
            match send_event (NewBlock block_update) p with
            | None => Val (MkPoll (next_block_number st) (last_block_hash st) p, true)
            | Some p =>
                next ← add_w u64 (header_number header) 1;
                poll_headers round peer headers (MkPoll (Some next) (Some (header_hash header)) p)
            end
        end
  end.

Definition poll_round (round : PollRound) (st : PollState) : run (PollState * bool) :=
  peer ← select_peer (round_sessions round) (next_block_number st);
  match peer with
  | None => Val (st, false)
  | Some peer =>
      match request_next_headers (answer_headers round) peer (next_block_number st) with
      | Ok (header :: headers) => poll_headers round peer (header :: headers) st
      | _ => Val (st, false)
      end
  end.

(** The ticks of the interval, [None] for the shutdown signal. *)
Fixpoint run_block_poller (rounds : list (option PollRound)) (st : PollState) : run PollState :=
  match rounds with
  | [] | None :: _ => Val st
  | Some round :: rounds =>
      polled ← poll_round round st;
      let '(st, returned) := polled in
      if returned : bool then Val st else run_block_poller rounds st
  end.

Definition poller_start (p : Pipe) : PollState := MkPoll None None p.

End poller.

(** ** Lemmas *)

Lemma pending_listener_live rounds p :
  receiver_quits p = None ->
  let txs := omap (fun tx => tx) (until_stop rounds) in
  run_pending_listener rounds p =
    {| telemetry := Nat.iter (length txs) record_pooled (telemetry p);
       sent := sent p ++ (PendingTransaction ∘ pending_tx_from_reth <$> txs);
       receiver_quits := None |}.
Proof.
  revert p. induction rounds as [|[| |[tx|]] rounds IH]; intros p Hq; simpl;
    try (rewrite app_nil_r; destruct p; simpl in *; by rewrite Hq).
  - rewrite send_event_live by done. rewrite IH by done. simpl. rewrite <- app_assoc.
    f_equal. by rewrite <- Nat.iter_succ_r.
  - by apply IH.
Qed.

Lemma p2p_backfill_stuck txs changed p : p2p_send_backfill txs changed p = p.
Proof. destruct txs as [|tx txs]; [done|]. simpl. by destruct (changed _). Qed.

(** What the events say of one peer. *)
Definition session_of (peer_id : Z) (current : option PeerSession) (event : NetworkEvent)
    : option PeerSession :=
  match event with
  | ActivePeerSession i session => if decide (i = peer_id) then Some session else current
  | SessionClosed i | PeerRemoved i => if decide (i = peer_id) then None else current
  | OtherEvent => current
  end.

Lemma on_network_event_lookup event s i :
  sessions (on_network_event event s) !! i = session_of i (sessions s !! i) event.
Proof.
  destruct event as [j session|j|j|]; simpl; [| | |done]; case_decide as Hij; subst;
    rewrite ?lookup_insert_eq, ?lookup_delete_eq, ?lookup_insert_ne, ?lookup_delete_ne by done; done.
Qed.

Lemma listener_until rounds s :
  run_peer_event_listener rounds s = foldl (fun s event => on_network_event event s) s (until_stop rounds).
Proof. revert s. by induction rounds as [|[| |event] rounds IH]; intros s; simpl. Qed.

(** *** Choosing a peer *)

Section selection.
Context {A : Type} (key : A -> Z).

Lemma max_by_key_fold l b :
  exists m, foldl (fun best x => match best with
                       | Some b => if key b <=? key x then Some x else Some b
                       | None => Some x
                       end) (Some b) l = Some m /\ m ∈ b :: l /\ forall x, x ∈ b :: l -> key x <= key m.
Proof.
  revert b. induction l as [|x l IH]; intros b; simpl.
  - exists b. split; [done|]. split; [by left|]. intros x ->%list_elem_of_singleton. done.
  - destruct (Z.leb_spec (key b) (key x)) as [Hle|Hlt].
    + destruct (IH x) as (m & -> & Hin & Hmax). exists m. split; [done|].
      split; [by right|]. intros y [->|Hy]%elem_of_cons; [|by apply Hmax].
      transitivity (key x); [done|]. apply Hmax. by left.
    + destruct (IH b) as (m & -> & Hin & Hmax). exists m. split; [done|].
      split; [set_solver|]. intros y [->|[->|Hy]%elem_of_cons]%elem_of_cons;
        [apply Hmax; by left| |apply Hmax; by right].
      transitivity (key b); [lia|]. apply Hmax. by left.
Qed.

Lemma max_by_key_spec l :
  match max_by_key key l with
  | Some m => m ∈ l /\ forall x, x ∈ l -> key x <= key m
  | None => l = []
  end.
Proof.
  destruct l as [|b l]; [done|]. unfold max_by_key. simpl.
  destruct (max_by_key_fold l b) as (m & -> & Hm). done.
Qed.

Lemma filter_run_ok (f : A -> run bool) (g : A -> bool) l :
  (forall a, a ∈ l -> f a = Val (g a)) -> filter_run f l = Val (filter g l).
Proof.
  induction l as [|a l IH]; intros Hf; [done|]. simpl.
  rewrite Hf by (by left). simpl. rewrite IH by (intros; apply Hf; by right). simpl.
  rewrite filter_cons. by destruct (g a); simpl.
Qed.

End selection.

Lemma filter_run_panics {A} (f : A -> run bool) l a p :
  a ∈ l -> (forall b, b ∈ l -> f b = Panic p \/ exists c, f b = Val c) -> f a = Panic p ->
  filter_run f l = Panic p.
Proof.
  intros Hin Hf Ha. induction l as [|b l IH]; [by apply elem_of_nil in Hin|]. simpl.
  destruct (Hf b) as [->|[c Hc]]; [by left|done|]. rewrite Hc. simpl.
  apply elem_of_cons in Hin as [->|Hin]; [congruence|].
  rewrite IH; [done|done|]. intros b' Hb'. apply Hf. by right.
Qed.

(** A session that has reached the block before [target], as far as it said. *)
Definition serves (target : Z) (session : PeerSession) : bool :=
  match latest_block session with None => true | Some latest => target <=? latest + 1 end.

Definition session_typed (session : PeerSession) : Prop :=
  forall latest, latest_block session = Some latest -> in_range u64 latest.

Lemma can_serve_ok `{BuildProfile} target session :
  session_typed session -> latest_block session <> Some (max_w u64) ->
  can_serve target session = Val (serves target session).
Proof.
  intros Ht Hne. unfold can_serve, serves. destruct (latest_block session) as [latest|] eqn:Hl; [|done].
  specialize (Ht _ Hl). rewrite add_w_ok; [simpl; f_equal; lia|].
  assert (latest <> max_w u64) by congruence. unfold max_w in *. word.
Qed.

(** *** Polling honest peers *)

Section honest.
Context `{BuildProfile}.
(** The canonical chain: the header and the body at each height. *)
Context (block_at : Z -> Header * BlockBody).

Record chain_ok : Prop := {
  chain_numbers : forall n, header_number (block_at n).1 = n;
  chain_hashes : forall n m, header_hash (block_at n).1 = header_hash (block_at m).1 -> n = m;
}.

(** A peer may fail to answer, but what it answers is of the chain: the
    headers from the one asked for on, and the body of a hash. *)
Record honest (round : PollRound) : Prop := {
  honest_heights : forall session, session ∈ round_sessions round ->
    session_typed session /\ latest_block session <> Some (max_w u64);
  honest_headers : forall peer request headers,
    answer_headers round peer request = Responded headers ->
    exists start (len : nat), headers = (fst ∘ block_at) <$> seqZ start (Z.of_nat len) /\
      0 <= start /\ start + Z.of_nat len < 2 ^ 64 /\
      forall m, start_block request = ByNumber m -> start = m;
  honest_bodies : forall peer hash body bodies,
    answer_body round peer hash = Responded (body :: bodies) ->
    exists n, hash = header_hash (block_at n).1 /\ body = (block_at n).2;
}.

Definition announced (n : Z) : MempoolEvent :=
  NewBlock (block_update_from_header_body (block_at n).1 (block_at n).2).

(** [k] blocks have been sent, from height [n0] on. *)
Record polled (before : list MempoolEvent) (n0 : Z) (k : nat) (st : PollState) : Prop := {
  polled_sent : sent (poll_pipe st) = before ++ (announced <$> seqZ n0 (Z.of_nat k));
  polled_next : next_block_number st = if (k =? 0)%nat then None else Some (n0 + Z.of_nat k);
  polled_last : last_block_hash st =
    if (k =? 0)%nat then None else Some (header_hash (block_at (n0 + Z.of_nat k - 1)).1);
}.

Lemma send_event_sent event p p' : send_event event p = Some p' -> sent p' = sent p ++ [event].
Proof. unfold send_event. repeat case_match; intros [=]; by subst. Qed.

Lemma poll_headers_honest round peer before n0 k len st :
  chain_ok -> honest round -> 0 <= n0 -> n0 + Z.of_nat k + Z.of_nat len < 2 ^ 64 ->
  polled before n0 k st ->
  exists st' k' ret, poll_headers round peer ((fst ∘ block_at) <$> seqZ (n0 + Z.of_nat k) (Z.of_nat len)) st =
    Val (st', ret) /\ polled before n0 k' st'.
Proof.
  intros Hc Hh Hn. revert k st. induction len as [|len IH]; intros k st Hlt Hp.
  { by exists st, k, false. }
  rewrite seqZ_cons by lia. rewrite fmap_cons. simpl.
  replace (Z.pred (Z.of_nat (S len))) with (Z.of_nat len) by lia.
  replace (Z.succ (n0 + Z.of_nat k)) with (n0 + Z.of_nat (S k)) by lia.
  rewrite decide_False.
  2: { rewrite (polled_last _ _ _ _ Hp). destruct (Nat.eqb_spec k 0); [done|].
       intros [= Heq]. apply (chain_hashes Hc) in Heq. lia. }
  unfold request_block_body. destruct (answer_body _ _ _) as [| | | |[|body bodies]] eqn:Hb;
    try (by exists st, k, false).
  destruct (honest_bodies _ Hh _ _ _ _ Hb) as (n & Heq & ->).
  apply (chain_hashes Hc) in Heq as <-. simpl.
  destruct (send_event _ _) as [p'|] eqn:Hs.
  2: { exists (MkPoll (next_block_number st) (last_block_hash st)
         (with_telemetry (record_block (Z.of_nat (length (omap pending_tx_from_signed
           (transactions (block_at (n0 + Z.of_nat k)).2)))) (header_gas_used (block_at
           (n0 + Z.of_nat k)).1)) (poll_pipe st))), k, true.
       split; [done|]. by destruct Hp. }
  apply send_event_sent in Hs. simpl in Hs. rewrite (chain_numbers Hc).
  rewrite add_w_ok by word. simpl. apply IH; [lia|]. split; simpl.
  - rewrite Hs, (polled_sent _ _ _ _ Hp), <- app_assoc. f_equal.
    by rewrite seqZ_S, fmap_app.
  - f_equal. lia.
  - repeat f_equal. lia.
Qed.

Lemma select_peer_runs values next :
  (forall s, s ∈ values -> session_typed s /\ latest_block s <> Some (max_w u64)) ->
  exists peer, select_peer values next = Val peer.
Proof.
  intros Hv. destruct next as [target|]; simpl; [|eauto].
  rewrite (filter_run_ok _ (serves target)); simpl; [eauto|].
  intros s Hs. apply can_serve_ok; by apply Hv.
Qed.

Lemma poll_round_honest round before n0 k st :
  chain_ok -> honest round -> 0 <= n0 -> polled before n0 k st ->
  exists st' n0' k' ret, poll_round round st = Val (st', ret) /\ 0 <= n0' /\
    (k <> 0%nat -> n0' = n0) /\ polled before n0' k' st'.
Proof.
  intros Hc Hh Hn Hp. unfold poll_round.
  destruct (select_peer_runs (round_sessions round) (next_block_number st) (honest_heights _ Hh))
    as [[peer|] ->]; simpl; [|by exists st, n0, k, false].
  unfold request_next_headers. destruct (answer_headers _ _ _) as [| | | |headers] eqn:Ha;
    try (by exists st, n0, k, false).
  destruct (honest_headers _ Hh _ _ _ Ha) as (start & len & -> & Hs0 & Hlt & Hstart).
  destruct len as [|len]; [by exists st, n0, k, false|].
  assert (exists n1, 0 <= n1 /\ (k <> 0%nat -> n1 = n0) /\ start = n1 + Z.of_nat k /\
    polled before n1 k st) as (n1 & Hn1 & Heq & -> & Hp1).
  { destruct k as [|k].
    - exists start. split; [done|]. split; [done|]. split; [lia|]. by destruct Hp.
    - exists n0. split; [done|]. split; [done|]. split; [|done]. apply Hstart.
      by rewrite (polled_next _ _ _ _ Hp). }
  destruct (poll_headers_honest round peer before n1 k (S len) st) as (st' & k' & ret & Hr & Hp');
    [done..|lia|done|].
  exists st', n1, k', ret. split; [|done].
  revert Hr. by rewrite seqZ_cons, fmap_cons by lia.
Qed.

End honest.

(** ** Properties *)

(** No configuration of the P2P transport connects, whatever the features
    of the build, the peers and the network builder; which error is returned
    follows the checks in order, and the set-up after them is never reached. *)
Theorem p2p_always_refused `{Features} {TrustedPeer : Type}
    (from_str : string -> result TrustedPeer string) (build : NetworkConfig -> result unit string)
    config connected block_sub pending_sub :
  connect from_str build (P2pTransport config) connected block_sub pending_sub =
    Err (if negb reth_p2p then FeatureDisabled "reth-p2p"
         else if negb (String.eqb (chain config) "mainnet") then
           UnsupportedTransport "embedded reth p2p currently supports mainnet only"
         else match block_transport config with
              | ExecutionPolling => UnsupportedTransport "execution p2p block polling does not cover mainnet PoS head blocks; use a consensus block transport instead"
              | Consensus _ =>
                  if consensus_p2p then
                    UnsupportedTransport "consensus p2p block transport is not implemented yet"
                  else FeatureDisabled "consensus-p2p"
              end).
Proof.
  simpl. unfold p2p_connect_with_config, check_config.
  destruct reth_p2p, (String.eqb _ _), (block_transport config), consensus_p2p; done.
Qed.

(** Of the tasks on the embedded pool, the listener forwards in order
    every announced transaction that the pool still holds and counts it as
    seen and as imported; the backfill counts the pooled transactions and
    forwards none of them, because the [else] of its [select!] needs a refused
    pattern and the pattern is a wildcard. *)
Theorem pool_tasks_forward pooled changed rounds p :
  sent (p2p_run_backfill pooled changed p) = sent p /\
  initial_backfill_txs (telemetry (p2p_run_backfill pooled changed p)) = Z.of_nat (length pooled) /\
  (receiver_quits p = None ->
   let txs := omap (fun tx => tx) (until_stop rounds) in
   sent (run_pending_listener rounds p) =
     sent p ++ (PendingTransaction ∘ pending_tx_from_reth <$> txs) /\
   telemetry (run_pending_listener rounds p) =
     Nat.iter (length txs) record_pooled (telemetry p)).
Proof.
  unfold p2p_run_backfill. rewrite p2p_backfill_stuck. simpl. rewrite length_fmap.
  split; [done|]. split; [done|]. intros Hq. by rewrite pending_listener_live.
Qed.

(** After any events the shared map holds a session exactly for the peers
    whose last session event opened one, with the status it announced, and the
    peer count of the telemetry is the size of the map. *)
Theorem sessions_follow_events rounds s i :
  Z.of_nat (size (sessions s)) = p2p_peer_count (peer_telemetry s) ->
  sessions (run_peer_event_listener rounds s) !! i =
    foldl (session_of i) (sessions s !! i) (until_stop rounds) /\
  p2p_peer_count (peer_telemetry (run_peer_event_listener rounds s)) =
    Z.of_nat (size (sessions (run_peer_event_listener rounds s))).
Proof.
  rewrite listener_until. revert s. induction (until_stop rounds) as [|event events IH]; intros s Hs; [done|].
  simpl. rewrite <- on_network_event_lookup. apply IH. by destruct event.
Qed.

(** The poller asks a session of the greatest announced height, among
    those that have reached the block before the target when there are any; it
    finds one whenever a session is open.  A session that announces the
    greatest u64 makes the choice panic when overflow is checked, and is
    passed over when it is not. *)
Theorem select_peer_spec `{BuildProfile} values next :
  (forall s, s ∈ values -> session_typed s) ->
  let able := match next with Some target => filter (serves target) values | None => values end in
  (next = None \/ (forall s, s ∈ values -> latest_block s <> Some (max_w u64)) ->
   exists choice, select_peer values next = Val choice /\
     (choice = None <-> values = []) /\
     forall peer, choice = Some peer -> peer ∈ values /\
       (able <> [] -> peer ∈ able /\ forall s, s ∈ able -> block_height s <= block_height peer)) /\
  (forall s target, s ∈ values -> latest_block s = Some (max_w u64) -> next = Some target ->
   overflow_checks = true -> select_peer values next = Panic Overflow).
Proof.
  intros Ht able. split.
  - intros Hne.
    assert (select_peer values next = Val (match max_by_key block_height able with
      | Some s => Some s | None => match next with Some _ => head values | None => None end end)) as ->.
    { subst able. destruct next as [target|]; simpl.
      - rewrite (filter_run_ok _ (serves target)); [done|].
        intros s Hs. apply can_serve_ok; [by apply Ht|]. destruct Hne as [?|Hne]; [done|by apply Hne].
      - by destruct (max_by_key block_height values). }
    pose proof (max_by_key_spec block_height able) as Hm.
    assert (forall s, s ∈ able -> s ∈ values) as Hsub.
    { subst able. destruct next; [|done]. intros s Hs. by apply list_elem_of_filter in Hs as [_ ?]. }
    destruct (max_by_key block_height able) as [m|].
    + destruct Hm as [Hin Hmax]. exists (Some m). split; [done|]. split.
      * split; [done|]. intros ->. by apply Hsub, elem_of_nil in Hin.
      * intros peer [= <-]. split; [by apply Hsub|done].
    + eexists. split; [done|]. subst able. destruct next as [target|].
      * rewrite Hm. split; [by destruct values|]. intros peer Hp.
        split; [by apply head_Some_elem_of|done].
      * subst values. done.
  - intros s target Hs Hl -> Hov. simpl.
    rewrite (filter_run_panics _ values s Overflow); [done|done| |].
    + intros b Hb. unfold can_serve. destruct (latest_block b) as [l|]; [|eauto].
      unfold add_w, arith. case_decide; [simpl; eauto|]. rewrite Hov. by left.
    + unfold can_serve. rewrite Hl. unfold add_w. rewrite arith_overflow by (unfold max_w; word).
      by rewrite Hov.
Qed.

(** With peers that answer from one canonical chain or not at all, the
    poller never panics and sends consecutive blocks of that chain: none is
    repeated, skipped or out of order, and the next poll asks for the block
    after the last one sent. *)
Theorem poller_sends_consecutive `{BuildProfile} (block_at : Z -> Header * BlockBody) rounds p :
  chain_ok block_at -> (forall round, Some round ∈ rounds -> honest block_at round) ->
  exists st n0 k, run_block_poller rounds (poller_start p) = Val st /\ 0 <= n0 /\
    sent (poll_pipe st) = sent p ++ (announced block_at <$> seqZ n0 (Z.of_nat k)) /\
    next_block_number st = if (k =? 0)%nat then None else Some (n0 + Z.of_nat k).
Proof.
  intros Hc Hh.
  assert (polled block_at (sent p) 0 0 (poller_start p)) as Hp by (split; [by rewrite app_nil_r|done..]).
  assert (forall n0 k st, 0 <= n0 -> polled block_at (sent p) n0 k st ->
    exists st' n0' k', run_block_poller rounds st = Val st' /\ 0 <= n0' /\
      polled block_at (sent p) n0' k' st') as Hrun.
  { clear Hp. induction rounds as [|[round|] rounds IH]; intros n0 k st Hn Hp; simpl; [by eauto 7| |by eauto 7].
    destruct (poll_round_honest block_at round (sent p) n0 k st Hc) as (st' & n0' & k' & ret & -> & ? & _ & ?);
      [apply Hh; by left|done..|]. simpl.
    destruct ret; [by eauto 7|]. eapply IH; [|done..]. intros r Hr. apply Hh. by right. }
  destruct (Hrun 0 0%nat _ ltac:(lia) Hp) as (st & n0 & k & Hr & Hn & Hst).
  exists st, n0, k. split; [done|]. split; [done|]. split; [apply Hst|apply Hst].
Qed.

Section witnesses.
#[local] Instance p2p_ci_checks : BuildProfile := true.

Definition demo_header (n : Z) : Header := MkHeader (1000 + n) n (Some 7) None 21000 30000000.
Definition demo_signed (n : Z) : TransactionSigned := MkSigned (5000 + n) (Some 1) n 50 (Some 2) 21000.
Definition demo_chain (n : Z) : Header * BlockBody := (demo_header n, MkBody [demo_signed n]).

Definition demo_session : PeerSession := MkSession (Some 40) 1040 0.
Definition lagging_session : PeerSession := MkSession (Some 12) 1012 1.
Definition hostile_session : PeerSession := MkSession (Some (max_w u64)) 0 2.

(** A peer that serves the chain up to height 44. *)
Definition demo_round : PollRound :=
  {| round_sessions := [lagging_session; demo_session];
     answer_headers := fun _ request =>
       match start_block request with
       | ByNumber m => if (0 <=? m) && (m <=? 44) then Responded ((fst ∘ demo_chain) <$> seqZ m 2)
                       else NoResponse
       | ByHash _ => NoResponse
       end;
     answer_body := fun _ hash => Responded [(demo_chain (hash - 1000)).2] |}.

Lemma demo_chain_ok : chain_ok demo_chain.
Proof. split; [done|]. intros n m. simpl. lia. Qed.

Lemma demo_sessions_typed s :
  s ∈ [lagging_session; demo_session] -> session_typed s /\ latest_block s <> Some (max_w u64).
Proof.
  intros Hs. apply elem_of_cons in Hs as [->|Hs]; [|apply list_elem_of_singleton in Hs as ->];
    (split; [intros l [= <-]; by vm_compute|by vm_compute]).
Qed.

Lemma demo_round_honest : honest demo_chain demo_round.
Proof.
  split.
  - apply demo_sessions_typed.
  - intros peer request headers. simpl. destruct (start_block request) as [h|m]; [done|].
    destruct (Z.leb_spec 0 m), (Z.leb_spec m 44); simpl; intros [= <-].
    exists m, 2%nat. split; [done|]. split; [lia|]. split; [lia|]. by intros m' [= ->].
  - intros peer hash body bodies. simpl. intros [= <- <-].
    exists (hash - 1000). split; [simpl; lia|done].
Qed.

Lemma poller_sends_consecutive_witness :
  exists st n0 k,
    run_block_poller [Some demo_round; Some demo_round; None] (poller_start demo_pipe) = Val st /\
    0 <= n0 /\ sent (poll_pipe st) = announced demo_chain <$> seqZ n0 (Z.of_nat k).
Proof.
  destruct (poller_sends_consecutive demo_chain [Some demo_round; Some demo_round; None] demo_pipe)
    as (st & n0 & k & H1 & H2 & H3 & _).
  - exact demo_chain_ok.
  - intros round Hr. apply elem_of_cons in Hr as [[= ->]|Hr]; [exact demo_round_honest|].
    apply elem_of_cons in Hr as [[= ->]|Hr]; [exact demo_round_honest|].
    apply list_elem_of_singleton in Hr. discriminate.
  - exists st, n0, k. split; [exact H1|]. split; [exact H2|exact H3].
Defined.

(** Two rounds send the four blocks from height 40 on. *)
Example demo_poll :
  match run_block_poller [Some demo_round; Some demo_round; None] (poller_start demo_pipe) with
  | Val st => length (sent (poll_pipe st)) = 4%nat /\ next_block_number st = Some 44
  | Panic _ => False
  end.
Proof. vm_compute. done. Qed.

Lemma select_peer_spec_witness :
  select_peer [lagging_session; demo_session] (Some 41) = Val (Some demo_session) /\
  select_peer [hostile_session; demo_session] (Some 41) = Panic Overflow.
Proof.
  assert (forall s, s ∈ [lagging_session; demo_session] -> session_typed s) as H1
    by (intros s Hs; exact (proj1 (demo_sessions_typed s Hs))).
  destruct (select_peer_spec [lagging_session; demo_session] (Some 41) H1) as [Hok _].
  destruct Hok as (choice & Hsel & _ & Hin).
  { right. intros s Hs. exact (proj2 (demo_sessions_typed s Hs)). }
  assert (choice = Some demo_session) as Hch.
  { revert Hsel. vm_compute. intros [= <-]. reflexivity. }
  split; [rewrite Hsel; f_equal; exact Hch|].
  assert (forall s, s ∈ [hostile_session; demo_session] -> session_typed s) as H2.
  { intros s Hs. apply elem_of_cons in Hs as [->|Hs]; [|apply list_elem_of_singleton in Hs as ->];
      intros l [= <-]; by vm_compute. }
  destruct (select_peer_spec [hostile_session; demo_session] (Some 41) H2) as [_ Hbad].
  apply (Hbad hostile_session 41); [by left|reflexivity..].
Defined.

Lemma sessions_follow_events_witness :
  sessions (run_peer_event_listener
    [Next (ActivePeerSession 3 demo_session); Next (ActivePeerSession 4 lagging_session);
     Next (SessionClosed 3)] (MkPeers ∅ (RuntimeTelemetry_new P2p_kind))) !! 4 = Some lagging_session.
Proof.
  destruct (sessions_follow_events
    [Next (ActivePeerSession 3 demo_session); Next (ActivePeerSession 4 lagging_session);
     Next (SessionClosed 3)] (MkPeers ∅ (RuntimeTelemetry_new P2p_kind)) 4) as [H _];
    [reflexivity|]. rewrite H. reflexivity.
Defined.

Definition demo_pool_tx : PoolTransaction := MkPoolTx 9 1 0 50 (Some 2) 2 21000.

Lemma pool_tasks_forward_witness :
  sent (p2p_run_backfill [demo_pool_tx] (fun _ => Some (Ok tt)) demo_pipe) = [] /\
  sent (run_pending_listener [Next (Some demo_pool_tx); Next None] demo_pipe) =
    [PendingTransaction (pending_tx_from_reth demo_pool_tx)].
Proof.
  destruct (pool_tasks_forward [demo_pool_tx] (fun _ => Some (Ok tt))
    [Next (Some demo_pool_tx); Next None] demo_pipe) as (H1 & _ & H2).
  split; [exact H1|]. destruct (H2 eq_refl) as [H3 _]. rewrite H3. reflexivity.
Defined.
End witnesses.
