(* ===== verification/IntegrationTests.v ===== *)
(** * The integration tests, executed on the model

    tests/mempool_oracle.rs of [mempooloracle]: the tracker after the events a
    test has sent, read through the handle; and the outcome of all tests, those
    of the units (UnitTests.v) and of the mock adapters (AdapterFlow.v)
    included. *)

From stdpp Require Import gmap strings.
From S2P Require Import Prelude Float64 UnitTests AdapterFlow.
From S2P Require Import Mempool TrackerRpc TrackerP2p.

(** ** tests/mempool_oracle.rs *)

Module MempoolOracle.
Section tests.
Context `{BuildProfile} `{IterationOrder}.

(** [[b; n]] as a number. *)
Fixpoint repeated (b : Z) (n : nat) : Z :=
  match n with O => 0 | S n => repeated b n * 256 + b end.

Definition tx_of (b n max_fee tip : Z) : PendingTx :=
  {| id := repeated b 32; sender := repeated 1 20; nonce := n; max_fee_per_gas := max_fee;
     max_priority_fee_per_gas := tip; gas_limit := 21000 |}.

Definition from (b : Z) (tx : PendingTx) : PendingTx :=
  {| id := id tx; sender := repeated b 20; nonce := nonce tx; max_fee_per_gas := max_fee_per_gas tx;
     max_priority_fee_per_gas := max_priority_fee_per_gas tx; gas_limit := gas_limit tx |}.

Definition default_config : TrackerConfig :=
  {| initial_base_fee := 10; global_capacity := 100; per_account_capacity := 10;
     private_flow_prior := f64_of_Z 0 |}.

(** [new_tracker]; [send] is the tracker after one more event, which the test
    waits for. *)
Definition new_tracker (initial_txs : list PendingTx) (config : TrackerConfig) : run MempoolInner :=
  from_channel initial_txs config.
Definition send (tx : PendingTx) (tracker : MempoolInner) : run MempoolInner :=
  tracker_run [PendingTransaction tx] tracker.

Definition classified (tracker : MempoolInner) (tx : PendingTx) (c : option TxClassification)
    : run unit :=
  found ← classification tracker (id tx);
  assert_eq found c.

Definition present (tracker : MempoolInner) (tx : PendingTx) (b : bool) : run unit :=
  found ← classification tracker (id tx);
  assert_eq (bool_decide (is_Some found)) b.

Definition test_classification_marketable : run unit :=
  let tx := tx_of 1 0 20 10 in
  handle ← new_tracker [tx] default_config;
  classified handle tx (Some Marketable).

Definition test_classification_base_fee_invalid : run unit :=
  let tx := tx_of 1 0 5 10 in
  handle ← new_tracker [tx] default_config;
  classified handle tx (Some BaseFeeInvalid).

Definition test_classification_unmarketable : run unit :=
  let tx := tx_of 1 0 10 0 in
  handle ← new_tracker [tx] default_config;
  classified handle tx (Some Unmarketable).

Definition test_classification_nonce_bound_gap : run unit :=
  let tx1 := tx_of 1 0 20 10 in
  let tx2 := tx_of 2 2 20 10 in
  handle ← new_tracker [] default_config;
  handle ← send tx1 handle;
  handle ← send tx2 handle;
  classified handle tx2 (Some NonceBound).

Definition test_classification_nonce_bound_unmarketable : run unit :=
  let tx1 := tx_of 1 0 10 0 in
  let tx2 := tx_of 2 1 20 10 in
  handle ← new_tracker [] default_config;
  handle ← send tx1 handle;
  handle ← send tx2 handle;
  classified handle tx2 (Some NonceBound).

Definition test_global_eviction : run unit :=
  let config := {| initial_base_fee := 10; global_capacity := 1; per_account_capacity := 10;
                   private_flow_prior := f64_of_Z 0 |} in
  handle ← new_tracker [] config;
  let tx1 := tx_of 1 0 20 1 in
  handle ← send tx1 handle;
  present handle tx1 true;;
  let tx2 := from 2 (tx_of 2 0 20 0) in
  handle ← send tx2 handle;
  present handle tx1 true;;
  present handle tx2 false;;
  let tx3 := from 3 (tx_of 3 0 20 2) in
  handle ← send tx3 handle;
  present handle tx1 false;;
  present handle tx3 true.

Definition test_out_of_order_nonce_insert_from_backfill : run unit :=
  let tx_high := from 7 (tx_of 5 5 20 10) in
  let tx_low := from 7 (tx_of 4 4 20 10) in
  handle ← new_tracker [] default_config;
  handle ← send tx_high handle;
  handle ← send tx_low handle;
  classified handle tx_low (Some Marketable);;
  classified handle tx_high (Some Marketable);;
  assert (bool_decide (is_Some (find_tx_by_addr_and_nonce handle (repeated 7 20) 4)));;
  assert (bool_decide (is_Some (find_tx_by_addr_and_nonce handle (repeated 7 20) 5))).

Definition tests : list (run unit) :=
  [test_classification_marketable; test_classification_base_fee_invalid;
   test_classification_unmarketable; test_classification_nonce_bound_gap;
   test_classification_nonce_bound_unmarketable; test_global_eviction;
   test_out_of_order_nonce_insert_from_backfill].

End tests.
End MempoolOracle.

(** ** Their outcome *)

#[local] Instance listed_order : IterationOrder := {|
  hash_entries := map_to_list;
  hash_entries_perm m := Permutation_refl (map_to_list m);
|}.

Definition integration_tests `{BuildProfile} : list (run unit) :=
  flow_tests ++ MempoolOracle.tests.

(** The test of the gated transport, for the features of any build. *)
Definition test_p2p_transport_requires_feature `{Features} : run unit :=
  let config := {| chain := "mainnet"; bootnodes := []; discovery_v4 := true;
                   listen_addr := None;
                   block_transport := Consensus {| implementation := Eth2Libp2p |} |} in
  match connect (TrustedPeer := unit) (fun _ => Err ""%string) (fun _ => Err ""%string)
          (P2pTransport config) (Answered (Ok tt)) (Answered (Ok tt)) (Answered (Ok tt)) with
  | Err (FeatureDisabled what) => assert (String.eqb what "reth-p2p")
  | Err (UnsupportedTransport _) => Val tt
  | _ => Panic Assertion
  end.

(** Every unit test of [bulkmail] and the integration tests of both
    crates pass on the model, with and without overflow checks; the test of
    [Display] does for every text of an address and every time; and the test
    of the gated transport passes in every build but the one with the feature
    [reth-p2p] alone, where the error names the other feature. *)
Theorem tests_pass (profile : BuildProfile) :
  forallb passes (unit_tests ++ integration_tests) = true /\
  (forall fmt_address now_ms, MessageTests.test_display_format fmt_address now_ms = Val tt) /\
  (forall reth consensus,
   @test_p2p_transport_requires_feature (MkFeatures reth consensus) =
     if reth && negb consensus then Panic Assertion else Val tt).
Proof.
  destruct (unit_tests_hold profile) as [Hu Hd]. split; [|split; [done|]].
  - rewrite forallb_app, Hu. destruct profile; by vm_compute.
  - intros [|] [|]; reflexivity.
Qed.
