(* ===== verification/TrackerLock.v ===== *)
(** * The lock between the tracker and its handles ([crates/mempooloracle/src/lib.rs])

    The tracker thread takes the write lock for each event; every method of
    [MempoolHandle] takes the read lock.  [estimated_blocks_to_confirm] calls
    [gas_ahead] with its own guard alive, so it takes the read lock twice.
    The standard library leaves the policy of [RwLock] open: it may refuse a
    new reader while a writer waits, and warns that a thread that reads twice
    can then deadlock.  [prefer_writers] says whether it does. *)

From stdpp Require Import relations.
From S2P Require Import Prelude.

(** ** Threads and the lock *)

Inductive LockOp := AcquireRead | ReleaseRead.

(** The methods of [MempoolHandle]; [stored] says whether the transaction
    asked for is found. *)
Inductive HandleMethod :=
  | M_classification
  | M_estimated_blocks_to_confirm (stored : bool)
  | M_gas_ahead
  | M_is_marketable
  | M_current_base_fee
  | M_private_flow_ratio
  | M_priority_queue
  | M_last_block_gas_limit
  | M_find_tx_by_addr_and_nonce.

(** What a method does to the lock, in order; a guard lives to the end of its
    method. *)
Definition method_locks (m : HandleMethod) : list LockOp :=
  match m with
  | M_estimated_blocks_to_confirm true => [AcquireRead; AcquireRead; ReleaseRead; ReleaseRead]
  | _ => [AcquireRead; ReleaseRead]
  end.

(** A client thread makes calls of the handle; the rest of its current call
    and the calls after it. *)
Record Client := MkClient { ops : list LockOp; calls : list HandleMethod; holding : nat }.

Definition client_start (calls : list HandleMethod) : Client := MkClient [] calls 0.

(** The tracker thread in [run]: waiting for an event or for the lock, or
    applying the event under the lock. *)
Inductive TrackerPhase := Receiving | WaitingWrite | Writing.

Record LockSystem := MkLocks {
  tracker : TrackerPhase;
  events_left : nat;
  clients : list Client;
}.

Definition readers (s : LockSystem) : nat := foldr (fun c n => holding c + n)%nat 0%nat (clients s).

Section lock.
Context (prefer_writers : bool).

(** Whether [read()] returns at once. *)
Definition read_admitted (s : LockSystem) : bool :=
  match tracker s with
  | Writing => false
  | WaitingWrite => negb prefer_writers
  | Receiving => true
  end.

Definition set_client (i : nat) (c : Client) (s : LockSystem) : LockSystem :=
  {| tracker := tracker s; events_left := events_left s; clients := <[i := c]> (clients s) |}.

Definition set_tracker (t : TrackerPhase) (n : nat) (s : LockSystem) : LockSystem :=
  {| tracker := t; events_left := n; clients := clients s |}.

Inductive lock_step : LockSystem -> LockSystem -> Prop :=
  | tracker_receives s n :
      tracker s = Receiving -> events_left s = S n ->
      lock_step s (set_tracker WaitingWrite n s)
  | tracker_locks s :
      tracker s = WaitingWrite -> readers s = 0%nat ->
      lock_step s (set_tracker Writing (events_left s) s)
  | tracker_unlocks s :
      tracker s = Writing -> lock_step s (set_tracker Receiving (events_left s) s)
  | client_calls s i m ms h :
      clients s !! i = Some (MkClient [] (m :: ms) h) ->
      lock_step s (set_client i (MkClient (method_locks m) ms h) s)
  | client_reads s i os ms h :
      clients s !! i = Some (MkClient (AcquireRead :: os) ms h) -> read_admitted s = true ->
      lock_step s (set_client i (MkClient os ms (S h)) s)
  | client_releases s i os ms h :
      clients s !! i = Some (MkClient (ReleaseRead :: os) ms (S h)) ->
      lock_step s (set_client i (MkClient os ms h) s).

(** Every event applied and every call returned. *)
Definition all_done (s : LockSystem) : Prop :=
  tracker s = Receiving /\ events_left s = 0%nat /\
  Forall (fun c => ops c = [] /\ calls c = []) (clients s).

Definition stuck (s : LockSystem) : Prop := forall s', ~ lock_step s s'.

End lock.

(** The start: [n] events to come and a thread for each list of calls. *)
Definition lock_start (n : nat) (threads : list (list HandleMethod)) : LockSystem :=
  {| tracker := Receiving; events_left := n; clients := client_start <$> threads |}.

(** No call of these reads twice. *)
Definition reads_once (m : HandleMethod) : Prop := m <> M_estimated_blocks_to_confirm true.

(** ** The invariant *)

(** A client holds what the rest of its call releases; with [once], its calls
    read once and it never has more than one guard. *)
Definition client_ok (once : bool) (c : Client) : Prop :=
  exists k, ops c = replicate k AcquireRead ++ replicate (holding c + k) ReleaseRead /\
    (once = true -> Forall reads_once (calls c) /\ (holding c + k <= 1)%nat).

Lemma method_locks_shape m :
  exists k, method_locks m = replicate (S k) AcquireRead ++ replicate (S k) ReleaseRead /\
    (reads_once m -> k = 0%nat).
Proof.
  destruct m as [|[]| | | | | | |]; simpl; first [exists 1%nat; split; [done|by intros []]|by exists 0%nat].
Qed.

Section safety.
Context (prefer_writers : bool) (once : bool).

Definition lock_inv (s : LockSystem) : Prop :=
  Forall (client_ok once) (clients s) /\ (tracker s = Writing -> readers s = 0%nat).

Lemma readers_insert s i c c' :
  clients s !! i = Some c ->
  (readers (set_client i c' s) + holding c = readers s + holding c')%nat.
Proof. apply (total_insert holding). Qed.

Lemma client_ok_start calls :
  (once = true -> Forall reads_once calls) -> client_ok once (client_start calls).
Proof. intros Hc. exists 0%nat. split; [done|]. intros Ho. simpl. split; [auto|lia]. Qed.

Lemma lock_inv_start n threads :
  (once = true -> Forall (Forall reads_once) threads) -> lock_inv (lock_start n threads).
Proof.
  intros Ht. split; [|done]. simpl. apply Forall_fmap. apply Forall_forall. intros calls Hin.
  apply client_ok_start. intros Ho. specialize (Ht Ho). rewrite Forall_forall in Ht. by apply Ht.
Qed.

Lemma set_client_inv s i c c' :
  lock_inv s -> clients s !! i = Some c -> client_ok once c' ->
  (tracker s = Writing -> (holding c' <= holding c)%nat) -> lock_inv (set_client i c' s).
Proof.
  intros [Hc Hw] Hi Hc' Hh. split; [by apply Forall_insert|]. simpl. intros Hwr.
  pose proof (readers_insert s i c c' Hi). specialize (Hw Hwr). specialize (Hh Hwr). lia.
Qed.

Lemma lock_inv_step s s' : lock_inv s -> lock_step prefer_writers s s' -> lock_inv s'.
Proof.
  intros Hinv Hstep. pose proof Hinv as [Hc Hw].
  destruct Hstep as [s n Ht He|s Ht Hr|s Ht|s i m ms h Hi|s i os ms h Hi Ha|s i os ms h Hi].
  - by split.
  - by split.
  - by split.
  - pose proof (Forall_lookup_1 _ _ _ _ Hc Hi) as (k & Hk & Ho). simpl in *.
    destruct k as [|k]; [|done]. destruct h as [|h]; [|done].
    destruct (method_locks_shape m) as (j & Hm & Hj).
    eapply set_client_inv; [done|done| |done]. exists (S j). split; [done|].
    intros Hon. destruct (Ho Hon) as [Hms _]. inversion_clear Hms as [|? ? Hm1 Hms'].
    split; [done|]. rewrite (Hj Hm1). simpl. lia.
  - pose proof (Forall_lookup_1 _ _ _ _ Hc Hi) as (k & Hk & Ho). simpl in *.
    destruct k as [|k]; [by destruct h|]. injection Hk as ->.
    eapply set_client_inv; [done|done| |].
    + exists k. simpl. split; [by rewrite Nat.add_succ_r|]. intros Hon. destruct (Ho Hon). split; [done|lia].
    + unfold read_admitted in Ha. intros Ht. by rewrite Ht in Ha.
  - pose proof (Forall_lookup_1 _ _ _ _ Hc Hi) as (k & Hk & Ho). simpl in *.
    destruct k as [|k]; [|done]. injection Hk as ->.
    eapply set_client_inv; [done|done| |simpl; lia].
    exists 0%nat. split; [done|]. intros Hon. destruct (Ho Hon). split; [done|simpl; lia].
Qed.

(** ** Progress *)

(** What is left to do: three steps for an event, a bounded number for a call. *)
Definition client_work (c : Client) : nat := length (ops c) + 5 * length (calls c).
Definition phase_work (t : TrackerPhase) : nat :=
  match t with Receiving => 0 | WaitingWrite => 2 | Writing => 1 end.
Definition work (s : LockSystem) : nat :=
  phase_work (tracker s) + 3 * events_left s + foldr (fun c n => client_work c + n)%nat 0%nat (clients s).

Lemma lock_step_work s s' : lock_step prefer_writers s s' -> (work s' < work s)%nat.
Proof.
  intros [s0 n Ht He|s0 Ht Hr|s0 Ht|s0 i m ms h Hi|s0 i os ms h Hi Ha|s0 i os ms h Hi]; unfold work; simpl;
    try (rewrite Ht; simpl; lia).
  - pose proof (total_insert client_work _ _ _ (MkClient (method_locks m) ms h) Hi) as Hw. unfold client_work in Hw at 2 4.
    simpl in Hw. assert (length (method_locks m) <= 4)%nat by (by destruct m as [|[]| | | | | | |]; simpl; lia).
    lia.
  - pose proof (total_insert client_work _ _ _ (MkClient os ms (S h)) Hi) as Hw. unfold client_work in Hw at 2 4.
    simpl in Hw. lia.
  - pose proof (total_insert client_work _ _ _ (MkClient os ms h) Hi) as Hw. unfold client_work in Hw at 2 4.
    simpl in Hw. lia.
Qed.
End safety.

Section progress.
Context (prefer_writers once : bool).

Lemma readers_positive (l : list Client) :
  foldr (fun c n => holding c + n)%nat 0%nat l <> 0%nat ->
  exists i c, l !! i = Some c /\ holding c <> 0%nat.
Proof.
  induction l as [|c l IH]; simpl; [done|]. intros Hne. destruct (decide (holding c = 0%nat)) as [H0|H0].
  - destruct IH as (i & c' & Hi & Hc'); [lia|]. by exists (S i), c'.
  - by exists 0%nat, c.
Qed.

(** A client with a guard can go on when no second guard is asked for, or
    when the lock admits it. *)
Lemma holder_steps s i c :
  prefer_writers = false \/ once = true -> lock_inv once s -> tracker s <> Writing ->
  clients s !! i = Some c -> holding c <> 0%nat -> exists s', lock_step prefer_writers s s'.
Proof.
  intros Hpol [Hc _] Ht Hi Hh. pose proof (Forall_lookup_1 _ _ _ _ Hc Hi) as (k & Hk & Ho).
  destruct c as [os ms [|h]]; simpl in *; [done|]. subst os. destruct k as [|k]; simpl in *.
  - eexists. by eapply client_releases.
  - destruct Hpol as [->|Hon]; [|destruct (Ho Hon); lia].
    eexists. eapply client_reads; [done|]. unfold read_admitted. by destruct (tracker s).
Qed.

Lemma client_steps s i c :
  lock_inv once s -> tracker s = Receiving -> clients s !! i = Some c -> ~ (ops c = [] /\ calls c = []) ->
  exists s', lock_step prefer_writers s s'.
Proof.
  intros [Hc _] Ht Hi Hne. pose proof (Forall_lookup_1 _ _ _ _ Hc Hi) as (k & Hk & _).
  destruct c as [os ms h]; simpl in *. destruct k as [|k]; simpl in Hk; subst os.
  - destruct h as [|h]; simpl in *.
    + destruct ms as [|m ms]; [by destruct Hne|]. eexists. by eapply client_calls.
    + rewrite Nat.add_0_r in Hi. eexists. by eapply client_releases.
  - eexists. eapply client_reads; [done|]. unfold read_admitted. by rewrite Ht.
Qed.

Lemma lock_progress s :
  prefer_writers = false \/ once = true -> lock_inv once s -> stuck prefer_writers s -> all_done s.
Proof.
  intros Hpol Hinv Hstuck. destruct (tracker s) eqn:Ht.
  - split; [done|]. split.
    + destruct (events_left s) as [|n] eqn:He; [done|]. exfalso. by eapply Hstuck, tracker_receives.
    + apply Forall_lookup_2. intros i c Hi. apply dec_stable. intros Hne.
      destruct (client_steps s i c Hinv Ht Hi Hne) as [s' Hs']. by eapply Hstuck.
  - exfalso. destruct (decide (readers s = 0%nat)) as [H0|H0]; [by eapply Hstuck, tracker_locks|].
    destruct (readers_positive _ H0) as (i & c & Hi & Hh).
    destruct (holder_steps s i c Hpol Hinv ltac:(congruence) Hi Hh) as [s' Hs']. by eapply Hstuck.
  - exfalso. by eapply Hstuck, tracker_unlocks.
Qed.

Lemma lock_sn s : sn (lock_step prefer_writers) s.
Proof. apply (sn_measure _ work), lock_step_work. Qed.

Lemma lock_inv_steps s s' :
  rtc (lock_step prefer_writers) s s' -> lock_inv once s -> lock_inv once s'.
Proof. apply rtc_inv. intros s1 s2 Hs Hi. by eapply lock_inv_step. Qed.

End progress.

(** The thread [i] has a guard and asks for another while the tracker waits. *)
Record double_read (i : nat) (s : LockSystem) : Prop := {
  dr_tracker : tracker s = WaitingWrite;
  dr_client : exists os ms h, clients s !! i = Some (MkClient (AcquireRead :: os) ms (S h));
}.

Lemma readers_at_least s i c : clients s !! i = Some c -> (holding c <= readers s)%nat.
Proof.
  unfold readers. generalize (clients s). intros l. revert i.
  induction l as [|x l IH]; intros [|i] Hi; simpl in *; [done..| |].
  - injection Hi as ->. lia.
  - specialize (IH i Hi). lia.
Qed.

Lemma double_read_step i s s' : double_read i s -> lock_step true s s' -> double_read i s'.
Proof.
  intros [Ht (os & ms & h & Hi)] Hstep.
  assert (forall j c c', clients s !! j = Some c -> ops c <> AcquireRead :: os ->
    double_read i (set_client j c' s)) as Hother.
  { intros j c c' Hj Hne. split; [done|]. exists os, ms, h. simpl.
    rewrite list_lookup_insert_ne; [done|]. intros ->. rewrite Hi in Hj. injection Hj as <-. done. }
  destruct Hstep as [s n Ht' He|s Ht' Hr|s Ht'|s j m ms' h' Hj|s j os' ms' h' Hj Ha|s j os' ms' h' Hj];
    try congruence.
  - pose proof (readers_at_least s i _ Hi). simpl in *. lia.
  - by eapply Hother.
  - unfold read_admitted in Ha. by rewrite Ht in Ha.
  - by eapply Hother.
Qed.

(** ** Properties *)

(** When no call reads the lock twice, or when the lock admits readers
    while a writer waits, every schedule of the tracker and of any number of
    client threads is finite and ends with every event applied and every call
    returned: no deadlock, for any order of the steps. *)
Theorem handle_calls_complete prefer_writers n threads :
  prefer_writers = false \/ Forall (Forall reads_once) threads ->
  sn (lock_step prefer_writers) (lock_start n threads) /\
  forall s, rtc (lock_step prefer_writers) (lock_start n threads) s ->
    stuck prefer_writers s -> all_done s.
Proof.
  intros Hpol. split; [apply lock_sn|]. intros s Hs. destruct Hpol as [->|Honce].
  - apply (lock_progress false false); [by left|].
    eapply lock_inv_steps; [exact Hs|]. by apply lock_inv_start.
  - apply (lock_progress _ true); [by right|].
    eapply lock_inv_steps; [exact Hs|]. by apply lock_inv_start.
Qed.

(** C17: when the lock prefers writers, a thread that calls
    [estimated_blocks_to_confirm] for a stored transaction while an event is
    to come can deadlock with the tracker: from a reachable state on, whatever
    the threads do, the tracker waits for the lock and the call never
    returns. *)
Theorem estimated_blocks_deadlocks n threads i ms :
  threads !! i = Some (M_estimated_blocks_to_confirm true :: ms) ->
  exists s, rtc (lock_step true) (lock_start (S n) threads) s /\
    forall s', rtc (lock_step true) s s' ->
      tracker s' = WaitingWrite /\ exists c, clients s' !! i = Some c /\ head (ops c) = Some AcquireRead.
Proof.
  intros Hi. set (s0 := lock_start (S n) threads).
  assert (clients s0 !! i = Some (MkClient [] (M_estimated_blocks_to_confirm true :: ms) 0)) as Hi0.
  { simpl. by rewrite list_lookup_fmap, Hi. }
  set (s1 := set_client i (MkClient [AcquireRead; AcquireRead; ReleaseRead; ReleaseRead] ms 0) s0).
  set (s2 := set_client i (MkClient [AcquireRead; ReleaseRead; ReleaseRead] ms 1) s1).
  assert (i < length (clients s0))%nat as Hlt by (by apply lookup_lt_Some in Hi0).
  exists (set_tracker WaitingWrite n s2). split.
  - eapply rtc_l; [by eapply (client_calls true s0)|].
    eapply rtc_l; [eapply (client_reads true s1); [|done]; simpl; by apply list_lookup_insert_eq|].
    eapply rtc_l; [|apply rtc_refl]. by apply tracker_receives.
  - assert (double_read i (set_tracker WaitingWrite n s2)) as Hdr.
    { split; [done|]. eexists _, _, _. simpl. apply list_lookup_insert_eq.
      by rewrite length_insert. }
    intros s' Hs'. assert (double_read i s') as [Ht (os & ms' & h & Hc)].
    { clear -Hdr Hs'. induction Hs' as [|s s1' s' Hs _ IH]; [done|]. apply IH. by eapply double_read_step. }
    split; [done|]. by eexists.
Qed.

Section witnesses.
Lemma handle_calls_complete_witness :
  sn (lock_step true) (lock_start 3 [[M_current_base_fee; M_gas_ahead]; [M_priority_queue]]).
Proof.
  apply (handle_calls_complete true 3 [[M_current_base_fee; M_gas_ahead]; [M_priority_queue]]).
  right. repeat constructor; discriminate.
Defined.

Lemma estimated_blocks_deadlocks_witness :
  exists s, rtc (lock_step true) (lock_start 1 [[M_estimated_blocks_to_confirm true]]) s /\
    tracker s = WaitingWrite.
Proof.
  destruct (estimated_blocks_deadlocks 0 [[M_estimated_blocks_to_confirm true]] 0 [])
    as (s & H1 & H2); [reflexivity|].
  exists s. split; [exact H1|]. exact (proj1 (H2 s (rtc_refl _ s))).
Defined.
End witnesses.
