(* ===== verification/HandleCalls.v ===== *)
(** * Calls of the handle beside the tracker ([crates/mempooloracle/src/lib.rs])

    The methods of [MempoolHandle] as programs that take and release the read
    lock, the tracker's thread that takes the write lock for each event, and
    any number of client threads, interleaved at every lock operation and every
    look at the data: what the calls return, each the query on one state, the
    state after the events applied at some moment between the call and its
    return; and when all of them return.  TrackerLock.v has the guards alone,
    and the deadlock; [call_lock_trace] shows that it counts them right. *)

From stdpp Require Import list relations gmap.
From S2P Require Import Prelude Prog Float64 OrdSet Mempool MempoolInv MempoolProps MempoolSpec.
From S2P Require Import TrackerLock.

(** ** The methods *)

(** [self.inner.read().unwrap()], the drop of a guard, and a computation on
    the data behind it. *)
Inductive HandleOp : Type -> Type :=
  | LockRead : HandleOp unit
  | UnlockRead : HandleOp unit
  | Look {A} (f : MempoolInner -> run A) : HandleOp A.

Inductive Query :=
  | Q_classification (tx_id : Z)
  | Q_estimated_blocks_to_confirm (tx_id : Z)
  | Q_gas_ahead (tx_id : Z)
  | Q_is_marketable (tx_id : Z)
  | Q_current_base_fee
  | Q_private_flow_ratio
  | Q_priority_queue
  | Q_last_block_gas_limit
  | Q_find_tx_by_addr_and_nonce (addr nonce : Z).

Inductive Answer :=
  | A_class (c : option TxClassification)
  | A_number (n : option Z)
  | A_bool (b : option bool)
  | A_fee (fee : Z)
  | A_ratio (ratio : f64)
  | A_queue (keys : list (Z * Z * Z))
  | A_tx (tx : option PendingTx).

Section handle.
Context `{BuildProfile} `{IterationOrder}.

(** A guard that lives to the end of the method's body. *)
Definition with_guard {A} (body : Prog HandleOp A) : Prog HandleOp A :=
  trigger LockRead;;
  a ← body;
  trigger UnlockRead;;
  Ret a.

Definition look {A} (f : MempoolInner -> run A) : Prog HandleOp A := trigger (Look f).

Definition call_classification (tx_id : Z) : Prog HandleOp (option TxClassification) :=
  with_guard (look (fun inner => classification inner tx_id)).

Definition call_gas_ahead (tx_id : Z) : Prog HandleOp (option Z) :=
  with_guard (look (fun inner => gas_ahead inner tx_id)).

(** Its own guard is alive when it calls [self.gas_ahead]. *)
Definition call_estimated_blocks (tx_id : Z) : Prog HandleOp (option Z) :=
  with_guard (
    tx ← look (fun inner => Val (find_tx_by_id inner tx_id));
    match tx with
    | None => Ret None
    | Some tx =>
        ahead ← call_gas_ahead tx_id;
        match ahead with
        | None => Ret None
        | Some gas_ahead =>
            capacity ← look (fun inner => Val (usable_capacity inner));
            Ret (Some (if capacity =? 0 then max_w u64
                       else saturating_add u64 gas_ahead (gas_limit tx) / capacity))
        end
    end).

Definition call_is_marketable (tx_id : Z) : Prog HandleOp (option bool) :=
  c ← call_classification tx_id;
  Ret (option_map (fun c => bool_decide (c = Marketable)) c).

Definition get {A} (f : MempoolInner -> A) : Prog HandleOp A := with_guard (look (fun inner => Val (f inner))).

Definition call (q : Query) : Prog HandleOp Answer :=
  match q with
  | Q_classification i => c ← call_classification i; Ret (A_class c)
  | Q_estimated_blocks_to_confirm i => n ← call_estimated_blocks i; Ret (A_number n)
  | Q_gas_ahead i => n ← call_gas_ahead i; Ret (A_number n)
  | Q_is_marketable i => b ← call_is_marketable i; Ret (A_bool b)
  | Q_current_base_fee => f ← get current_base_fee; Ret (A_fee f)
  | Q_private_flow_ratio => r ← get private_flow_ratio; Ret (A_ratio r)
  | Q_priority_queue => k ← get priority_queue_entries; Ret (A_queue k)
  | Q_last_block_gas_limit => l ← get last_block_gas_limit; Ret (A_fee l)
  | Q_find_tx_by_addr_and_nonce a n =>
      tx ← get (fun inner => find_tx_by_addr_and_nonce inner a n); Ret (A_tx tx)
  end.

(** The query on one state, by the definitions of Mempool.v. *)
Definition query (q : Query) (inner : MempoolInner) : run Answer :=
  match q with
  | Q_classification i => c ← classification inner i; Val (A_class c)
  | Q_estimated_blocks_to_confirm i => n ← estimated_blocks_to_confirm inner i; Val (A_number n)
  | Q_gas_ahead i => n ← gas_ahead inner i; Val (A_number n)
  | Q_is_marketable i => b ← is_marketable inner i; Val (A_bool b)
  | Q_current_base_fee => Val (A_fee (current_base_fee inner))
  | Q_private_flow_ratio => Val (A_ratio (private_flow_ratio inner))
  | Q_priority_queue => Val (A_queue (priority_queue_entries inner))
  | Q_last_block_gas_limit => Val (A_fee (last_block_gas_limit inner))
  | Q_find_tx_by_addr_and_nonce a n => Val (A_tx (find_tx_by_addr_and_nonce inner a n))
  end.

(** ** The threads *)

(** A client between two calls, or in a call that began when [begun] events
    had been applied, with the rest of its program and its guards. *)
Inductive Thread :=
  | Between (rest : list Query)
  | InCall (q : Query) (begun : nat) (p : Prog HandleOp Answer) (guards : nat) (rest : list Query).

(** The tracker's thread and the data behind the lock: waiting for an event or
    for the lock, writing under the lock, ended, or panicked while writing,
    which poisons the lock. *)
Inductive TrackerData :=
  | Free (inner : MempoolInner)
  | WantsLock (inner : MempoolInner) (event : MempoolEvent)
  | Locked (inner : MempoolInner) (event : MempoolEvent)
  | Finished (inner : MempoolInner)
  | Poisoned.

Record Returned := MkReturned { r_thread : nat; r_query : Query; r_begun : nat; r_ended : nat; r_answer : run Answer }.

Record HandleSystem := MkShared {
  data : TrackerData;
  coming : list MempoolEvent;      (* what the channel will yield before it closes *)
  applied : nat;
  threads : list Thread;
  returned : list Returned;
}.

Definition guards_of (t : Thread) : nat :=
  match t with Between _ => 0 | InCall _ _ _ g _ => g end.

Definition all_guards (s : HandleSystem) : nat := foldr (fun t n => guards_of t + n)%nat 0%nat (threads s).

(** The data as a reader sees it. *)
Definition readable (d : TrackerData) : option MempoolInner :=
  match d with
  | Free inner | WantsLock inner _ | Finished inner => Some inner
  | Locked _ _ | Poisoned => None
  end.

Definition set_thread (i : nat) (t : Thread) (s : HandleSystem) : HandleSystem :=
  MkShared (data s) (coming s) (applied s) (<[i := t]> (threads s)) (returned s).

Definition set_data (d : TrackerData) (es : list MempoolEvent) (n : nat) (s : HandleSystem) : HandleSystem :=
  MkShared d es n (threads s) (returned s).

(** The call of thread [i] returns, or panics and ends its thread. *)
Definition call_returns (i : nat) (q : Query) (begun : nat) (a : run Answer) (rest : list Query) (s : HandleSystem)
    : HandleSystem :=
  MkShared (data s) (coming s) (applied s) (<[i := Between rest]> (threads s))
    (returned s ++ [MkReturned i q begun (applied s) a]).

Section steps.
Context (prefer_writers : bool).

Definition admitted (d : TrackerData) : bool :=
  match d with
  | Free _ | Finished _ => true
  | WantsLock _ _ => negb prefer_writers
  | Locked _ _ | Poisoned => false
  end.

Inductive share_step : HandleSystem -> HandleSystem -> Prop :=
  (* the tracker: [rx.recv()], [write()], the event, the drop of the guard *)
  | sh_recv inner event es s :
      data s = Free inner -> coming s = event :: es ->
      share_step s (set_data (WantsLock inner event) es (applied s) s)
  | sh_channel_closed inner s :
      data s = Free inner -> coming s = [] -> share_step s (set_data (Finished inner) [] (applied s) s)
  | sh_write inner event s :
      data s = WantsLock inner event -> all_guards s = 0%nat ->
      share_step s (set_data (Locked inner event) (coming s) (applied s) s)
  | sh_apply inner inner' event s :
      data s = Locked inner event -> handle_event event inner = Val inner' ->
      share_step s (set_data (Free inner') (coming s) (S (applied s)) s)
  | sh_tracker_panics inner r event s :
      data s = Locked inner event -> handle_event event inner = Panic r ->
      share_step s (set_data Poisoned (coming s) (applied s) s)
  (* a client *)
  | sh_call i q rest s :
      threads s !! i = Some (Between (q :: rest)) ->
      share_step s (set_thread i (InCall q (applied s) (call q) 0 rest) s)
  | sh_lock i q b k g rest s :
      threads s !! i = Some (InCall q b (Vis LockRead k) g rest) -> admitted (data s) = true ->
      share_step s (set_thread i (InCall q b (k tt) (S g) rest) s)
  | sh_lock_poisoned i q b k g rest s :
      threads s !! i = Some (InCall q b (Vis LockRead k) g rest) -> data s = Poisoned ->
      share_step s (call_returns i q b (Panic Unwrap) [] s)
  | sh_look i q b A (f : MempoolInner -> run A) k g rest inner a s :
      threads s !! i = Some (InCall q b (Vis (Look f) k) g rest) ->
      readable (data s) = Some inner -> f inner = Val a ->
      share_step s (set_thread i (InCall q b (k a) g rest) s)
  | sh_look_panics i q b A (f : MempoolInner -> run A) k g rest inner r s :
      threads s !! i = Some (InCall q b (Vis (Look f) k) g rest) ->
      readable (data s) = Some inner -> f inner = Panic r ->
      share_step s (call_returns i q b (Panic r) [] s)
  | sh_unlock i q b k g rest s :
      threads s !! i = Some (InCall q b (Vis UnlockRead k) (S g) rest) ->
      share_step s (set_thread i (InCall q b (k tt) g rest) s)
  | sh_return i q b a rest s :
      threads s !! i = Some (InCall q b (Ret a) 0 rest) ->
      share_step s (call_returns i q b (Val a) rest s).

End steps.

(** The twelve steps, named alike everywhere. *)
Ltac share_cases Hs :=
  destruct Hs as [inner event es s Hf Hc|inner s Hf Hc|inner event s Hf Hg|inner inner' event s Hf He|inner r event s Hf He
    |i q rest s Ht|i q b k g rest s Ht Ha|i q b k g rest s Ht Hp|i q b A f k g rest inner a s Ht Hin Hf
    |i q b A f k g rest inner r s Ht Hin Hf|i q b k g rest s Ht|i q b a rest s Ht].

(** The tracker with its initial transactions and a thread for each list of
    calls. *)
Definition share_start (self : MempoolInner) (events : list MempoolEvent) (calls : list (list Query)) : HandleSystem :=
  MkShared (Free self) events 0 (Between <$> calls) [].

(** ** A call on data that does not change *)

Definition on_data (inner : MempoolInner) X (e : HandleOp X) (s : unit) : run (X * unit) :=
  match e in HandleOp X return run (X * unit) with
  | LockRead => Val (tt, tt)
  | UnlockRead => Val (tt, tt)
  | Look f => a ← f inner; Val (a, tt)
  end.

Definition eval (inner : MempoolInner) {A} (p : Prog HandleOp A) : run A := (run_alone (on_data inner) p tt).1.

(** The guards: the first lock is taken without one, every look and every
    other lock happens under one, and at the end there is none. *)
Definition guard_protocol : protocol HandleOp nat := {|
  may := fun X e g => (0 < g)%nat;
  answers := fun X e g x => True;
  next_state := fun X e g x => match e with LockRead => S g | UnlockRead => pred g | Look _ => g end;
  may_crash := fun r g => False;
|}.

Definition bracketed {A} (p : Prog HandleOp A) (g : nat) : Prop := wp guard_protocol p g (fun _ g' => g' = 0%nat).

(** A method takes the lock and is bracketed from there on. *)
Lemma call_shape q : exists k, call q = Vis LockRead k /\ bracketed (k tt) 1.
Proof.
  destruct q; eexists; (split; [reflexivity|]); unfold bracketed; cbn;
    repeat (split; [lia|]; intros ? _; cbn); try lia;
    repeat (case_match; cbn; repeat (split; [lia|]; intros ? _; cbn); try lia).
Qed.

Lemma call_query q inner : eval inner (call q) = query q inner.
Proof.
  destruct q; unfold eval; cbn; try done.
  - by destruct (classification inner tx_id).
  - unfold estimated_blocks_to_confirm. destruct (find_tx_by_id inner tx_id); cbn; [|done].
    destruct (gas_ahead inner tx_id) as [[ahead|]|]; by cbn.
  - by destruct (gas_ahead inner tx_id).
  - unfold is_marketable. by destruct (classification inner tx_id).
Qed.

(** ** The invariant *)

Section invariant.
Context (prefer_writers : bool) (self0 : MempoolInner) (events : list MempoolEvent).
Hypothesis Hself : mempool_ok self0.
Hypothesis Hsane : Forall event_sane events.

(** The data after [k] events. *)
Definition after (k : nat) (inner : MempoolInner) : Prop := tracker_run (take k events) self0 = Val inner.

(** The answer [a] of [q] is that of the data after [k] events, between [b]
    and [n]. *)
Definition answered_at (q : Query) (b n : nat) (a : run Answer) : Prop :=
  exists k inner, (b <= k <= n)%nat /\ after k inner /\ query q inner = a.

Definition thread_ok (d : TrackerData) (n : nat) (t : Thread) : Prop :=
  match t with
  | Between _ => True
  | InCall q b p g _ =>
      (b <= n)%nat /\
      (p = call q /\ g = 0%nat \/
       bracketed p g /\ exists k inner, (b <= k <= n)%nat /\ after k inner /\
         eval inner p = query q inner /\ (g <> 0%nat -> readable d = Some inner))
  end.

Definition data_ok (s : HandleSystem) : Prop :=
  match data s with
  | Free inner => events = take (applied s) events ++ coming s /\ after (applied s) inner /\ mempool_ok inner
  | Finished inner => events = take (applied s) events /\ after (applied s) inner /\ mempool_ok inner
  | WantsLock inner event | Locked inner event =>
      events = take (applied s) events ++ event :: coming s /\ after (applied s) inner /\ mempool_ok inner
  | Poisoned => False
  end.

Record share_inv (s : HandleSystem) : Prop := {
  inv_data : data_ok s;
  inv_applied : (applied s <= length events)%nat;
  inv_threads : Forall (thread_ok (data s) (applied s)) (threads s);
  inv_locked : forall inner event, data s = Locked inner event -> all_guards s = 0%nat;
  inv_returned : Forall (fun r => answered_at (r_query r) (r_begun r) (r_ended r) (r_answer r) /\
    (r_ended r <= applied s)%nat) (returned s);
}.

Lemma no_guards s : all_guards s = 0%nat -> Forall (fun t => guards_of t = 0%nat) (threads s).
Proof.
  unfold all_guards. induction (threads s) as [|t l IH]; [done|]. simpl. intros Hs.
  constructor; [|apply IH]; lia.
Qed.

(** A thread without a guard does not mind what becomes of the data. *)
Lemma thread_ok_free d d' n n' t :
  (n <= n')%nat -> guards_of t = 0%nat -> thread_ok d n t -> thread_ok d' n' t.
Proof.
  intros Hn Hg. destruct t as [|q b p g rest]; [done|]. simpl in Hg. subst g.
  intros (Hb & [[Hp _]|(Hbr & k & inner & Hk & Ha & He & _)]); split; try lia; [by left|right].
  split; [done|]. exists k, inner. split; [lia|]. by split_and!.
Qed.

(** Data that reads the same. *)
Lemma thread_ok_data d d' n t : readable d = readable d' -> thread_ok d n t -> thread_ok d' n t.
Proof. intros Hd. destruct t; simpl; [done|]. by rewrite Hd. Qed.

Lemma guards_insert s i t t' :
  threads s !! i = Some t -> (all_guards (set_thread i t' s) + guards_of t = all_guards s + guards_of t')%nat.
Proof. apply (total_insert guards_of). Qed.

(** A step of thread [i]. *)
Lemma thread_step_inv i t t' s :
  share_inv s -> threads s !! i = Some t -> thread_ok (data s) (applied s) t' ->
  (forall inner event, data s = Locked inner event -> (guards_of t' <= guards_of t)%nat) ->
  share_inv (set_thread i t' s).
Proof.
  intros [Hd Ha Ht Hl Hr] Hi Hok Hg. split; simpl; [done|done|by apply Forall_insert| |done].
  intros inner event Hw. pose proof (guards_insert s i t t' Hi). specialize (Hl _ _ Hw). specialize (Hg _ _ Hw). lia.
Qed.

Lemma call_returns_inv i q b p g rest a rest' s :
  share_inv s -> threads s !! i = Some (InCall q b p g rest) ->
  answered_at q b (applied s) a -> share_inv (call_returns i q b a rest' s).
Proof.
  intros [Hd Ha Ht Hl Hr] Hi Han. split; simpl; [done|done|by apply Forall_insert| |].
  - intros inner event Hw. pose proof (guards_insert s i _ (Between rest') Hi) as Hg. simpl in Hg.
    specialize (Hl _ _ Hw). unfold all_guards in *. simpl in *. lia.
  - apply Forall_app. split; [done|]. by repeat constructor.
Qed.

(** A call under a guard: the state it has been looking at is the current one,
    and the rest of its program gives the query on it. *)
Lemma in_call s i q b p g rest :
  share_inv s -> threads s !! i = Some (InCall q b p g rest) -> p <> call q ->
  bracketed p g /\ exists k inner, (b <= k <= applied s)%nat /\ after k inner /\
    eval inner p = query q inner /\ (g <> 0%nat -> readable (data s) = Some inner).
Proof.
  intros Hi Ht Hp. pose proof (Forall_lookup_1 _ _ _ _ (inv_threads s Hi) Ht) as (_ & [[? _]|H']); [done|done].
Qed.

(** What follows the first lock of a program. *)
Definition after_lock {A} (p : Prog HandleOp A) : option (Prog HandleOp A) :=
  match p with
  | Vis e k => match e in HandleOp X return (X -> Prog HandleOp A) -> option (Prog HandleOp A) with
               | LockRead => fun k => Some (k tt)
               | _ => fun _ => None
               end k
  | _ => None
  end.

Lemma call_locks q k : call q = Vis LockRead k -> bracketed (k tt) 1.
Proof.
  intros Hc. destruct (call_shape q) as (k' & Hc' & Hb). rewrite Hc in Hc'.
  apply (f_equal after_lock) in Hc'. simpl in Hc'. by injection Hc' as ->.
Qed.

Lemma not_call q p : after_lock p = None -> p <> call q.
Proof. intros Hp ->. by destruct (call_shape q) as (k & Hc & _); rewrite Hc in Hp. Qed.

Lemma admitted_readable d : admitted prefer_writers d = true -> exists inner, readable d = Some inner.
Proof. destruct d; simpl; by eauto. Qed.

Lemma readable_after s inner : share_inv s -> readable (data s) = Some inner -> after (applied s) inner.
Proof. intros Hi Hr. pose proof (inv_data s Hi) as Hd. unfold data_ok in Hd. destruct (data s); naive_solver. Qed.

(** The client with the lock, and the look. *)
Lemma lock_inv s i q b k g rest :
  share_inv s -> threads s !! i = Some (InCall q b (Vis LockRead k) g rest) ->
  admitted prefer_writers (data s) = true -> share_inv (set_thread i (InCall q b (k tt) (S g) rest) s).
Proof.
  intros Hi Ht Ha. destruct (admitted_readable _ Ha) as [inner Hin].
  pose proof (Forall_lookup_1 _ _ _ _ (inv_threads s Hi) Ht) as (Hb & Hok).
  eapply thread_step_inv; [done|exact Ht| |].
  - split; [done|]. right. destruct Hok as [[Hp ->]|([Hg Hbr] & j & inner' & Hj & Haf & He & Hr)].
    + split; [by eapply call_locks|]. exists (applied s), inner. split; [lia|].
      split; [by apply readable_after|]. split; [|done]. by rewrite <- call_query, <- Hp.
    + split; [by apply (Hbr tt)|]. exists j, inner'. split; [done|]. split; [done|]. split; [done|].
      intros _. simpl in Hg. apply Hr. lia.
  - intros inner' event Hw. by rewrite Hw in Ha.
Qed.

Lemma look_inv s i q b A (f : MempoolInner -> run A) k g rest inner :
  share_inv s -> threads s !! i = Some (InCall q b (Vis (Look f) k) g rest) ->
  readable (data s) = Some inner ->
  match f inner with
  | Val a => share_inv (set_thread i (InCall q b (k a) g rest) s)
  | Panic r => share_inv (call_returns i q b (Panic r) [] s)
  end.
Proof.
  intros Hi Ht Hin.
  pose proof (Forall_lookup_1 _ _ _ _ (inv_threads s Hi) Ht) as (Hb & _).
  destruct (in_call s i q b _ g rest Hi Ht) as ([Hg Hbr] & j & inner' & Hj & Haf & He & Hr); [by apply not_call|].
  simpl in Hg. rewrite Hr in Hin by lia. injection Hin as ->. unfold eval in He. simpl in He.
  destruct (f inner) as [a|r]; simpl in He.
  - eapply thread_step_inv; [done|exact Ht| |done]. split; [done|]. right. split; [by apply (Hbr a)|].
    exists j, inner. split; [done|]. split; [done|]. split; [done|]. intros _. apply Hr. lia.
  - eapply call_returns_inv; [done|exact Ht|]. by exists j, inner.
Qed.

Lemma unlock_inv s i q b k g rest :
  share_inv s -> threads s !! i = Some (InCall q b (Vis UnlockRead k) (S g) rest) ->
  share_inv (set_thread i (InCall q b (k tt) g rest) s).
Proof.
  intros Hi Ht. pose proof (Forall_lookup_1 _ _ _ _ (inv_threads s Hi) Ht) as (Hb & _).
  destruct (in_call s i q b _ (S g) rest Hi Ht) as ([_ Hbr] & j & inner & Hj & Haf & He & Hr); [by apply not_call|].
  eapply thread_step_inv; [done|exact Ht| |intros; simpl; lia]. split; [done|]. right.
  split; [by apply (Hbr tt)|]. exists j, inner. split; [done|]. split; [done|]. split; [done|].
  intros _. by apply Hr.
Qed.

(** The tracker's own steps. *)
Lemma data_step_inv s d es n :
  share_inv s -> data_ok (set_data d es n s) -> (applied s <= n <= length events)%nat ->
  (forall inner event, d = Locked inner event -> all_guards s = 0%nat) ->
  n = applied s /\ readable (data s) = readable d \/ all_guards s = 0%nat ->
  share_inv (set_data d es n s).
Proof.
  intros [Hd Ha Ht Hl Hr] Hd' Hn Hlock Hkeep. split; simpl; [done|lia| |done|].
  - destruct Hkeep as [[-> Hsame]|Hnone].
    + eapply Forall_impl; [exact Ht|]. intros t. by apply thread_ok_data.
    + apply no_guards in Hnone. rewrite Forall_forall in *. intros t Hin.
      eapply thread_ok_free; [|by apply Hnone|by apply Ht]. lia.
  - eapply Forall_impl; [exact Hr|]. intros r [? ?]. split; [done|lia].
Qed.

(** One more event applied. *)
Lemma after_next s inner event es :
  events = take (applied s) events ++ event :: es -> (applied s <= length events)%nat ->
  after (applied s) inner -> mempool_ok inner ->
  exists inner', handle_event event inner = Val inner' /\ mempool_ok inner' /\
    after (S (applied s)) inner' /\ (S (applied s) <= length events)%nat /\
    events = take (S (applied s)) events ++ es.
Proof.
  intros Hev Hle Haf Hok.
  assert (events !! applied s = Some event) as Hlk.
  { rewrite Hev, lookup_app_r; rewrite length_take, Nat.min_l by done; [|done]. by rewrite Nat.sub_diag. }
  assert (event_sane event) as Hes by (rewrite Forall_forall in Hsane; by eapply Hsane, list_elem_of_lookup_2).
  destruct (tracker_events_ok [event] inner Hok) as (inner' & Hrun & Hok' & _); [by repeat constructor|].
  unfold tracker_run in Hrun. simpl in Hrun.
  destruct (handle_event event inner) as [inner2|] eqn:He; [|done]. injection Hrun as ->.
  exists inner'. split; [done|]. split; [done|].
  split; [unfold after, tracker_run in *; rewrite (take_S_r _ _ event), for_each_app, Haf by done; simpl; by rewrite He|].
  split; [by apply lookup_lt_Some in Hlk|]. rewrite (take_S_r _ _ event), <- app_assoc by done. done.
Qed.

Lemma share_step_inv s s' : share_step prefer_writers s s' -> share_inv s -> share_inv s'.
Proof.
  intros Hs Hi. pose proof (inv_applied s Hi) as Hle. pose proof (inv_data s Hi) as Hd. unfold data_ok in Hd.
  share_cases Hs.
  - rewrite Hf, Hc in Hd. apply data_step_inv; [done|done|lia|done|]. left. by rewrite Hf.
  - rewrite Hf, Hc, app_nil_r in Hd. apply data_step_inv; [done|done|lia|done|]. left. by rewrite Hf.
  - rewrite Hf in Hd. apply data_step_inv; [done|done|lia|done|by right].
  - rewrite Hf in Hd. destruct Hd as (Hev & Haf & Hok).
    destruct (after_next s inner event _ Hev Hle Haf Hok) as (inner2 & He2 & Hok2 & Haf2 & Hle2 & Hev2).
    assert (inner2 = inner') as -> by congruence.
    apply data_step_inv; [done|done|lia|done|]. right. by eapply (inv_locked s Hi).
  - rewrite Hf in Hd. destruct Hd as (Hev & Haf & Hok).
    destruct (after_next s inner event _ Hev Hle Haf Hok) as (inner2 & He2 & _). congruence.
  - eapply thread_step_inv; [done|exact Ht|by split; [|left]|done].
  - by apply lock_inv.
  - by rewrite Hp in Hd.
  - pose proof (look_inv s i q b A f k g rest inner Hi Ht Hin) as Hl. by rewrite Hf in Hl.
  - pose proof (look_inv s i q b A f k g rest inner Hi Ht Hin) as Hl. by rewrite Hf in Hl.
  - by apply unlock_inv.
  - eapply call_returns_inv; [done|exact Ht|].
    destruct (in_call s i q b _ 0 rest Hi Ht) as (_ & j & inner & Hj & Haf & He & _); [by apply not_call|].
    by exists j, inner.
Qed.

Lemma share_start_inv calls : share_inv (share_start self0 events calls).
Proof.
  split; simpl; [by split_and!|lia| |done|done].
  apply Forall_fmap, Forall_forall. intros l _. exact I.
Qed.

End invariant.

(** ** Progress *)

(** At most so many events are left in a program. *)
Definition budget : protocol HandleOp nat := {|
  may := fun X e n => (0 < n)%nat;
  answers := fun X e n x => True;
  next_state := fun X e n x => pred n;
  may_crash := fun r n => False;
|}.

Definition within (p : Prog HandleOp Answer) (n : nat) : Prop := wp budget p n (fun _ _ => True).

Definition CALL_EVENTS : nat := 7.

Lemma call_within q : within (call q) CALL_EVENTS.
Proof.
  unfold within, CALL_EVENTS. destruct q; cbn; repeat (split; [lia|]; intros ? _; cbn); try done;
    repeat (case_match; cbn; repeat (split; [lia|]; intros ? _; cbn); try done).
Qed.

(** A program that never takes the lock under a guard. *)
Definition single_protocol : protocol HandleOp nat := {|
  may := fun X e g => match e with LockRead => g = 0%nat | _ => (0 < g)%nat end;
  answers := fun X e g x => True;
  next_state := fun X e g x => match e with LockRead => S g | UnlockRead => pred g | Look _ => g end;
  may_crash := fun r g => False;
|}.

Definition single {A} (p : Prog HandleOp A) (g : nat) : Prop := wp single_protocol p g (fun _ g' => g' = 0%nat).

(** The calls that take the lock once. *)
Definition locks_once (q : Query) : Prop :=
  match q with Q_estimated_blocks_to_confirm _ => False | _ => True end.

Lemma call_single q : locks_once q -> single (call q) 0.
Proof.
  unfold single. destruct q; cbn; try done; intros _; repeat (split; [lia|]; intros ? _; cbn); lia.
Qed.

Definition thread_single (t : Thread) : Prop :=
  match t with
  | Between rest => Forall locks_once rest
  | InCall _ _ p g rest => single p g /\ Forall locks_once rest
  end.

(** What is left of a thread, and of the tracker. *)
Definition thread_work (t : Thread) (w : nat) : Prop :=
  match t with
  | Between rest => w = ((CALL_EVENTS + 2) * length rest)%nat
  | InCall _ _ p _ rest =>
      exists n, within p n /\ w = (n + 1 + (CALL_EVENTS + 2) * length rest)%nat
  end.

Definition data_work (d : TrackerData) (es : list MempoolEvent) : nat :=
  match d with
  | Free _ => 3 * length es + 1
  | WantsLock _ _ => 3 * length es + 3
  | Locked _ _ => 3 * length es + 2
  | Finished _ | Poisoned => 0
  end.

Definition share_work (s : HandleSystem) (w : nat) : Prop :=
  exists ws, Forall2 thread_work (threads s) ws /\ w = (data_work (data s) (coming s) + sum_list ws)%nat.

Section progress.
Context (prefer_writers : bool).

(** A thread's step takes some of its work. *)
Lemma thread_step_work i t t' ws w w' s :
  threads s !! i = Some t -> Forall2 thread_work (threads s) ws -> ws !! i = Some w ->
  thread_work t' w' -> (w' < w)%nat ->
  exists ws', Forall2 thread_work (<[i := t']> (threads s)) ws' /\ (sum_list ws' < sum_list ws)%nat.
Proof.
  intros Ht Hall Hw Hw' Hlt. exists (<[i := w']> ws). split; [by apply Forall2_insert|].
  pose proof (total_insert (fun n : nat => n) ws i w w' Hw) as Hsum.
  assert (forall l, foldr (fun x n => x + n)%nat 0%nat l = sum_list l) as Hfold by (induction l; simpl; lia).
  rewrite !Hfold in Hsum. lia.
Qed.

Lemma share_step_work s s' w :
  share_step prefer_writers s s' -> share_work s w -> exists w', share_work s' w' /\ (w' < w)%nat.
Proof.
  intros Hs (ws & Hall & ->).
  assert (forall i t t' w', threads s !! i = Some t -> thread_work t' w' ->
    (forall w, thread_work t w -> (w' < w)%nat) -> threads s' = <[i := t']> (threads s) ->
    data s' = data s -> coming s' = coming s ->
    exists w', share_work s' w' /\ (w' < data_work (data s) (coming s) + sum_list ws)%nat) as Hthread.
  { intros i t t' w' Ht Hw' Hlt Hts Hd Hc. destruct (Forall2_lookup_l _ _ _ _ _ Hall Ht) as (w & Hw & Htw).
    destruct (thread_step_work i t t' ws w w' s Ht Hall Hw Hw' (Hlt w Htw)) as (ws' & Hws' & Hlt').
    eexists. split; [exists ws'; rewrite Hts, Hd, Hc; by split|lia]. }
  assert (forall i q b p p' g g' rest, threads s !! i = Some (InCall q b p g rest) ->
    (forall n, within p n -> exists m, (m < n)%nat /\ within p' m) ->
    s' = set_thread i (InCall q b p' g' rest) s ->
    exists w', share_work s' w' /\ (w' < data_work (data s) (coming s) + sum_list ws)%nat) as Hevent.
  { intros i q b p p' g g' rest Ht Hp ->. destruct (Forall2_lookup_l _ _ _ _ _ Hall Ht) as (w & Hw & n & Hn & ->).
    destruct (Hp n Hn) as (m & Hm & Hm').
    assert (thread_work (InCall q b p' g' rest) (m + 1 + (CALL_EVENTS + 2) * length rest)) as Hw' by by exists m.
    destruct (thread_step_work i _ _ ws _ _ s Ht Hall Hw Hw') as (ws' & Hws' & Hlt'); [lia|].
    eexists. split; [by exists ws'|]. simpl. lia. }
  share_cases Hs.
  - eexists. split; [by exists ws|]. rewrite Hf, Hc. simpl. lia.
  - eexists. split; [by exists ws|]. rewrite Hf, Hc. simpl. lia.
  - eexists. split; [by exists ws|]. rewrite Hf. simpl. lia.
  - eexists. split; [by exists ws|]. rewrite Hf. simpl. lia.
  - eexists. split; [by exists ws|]. rewrite Hf. simpl. lia.
  - eapply (Hthread i _ _ (CALL_EVENTS + 1 + (CALL_EVENTS + 2) * length rest)%nat Ht); [|..|done|done|done].
    + exists CALL_EVENTS. by split; [apply call_within|].
    + simpl. intros w ->. unfold CALL_EVENTS. lia.
  - eapply Hevent; [exact Ht| |done]. intros n [Hn Hk]. exists (pred n). split; [simpl in Hn; lia|by apply (Hk tt)].
  - eapply (Hthread i _ (Between []) 0%nat Ht); [|..|done|done|done]; [by vm_compute|].
    intros w (n & _ & ->). lia.
  - eapply Hevent; [exact Ht| |done]. intros n [Hn Hk]. exists (pred n). split; [simpl in Hn; lia|by apply (Hk a)].
  - eapply (Hthread i _ (Between []) 0%nat Ht); [|..|done|done|done]; [by vm_compute|].
    intros w (n & _ & ->). lia.
  - eapply Hevent; [exact Ht| |done]. intros n [Hn Hk]. exists (pred n). split; [simpl in Hn; lia|by apply (Hk tt)].
  - eapply (Hthread i _ (Between rest) _ Ht); [done|..|done|done|done]. intros w (n & _ & ->). lia.
Qed.

Lemma share_start_work self events calls : exists w, share_work (share_start self events calls) w.
Proof.
  exists (data_work (Free self) events + sum_list ((fun l => (CALL_EVENTS + 2) * length l)%nat <$> calls))%nat.
  exists ((fun l => (CALL_EVENTS + 2) * length l)%nat <$> calls). split; [|done]. simpl.
  induction calls as [|l calls IH]; simpl; by constructor.
Qed.

Lemma share_step_single s s' :
  share_step prefer_writers s s' -> Forall thread_single (threads s) -> Forall thread_single (threads s').
Proof.
  intros Hs Hall. share_cases Hs; simpl; try done;
    apply Forall_insert; try done; pose proof (Forall_lookup_1 _ _ _ _ Hall Ht) as Hok; simpl in *.
  - inversion_clear Hok. split; [by apply call_single|done].
  - destruct Hok as [[Hg Hk] ?]. split; [by apply (Hk tt)|done].
  - by constructor.
  - destruct Hok as [[Hg Hk] ?]. split; [by apply (Hk a)|done].
  - by constructor.
  - destruct Hok as [[Hg Hk] ?]. split; [by apply (Hk tt)|done].
  - by destruct Hok.
Qed.

End progress.

(** ** Where the system stands still *)

Section stuck.
Context (prefer_writers : bool) (self0 : MempoolInner) (events : list MempoolEvent).
Hypothesis Hself : mempool_ok self0.
Hypothesis Hsane : Forall event_sane events.

(** A thread with data to read goes on, unless it waits to be admitted. *)
Lemma thread_goes_on s i t inner :
  share_inv self0 events s -> threads s !! i = Some t -> readable (data s) = Some inner ->
  admitted prefer_writers (data s) = true \/
    guards_of t <> 0%nat /\ (prefer_writers = false \/ Forall thread_single (threads s)) ->
  red (share_step prefer_writers) s \/ t = Between [].
Proof.
  intros Hi Ht Hin Hadm.
  destruct t as [[|q rest]|q b p g rest]; [by right|left; eexists; by eapply sh_call|left].
  assert (p = call q \/ bracketed p g) as Hp.
  { pose proof (Forall_lookup_1 _ _ _ _ (inv_threads _ _ s Hi) Ht) as (_ & [[? _]|[? _]]); auto. }
  destruct p as [a|r|X [| |A f] k].
  - destruct Hp as [Hp|Hg]; [by destruct (call_shape q) as (? & ? & _); congruence|]. hnf in Hg. subst g.
    eexists. by eapply sh_return.
  - destruct Hp as [Hp|Hg]; [by destruct (call_shape q) as (? & Hc & _); rewrite Hc in Hp|done].
  - eexists. eapply sh_lock; [exact Ht|]. destruct Hadm as [|[Hg Hpol]]; [done|].
    destruct Hpol as [->|Hall]; [by destruct (data s)|].
    pose proof (Forall_lookup_1 _ _ _ _ Hall Ht) as [[Hz _] _]. simpl in Hz, Hg. lia.
  - destruct Hp as [Hp|[Hg _]]; [by destruct (call_shape q) as (? & Hc & _); rewrite Hc in Hp|].
    simpl in Hg. destruct g as [|g]; [lia|]. eexists. by eapply sh_unlock.
  - destruct (f inner) eqn:Hf; eexists; [by eapply sh_look|by eapply sh_look_panics].
Qed.

Lemma guard_holder s : all_guards s <> 0%nat -> exists i t, threads s !! i = Some t /\ guards_of t <> 0%nat.
Proof.
  unfold all_guards. induction (threads s) as [|t l IH]; [done|]. simpl. intros Hs.
  destruct (decide (guards_of t = 0%nat)) as [Hz|Hz]; [|by exists 0%nat, t].
  destruct IH as (i & u & Hi & Hu); [lia|]. by exists (S i), u.
Qed.

Lemma stuck_done s :
  share_inv self0 events s -> prefer_writers = false \/ Forall thread_single (threads s) ->
  nf (share_step prefer_writers) s ->
  exists inner, data s = Finished inner /\ Forall (fun t => t = Between []) (threads s).
Proof.
  intros Hi Hpol Hst. pose proof (inv_data _ _ s Hi) as Hd. unfold data_ok in Hd.
  destruct (data s) as [inner|inner event|inner event|inner|] eqn:Heq; [| | | |done].
  - destruct Hst. destruct (coming s) as [|event es] eqn:Hc; eexists;
      [by eapply sh_channel_closed|by eapply sh_recv].
  - destruct Hst. destruct (decide (all_guards s = 0%nat)) as [Hz|Hz]; [eexists; by eapply sh_write|].
    destruct (guard_holder s Hz) as (i & t & Ht & Hg).
    destruct (thread_goes_on s i t inner Hi Ht) as [| ->]; [by rewrite Heq|by right|done|done].
  - destruct Hst. destruct Hd as (Hev & Haf & Hok).
    destruct (after_next self0 events Hsane s inner event _ Hev (inv_applied _ _ s Hi) Haf Hok) as (inner' & He & _).
    eexists. by eapply sh_apply.
  - exists inner. split; [done|]. apply Forall_forall. intros t Hin.
    apply list_elem_of_lookup in Hin as [i Ht].
    destruct (thread_goes_on s i t inner Hi Ht) as [|]; [by rewrite Heq|left; by rewrite Heq|done|done].
Qed.

End stuck.

(** ** Every call is accounted for *)

Definition work_left (t : Thread) : list Query :=
  match t with Between rest => rest | InCall q _ _ _ rest => q :: rest end.

Definition answers_of (i : nat) (s : HandleSystem) : list Returned := filter (fun r => r_thread r = i) (returned s).

Definition panicked (r : Returned) : Prop := exists reason, r_answer r = Panic reason.

(** The calls of thread [i] that have returned, in order, and those to come,
    unless one of them panicked: then the others are not made. *)
Definition thread_accounted (l : list Query) (returned : list Returned) (t : Thread) : Prop :=
  exists rest, l = (r_query <$> returned) ++ rest /\
    (work_left t = rest \/ work_left t = [] /\ Exists panicked returned).

Definition accounted (calls : list (list Query)) (s : HandleSystem) : Prop :=
  length (threads s) = length calls /\
  forall i l t, calls !! i = Some l -> threads s !! i = Some t -> thread_accounted l (answers_of i s) t.

Section accounting.
Context (prefer_writers : bool) (calls : list (list Query)).

Lemma set_thread_accounted i t t' s :
  threads s !! i = Some t -> work_left t' = work_left t -> accounted calls s -> accounted calls (set_thread i t' s).
Proof.
  intros Ht Hw [Hlen Hacc]. split; [simpl; by rewrite length_insert|]. intros j l u Hl Hu. simpl in Hu.
  destruct (decide (i = j)) as [<-|Hne].
  - rewrite list_lookup_insert_eq in Hu by by eapply lookup_lt_Some. injection Hu as <-.
    destruct (Hacc i l t Hl Ht) as (rest & Hrest & Hor). exists rest. split; [done|]. by rewrite Hw.
  - rewrite list_lookup_insert_ne in Hu by done. by apply (Hacc j).
Qed.

Lemma call_returns_accounted i q b p g rest a rest' s :
  threads s !! i = Some (InCall q b p g rest) -> (rest' = rest \/ rest' = [] /\ exists r, a = Panic r) ->
  accounted calls s -> accounted calls (call_returns i q b a rest' s).
Proof.
  intros Ht Hrest' [Hlen Hacc]. split; [simpl; by rewrite length_insert|]. intros j l u Hl Hu. simpl in Hu.
  unfold answers_of. simpl. rewrite filter_app. destruct (decide (i = j)) as [<-|Hne].
  - rewrite list_lookup_insert_eq in Hu by by eapply lookup_lt_Some. injection Hu as <-.
    rewrite (filter_cons_True (fun r => r_thread r = i)) by done.
    destruct (Hacc i l _ Hl Ht) as (tl & -> & [<-|[? _]]); [|done].
    exists rest. split; [by rewrite fmap_app, <- app_assoc|].
    destruct Hrest' as [->|[-> Hp]]; [by left|right; split; [done|]]. apply Exists_app. right. by constructor.
  - rewrite list_lookup_insert_ne in Hu by done.
    rewrite (filter_cons_False (fun r => r_thread r = j)), app_nil_r by done. by apply (Hacc j).
Qed.

Lemma share_step_accounted s s' : share_step prefer_writers s s' -> accounted calls s -> accounted calls s'.
Proof.
  intros Hs. destruct Hs; try done; try (by eapply set_thread_accounted);
    eapply call_returns_accounted; eauto.
Qed.

Lemma share_start_accounted self events : accounted calls (share_start self events calls).
Proof.
  split; [apply length_fmap|]. intros i l t Hl Ht. simpl in Ht.
  rewrite list_lookup_fmap, Hl in Ht. injection Ht as <-. exists l. split; [done|by left].
Qed.

End accounting.

(** ** The locks of a call, as TrackerLock.v counts them *)

(** What a program does to the lock on data that does not change; an unwinding
    thread gives its guards back. *)
Fixpoint lock_trace (inner : MempoolInner) {A} (p : Prog HandleOp A) (held : nat) : list LockOp :=
  match p with
  | Ret _ => []
  | Crash _ => repeat ReleaseRead held
  | Vis e k =>
      match e in HandleOp X return (X -> Prog HandleOp A) -> list LockOp with
      | LockRead => fun k => AcquireRead :: lock_trace inner (k tt) (S held)
      | UnlockRead => fun k => ReleaseRead :: lock_trace inner (k tt) (pred held)
      | Look f => fun k =>
          match f inner with Val a => lock_trace inner (k a) held | Panic _ => repeat ReleaseRead held end
      end k
  end.

Definition method_of (inner : MempoolInner) (q : Query) : HandleMethod :=
  match q with
  | Q_classification _ => M_classification
  | Q_estimated_blocks_to_confirm i =>
      M_estimated_blocks_to_confirm (bool_decide (is_Some (find_tx_by_id inner i)))
  | Q_gas_ahead _ => M_gas_ahead
  | Q_is_marketable _ => M_is_marketable
  | Q_current_base_fee => M_current_base_fee
  | Q_private_flow_ratio => M_private_flow_ratio
  | Q_priority_queue => M_priority_queue
  | Q_last_block_gas_limit => M_last_block_gas_limit
  | Q_find_tx_by_addr_and_nonce _ _ => M_find_tx_by_addr_and_nonce
  end.

(** Also when the call panics. *)
Lemma call_lock_trace inner q : lock_trace inner (call q) 0 = method_locks (method_of inner q).
Proof.
  destruct q; cbn; try done.
  - by destruct (classification inner tx_id).
  - destruct (find_tx_by_id inner tx_id); cbn; [|done].
    by destruct (gas_ahead inner tx_id) as [[ahead|]|].
  - by destruct (gas_ahead inner tx_id).
  - by destruct (classification inner tx_id).
Qed.

(** ** Properties *)

(** C15: the methods of the handle are linearizable.  Whatever the tracker's
    thread and any number of client threads do, in any order and under either
    policy of the lock, the tracker never panics under the lock, so the lock
    is never poisoned, and every call that has returned gave the answer its
    method has on one state of the tracker: the state after the first [k]
    events, for a [k] between the number applied when the call began and the
    number applied when it returned.  [estimated_blocks_to_confirm] too,
    although it reads the data three times.  The calls a thread has returned
    are its calls in order, none left out. *)
Theorem handle_calls_linearizable prefer_writers self events calls s :
  mempool_ok self -> Forall event_sane events ->
  rtc (share_step prefer_writers) (share_start self events calls) s ->
  data s <> Poisoned /\
  Forall (fun r => (r_ended r <= applied s <= length events)%nat /\
    exists k inner, (r_begun r <= k <= r_ended r)%nat /\
      tracker_run (take k events) self = Val inner /\ query (r_query r) inner = r_answer r) (returned s) /\
  accounted calls s.
Proof.
  intros Hself Hsane Hr.
  assert (share_inv self events s) as Hi
    by (eapply rtc_inv; [|exact Hr|by apply share_start_inv]; intros; by eapply share_step_inv).
  split; [|split].
  - intros Hp. pose proof (inv_data _ _ s Hi) as Hd. unfold data_ok in Hd. by rewrite Hp in Hd.
  - eapply Forall_impl; [exact (inv_returned _ _ s Hi)|]. intros r [Ha Hle].
    split; [split; [done|exact (inv_applied _ _ s Hi)]|exact Ha].
  - eapply rtc_inv; [intros ? ?; apply share_step_accounted|exact Hr|apply share_start_accounted].
Qed.

(** C16: when the lock admits readers while a writer waits, or no thread calls
    [estimated_blocks_to_confirm], every schedule of the tracker and its
    clients is finite, and where nothing can move any more the tracker has
    ended with every event applied, and every thread has returned from all its
    calls, or from those up to one that panicked: no deadlock, no lost call. *)
Theorem handle_calls_answered prefer_writers self events calls :
  mempool_ok self -> Forall event_sane events ->
  prefer_writers = false \/ Forall (Forall locks_once) calls ->
  sn (share_step prefer_writers) (share_start self events calls) /\
  forall s, rtc (share_step prefer_writers) (share_start self events calls) s ->
    nf (share_step prefer_writers) s ->
    exists final, data s = Finished final /\ tracker_run events self = Val final /\
      forall i l, calls !! i = Some l ->
        (r_query <$> answers_of i s) = l \/
        Exists panicked (answers_of i s) /\ (r_query <$> answers_of i s) `prefix_of` l.
Proof.
  intros Hself Hsane Hpol. split.
  { destruct (share_start_work self events calls) as [w Hw].
    by apply (sn_measured _ share_work (share_step_work prefer_writers) _ w). }
  intros s Hr Hst.
  assert (share_inv self events s) as Hi
    by (eapply rtc_inv; [|exact Hr|by apply share_start_inv]; intros; by eapply share_step_inv).
  assert (prefer_writers = false \/ Forall thread_single (threads s)) as Hone.
  { destruct Hpol as [->|Honce]; [by left|right].
    eapply (rtc_inv _ (fun s => Forall thread_single (threads s)));
      [apply share_step_single|exact Hr|]. by apply Forall_fmap. }
  destruct (stuck_done prefer_writers self events Hsane s Hi Hone Hst) as (final & Hf & Hall).
  exists final. split; [done|]. pose proof (inv_data _ _ s Hi) as Hd. unfold data_ok in Hd. rewrite Hf in Hd.
  destruct Hd as (Hev & Haf & _). unfold after in Haf. rewrite <- Hev in Haf. split; [done|].
  assert (accounted calls s) as [Hlen Hacc]
    by (eapply rtc_inv; [intros ? ?; apply share_step_accounted|exact Hr|apply share_start_accounted]).
  intros i l Hl. destruct (lookup_lt_is_Some_2 (threads s) i) as [t Ht]; [rewrite Hlen; by eapply lookup_lt_Some|].
  destruct (Hacc i l t Hl Ht) as (rest & -> & Hor).
  rewrite (Forall_lookup_1 _ _ _ _ Hall Ht) in Hor. destruct Hor as [<-|[_ Hp]].
  - left. by rewrite app_nil_r.
  - right. split; [done|]. by apply prefix_app_r.
Qed.

End handle.

Section witnesses.
#[local] Instance handle_checks : BuildProfile := true.
#[local] Instance handle_order : IterationOrder :=
  {| hash_entries := map_to_list; hash_entries_perm := fun m => Permutation_refl _ |}.

Definition demo_events : list MempoolEvent := [NewBlock demo_block; PendingTransaction tx_c0].

Lemma demo_events_sane : Forall event_sane demo_events.
Proof. constructor; [exact demo_block_sane|]. constructor; [exact tx_c0_sane|constructor]. Qed.

Definition demo_calls : list (list Query) :=
  [[Q_estimated_blocks_to_confirm 102]; [Q_gas_ahead 102; Q_current_base_fee]].

(** The block arrives while [estimated_blocks_to_confirm] has its first guard;
    the call reads on, under a lock that admits it, and answers for the state
    before the block. *)
Lemma estimate_beside_block :
  exists s, rtc (share_step false) (share_start demo_pool demo_events demo_calls) s /\
    data s = WantsLock demo_pool (NewBlock demo_block) /\
    returned s = [MkReturned 0 (Q_estimated_blocks_to_confirm 102) 0 0 (Val (A_number (Some 0)))].
Proof.
  eexists. split.
  - eapply rtc_l; [by apply (sh_call _ 0)|].
    eapply rtc_l; [by eapply (sh_lock _ 0)|].
    eapply rtc_l; [eapply (sh_look _ 0); [reflexivity..|vm_compute; reflexivity]|].
    eapply rtc_l; [by eapply sh_recv|].
    eapply rtc_l; [by eapply (sh_lock _ 0)|].
    eapply rtc_l; [eapply (sh_look _ 0); [reflexivity..|vm_compute; reflexivity]|].
    eapply rtc_l; [by eapply (sh_unlock _ 0)|].
    eapply rtc_l; [eapply (sh_look _ 0); [reflexivity..|vm_compute; reflexivity]|].
    eapply rtc_l; [by eapply (sh_unlock _ 0)|].
    eapply rtc_l; [by eapply (sh_return _ 0)|]. apply rtc_refl.
  - split; [reflexivity|vm_compute; reflexivity].
Qed.

Lemma handle_calls_linearizable_witness :
  exists s, rtc (share_step false) (share_start demo_pool demo_events demo_calls) s /\
    returned s <> [] /\
    Forall (fun r => exists k inner, tracker_run (take k demo_events) demo_pool = Val inner /\
      query (r_query r) inner = r_answer r) (returned s).
Proof.
  destruct estimate_beside_block as (s & Hr & _ & Hret). exists s. split; [exact Hr|].
  split; [by rewrite Hret|].
  destruct (handle_calls_linearizable false demo_pool demo_events demo_calls s demo_pool_ok demo_events_sane Hr)
    as (_ & Ha & _).
  eapply Forall_impl; [exact Ha|]. intros r (_ & k & inner & _ & H1 & H2). by exists k, inner.
Defined.

Lemma handle_calls_answered_witness :
  sn (share_step true) (share_start demo_pool demo_events [[Q_gas_ahead 102; Q_current_base_fee]; [Q_priority_queue]]).
Proof.
  apply (handle_calls_answered true demo_pool demo_events _ demo_pool_ok demo_events_sane).
  right. repeat constructor.
Defined.
End witnesses.
