(* ===== verification/CliArgs.v ===== *)
(** * The arguments of the command-line tool ([crates/mempooloracle/examples/cli_tool.rs])

    [parse_args] and [parse_duration_value].  An argument is its bytes; a call
    of [print_usage_and_exit], which leaves the process with status 2, is the
    error that was printed before it. *)

From Stdlib Require Import Ascii.
From stdpp Require Import strings pretty.
From S2P Require Import Prelude Float64 Fmt.

(** ** Data *)

Inductive DataSource :=
  | Live (ws_url : string)
  | P2p (chain : string) (bootnodes : list string) (discovery_v4 : bool)
  | Simulated.

Record CliArgs := MkCliArgs { duration_secs : Z; source : DataSource }.

(** What is printed before the usage. *)
Inductive UsageError :=
  | MissingValue (flag : string)
  | InvalidDuration (value : string)
  | Unrecognized (arg : string)
  | SimulateAndWsUrl
  | NotExactlyOneSource
  | MissingSource.

(** The local variables of [parse_args]. *)
Record ParseState := MkParse {
  p_duration : Z;               (* u64 *)
  p_ws_url : option string;
  p_simulate : bool;
  p_p2p : bool;
  p_chain : string;
  p_bootnodes : list string;
  p_discovery_v4 : bool;
}.

(** ** Strings *)

(** [str::strip_prefix] *)
Fixpoint strip_prefix (p s : string) : option string :=
  match p, s with
  | "", _ => Some s
  | String a p, String b s => if Ascii.eqb a b then strip_prefix p s else None
  | String _ _, "" => None
  end.

Definition digit_value (c : ascii) : option Z :=
  let n := Z.of_N (N_of_ascii c) in
  if (48 <=? n) && (n <=? 57) then Some (n - 48) else None.

(** The digits of [u64::from_str], with the checked product and sum. *)
Fixpoint parse_digits (acc : Z) (s : string) : option Z :=
  match s with
  | "" => Some acc
  | String c s =>
      d ← digit_value c;
      if decide (in_range u64 (acc * 10)) then
        if decide (in_range u64 (acc * 10 + d)) then parse_digits (acc * 10 + d) s else None
      else None
  end.

(** [str::parse::<u64>]: no empty string, one leading plus sign at most. *)
Definition parse_u64 (s : string) : option Z :=
  match s with
  | "" => None
  | String "+"%char rest => if String.eqb rest "" then None else parse_digits 0 rest
  | _ => parse_digits 0 s
  end.

(** ** The parser *)

Definition parse_duration_value (value : string) : result Z UsageError :=
  match parse_u64 value with
  | Some duration_secs => Ok duration_secs
  | None => Err (InvalidDuration value)
  end.

Definition set_duration (d : Z) (st : ParseState) : ParseState :=
  MkParse d (p_ws_url st) (p_simulate st) (p_p2p st) (p_chain st) (p_bootnodes st) (p_discovery_v4 st).
Definition set_ws_url (url : string) (st : ParseState) : ParseState :=
  MkParse (p_duration st) (Some url) (p_simulate st) (p_p2p st) (p_chain st) (p_bootnodes st)
    (p_discovery_v4 st).
Definition set_simulate (st : ParseState) : ParseState :=
  MkParse (p_duration st) (p_ws_url st) true (p_p2p st) (p_chain st) (p_bootnodes st)
    (p_discovery_v4 st).
Definition set_p2p (st : ParseState) : ParseState :=
  MkParse (p_duration st) (p_ws_url st) (p_simulate st) true (p_chain st) (p_bootnodes st)
    (p_discovery_v4 st).
Definition set_chain (chain : string) (st : ParseState) : ParseState :=
  MkParse (p_duration st) (p_ws_url st) (p_simulate st) (p_p2p st) chain (p_bootnodes st)
    (p_discovery_v4 st).
Definition push_bootnode (node : string) (st : ParseState) : ParseState :=
  MkParse (p_duration st) (p_ws_url st) (p_simulate st) (p_p2p st) (p_chain st)
    (p_bootnodes st ++ [node]) (p_discovery_v4 st).
Definition clear_discovery_v4 (st : ParseState) : ParseState :=
  MkParse (p_duration st) (p_ws_url st) (p_simulate st) (p_p2p st) (p_chain st) (p_bootnodes st) false.

(** The loop over the arguments, tests in the order of the code. *)
Fixpoint parse_loop (args : list string) (st : ParseState) : result ParseState UsageError :=
  match args with
  | [] => Ok st
  | arg :: args =>
      match strip_prefix "--duration=" arg with
      | Some value =>
          match parse_duration_value value with
          | Ok d => parse_loop args (set_duration d st)
          | Err e => Err e
          end
      | None =>
      if String.eqb arg "--duration" then
        match args with
        | [] => Err (MissingValue "--duration")
        | value :: args =>
            match parse_duration_value value with
            | Ok d => parse_loop args (set_duration d st)
            | Err e => Err e
            end
        end
      else match strip_prefix "--ws-url=" arg with
      | Some value => parse_loop args (set_ws_url value st)
      | None =>
      if String.eqb arg "--ws-url" then
        match args with
        | [] => Err (MissingValue "--ws-url")
        | value :: args => parse_loop args (set_ws_url value st)
        end
      else if String.eqb arg "--simulate" then parse_loop args (set_simulate st)
      else if String.eqb arg "--p2p" then parse_loop args (set_p2p st)
      else match strip_prefix "--chain=" arg with
      | Some value => parse_loop args (set_chain value st)
      | None =>
      if String.eqb arg "--chain" then
        match args with
        | [] => Err (MissingValue "--chain")
        | value :: args => parse_loop args (set_chain value st)
        end
      else match strip_prefix "--bootnode=" arg with
      | Some value => parse_loop args (push_bootnode value st)
      | None =>
      if String.eqb arg "--bootnode" then
        match args with
        | [] => Err (MissingValue "--bootnode")
        | value :: args => parse_loop args (push_bootnode value st)
        end
      else if String.eqb arg "--disable-discovery-v4" then parse_loop args (clear_discovery_v4 st)
      else Err (Unrecognized arg)
      end end end end
  end.

(** The match on [(simulate, p2p, ws_url)]. *)
Definition choose_source (st : ParseState) : result DataSource UsageError :=
  match p_simulate st, p_p2p st, p_ws_url st with
  | true, false, Some _ => Err SimulateAndWsUrl
  | true, true, _ | false, true, Some _ => Err NotExactlyOneSource
  | true, false, None => Ok Simulated
  | false, true, None => Ok (P2p (p_chain st) (p_bootnodes st) (p_discovery_v4 st))
  | false, false, Some ws_url => Ok (Live ws_url)
  | false, false, None => Err MissingSource
  end.

(** The two environment variables, [None] where unset. *)
Record Env := MkEnv { MEMPOOLORACLE_WS_URL : option string; ETH_WS_URL : option string }.

Definition initial_parse (env : Env) : ParseState :=
  {| p_duration := 30;
     p_ws_url := match MEMPOOLORACLE_WS_URL env with Some url => Some url | None => ETH_WS_URL env end;
     p_simulate := false; p_p2p := false; p_chain := "mainnet"; p_bootnodes := [];
     p_discovery_v4 := true |}.

(** [args] are the arguments after the name of the program. *)
Definition parse_args (env : Env) (args : list string) : result CliArgs UsageError :=
  match parse_loop args (initial_parse env) with
  | Err e => Err e
  | Ok st =>
      match choose_source st with
      | Err e => Err e
      | Ok source => Ok {| duration_secs := p_duration st; source := source |}
      end
  end.

Example parse_args_run :
  parse_args (MkEnv None None) ["--p2p"; "--duration=+5"; "--bootnode"; "--p2p"] =
    Ok {| duration_secs := 5; source := P2p "mainnet" ["--p2p"] true |}.
Proof. reflexivity. Qed.

(** ** Specification

    The options as a table: the flags that take a value, joined by an equals
    sign or as the next argument, and the flags that stand alone. *)

Inductive Opt :=
  | ODuration (d : Z)
  | OWsUrl (url : string)
  | OSimulate
  | OP2p
  | OChain (chain : string)
  | OBootnode (node : string)
  | ONoDiscovery.

#[export] Instance Opt_eq_dec : EqDecision Opt.
Proof. solve_decision. Defined.

Definition duration_opt (value : string) : result Opt UsageError :=
  match parse_u64 value with Some d => Ok (ODuration d) | None => Err (InvalidDuration value) end.

Definition value_flags : list (string * (string -> result Opt UsageError)) :=
  [("--duration", duration_opt); ("--ws-url", fun v => Ok (OWsUrl v));
   ("--chain", fun v => Ok (OChain v)); ("--bootnode", fun v => Ok (OBootnode v))].

Definition plain_flags : list (string * Opt) :=
  [("--simulate", OSimulate); ("--p2p", OP2p); ("--disable-discovery-v4", ONoDiscovery)].

(** The arguments that spell one option. *)
Inductive spells : list string -> Opt -> Prop :=
  | spells_joined f k v o : (f, k) ∈ value_flags -> k v = Ok o -> spells [f +:+ "=" +:+ v] o
  | spells_split f k v o : (f, k) ∈ value_flags -> k v = Ok o -> spells [f; v] o
  | spells_plain f o : (f, o) ∈ plain_flags -> spells [f] o.

Inductive spelled : list string -> list Opt -> Prop :=
  | spelled_nil : spelled [] []
  | spelled_cons group o args opts :
      spells group o -> spelled args opts -> spelled (group ++ args) (o :: opts).

(** The arguments that start with a mistake. *)
Inductive offends : UsageError -> list string -> Prop :=
  | offends_missing f k : (f, k) ∈ value_flags -> offends (MissingValue f) [f]
  | offends_joined f k v e args :
      (f, k) ∈ value_flags -> k v = Err e -> offends e ((f +:+ "=" +:+ v) :: args)
  | offends_split f k v e args :
      (f, k) ∈ value_flags -> k v = Err e -> offends e (f :: v :: args)
  | offends_unknown a args :
      (forall f k, (f, k) ∈ value_flags -> a <> f /\ forall v, a <> f +:+ "=" +:+ v) ->
      (forall f o, (f, o) ∈ plain_flags -> a <> f) ->
      offends (Unrecognized a) (a :: args).

(** What a list of options means: the last value of a flag counts, bootnodes
    add up, and there must be exactly one source. *)
Definition durations (opts : list Opt) : list Z :=
  omap (fun o => match o with ODuration d => Some d | _ => None end) opts.
Definition ws_urls (opts : list Opt) : list string :=
  omap (fun o => match o with OWsUrl url => Some url | _ => None end) opts.
Definition chains (opts : list Opt) : list string :=
  omap (fun o => match o with OChain chain => Some chain | _ => None end) opts.
Definition bootnodes_given (opts : list Opt) : list string :=
  omap (fun o => match o with OBootnode node => Some node | _ => None end) opts.

Definition env_url (env : Env) : option string :=
  match MEMPOOLORACLE_WS_URL env with Some url => Some url | None => ETH_WS_URL env end.

Definition meaning (env : Env) (opts : list Opt) : ParseState :=
  {| p_duration := default 30 (last (durations opts));
     p_ws_url := match last (ws_urls opts) with Some url => Some url | None => env_url env end;
     p_simulate := bool_decide (OSimulate ∈ opts);
     p_p2p := bool_decide (OP2p ∈ opts);
     p_chain := default "mainnet" (last (chains opts));
     p_bootnodes := bootnodes_given opts;
     p_discovery_v4 := negb (bool_decide (ONoDiscovery ∈ opts)) |}.

(** The data sources asked for. *)
Definition sources_of (st : ParseState) : list DataSource :=
  (if p_simulate st then [Simulated] else []) ++
  (if p_p2p st then [P2p (p_chain st) (p_bootnodes st) (p_discovery_v4 st)] else []) ++
  (match p_ws_url st with Some url => [Live url] | None => [] end).

(** ** Lemmas on strings *)

Lemma append_nil v : "" +:+ v = v.
Proof. done. Qed.

Lemma append_cons a p v : String a p +:+ v = String a (p +:+ v).
Proof. done. Qed.

(** Unfold an append to a literal. *)
Ltac literal := rewrite ?append_cons, ?append_nil.

Lemma strip_prefix_Some p s v : strip_prefix p s = Some v <-> s = p +:+ v.
Proof.
  revert s. induction p as [|a p IH]; intros s; simpl;
    [rewrite append_nil; split; congruence|].
  rewrite append_cons.
  destruct s as [|b s]; [split; discriminate|].
  destruct (Ascii.eqb_spec a b) as [<-|]; [rewrite IH|]; split; congruence.
Qed.

Lemma strip_prefix_None p s : strip_prefix p s = None <-> forall v, s <> p +:+ v.
Proof.
  destruct (strip_prefix p s) as [v|] eqn:Hs; split; try done.
  - intros Hall. apply strip_prefix_Some in Hs. by destruct (Hall v).
  - intros _ v Heq. apply strip_prefix_Some in Heq. congruence.
Qed.

(** ** The loop follows the table *)

Definition apply_opt (st : ParseState) (o : Opt) : ParseState :=
  match o with
  | ODuration d => set_duration d st
  | OWsUrl url => set_ws_url url st
  | OSimulate => set_simulate st
  | OP2p => set_p2p st
  | OChain chain => set_chain chain st
  | OBootnode node => push_bootnode node st
  | ONoDiscovery => clear_discovery_v4 st
  end.

(** Split on the membership in one of the two tables. *)
Ltac flag_cases H :=
  repeat (apply elem_of_cons in H; destruct H as [H|H]; [injection H as -> ->|]);
  try (by apply elem_of_nil in H).

Lemma parse_loop_spells group o args st :
  spells group o -> parse_loop (group ++ args) st = parse_loop args (apply_opt st o).
Proof.
  intros [f k v o' Hin Hk|f k v o' Hin Hk|f o' Hin]; flag_cases Hin; literal; simpl;
    unfold duration_opt, parse_duration_value in *; try destruct (parse_u64 v);
    try (by injection Hk as <-); try done.
Qed.

Lemma parse_loop_offends e args st : offends e args -> parse_loop args st = Err e.
Proof.
  intros [f k Hin|f k v e' args' Hin Hk|f k v e' args' Hin Hk|a args' Hv Hp].
  1-3: flag_cases Hin; literal; simpl; unfold duration_opt, parse_duration_value in *;
    try destruct (parse_u64 v); try (by injection Hk as <-); try done.
  assert (forall f k, (f, k) ∈ value_flags ->
    strip_prefix (f +:+ "=") a = None /\ String.eqb a f = false) as Hs.
  { intros f k Hin. destruct (Hv f k Hin) as [? Hne]. split; [|by apply String.eqb_neq].
    apply strip_prefix_None. intros v. by rewrite append_assoc. }
  assert (forall f o, (f, o) ∈ plain_flags -> String.eqb a f = false) as Hf
    by (intros f o Hin; apply String.eqb_neq; by eapply Hp).
  cbn [parse_loop].
  destruct (Hs "--duration" duration_opt) as [H1 ->]; [set_solver|].
  destruct (Hs "--ws-url" (fun v => Ok (OWsUrl v))) as [H2 ->]; [set_solver|].
  destruct (Hs "--chain" (fun v => Ok (OChain v))) as [H3 ->]; [set_solver|].
  destruct (Hs "--bootnode" (fun v => Ok (OBootnode v))) as [H4 ->]; [set_solver|].
  rewrite (Hf "--simulate" OSimulate), (Hf "--p2p" OP2p),
    (Hf "--disable-discovery-v4" ONoDiscovery) by set_solver.
  revert H1 H2 H3 H4. literal. by intros -> -> -> ->.
Qed.

Lemma parse_loop_spelled pre opts rest st :
  spelled pre opts -> parse_loop (pre ++ rest) st = parse_loop rest (foldl apply_opt st opts).
Proof.
  intros Hs. revert st. induction Hs as [|group o args opts Ho _ IH]; intros st; [done|].
  rewrite <- app_assoc, (parse_loop_spells _ _ _ _ Ho). apply IH.
Qed.

(** The head of the arguments spells an option or is a mistake. *)
Lemma head_decides a args :
  (exists group o rest, a :: args = group ++ rest /\ spells group o /\
     (length rest <= length args)%nat) \/
  exists e, offends e (a :: args).
Proof.
  destruct (decide (Exists (fun fk => strip_prefix (fk.1 +:+ "=") a <> None \/ a = fk.1) value_flags))
    as [He|He].
  { apply Exists_exists in He as ([f k] & Hin & [Hpre| ->]); simpl in *.
    - destruct (strip_prefix (f +:+ "=") a) as [v|] eqn:Hv; [|done].
      apply strip_prefix_Some in Hv as ->. rewrite append_assoc.
      destruct (k v) as [o|e] eqn:Hk; [left|right; exists e; by eapply offends_joined].
      exists [f +:+ "=" +:+ v], o, args. split; [done|]. split; [by eapply spells_joined|lia].
    - destruct args as [|v args]; [right; eexists; by eapply offends_missing|].
      destruct (k v) as [o|e] eqn:Hk; [left|right; exists e; by eapply offends_split].
      exists [f; v], o, args. split; [done|]. split; [by eapply spells_split|simpl; lia]. }
  destruct (decide (Exists (fun fo => a = fo.1) plain_flags)) as [Hp|Hp].
  { apply Exists_exists in Hp as ([f o] & Hin & ->). left. simpl.
    exists [f], o, args. split; [done|]. split; [by eapply spells_plain|lia]. }
  right. exists (Unrecognized a). rewrite <- Forall_Exists_neg, Forall_forall in He.
  rewrite <- Forall_Exists_neg, Forall_forall in Hp. apply offends_unknown.
  - intros f k Hin. specialize (He _ Hin). simpl in He. split; [naive_solver|].
    intros v ->. apply He. left. rewrite <- append_assoc.
    by rewrite (proj2 (strip_prefix_Some _ _ v)).
  - intros f o Hin ->. by apply (Hp _ Hin).
Qed.

Lemma parse_loop_total args :
  (exists opts, spelled args opts) \/
  exists pre opts e rest, args = pre ++ rest /\ spelled pre opts /\ offends e rest.
Proof.
  remember (length args) as n eqn:Hn. assert (length args <= n)%nat as Hle by lia. clear Hn.
  revert args Hle. induction n as [|n IH]; intros [|a args] Hle; simpl in *;
    [left; eexists; constructor|lia|left; eexists; constructor|].
  destruct (head_decides a args) as [(group & o & rest & -> & Ho & Hl)|(e & He)].
  - destruct (IH rest) as [(opts & Hs)|(pre & opts & e & tail & -> & Hs & He)]; [lia| |].
    + left. exists (o :: opts). by constructor.
    + right. exists (group ++ pre), (o :: opts), e, tail.
      rewrite app_assoc. split; [done|]. split; [by constructor|done].
  - right. exists [], [], e, (a :: args). split; [done|]. split; [constructor|done].
Qed.

(** The state after a list of options is what they mean. *)
Lemma last_snoc_map {A B} (f : A -> option B) l x :
  last (omap f (l ++ [x])) = match f x with Some b => Some b | None => last (omap f l) end.
Proof.
  rewrite omap_app. simpl. destruct (f x); simpl; [by rewrite last_snoc|by rewrite app_nil_r].
Qed.

Lemma elem_of_snoc_decide (o x : Opt) opts :
  bool_decide (o ∈ opts ++ [x]) = bool_decide (o ∈ opts) || bool_decide (o = x).
Proof.
  rewrite <- bool_decide_or. apply bool_decide_ext. rewrite elem_of_app, list_elem_of_singleton. done.
Qed.

Lemma meaning_foldl env opts : foldl apply_opt (initial_parse env) opts = meaning env opts.
Proof.
  induction opts as [|x opts IH] using rev_ind; [done|].
  rewrite foldl_app, IH. unfold meaning, durations, ws_urls, chains, bootnodes_given.
  rewrite !last_snoc_map, !elem_of_snoc_decide, omap_app.
  destruct x; simpl; unfold set_duration, set_ws_url, set_simulate, set_p2p, set_chain, push_bootnode,
    clear_discovery_v4; simpl; rewrite ?orb_true_r, ?orb_false_r, ?app_nil_r; done.
Qed.

(** ** Numbers *)

(** The value of decimal digits after [acc], without bounds. *)
Fixpoint digits_val (acc : Z) (s : string) : option Z :=
  match s with
  | "" => Some acc
  | String c s => d ← digit_value c; digits_val (acc * 10 + d) s
  end.

Lemma digit_value_range c d : digit_value c = Some d -> 0 <= d <= 9.
Proof.
  unfold digit_value. destruct (Z.leb_spec 48 (Z.of_N (N_of_ascii c))),
    (Z.leb_spec (Z.of_N (N_of_ascii c)) 57); simpl; intros [=]; lia.
Qed.

Lemma digits_val_le s acc v : 0 <= acc -> digits_val acc s = Some v -> acc <= v.
Proof.
  revert acc. induction s as [|c s IH]; intros acc Ha; simpl; [intros [= ->]; lia|].
  destruct (digit_value c) as [d|] eqn:Hd; simpl; [|done].
  apply digit_value_range in Hd. intros Hv. apply IH in Hv; lia.
Qed.

(** The checks on the way refuse exactly the values that do not fit. *)
Lemma parse_digits_val s acc :
  in_range u64 acc ->
  parse_digits acc s = v ← digits_val acc s; if decide (in_range u64 v) then Some v else None.
Proof.
  revert acc. induction s as [|c s IH]; intros acc Ha; simpl; [by rewrite decide_True|].
  destruct (digit_value c) as [d|] eqn:Hd; simpl; [|done]. apply digit_value_range in Hd.
  assert (forall v, digits_val (acc * 10 + d) s = Some v -> ~ in_range u64 (acc * 10 + d) ->
    ~ in_range u64 v) as Hbig.
  { intros v Hv Hn. apply digits_val_le in Hv; unfold in_range in *; lia. }
  destruct (decide (in_range u64 (acc * 10 + d))) as [Hr|Hr].
  - rewrite decide_True by (unfold in_range in *; lia). by apply IH.
  - destruct (digits_val (acc * 10 + d) s) as [v|] eqn:Hv; simpl;
      [rewrite (decide_False (P := in_range u64 v)) by (by apply Hbig)|];
      by repeat case_decide.
Qed.

Lemma digit_value_pretty x : (x < 10)%N -> digit_value (pretty_N_char x) = Some (Z.of_N x).
Proof.
  intros Hx. assert (x = 0 \/ x = 1 \/ x = 2 \/ x = 3 \/ x = 4 \/ x = 5 \/ x = 6 \/ x = 7 \/ x = 8 \/ x = 9)%N
    as H by lia. by repeat destruct H as [->|H]; [..|subst].
Qed.

Lemma digits_val_pretty x s : digits_val 0 (pretty_N_go x s) = digits_val (Z.of_N x) s.
Proof.
  revert s. induction (N.lt_wf_0 x) as [x _ IH]. intros s.
  destruct (decide (x = 0)%N) as [->|Hx]; [by rewrite pretty_N_go_0|].
  rewrite pretty_N_go_step by lia. rewrite IH by (apply N.div_lt; lia). simpl.
  rewrite digit_value_pretty by (apply N.mod_lt; lia). simpl. f_equal.
  rewrite N2Z.inj_div, N2Z.inj_mod. pose proof (Z_div_mod_eq_full (Z.of_N x) 10). lia.
Qed.

(** Decimal notation reads back. *)
Lemma parse_u64_pretty d : in_range u64 d -> parse_u64 (pretty (Z.to_N d)) = Some d.
Proof.
  intros Hd. assert (digits_val 0 (pretty (Z.to_N d)) = Some d) as Hv.
  { unfold pretty, pretty_N. case_decide as H0; [|rewrite digits_val_pretty; simpl; f_equal];
      unfold in_range in Hd; [simpl; f_equal|]; lia. }
  assert (parse_digits 0 (pretty (Z.to_N d)) = Some d) as Hp
    by (by rewrite parse_digits_val, Hv by done; simpl; rewrite decide_True).
  revert Hv Hp. destruct (pretty (Z.to_N d)) as [|c s] eqn:Hs.
  - exfalso. revert Hs. unfold pretty, pretty_N. case_decide as H0; [done|].
    intros Hs. pose proof (digits_val_pretty (Z.to_N d) "") as Hv. rewrite Hs in Hv. simpl in Hv.
    injection Hv. lia.
  - unfold parse_u64. destruct (Ascii.eqb_spec c "+"%char) as [->|Hc]; [done|].
    intros _ Hp. destruct c as [[] [] [] [] [] [] [] []]; done.
Qed.

(** The spelling of parsed arguments. *)
Definition render_args (c : CliArgs) : list string :=
  ["--duration"; pretty (Z.to_N (duration_secs c))] ++
  match source c with
  | Live url => ["--ws-url=" +:+ url]
  | P2p chain nodes discovery_v4 =>
      ["--p2p"; "--chain"; chain] ++ (nodes ≫= fun node => ["--bootnode"; node]) ++
      (if discovery_v4 then [] else ["--disable-discovery-v4"])
  | Simulated => ["--simulate"]
  end.

Definition options_of (c : CliArgs) : list Opt :=
  ODuration (duration_secs c) ::
  match source c with
  | Live url => [OWsUrl url]
  | P2p chain nodes discovery_v4 =>
      [OP2p; OChain chain] ++ (OBootnode <$> nodes) ++ (if discovery_v4 then [] else [ONoDiscovery])
  | Simulated => [OSimulate]
  end.

Lemma spelled_bootnodes nodes args opts :
  spelled args opts ->
  spelled ((nodes ≫= fun node => ["--bootnode"; node]) ++ args) ((OBootnode <$> nodes) ++ opts).
Proof.
  intros Hs. induction nodes as [|node nodes IH]; [done|].
  change (spelled (["--bootnode"; node] ++ ((nodes ≫= fun node => ["--bootnode"; node]) ++ args))
    (OBootnode node :: ((OBootnode <$> nodes) ++ opts))).
  constructor; [|done]. apply (spells_split _ (fun v => Ok (OBootnode v))); [set_solver|done].
Qed.

Lemma spelled_plain f o args opts :
  (f, o) ∈ plain_flags -> spelled args opts -> spelled (f :: args) (o :: opts).
Proof. intros Hin Hs. apply (spelled_cons [f]); [by constructor|done]. Qed.

Lemma spelled_split f k v o args opts :
  (f, k) ∈ value_flags -> k v = Ok o -> spelled args opts -> spelled (f :: v :: args) (o :: opts).
Proof. intros Hin Hk Hs. apply (spelled_cons [f; v]); [by econstructor|done]. Qed.

Lemma render_spelled c : in_range u64 (duration_secs c) -> spelled (render_args c) (options_of c).
Proof.
  intros Hd. apply (spelled_split "--duration" duration_opt); [set_solver|..].
  { unfold duration_opt. by rewrite parse_u64_pretty. }
  destruct (source c) as [url|chain nodes v4|].
  - apply (spelled_cons ["--ws-url=" +:+ url] _ [] []); [|constructor].
    apply (spells_joined "--ws-url" (fun v => Ok (OWsUrl v))); [set_solver|done].
  - apply spelled_plain; [set_solver|].
    apply (spelled_split _ (fun v => Ok (OChain v))); [set_solver|done|]. apply spelled_bootnodes.
    destruct v4; [constructor|]. apply spelled_plain; [set_solver|constructor].
  - apply spelled_plain; [set_solver|constructor].
Qed.

Lemma foldl_bootnodes nodes st :
  foldl apply_opt st (OBootnode <$> nodes) =
    MkParse (p_duration st) (p_ws_url st) (p_simulate st) (p_p2p st) (p_chain st)
      (p_bootnodes st ++ nodes) (p_discovery_v4 st).
Proof.
  revert st. induction nodes as [|node nodes IH]; intros st; simpl.
  - rewrite app_nil_r. by destruct st.
  - rewrite IH. simpl. by rewrite <- app_assoc.
Qed.

Lemma meaning_options env c :
  (env_url env = None \/ exists url, source c = Live url) ->
  p_duration (meaning env (options_of c)) = duration_secs c /\
  sources_of (meaning env (options_of c)) = [source c].
Proof.
  intros Henv. rewrite <- meaning_foldl. unfold options_of.
  destruct (source c) as [url|chain nodes v4|]; [done| |];
    (destruct Henv as [Henv|[? ?]]; [|done]); unfold env_url in Henv; simpl.
  - rewrite foldl_app, foldl_bootnodes. unfold sources_of.
    destruct v4; simpl; rewrite Henv; done.
  - unfold sources_of. simpl. by rewrite Henv.
Qed.

Lemma choose_source_spec st s : choose_source st = Ok s <-> sources_of st = [s].
Proof.
  unfold choose_source, sources_of. destruct (p_simulate st), (p_p2p st), (p_ws_url st); simpl;
    split; congruence.
Qed.

(** The complaint about the sources asked for, unless there is exactly one. *)
Definition source_mistake (sources : list DataSource) : option UsageError :=
  match sources with
  | [] => Some MissingSource
  | [_] => None
  | [Simulated; Live _] => Some SimulateAndWsUrl
  | _ => Some NotExactlyOneSource
  end.

Lemma choose_source_errors st e :
  choose_source st = Err e <-> source_mistake (sources_of st) = Some e.
Proof.
  unfold choose_source, sources_of. destruct (p_simulate st), (p_p2p st), (p_ws_url st); simpl;
    split; congruence.
Qed.

Lemma parse_loop_meaning env args opts :
  spelled args opts -> parse_loop args (initial_parse env) = Ok (meaning env opts).
Proof.
  intros Hs. pose proof (parse_loop_spelled args opts [] (initial_parse env) Hs) as H.
  by rewrite app_nil_r, meaning_foldl in H.
Qed.

Lemma parse_loop_mistake pre opts e rest st :
  spelled pre opts -> offends e rest -> parse_loop (pre ++ rest) st = Err e.
Proof. intros Hs He. rewrite (parse_loop_spelled _ _ _ _ Hs). by apply parse_loop_offends. Qed.

(** ** Properties *)

(** C33: the tool accepts exactly the argument lists that spell a list of
    options of the table and name exactly one data source, the environment
    variables counting as a WebSocket URL; what it returns is that source and
    the last duration given, 30 seconds by default. *)
Theorem parse_args_grammar env args c :
  parse_args env args = Ok c <->
  exists opts, spelled args opts /\
    sources_of (meaning env opts) = [source c] /\ duration_secs c = p_duration (meaning env opts).
Proof.
  unfold parse_args. split.
  - destruct (parse_loop_total args) as [(opts & Hs)|(pre & opts & e & rest & -> & Hs & He)].
    + rewrite (parse_loop_meaning _ _ _ Hs).
      destruct (choose_source _) as [s|e] eqn:Hc; [|done]. intros [= <-].
      exists opts. split; [done|]. by apply choose_source_spec in Hc.
    + by rewrite (parse_loop_mistake _ _ _ _ _ Hs He).
  - intros (opts & Hs & Hsrc & Hd). rewrite (parse_loop_meaning _ _ _ Hs).
    apply choose_source_spec in Hsrc as ->. rewrite <- Hd. by destruct c.
Qed.

(** Otherwise the tool prints the complaint about the first argument that
    is not part of an option, or, when all are, about the sources. *)
Theorem parse_args_errors env args e :
  parse_args env args = Err e <->
  (exists pre opts rest, args = pre ++ rest /\ spelled pre opts /\ offends e rest) \/
  (exists opts, spelled args opts /\ source_mistake (sources_of (meaning env opts)) = Some e).
Proof.
  unfold parse_args. split.
  - destruct (parse_loop_total args) as [(opts & Hs)|(pre & opts & e' & rest & -> & Hs & He)].
    + rewrite (parse_loop_meaning _ _ _ Hs).
      destruct (choose_source _) as [s|e'] eqn:Hc; [done|]. intros [= <-].
      right. exists opts. split; [done|]. by apply choose_source_errors.
    + rewrite (parse_loop_mistake _ _ _ _ _ Hs He). intros [= <-]. left. by exists pre, opts, rest.
  - intros [(pre & opts & rest & -> & Hs & He)|(opts & Hs & Hm)].
    + by rewrite (parse_loop_mistake _ _ _ _ _ Hs He).
    + rewrite (parse_loop_meaning _ _ _ Hs). by apply choose_source_errors in Hm as ->.
Qed.

(** C34: spelling the arguments out and parsing them again gives them back, for
    every duration of a u64, chain, URL and list of bootnodes; only a URL may
    come with the environment variables set. *)
Theorem render_parse env c :
  in_range u64 (duration_secs c) ->
  (env_url env = None \/ exists url, source c = Live url) ->
  parse_args env (render_args c) = Ok c.
Proof.
  intros Hd Henv. unfold parse_args. rewrite (parse_loop_meaning _ _ _ (render_spelled c Hd)).
  destruct (meaning_options env c Henv) as [-> ->%choose_source_spec]. by destruct c.
Qed.

(** A WebSocket URL of the environment cannot be put aside: with one set, the
    simulator and the P2P transport are refused. *)
Lemma env_url_forces_live env args c url :
  env_url env = Some url -> parse_args env args = Ok c -> exists url', source c = Live url'.
Proof.
  intros Henv. unfold parse_args.
  destruct (parse_loop_total args) as [(opts & Hs)|(pre & opts & e & rest & -> & Hs & He)];
    [|by rewrite (parse_loop_mistake _ _ _ _ _ Hs He)].
  rewrite (parse_loop_meaning _ _ _ Hs). unfold choose_source, meaning. simpl. rewrite Henv.
  destruct (bool_decide (OSimulate ∈ opts)), (bool_decide (OP2p ∈ opts)), (last (ws_urls opts));
    simpl; intros [= <-]; simpl; eauto.
Qed.

Section witnesses.
Definition no_env : Env := MkEnv None None.
Definition p2p_args : CliArgs :=
  {| duration_secs := 90; source := P2p "mainnet" ["enode://a"; "enode://b"] false |}.

Example p2p_args_rendered :
  render_args p2p_args = ["--duration"; "90"; "--p2p"; "--chain"; "mainnet";
    "--bootnode"; "enode://a"; "--bootnode"; "enode://b"; "--disable-discovery-v4"].
Proof. reflexivity. Qed.

Lemma render_parse_witness : parse_args no_env (render_args p2p_args) = Ok p2p_args.
Proof. apply (render_parse no_env p2p_args); [split; vm_compute; congruence|left; reflexivity]. Defined.

Example env_blocks_simulate :
  parse_args (MkEnv None (Some "ws://node")) ["--simulate"] = Err SimulateAndWsUrl.
Proof. reflexivity. Qed.

Example duration_overflow :
  parse_args no_env ["--simulate"; "--duration=18446744073709551616"] =
    Err (InvalidDuration "18446744073709551616").
Proof. vm_compute. reflexivity. Qed.
End witnesses.
