(* ===== verification/CliSnapshot.v ===== *)
(** * The snapshot of the command-line tool ([crates/mempooloracle/examples/cli_tool.rs])

    [Snapshot::capture] reads the tracker through its handle.  Every call of
    the handle takes the lock for itself, so the tracker may apply events
    between two of them: the function is a program whose events are the calls
    ([HandleE]), and a run against one state is the case in which the tracker
    is quiet.  [estimated_blocks_to_confirm] sums the gas ahead and may panic,
    so its answer is a [run]; so may the gas sum of the snapshot itself. *)

From stdpp Require Import gmap sorting.
From S2P Require Import Prelude Prog Float64 OrdSet Mempool MempoolInv MempoolProps Runtime.

(** ** Telemetry *)

Record Telemetry := MkCliTelemetry {
  t_pending_seen : Z;           (* u64 *)
  t_block_count : Z;            (* u64 *)
  t_last_block_txs : Z;         (* usize *)
  t_last_block_gas_used : Z;    (* u64 *)
}.

Definition Telemetry_default : Telemetry := MkCliTelemetry 0 0 0 0.

Record AlloyTelemetryView := MkView {
  v_pending_seen : Z;
  v_block_count : Z;
  v_last_block_txs : Z;
  v_last_block_gas_used : Z;
}.

Inductive TelemetrySource :=
  | LiveTelemetry (telemetry : RuntimeTelemetry)
  | SimulatedTelemetry (telemetry : Telemetry).

Definition view_of_telemetry (value : Telemetry) : AlloyTelemetryView :=
  MkView (t_pending_seen value) (t_block_count value) (t_last_block_txs value)
    (t_last_block_gas_used value).

Definition view_of_runtime (value : RuntimeTelemetry) : AlloyTelemetryView :=
  MkView (pending_seen value) (block_count value) (last_block_txs value) (last_block_gas_used value).

(** [TelemetrySource::snapshot] *)
Definition source_snapshot (source : TelemetrySource) : AlloyTelemetryView :=
  match source with
  | LiveTelemetry telemetry => view_of_runtime (snapshot telemetry)
  | SimulatedTelemetry telemetry => view_of_telemetry telemetry
  end.

(** ** The snapshot *)

Record TxRow := MkTxRow {
  row_nonce : Z;                (* u64 *)
  effective_fee : Z;            (* u128 *)
  priority_fee : Z;             (* u128 *)
  max_fee : Z;                  (* u128 *)
  row_gas_limit : Z;            (* u64 *)
  eta_blocks : Z;               (* u64 *)
  sender_prefix : Z * Z;        (* u8, u8 *)
}.

Record Snapshot := MkSnapshot {
  elapsed_secs : Z;             (* u64 *)
  snap_base_fee : Z;            (* u128 *)
  private_flow : f64;
  private_flow_percent : Z;     (* u64 *)
  min_tip : Z;                  (* u128 *)
  expected_txs : Z;             (* usize *)
  gas_used_for_next_block : Z;  (* u64 *)
  snap_capacity : Z;            (* u64 *)
  next_block_fill_percent : Z;  (* u64 *)
  marketable_count : Z;         (* usize *)
  marketable_utilization : Z;   (* u64 *)
  snap_block_count : Z;         (* u64 *)
  snap_pending_seen : Z;        (* u64 *)
  snap_last_block_txs : Z;      (* usize *)
  snap_last_block_gas_used : Z; (* u64 *)
  ranked_rows : list TxRow;
}.

(** The calls of the handle and the other readings.  The sum of the gas ahead
    of a transaction may overflow, which panics in the thread that asks. *)
Inductive HandleE : Type -> Type :=
  | HCurrentBaseFee : HandleE Z
  | HPrivateFlowRatio : HandleE f64
  | HLastBlockGasLimit : HandleE Z
  | HPriorityQueue : HandleE (list (Z * Z * Z))
  | HFindTx (addr nonce : Z) : HandleE (option PendingTx)
  | HEstimatedBlocks (id : Z) : HandleE (run (option Z))
  | HTelemetry : HandleE AlloyTelemetryView
  | HElapsed : HandleE Z.

(** The local variables of the loop. *)
Record Fill := MkFill {
  f_txs : Z;                    (* usize *)
  f_min_tip : Z;                (* u128 *)
  f_gas : Z;                    (* u64 *)
  f_rows : list TxRow;
}.

Definition MAX_ROWS : nat := 256.

(** [f64::round]: to the nearest integer, halves away from zero. *)
Definition f64_round (x : f64) : f64 :=
  match x with
  | S754_finite s m e =>
      if e >=? 0 then x
      else
        let q := (2 * Zpos m + 2 ^ (- e)) / (2 * 2 ^ (- e)) in
        if q =? 0 then S754_zero s
        else binary_normalize f64_prec f64_emax (if s then - q else q) 0 s
  | _ => x
  end.

(** The first two bytes of an address of 20 bytes. *)
Definition address_prefix (addr : Z) : Z * Z :=
  (Z.land (Z.shiftr addr 152) 255, Z.land (Z.shiftr addr 144) 255).

Definition tx_row (fee : Z) (tx : PendingTx) (eta_blocks : Z) : TxRow :=
  {| row_nonce := nonce tx; effective_fee := fee;
     priority_fee := max_priority_fee_per_gas tx; max_fee := max_fee_per_gas tx;
     row_gas_limit := gas_limit tx; eta_blocks := eta_blocks;
     sender_prefix := address_prefix (sender tx) |}.

Section capture.
Context `{BuildProfile}.

(** The row of an entry, for the first 256. *)
Definition capture_row (fee : Z) (tx : PendingTx) (f : Fill) : Prog HandleE Fill :=
  if (length (f_rows f) <? MAX_ROWS)%nat then
    blocks ← trigger (HEstimatedBlocks (id tx));
    eta ← lift blocks;
    Ret {| f_txs := f_txs f; f_min_tip := f_min_tip f; f_gas := f_gas f;
           f_rows := f_rows f ++ [tx_row fee tx (default 0 eta)] |}
  else Ret f.

(** The gas of an entry, when it fits. *)
Definition take_gas (usable_capacity fee : Z) (tx : PendingTx) (f : Fill) : run Fill :=
  total ← add_w u64 (f_gas f) (gas_limit tx);
  if total >? usable_capacity then Val f
  else
    gas ← add_w u64 (f_gas f) (gas_limit tx);
    txs ← add_w usize (f_txs f) 1;
    Val {| f_txs := txs; f_min_tip := fee; f_gas := gas; f_rows := f_rows f |}.

(** One round of the loop over the priority queue. *)
Definition capture_entry (usable_capacity : Z) (entry : Z * Z * Z) (f : Fill) : Prog HandleE Fill :=
  let '(fee, addr, n) := entry in
  found ← trigger (HFindTx addr n);
  match found with
  | None => Ret f
  | Some tx =>
      f ← capture_row fee tx f;
      lift (take_gas usable_capacity fee tx f)
  end.

Fixpoint capture_entries (usable_capacity : Z) (pq : list (Z * Z * Z)) (f : Fill) : Prog HandleE Fill :=
  match pq with
  | [] => Ret f
  | entry :: pq => f ← capture_entry usable_capacity entry f; capture_entries usable_capacity pq f
  end.

Definition fill_percent (gas_used usable_capacity : Z) : Z :=
  if usable_capacity =? 0 then 0 else Z.min (max_w u64) (gas_used * 100) / usable_capacity.

Definition utilization (len : Z) : run Z :=
  hundredfold ← mul_w u64 (Z.min len 1000) 100; Val (hundredfold / 1000).

(** [Snapshot::capture] *)
Definition capture : Prog HandleE Snapshot :=
  base_fee ← trigger HCurrentBaseFee;
  ratio ← trigger HPrivateFlowRatio;
  let private_flow := f64_mul ratio f64_hundred in
  last_block_gas_limit ← trigger HLastBlockGasLimit;
  ratio ← trigger HPrivateFlowRatio;
  let usable_capacity :=
    f64_to_uint u64 (f64_mul (f64_of_Z last_block_gas_limit) (f64_sub f64_one ratio)) in
  pq ← trigger HPriorityQueue;
  f ← capture_entries usable_capacity pq (MkFill 0 0 0 []);
  let next_block_fill_percent := fill_percent (f_gas f) usable_capacity in
  view ← trigger HTelemetry;
  elapsed ← trigger HElapsed;
  marketable_utilization ← lift (utilization (Z.of_nat (length pq)));
  Ret {| elapsed_secs := elapsed; snap_base_fee := base_fee; private_flow := private_flow;
         private_flow_percent := f64_to_uint u64 (f64_round private_flow);
         min_tip := f_min_tip f; expected_txs := f_txs f;
         gas_used_for_next_block := f_gas f; snap_capacity := usable_capacity;
         next_block_fill_percent := next_block_fill_percent;
         marketable_count := Z.of_nat (length pq);
         marketable_utilization := marketable_utilization;
         snap_block_count := v_block_count view; snap_pending_seen := v_pending_seen view;
         snap_last_block_txs := v_last_block_txs view;
         snap_last_block_gas_used := v_last_block_gas_used view;
         ranked_rows := f_rows f |}.

(** ** The handle of a quiet tracker *)

Context `{IterationOrder}.

(** The getters of [MempoolHandle] and its queries, one read lock each. *)
Definition handle_call (source : TelemetrySource) (elapsed : Z) X (e : HandleE X) (self : MempoolInner)
    : run (X * MempoolInner) :=
  match e in HandleE X return run (X * MempoolInner) with
  | HCurrentBaseFee => Val (current_base_fee self, self)
  | HPrivateFlowRatio => Val (private_flow_ratio self, self)
  | HLastBlockGasLimit => Val (last_block_gas_limit self, self)
  | HPriorityQueue => Val (priority_queue_entries self, self)
  | HFindTx addr n => Val (find_tx_by_addr_and_nonce self addr n, self)
  | HEstimatedBlocks i => Val (estimated_blocks_to_confirm self i, self)
  | HTelemetry => Val (source_snapshot source, self)
  | HElapsed => Val (elapsed, self)
  end.

End capture.

(** ** Specification *)

(** The entries whose transaction is stored, and those a block of [cap] gas
    takes going down the queue. *)
Definition stored_entries (self : MempoolInner) (pq : list (Z * Z * Z)) : list (Z * PendingTx) :=
  omap (fun '(fee, a, n) =>
    match find_tx_by_addr_and_nonce self a n with Some tx => Some (fee, tx) | None => None end) pq.

Fixpoint first_fit (cap used : Z) (l : list (Z * PendingTx)) : list (Z * PendingTx) :=
  match l with
  | [] => []
  | (fee, tx) :: l =>
      if used + gas_limit tx <=? cap then (fee, tx) :: first_fit cap (used + gas_limit tx) l
      else first_fit cap used l
  end.

Definition gas_of (l : list (Z * PendingTx)) : Z := foldr (fun e s => gas_limit e.2 + s) 0 l.

Lemma gas_of_app l1 l2 : gas_of (l1 ++ l2) = gas_of l1 + gas_of l2.
Proof. induction l1 as [|e l1 IH]; simpl; [done|]. rewrite IH. lia. Qed.

Definition gas_typed (l : list (Z * PendingTx)) : Prop := Forall (fun e => 0 <= gas_limit e.2) l.

Lemma gas_of_nonneg l : gas_typed l -> 0 <= gas_of l.
Proof. induction 1 as [|e l He _ IH]; simpl; lia. Qed.

Lemma first_fit_sublist cap used l : first_fit cap used l `sublist_of` l.
Proof.
  revert used. induction l as [|[fee tx] l IH]; intros used; simpl; [constructor|].
  case_match; [by apply sublist_skip|by apply sublist_cons].
Qed.

Lemma first_fit_typed cap used l : gas_typed l -> gas_typed (first_fit cap used l).
Proof.
  intros Ht. revert used. induction Ht as [|[fee tx] l Hg _ IH]; intros used; simpl; [constructor|].
  case_match; [constructor; [done|]|]; apply IH.
Qed.

Lemma first_fit_gas cap used l : used <= cap -> used + gas_of (first_fit cap used l) <= cap.
Proof.
  revert used. induction l as [|[fee tx] l IH]; intros used Hu; simpl; [lia|].
  destruct (Z.leb_spec (used + gas_limit tx) cap); simpl; [|by apply IH].
  specialize (IH (used + gas_limit tx)). lia.
Qed.

(** What is left out does not fit beside what was taken. *)
Lemma first_fit_maximal cap used l e :
  gas_typed l -> e ∈ l ->
  e ∈ first_fit cap used l \/ cap < used + gas_of (first_fit cap used l) + gas_limit e.2.
Proof.
  intros Ht. revert used. induction Ht as [|[fee tx] l Hg Ht IH]; intros used; [by intros ?%elem_of_nil|].
  simpl in *. assert (forall u, 0 <= gas_of (first_fit cap u l)) as Hnn.
  { intros u. by apply gas_of_nonneg, first_fit_typed. }
  intros [->|Hin]%elem_of_cons; simpl; destruct (Z.leb_spec (used + gas_limit tx) cap); simpl.
  - left. by left.
  - right. specialize (Hnn used). lia.
  - destruct (IH (used + gas_limit tx) Hin) as [?|?]; [left; by right|right; lia].
  - by apply IH.
Qed.

Lemma first_fit_app cap used l1 l2 :
  first_fit cap used (l1 ++ l2) =
    first_fit cap used l1 ++ first_fit cap (used + gas_of (first_fit cap used l1)) l2.
Proof.
  revert used. induction l1 as [|[fee tx] l1 IH]; intros used; simpl; [by rewrite Z.add_0_r|].
  case_match; simpl; rewrite IH; [|done]. by rewrite Z.add_assoc.
Qed.

Lemma first_fit_gas_le cap used l : gas_typed l -> gas_of (first_fit cap used l) <= gas_of l.
Proof.
  intros Ht. revert used. induction Ht as [|[fee tx] l Hg Ht IH]; intros used; simpl in *; [lia|].
  case_match; simpl; [specialize (IH (used + gas_limit tx))|specialize (IH used)]; lia.
Qed.

(** ** A quiet run *)

Section quiet.
Context `{BuildProfile} `{IterationOrder}.
Context (source : TelemetrySource) (elapsed : Z) (self : MempoolInner).

(** The answer of [estimated_blocks_to_confirm] when it does not panic. *)
Definition eta (i : Z) : Z :=
  match estimated_blocks_to_confirm self i with Val (Some n) => n | _ => 0 end.

(** The fees of the stored entries fall down the queue. *)
Definition fee_le (e1 e2 : Z * PendingTx) : Prop := e2.1 <= e1.1.

Lemma stored_entries_elem pq e :
  e ∈ stored_entries self pq -> exists a n, (e.1, a, n) ∈ pq /\
    find_tx_by_addr_and_nonce self a n = Some e.2.
Proof.
  intros He. apply list_elem_of_omap in He as ([[fee a] n] & Hin & Hf).
  destruct (find_tx_by_addr_and_nonce self a n) as [tx|] eqn:Htx; [|done].
  injection Hf as <-. by exists a, n.
Qed.

Lemma stored_entries_sorted pq : ord_ok rev_key_cmp pq -> StronglySorted fee_le (stored_entries self pq).
Proof.
  induction pq as [|[[fee a] n] pq IH]; intros Hok; [constructor|].
  apply (ord_ok_cons rev_key_cmp) in Hok as [Hok Hlt]. simpl.
  destruct (find_tx_by_addr_and_nonce self a n) as [tx|]; [|by apply IH].
  constructor; [by apply IH|]. rewrite Forall_forall. intros e He.
  apply stored_entries_elem in He as (b & m & Hin & _). specialize (Hlt _ Hin).
  unfold key_lt, rev_key_cmp in Hlt. apply lex_lt in Hlt. unfold fee_le. simpl. lia.
Qed.

Lemma first_fit_sorted cap used l :
  StronglySorted fee_le l -> StronglySorted fee_le (first_fit cap used l).
Proof.
  intros Hs. revert used. induction Hs as [|[fee tx] l _ IH Hall]; intros used; simpl; [constructor|].
  case_match; [constructor; [apply IH|]|apply IH].
  rewrite Forall_forall in Hall |- *. intros e He. apply Hall.
  eapply elem_of_sublist; [exact He|apply first_fit_sublist].
Qed.

Lemma last_lowest l e d :
  StronglySorted fee_le l -> e ∈ l -> default d (last (fst <$> l)) <= e.1.
Proof.
  intros Hs. revert e. induction Hs as [|x l Hs IH Hall]; intros e He; [by apply elem_of_nil in He|].
  rewrite fmap_cons. destruct l as [|y l].
  - apply list_elem_of_singleton in He as ->. done.
  - rewrite fmap_cons, last_cons_cons, <- fmap_cons. apply elem_of_cons in He as [->|He]; [|by apply IH].
    rewrite Forall_forall in Hall. etransitivity; [apply (IH y); by left|]. apply Hall. by left.
Qed.

Lemma last_elem {A} (l : list A) d : l <> [] -> default d (last l) ∈ l.
Proof.
  intros Hne. destruct l as [|x l _] using rev_ind; [done|]. rewrite last_snoc. simpl. set_solver.
Qed.

(** The gas of the stored entries is that of the keys. *)
Lemma gas_of_stored pq : gas_of (stored_entries self pq) = sum_gas self pq.
Proof.
  induction pq as [|[[fee a] n] pq IH]; [done|]. simpl.
  destruct (find_tx_by_addr_and_nonce self a n) as [tx|]; simpl; by rewrite IH.
Qed.

Lemma stored_gas_typed pq : core_ok self -> gas_typed (stored_entries self pq).
Proof.
  intros Hc. apply Forall_forall. intros e He. apply stored_entries_elem in He as (a & n & _ & Hf).
  destruct (find_tx_spec _ _ _ _ Hc Hf) as (_ & _ & _ & _ & _ & Ht & _). apply Ht.
Qed.

Hypothesis eta_runs : forall i, exists o, estimated_blocks_to_confirm self i = Val o.

Definition filled (cap : Z) (l : list (Z * PendingTx)) (f : Fill) : Fill :=
  let chosen := first_fit cap (f_gas f) l in
  {| f_txs := f_txs f + Z.of_nat (length chosen);
     f_min_tip := default (f_min_tip f) (last (fst <$> chosen));
     f_gas := f_gas f + gas_of chosen;
     f_rows := f_rows f ++ take (MAX_ROWS - length (f_rows f))
       ((fun e => tx_row e.1 e.2 (eta (id e.2))) <$> l) |}.

Lemma take_gas_ok cap fee tx f :
  0 <= f_gas f -> 0 <= gas_limit tx -> f_gas f + gas_limit tx < 2 ^ 64 -> 0 <= f_txs f < 2 ^ 64 - 1 ->
  take_gas cap fee tx f = Val (
    if f_gas f + gas_limit tx <=? cap then
      {| f_txs := f_txs f + 1; f_min_tip := fee; f_gas := f_gas f + gas_limit tx; f_rows := f_rows f |}
    else f).
Proof.
  intros. unfold take_gas. rewrite !add_w_ok by word. simpl. rewrite Z.gtb_ltb.
  destruct (Z.ltb_spec cap (f_gas f + gas_limit tx)), (Z.leb_spec (f_gas f + gas_limit tx) cap);
    done || lia.
Qed.

Lemma capture_row_runs fee tx f :
  run_alone (handle_call source elapsed) (capture_row fee tx f) self =
    (Val {| f_txs := f_txs f; f_min_tip := f_min_tip f; f_gas := f_gas f;
            f_rows := f_rows f ++ take (MAX_ROWS - length (f_rows f)) [tx_row fee tx (eta (id tx))] |},
     self).
Proof.
  unfold capture_row. destruct (Nat.ltb_spec (length (f_rows f)) MAX_ROWS).
  - simpl. destruct (eta_runs (id tx)) as [o Ho]. unfold eta. rewrite Ho. simpl.
    rewrite take_ge by (simpl; lia). by destruct o.
  - simpl. replace (MAX_ROWS - length (f_rows f))%nat with 0%nat by lia.
    rewrite take_0, app_nil_r. by destruct f.
Qed.

(** One entry, and the whole queue. *)
Lemma capture_entry_run cap fee a n f :
  let l := stored_entries self [(fee, a, n)] in
  gas_typed l -> 0 <= f_gas f -> 0 <= f_txs f < 2 ^ 64 - 1 -> f_gas f + gas_of l < 2 ^ 64 ->
  run_alone (handle_call source elapsed) (capture_entry cap (fee, a, n) f) self =
    (Val (filled cap l f), self).
Proof.
  unfold capture_entry, stored_entries. simpl.
  destruct (find_tx_by_addr_and_nonce self a n) as [tx|]; simpl; intros Hg Hf Ht Hsum.
  - inversion_clear Hg as [|? ? Hgx _]. simpl in Hgx.
    rewrite (run_alone_val _ _ _ _ _ _ (capture_row_runs fee tx f)), take_gas_ok by (simpl; lia).
    unfold filled. simpl. by destruct (Z.leb_spec (f_gas f + gas_limit tx) cap); simpl;
      rewrite ?Z.add_0_r.
  - unfold filled. simpl. rewrite take_nil, app_nil_r, !Z.add_0_r. by destruct f.
Qed.

Lemma filled_app cap l1 l2 f : filled cap (l1 ++ l2) f = filled cap l2 (filled cap l1 f).
Proof.
  unfold filled. simpl. rewrite first_fit_app, length_app, gas_of_app, !fmap_app, last_app, take_app.
  rewrite length_app, length_take, length_fmap, app_assoc. f_equal; [lia| |lia|].
  - by destruct (last (fst <$> first_fit cap _ l2)).
  - f_equal. f_equal. lia.
Qed.

Lemma capture_entries_run cap pq f :
  gas_typed (stored_entries self pq) -> 0 <= f_gas f -> 0 <= f_txs f ->
  f_gas f + gas_of (stored_entries self pq) < 2 ^ 64 ->
  f_txs f + Z.of_nat (length pq) < 2 ^ 64 ->
  run_alone (handle_call source elapsed) (capture_entries cap pq f) self =
    (Val (filled cap (stored_entries self pq) f), self).
Proof.
  revert f. induction pq as [|[[fee a] n] pq IH]; intros f Hg Hf Ht Hsum Hlen.
  { simpl. unfold filled. simpl. rewrite take_nil, app_nil_r, !Z.add_0_r. by destruct f. }
  change (stored_entries self ((fee, a, n) :: pq))
    with (stored_entries self ([(fee, a, n)] ++ pq)) in *.
  unfold stored_entries in Hg, Hsum |- *. rewrite omap_app in Hg, Hsum |- *.
  fold (stored_entries self [(fee, a, n)]) (stored_entries self pq) in *.
  apply Forall_app in Hg as [Hg1 Hg2]. rewrite gas_of_app in Hsum. rewrite length_cons in Hlen.
  pose proof (gas_of_nonneg _ Hg1). pose proof (gas_of_nonneg _ Hg2).
  assert (0 <= f_txs f < 2 ^ 64 - 1) as Ht' by lia.
  assert (f_gas f + gas_of (stored_entries self [(fee, a, n)]) < 2 ^ 64) as Hs1 by lia.
  cbn [capture_entries].
  rewrite (run_alone_val _ _ _ _ _ _ (capture_entry_run cap fee a n f Hg1 Hf Ht' Hs1)), filled_app.
  pose proof (first_fit_gas_le cap (f_gas f) _ Hg1).
  pose proof (gas_of_nonneg _ (first_fit_typed cap (f_gas f) _ Hg1)).
  assert (length (first_fit cap (f_gas f) (stored_entries self [(fee, a, n)])) <= 1)%nat as Hone.
  { etransitivity; [apply sublist_length, first_fit_sublist|]. simpl. by case_match; simpl; lia. }
  apply IH; unfold filled; cbn [f_gas f_txs]; [done|lia..].
Qed.

Lemma capture_run :
  core_ok self -> sum_gas self (priority_queue self) < 2 ^ 64 ->
  Z.of_nat (length (priority_queue self)) < 2 ^ 64 ->
  let f := filled (usable_capacity self) (stored_entries self (priority_queue self)) (MkFill 0 0 0 []) in
  exists snap, run_alone (handle_call source elapsed) capture self = (Val snap, self) /\
    gas_used_for_next_block snap = f_gas f /\ expected_txs snap = f_txs f /\
    min_tip snap = f_min_tip f /\ ranked_rows snap = f_rows f /\
    snap_capacity snap = usable_capacity self.
Proof.
  intros Hc Hsum Hlen f. unfold capture. cbn [handle_call run_alone trigger mbind prog_mbind prog_bind].
  fold (usable_capacity self).
  rewrite (run_alone_val _ (capture_entries (usable_capacity self) (priority_queue self) (MkFill 0 0 0 []))
    _ self f self).
  2: { apply capture_entries_run; simpl; [by apply stored_gas_typed|lia|lia|by rewrite gas_of_stored|by rewrite Z.add_0_l]. }
  cbn [handle_call run_alone trigger mbind prog_mbind prog_bind].
  unfold utilization. rewrite mul_w_ok by word. eexists. split; [reflexivity|]. done.
Qed.

End quiet.

(** ** Any interleaving with the tracker *)

Section typed.
Context `{BuildProfile}.

Record tx_typed (tx : PendingTx) : Prop := {
  typed_nonce : in_range u64 (nonce tx);
  typed_max_fee : in_range u128 (max_fee_per_gas tx);
  typed_tip : in_range u128 (max_priority_fee_per_gas tx);
  typed_gas : in_range u64 (gas_limit tx);
}.

Record row_typed (row : TxRow) : Prop := {
  typed_row_nonce : in_range u64 (row_nonce row);
  typed_effective : in_range u128 (effective_fee row);
  typed_priority : in_range u128 (priority_fee row);
  typed_row_max : in_range u128 (max_fee row);
  typed_row_gas : in_range u64 (row_gas_limit row);
  typed_eta : in_range u64 (eta_blocks row);
  typed_prefix : in_range 8 (fst (sender_prefix row)) /\ in_range 8 (snd (sender_prefix row));
}.

Record snapshot_typed (s : Snapshot) : Prop := {
  typed_elapsed : in_range u64 (elapsed_secs s);
  typed_base_fee : in_range u128 (snap_base_fee s);
  typed_flow_percent : in_range u64 (private_flow_percent s);
  typed_min_tip : in_range u128 (min_tip s);
  typed_txs : in_range usize (expected_txs s);
  typed_gas_used : in_range u64 (gas_used_for_next_block s);
  typed_capacity : in_range u64 (snap_capacity s);
  typed_count : in_range usize (marketable_count s);
  typed_view : in_range u64 (snap_block_count s) /\ in_range u64 (snap_pending_seen s) /\
    in_range usize (snap_last_block_txs s) /\ in_range u64 (snap_last_block_gas_used s);
  typed_rows : Forall row_typed (ranked_rows s);
}.

Definition view_typed (v : AlloyTelemetryView) : Prop :=
  in_range u64 (v_pending_seen v) /\ in_range u64 (v_block_count v) /\
  in_range usize (v_last_block_txs v) /\ in_range u64 (v_last_block_gas_used v).

(** An overflow where it can happen: in a build with overflow checks, when
    [N] transactions of [G] gas are more than a u64 holds. *)
Definition gas_overflow (N G : Z) (p : panic) : Prop :=
  p = Overflow /\ overflow_checks = true /\ 2 ^ 64 <= N * G.

(** The time of a call, when it is one that panics. *)
Definition blocks_answer (N G : Z) (o : run (option Z)) : Prop :=
  match o with
  | Val (Some n) => in_range u64 n
  | Val None => True
  | Panic p => gas_overflow N G p
  end.

(** Each call answers a typed value of its own, whatever the others answered:
    a queue of at most [N] entries, transactions of at most [G] gas. *)
Definition handle_answers (N G : Z) {X} (e : HandleE X) : X -> Prop :=
  match e in HandleE X return X -> Prop with
  | HCurrentBaseFee => fun fee => in_range u128 fee
  | HPrivateFlowRatio => fun _ => True
  | HLastBlockGasLimit => fun gas => in_range u64 gas
  | HPriorityQueue => fun pq => Z.of_nat (length pq) <= N /\ Forall (fun k => in_range u128 k.1.1) pq
  | HFindTx _ _ => fun o => forall tx, o = Some tx -> tx_typed tx /\ gas_limit tx <= G
  | HEstimatedBlocks _ => blocks_answer N G
  | HTelemetry => view_typed
  | HElapsed => fun secs => in_range u64 secs
  end.

Definition handle_protocol (N G : Z) : protocol HandleE unit := {|
  may := fun X e q => True;
  answers := fun X e q x => handle_answers N G e x;
  next_state := fun X e q x => tt;
  may_crash := fun p q => gas_overflow N G p;
|}.

(** After at most [k] entries. *)
Record fill_ok (G cap k : Z) (f : Fill) : Prop := {
  fill_gas : 0 <= f_gas f <= cap;
  fill_gas_sum : f_gas f <= k * G;
  fill_txs : 0 <= f_txs f <= k;
  fill_tip : in_range u128 (f_min_tip f);
  fill_rows : (length (f_rows f) <= MAX_ROWS)%nat;
  fill_typed : Forall row_typed (f_rows f);
}.

Lemma tx_row_typed fee tx blocks :
  in_range u128 fee -> tx_typed tx -> in_range u64 blocks -> row_typed (tx_row fee tx blocks).
Proof.
  intros Hf [? ? ? ?] Hb. split; simpl; [done..|]. unfold in_range.
  change 255 with (Z.ones 8). rewrite !Z.land_ones by lia. split; apply Z.mod_pos_bound; lia.
Qed.

(** A sum of two unsigned numbers: exact, or over the width, where it panics
    or wraps to a smaller one. *)
Lemma add_w_cases w x y : 0 <= w -> 0 <= x -> 0 <= y ->
  match add_w w x y with
  | Val z => in_range w z /\ z <= x + y
  | Panic p => p = Overflow /\ overflow_checks = true /\ 2 ^ w <= x + y
  end.
Proof.
  intros Hw Hx Hy. unfold add_w, arith. pose proof (Z.pow_pos_nonneg 2 w ltac:(lia) Hw).
  case_decide as Hr; unfold in_range in *; [lia|].
  destruct overflow_checks; [split; [done|split; [done|lia]]|].
  pose proof (Z.mod_pos_bound (x + y) (2 ^ w)). pose proof (Z.mod_le (x + y) (2 ^ w)). lia.
Qed.

Lemma take_gas_typed N G cap k fee tx f :
  0 <= G -> (k + 1) * G <= N * G -> k + 1 < 2 ^ 64 -> cap < 2 ^ 64 -> in_range u128 fee ->
  in_range u64 (gas_limit tx) -> gas_limit tx <= G -> fill_ok G cap k f ->
  match take_gas cap fee tx f with
  | Val f' => fill_ok G cap (k + 1) f'
  | Panic p => gas_overflow N G p
  end.
Proof.
  intros HG HN Hk Hc Hfee Hgas HGtx [Hg Hgs Ht Htip Hr Hrt]. unfold take_gas, in_range in *.
  pose proof (add_w_cases u64 (f_gas f) (gas_limit tx) ltac:(done) ltac:(lia) ltac:(lia)) as Hadd.
  destruct (add_w u64 (f_gas f) (gas_limit tx)) as [total|p]; cbn [mbind run_bind].
  2: { destruct Hadd as (-> & Hover & Hle). split; [done|]. split; [done|]. change u64 with 64 in Hle. lia. }
  destruct Hadd as [Htotal Hle]. unfold in_range in Htotal. rewrite Z.gtb_ltb.
  destruct (Z.ltb_spec cap total); [split; try done; lia|].
  rewrite add_w_ok by (unfold in_range; change usize with 64; lia). cbn [mbind run_bind].
  split; simpl; try done; lia.
Qed.

Lemma capture_row_typed N G fee tx f q :
  in_range u128 fee -> tx_typed tx -> (length (f_rows f) <= MAX_ROWS)%nat -> Forall row_typed (f_rows f) ->
  wp (handle_protocol N G) (capture_row fee tx f) q (fun f' _ => exists rows,
    f' = MkFill (f_txs f) (f_min_tip f) (f_gas f) rows /\
    (length rows <= MAX_ROWS)%nat /\ Forall row_typed rows).
Proof.
  intros Hfee Htx Hr Hrt. unfold capture_row.
  destruct (Nat.ltb_spec (length (f_rows f)) MAX_ROWS); [|exists (f_rows f); by destruct f].
  event o Ho. destruct o as [o|p]; [|exact Ho].
  cbn [lift mbind prog_mbind prog_bind].
  eexists. split; [done|]. rewrite length_app. split; [simpl; lia|]. apply Forall_app. split; [done|].
  constructor; [|constructor]. apply tx_row_typed; [done..|]. destruct o; [exact Ho|by vm_compute].
Qed.

Lemma capture_entry_typed N G cap k entry f :
  0 <= G -> (k + 1) * G <= N * G -> k + 1 < 2 ^ 64 -> cap < 2 ^ 64 -> in_range u128 entry.1.1 ->
  fill_ok G cap k f ->
  wp (handle_protocol N G) (capture_entry cap entry f) tt (fun f' _ => fill_ok G cap (k + 1) f').
Proof.
  intros HG HN Hk Hc Hfee Hf. destruct entry as [[fee a] n]. simpl in Hfee.
  pose proof Hf as [Hg Hgs Ht Htip Hr Hrt].
  split; [done|]. intros [tx|] Htx; simpl in Htx; [|simpl; split; try done; nia].
  destruct (Htx tx eq_refl) as [Htyped HGtx]. pose proof (typed_gas _ Htyped) as Hgas.
  eapply (wp_bind_mono _ (capture_row fee tx f)); [by apply capture_row_typed|].
  intros f' [] (rows & -> & Hr' & Hrt'). apply wp_lift.
  pose proof (take_gas_typed N G cap k fee tx (MkFill (f_txs f) (f_min_tip f) (f_gas f) rows)) as Htake.
  destruct (take_gas cap fee tx _); apply Htake; try done; by split.
Qed.

Lemma capture_entries_typed N G cap k pq f :
  0 <= G -> 0 <= k -> k + Z.of_nat (length pq) <= N -> N < 2 ^ 64 -> cap < 2 ^ 64 ->
  Forall (fun e => in_range u128 e.1.1) pq -> fill_ok G cap k f ->
  wp (handle_protocol N G) (capture_entries cap pq f) tt
    (fun f' _ => fill_ok G cap (k + Z.of_nat (length pq)) f').
Proof.
  intros HG Hk Hlen HN Hc Hpq. revert k f Hk Hlen.
  induction Hpq as [|entry pq He Hpq IH]; intros k f Hk Hlen Hf.
  { simpl. by rewrite Z.add_0_r. }
  rewrite length_cons in *. cbn [capture_entries].
  eapply (wp_bind_mono _ (capture_entry cap entry f));
    [apply (capture_entry_typed N G cap k); [done|nia|lia|done..]|].
  intros f' [] Hf'. replace (k + Z.of_nat (S (length pq))) with (k + 1 + Z.of_nat (length pq)) by lia.
  apply IH; [lia|lia|done].
Qed.

(** The parts of a snapshot that a view draws. *)
Record snapshot_ok (snap : Snapshot) : Prop := {
  snap_typed : snapshot_typed snap;
  snap_fits : gas_used_for_next_block snap <= snap_capacity snap;
  snap_counts : expected_txs snap <= marketable_count snap;
  snap_fill : 0 <= next_block_fill_percent snap <= 100;
  snap_utilization : 0 <= marketable_utilization snap <= 100;
  snap_rows : (length (ranked_rows snap) <= MAX_ROWS)%nat;
}.

Lemma capture_ok N G :
  0 <= N < 2 ^ 64 -> 0 <= G ->
  wp (handle_protocol N G) capture tt (fun snap _ => snapshot_ok snap).
Proof.
  intros HN HG. unfold capture. split; [done|]. intros base Hbase. split; [done|].
  intros ratio _. split; [done|]. intros gas Hgas. split; [done|]. intros ratio' _.
  split; [done|]. intros pq [Hlen Hpq].
  set (cap := f64_to_uint u64 (f64_mul (f64_of_Z gas) (f64_sub f64_one ratio'))).
  assert (in_range u64 cap) as Hcap by (by apply f64_to_uint_range). unfold in_range in Hcap.
  eapply (wp_bind_mono _ (capture_entries cap pq (MkFill 0 0 0 []))).
  { apply (capture_entries_typed N G cap 0 pq); [done|done|lia|lia|lia|done|].
    split; simpl; try done; lia. }
  intros f [] [Hg _ Ht Htip Hr Hrt]. split; [done|]. intros view Hview. split; [done|].
  intros elapsed Helapsed. unfold utilization. rewrite mul_w_ok by word. simpl.
  destruct Hview as (? & ? & ? & ?).
  assert (0 <= fill_percent (f_gas f) cap <= 100) as Hfill.
  { unfold fill_percent. destruct (Z.eqb_spec cap 0); [lia|]. unfold max_w.
    split; [apply Z.div_pos; lia|]. apply Z.div_le_upper_bound; lia. }
  split; simpl; [|lia|lia|done|split; [apply Z.div_pos; lia|apply Z.div_le_upper_bound; lia]|done].
  split; simpl; try done; try (by apply f64_to_uint_range); unfold in_range; lia.
Qed.

End typed.

(** ** Properties *)

(** C40: when the gas limits of its entries sum to a u64, a snapshot of a quiet
    tracker fills the next block first-fit down the priority queue: what it
    counts are stored transactions of the queue whose
    gas fits the usable capacity together, any transaction left out does not
    fit beside them, and the minimum tip is the lowest fee counted.  The rows
    show the first 256 stored entries in order. *)
Theorem capture_fills_block `{BuildProfile} `{IterationOrder} source elapsed self :
  mempool_ok self -> sum_gas self (priority_queue self) < 2 ^ 64 ->
  Z.of_nat (length (priority_queue self)) < 2 ^ 64 ->
  let stored := stored_entries self (priority_queue self) in
  exists snap chosen,
    run_alone (handle_call source elapsed) capture self = (Val snap, self) /\
    chosen `sublist_of` stored /\
    expected_txs snap = Z.of_nat (length chosen) /\
    gas_used_for_next_block snap = gas_of chosen /\ gas_of chosen <= usable_capacity self /\
    (forall e, e ∈ stored -> e ∈ chosen \/ usable_capacity self < gas_of chosen + gas_limit e.2) /\
    (forall e, e ∈ chosen -> min_tip snap <= e.1) /\
    (chosen <> [] -> exists e, e ∈ chosen /\ min_tip snap = e.1) /\
    ranked_rows snap = take MAX_ROWS ((fun e => tx_row e.1 e.2 (eta self (id e.2))) <$> stored).
Proof.
  intros [Hc _] Hsum Hlen stored.
  destruct (capture_run source elapsed self) as (snap & Hrun & Eg & Et & Em & Er & _); [|done..|].
  { intros i. by apply estimated_blocks_run. }
  set (chosen := first_fit (usable_capacity self) 0 stored).
  assert (StronglySorted fee_le chosen) as Hsorted
    by (apply first_fit_sorted, stored_entries_sorted, (ok_pq _ Hc)).
  exists snap, chosen. split; [done|]. split; [apply first_fit_sublist|].
  rewrite Eg, Et, Em, Er. simpl. fold stored chosen. split; [done|]. split; [done|].
  split; [|split; [|split; [|split]]].
  - apply (first_fit_gas _ 0). apply f64_to_uint_range. done.
  - intros e He. by apply (first_fit_maximal (usable_capacity self) 0 stored e (stored_gas_typed self _ Hc)).
  - intros e. by apply last_lowest.
  - intros Hne. assert (fst <$> chosen <> []) as Hne' by (by destruct chosen).
    pose proof (last_elem (fst <$> chosen) 0 Hne') as Hin.
    apply list_elem_of_fmap in Hin as (e & Heq & He). by exists e.
  - done.
Qed.

(** C35: whatever the tracker does between the calls of its handle, as long as
    they return or panic, a snapshot that is taken has every field in its
    type: the gas counted is within the capacity, the percentages derived from
    it within 100, the transactions counted within the queue, and there are
    at most 256 rows.  The one panic is the overflow of a sum of gas limits,
    in a build with overflow checks and when the entries of the queue can sum
    to more than a u64: [N] bounds their number and [G] the gas of each. *)
Theorem capture_typed `{BuildProfile} N G :
  0 <= N < 2 ^ 64 -> 0 <= G ->
  wp {| may := fun X (e : HandleE X) q => True;
        answers := fun X e q x => handle_answers N G e x;
        next_state := fun X e q x => tt;
        may_crash := fun p q => p = Overflow /\ overflow_checks = true /\ 2 ^ 64 <= N * G |}
    capture tt (fun snap _ =>
      snapshot_typed snap /\
      gas_used_for_next_block snap <= snap_capacity snap /\
      expected_txs snap <= marketable_count snap /\
      0 <= next_block_fill_percent snap <= 100 /\
      0 <= marketable_utilization snap <= 100 /\
      (length (ranked_rows snap) <= MAX_ROWS)%nat).
Proof.
  intros HN HG. eapply (wp_mono (handle_protocol N G)); [by apply capture_ok|].
  by intros snap _ [? ? ? ? ? ?].
Qed.

Section witnesses.
#[local] Instance snapshot_ci_checks : BuildProfile := true.
#[local] Instance snapshot_order : IterationOrder :=
  {| hash_entries := map_to_list; hash_entries_perm := fun m => Permutation_refl _ |}.

(** A tracker after a block of 50,000 gas, a tenth of it private, with three
    transactions of which the second does not fit. *)
Definition snap_config : TrackerConfig :=
  {| initial_base_fee := 10; global_capacity := 10; per_account_capacity := 4;
     private_flow_prior := f64_tenth |}.

Definition snap_txs : list PendingTx :=
  [MkPendingTx 1 1 0 50 9 21000; MkPendingTx 2 2 0 50 7 40000; MkPendingTx 3 3 0 50 5 21000].

Definition snap_block : BlockUpdate :=
  {| included_txs := []; new_base_fee := 10; gas_used := 5000; block_gas_limit := 50000 |}.

Definition snap_pool : MempoolInner :=
  match (start ← for_each (fun tx self => insert self tx) snap_txs (empty_inner snap_config);
         apply_block start snap_block) with
  | Val self => self
  | Panic _ => empty_inner snap_config
  end.

Lemma snap_pool_ok : mempool_ok snap_pool.
Proof.
  unfold snap_pool.
  destruct (for_each_ind (fun tx self => insert self tx) mempool_ok snap_txs (empty_inner snap_config))
    as (self & -> & [Hc _]).
  - intros tx s Hin Hs. destruct (insert_ok s tx Hs) as (s' & ? & ? & _); [|by exists s'].
    assert (Forall tx_sane snap_txs) as Ht by (repeat constructor; by vm_compute).
    rewrite Forall_forall in Ht. by apply Ht.
  - split; [split; simpl; try apply ord_ok_nil; [lia|by intros a q; rewrite lookup_empty]|].
    intros f a n. simpl. by intros ?%elem_of_nil.
  - cbn [mbind run_bind]. destruct (apply_block_ok self snap_block Hc) as (self' & -> & Hok & _); [|done].
    split; [constructor|by vm_compute].
Qed.

(** Two transactions that the tracker takes, the second with the greatest gas
    limit: with overflow checks the snapshot of the pool panics. *)
Definition greedy_events : list MempoolEvent :=
  [PendingTransaction (MkPendingTx 1 1 0 50 9 21000);
   PendingTransaction (MkPendingTx 2 2 0 50 7 (max_w u64)); NewBlock snap_block].

Lemma greedy_events_sane : Forall event_sane greedy_events.
Proof. repeat constructor; by vm_compute. Qed.

Definition snapshot_after (events : list MempoolEvent) : run Snapshot :=
  self ← tracker_run events (empty_inner snap_config);
  (run_alone (handle_call (SimulatedTelemetry Telemetry_default) 7) capture self).1.

Lemma capture_overflows :
  Forall event_sane greedy_events /\ snapshot_after greedy_events = Panic Overflow.
Proof. split; [apply greedy_events_sane|by vm_compute]. Qed.

Lemma capture_fills_block_witness :
  exists snap, run_alone (handle_call (SimulatedTelemetry Telemetry_default) 7) capture snap_pool =
      (Val snap, snap_pool) /\
    expected_txs snap = 2 /\ min_tip snap = 5 /\ gas_used_for_next_block snap = 42000.
Proof.
  assert (sum_gas snap_pool (priority_queue snap_pool) < 2 ^ 64) as H1 by (vm_compute; reflexivity).
  assert (Z.of_nat (length (priority_queue snap_pool)) < 2 ^ 64) as H2 by (vm_compute; reflexivity).
  destruct (capture_fills_block (SimulatedTelemetry Telemetry_default) 7 snap_pool snap_pool_ok H1 H2)
    as (snap & chosen & Hrun & _).
  exists snap. split; [exact Hrun|].
  assert (fst (run_alone (handle_call (SimulatedTelemetry Telemetry_default) 7) capture snap_pool) =
    Val snap) as Hsnap by (rewrite Hrun; reflexivity).
  revert Hsnap. vm_compute. intros [= <-]. split; [reflexivity|split; reflexivity].
Defined.

Lemma capture_typed_witness :
  wp (handle_protocol 100000 30000000) capture tt (fun snap _ =>
    expected_txs snap <= marketable_count snap) /\
  (forall p, ~ gas_overflow 100000 30000000 p).
Proof.
  split; [|intros p (_ & _ & Hle); lia]. apply (wp_mono _ _ _ (fun snap _ =>
    snapshot_typed snap /\
    gas_used_for_next_block snap <= snap_capacity snap /\
    expected_txs snap <= marketable_count snap /\
    0 <= next_block_fill_percent snap <= 100 /\
    0 <= marketable_utilization snap <= 100 /\
    (length (ranked_rows snap) <= MAX_ROWS)%nat)).
  - apply capture_typed; lia.
  - intros snap _ (_ & _ & H & _). exact H.
Defined.
End witnesses.
