(* ===== verification/CliLoops.v ===== *)
(** * The timed loops of the command-line tool ([crates/mempooloracle/examples/cli_tool.rs])

    [should_stop_for] and [run_plaintext]: loops that poll a flag and the
    clock and sleep in between.  A reading of the clock, a reading of the flag
    and a sleep are events; time is in nanoseconds.  [run_plaintext] runs
    [Snapshot::capture], whose calls of the handle are events as well and whose
    panics are its own.  The loops have fuel, and the theorems say how much is
    enough: running out is the panic [Diverge]. *)

From stdpp Require Import strings pretty.
From S2P Require Import Prelude Prog Float64 Fmt Mempool CliSnapshot.

Definition MILLIS : Z := 1000000.
Definition SECS : Z := 1000000000.

(** The range of an [Instant] where the seconds are an [i64]. *)
Definition INSTANT_LIMIT : Z := 2 ^ 63 * SECS.

(** [Instant + Duration::from_secs(secs)] panics when out of range. *)
Definition instant_add_secs (instant secs : Z) : run Z :=
  if instant + secs * SECS <? INSTANT_LIMIT then Val (instant + secs * SECS) else Panic Overflow.

Inductive LoopE : Type -> Type :=
  | Now : LoopE Z
  | LoadStop : LoopE bool
  | Sleep (duration : Z) : LoopE unit.

(** What [run_plaintext] does: the events of a timed loop, the calls of the
    handle and the other readings of a snapshot, and its lines. *)
Inductive PlainE : Type -> Type :=
  | PLoop (X : Type) (e : LoopE X) : PlainE X
  | PHandle (X : Type) (e : HandleE X) : PlainE X
  | PPrint (line : string) : PlainE unit.

(** [(duration_secs > 0).then(|| started_at + ...)] *)
Definition deadline_of (duration_secs started_at : Z) : run (option Z) :=
  if duration_secs >? 0 then d ← instant_add_secs started_at duration_secs; Val (Some d)
  else Val None.

(** [started.elapsed()]: zero when the clock has not passed it. *)
Definition elapsed_since (started now : Z) : Z := saturating_sub now started.

Fixpoint should_stop_loop (fuel : nat) (started duration : Z) : Prog LoopE bool :=
  match fuel with
  | O => Crash Diverge
  | S fuel =>
      now ← trigger Now;
      if elapsed_since started now <? duration then
        stop ← trigger LoadStop;
        if stop : bool then Ret true
        else
          now ← trigger Now;
          let remaining := saturating_sub duration (elapsed_since started now) in
          trigger (Sleep (Z.min remaining (100 * MILLIS)));;
          should_stop_loop fuel started duration
      else trigger LoadStop
  end.

Definition should_stop_for (fuel : nat) (duration : Z) : Prog LoopE bool :=
  started ← trigger Now;
  should_stop_loop fuel started duration.

(** The line of the plaintext view. *)
Definition plaintext_line (snapshot : Snapshot) : string :=
  "base_fee=" +:+ pretty (snap_base_fee snapshot) +:+
  " min_tip=" +:+ pretty (min_tip snapshot) +:+
  " expected_txs=" +:+ pretty (expected_txs snapshot) +:+
  " private_flow=" +:+ fmt_tenth (private_flow snapshot) +:+ "%" +:+
  " blocks=" +:+ pretty (snap_block_count snapshot) +:+
  " pending_seen=" +:+ pretty (snap_pending_seen snapshot).

Section plaintext.
Context `{BuildProfile}.

Definition now_p : Prog PlainE Z := trigger (PLoop _ Now).

(** The body after the checks of the loop of [run_plaintext]: the new
    [last_render]. *)
Definition plaintext_body (last_render : Z) : Prog PlainE Z :=
  now ← now_p;
  last_render ← (if 500 * MILLIS <=? elapsed_since last_render now then
                   snapshot ← embed PHandle capture;
                   trigger (PPrint (plaintext_line snapshot));;
                   now_p
                 else Ret last_render);
  trigger (PLoop _ (Sleep (100 * MILLIS)));;
  Ret last_render.

Fixpoint plaintext_loop (fuel : nat) (deadline : option Z) (last_render : Z) : Prog PlainE unit :=
  match fuel with
  | O => Crash Diverge
  | S fuel =>
      stop ← trigger (PLoop _ LoadStop);
      if stop : bool then Ret tt
      else
        match deadline with
        | Some d =>
            now ← now_p;
            if d <=? now then Ret tt
            else last_render ← plaintext_body last_render; plaintext_loop fuel deadline last_render
        | None => last_render ← plaintext_body last_render; plaintext_loop fuel deadline last_render
        end
  end.

Definition run_plaintext (fuel : nat) (duration_secs : Z) : Prog PlainE unit :=
  started_at ← now_p;
  deadline ← lift (deadline_of duration_secs started_at);
  now ← now_p;
  plaintext_loop fuel deadline (now - SECS).

End plaintext.

(** ** The clock

    The state is the time and whether the flag was seen set; the clock never
    goes back, stays before the year 10^11 of the instant's origin, and a
    sleep lasts at least as long as asked. *)

Record ClockState := MkClock { time : Z; seen_stop : bool }.

Definition clock_protocol : protocol LoopE ClockState := {|
  may := fun X e q => match e with
    | Sleep d => 0 <= d
    | _ => True
    end;
  answers := fun X e q x =>
    match e in LoopE X return X -> Prop with
    | Now => fun t => time q <= t < 2 ^ 62 * SECS
    | LoadStop => fun _ => True
    | Sleep _ => fun _ => True
    end x;
  next_state := fun X e q x =>
    match e in LoopE X return X -> ClockState with
    | Now => fun t => MkClock t (seen_stop q)
    | LoadStop => fun stop => MkClock (time q) (seen_stop q || stop)
    | Sleep d => fun _ => MkClock (time q + d) (seen_stop q)
    end x;
  may_crash := fun p q => False;
|}.

(** The rounds of a loop that sleeps 100 ms in each, for a time. *)
Definition rounds_for (duration : Z) : nat := Z.to_nat (duration / (100 * MILLIS)) + 2.

(** After [k] rounds the time is up or [k] sleeps have passed. *)
Lemma should_stop_loop_ends fuel started duration k q :
  0 <= k -> started <= time q ->
  started + k * (100 * MILLIS) <= time q \/ started + duration <= time q ->
  (0 < fuel)%nat -> duration < (k + Z.of_nat fuel - 1) * (100 * MILLIS) ->
  wp clock_protocol (should_stop_loop fuel started duration) q
    (fun stop q' => (stop = true -> seen_stop q' = true) /\
       (stop = false -> started + duration <= time q')).
Proof.
  unfold MILLIS. revert k q. induction fuel as [|fuel IH]; intros k q Hk Hs Ht Hf Hd; [lia|].
  event now Hnow. unfold elapsed_since, saturating_sub.
  destruct (Z.ltb_spec (Z.max 0 (now - started)) duration) as [Hlt|Hge].
  2: { event stop Hstop. simpl. split; [|lia]. intros ->. apply orb_true_r. }
  event stop Hstop. destruct stop; [split; [intros _; apply orb_true_r|done]|].
  event now' Hnow'. event u Hu; [simpl; unfold MILLIS; lia|].
  apply (IH (k + 1)); cbn [time next_state clock_protocol]; unfold MILLIS; lia.
Qed.

Section plaintext_ends.
Context `{BuildProfile} (N G secs : Z).

(** The panics of a plaintext run: a deadline past the clock's range, or the
    gas sum of a snapshot. *)
Definition plaintext_panics (p : panic) : Prop :=
  p = Overflow /\ (2 ^ 62 <= secs \/ (overflow_checks = true /\ 2 ^ 64 <= N * G)).

(** The clock and the handle, side by side; a line shows a snapshot that is
    typed. *)
Definition plaintext_protocol : protocol PlainE ClockState := {|
  may := fun X e q =>
    match e with
    | PLoop _ e => may clock_protocol e q
    | PHandle _ _ => True
    | PPrint line => exists snapshot, line = plaintext_line snapshot /\ snapshot_ok snapshot
    end;
  answers := fun X e q x =>
    match e in PlainE X return X -> Prop with
    | PLoop _ e => answers clock_protocol e q
    | PHandle _ e => handle_answers N G e
    | PPrint _ => fun _ => True
    end x;
  next_state := fun X e q x =>
    match e in PlainE X return X -> ClockState with
    | PLoop _ e => next_state clock_protocol e q
    | PHandle _ _ | PPrint _ => fun _ => q
    end x;
  may_crash := fun p q => plaintext_panics p;
|}.

Lemma wp_embed_handle {A} (p : Prog HandleE A) (Φ : A -> Prop) q :
  wp (handle_protocol N G) p tt (fun a _ => Φ a) ->
  wp plaintext_protocol (embed PHandle p) q (fun a q' => q' = q /\ Φ a).
Proof.
  induction p as [a|r|X e k IH]; simpl; [done| |].
  - intros (-> & Ho & Hle). split; [done|by right].
  - intros [_ Hk]. split; [done|]. intros x Hx. by apply IH, Hk.
Qed.

Hypothesis HN : 0 <= N < 2 ^ 64.
Hypothesis HG : 0 <= G.

Lemma plaintext_body_runs last_render q (Φ : Z -> ClockState -> Prop) :
  (forall last_render' q', time q + 100 * MILLIS <= time q' -> Φ last_render' q') ->
  wp plaintext_protocol (plaintext_body last_render) q Φ.
Proof.
  intros HΦ. event now Hnow. apply wp_bind.
  apply (wp_mono _ _ _ (fun _ q' => time q <= time q')).
  - destruct (500 * MILLIS <=? elapsed_since last_render now); [|simpl; lia].
    eapply wp_bind_mono; [by apply wp_embed_handle, capture_ok|].
    intros snapshot q' [-> Hsnap]. split; [by exists snapshot|]. intros [] _. simpl.
    split; [done|]. intros t Ht. simpl in Ht. simpl. lia.
  - intros last' q' Hq'. split; [done|]. intros [] _. apply HΦ. simpl. lia.
Qed.

Lemma plaintext_loop_ends fuel d start k last_render q :
  0 <= k -> start + k * (100 * MILLIS) <= time q ->
  (0 < fuel)%nat -> d <= start + (k + Z.of_nat fuel - 1) * (100 * MILLIS) ->
  wp plaintext_protocol (plaintext_loop fuel (Some d) last_render) q
    (fun _ q' => seen_stop q' = true \/ d <= time q').
Proof.
  revert k last_render q. induction fuel as [|fuel IH]; intros k last_render q Hk Ht Hf Hr; [lia|].
  event stop Hstop. destruct stop; [left; apply orb_true_r|].
  event now Hnow.
  destruct (Z.leb_spec d now); [by right|].
  apply wp_bind, plaintext_body_runs. intros last_render' q' Hq'. simpl in Hq'.
  unfold MILLIS in *. apply (IH (k + 1)); lia.
Qed.

End plaintext_ends.

Lemma should_stop_for_ends duration q :
  0 <= duration ->
  wp clock_protocol (should_stop_for (rounds_for duration) duration) q
    (fun stop q' => (stop = true -> seen_stop q' = true) /\
       (stop = false -> time q + duration <= time q')).
Proof.
  intros Hd. event started Hst.
  eapply wp_mono.
  - apply (should_stop_loop_ends _ started duration 0); cbn [time next_state clock_protocol];
      unfold rounds_for; [lia..|].
    unfold MILLIS. Z.to_euclidean_division_equations. lia.
  - intros stop q' [Ht Hf]. split; [done|]. intros Hs. specialize (Hf Hs). lia.
Qed.

(** ** Properties *)

(** [should_stop_for] ends: a wait of [duration] takes at most one round
    for each tenth of a second and two more, whatever the clock and the flag
    do; it returns true only when it saw the flag set, and false only when
    the time has passed. *)
Theorem should_stop_for_terminates duration q :
  0 <= duration ->
  wp clock_protocol (should_stop_for (rounds_for duration) duration) q
    (fun stop q' => (stop = true -> seen_stop q' = true) /\
       (stop = false -> time q + duration <= time q')).
Proof. exact (should_stop_for_ends duration q). Qed.

(** C36: a timed run of [run_plaintext] ends, as long as the calls of the
    handle return or panic: with a duration of [s] seconds it takes at most
    [10 s] rounds and two more, it ends because the flag was seen set or the
    deadline has passed, and every line shows a typed snapshot.  It panics
    only with an overflow: of the deadline, when the duration is past the
    range of the clock, or of a gas sum of a snapshot, in a build with
    overflow checks and with a queue whose gas can be more than a u64. *)
Theorem run_plaintext_terminates `{BuildProfile} N G duration_secs q :
  0 <= N < 2 ^ 64 -> 0 <= G -> 0 < duration_secs ->
  wp (plaintext_protocol N G duration_secs)
    (run_plaintext (rounds_for (duration_secs * SECS)) duration_secs) q
    (fun _ q' => seen_stop q' = true \/ time q + duration_secs * SECS <= time q').
Proof.
  intros HN HG Hd. event started Hst. unfold deadline_of, instant_add_secs.
  destruct (Z.gtb_spec duration_secs 0); [|lia].
  destruct (Z.ltb_spec (started + duration_secs * SECS) INSTANT_LIMIT) as [_|Hover].
  2: { split; [done|]. left. unfold INSTANT_LIMIT, SECS in *. lia. }
  cbn [lift mbind run_bind prog_mbind prog_bind]. event now Hnow. eapply wp_mono.
  - apply (plaintext_loop_ends N G duration_secs HN HG _ _ started 0);
      cbn [time next_state clock_protocol plaintext_protocol]; unfold rounds_for; [lia..|].
    unfold MILLIS, SECS. Z.to_euclidean_division_equations. lia.
  - intros [] q' [Hs|Ht]; [by left|right; lia].
Qed.

(** The parser accepts any u64 of seconds, and a deadline past the range of an
    [Instant] panics at the start of the run. *)
Lemma long_duration_panics duration_secs started_at :
  0 < duration_secs -> INSTANT_LIMIT <= started_at + duration_secs * SECS ->
  deadline_of duration_secs started_at = Panic Overflow.
Proof.
  intros Hd Hl. unfold deadline_of, instant_add_secs.
  destruct (Z.gtb_spec duration_secs 0); [|lia].
  by destruct (Z.ltb_spec (started_at + duration_secs * SECS) INSTANT_LIMIT); [lia|].
Qed.

Example max_duration_panics : deadline_of (max_w u64) 0 = Panic Overflow.
Proof. apply long_duration_panics; vm_compute; congruence. Qed.

Section witnesses.
#[local] Instance loops_ci_checks : BuildProfile := true.

Definition demo_clock : ClockState := MkClock 0 false.

Lemma should_stop_for_terminates_witness :
  wp clock_protocol (should_stop_for 52 (5 * SECS)) demo_clock
    (fun stop q' => stop = false -> 5 * SECS <= time q').
Proof.
  eapply wp_mono; [apply (should_stop_for_terminates (5 * SECS) demo_clock); vm_compute; congruence|].
  intros stop q' [_ H]. exact H.
Defined.

Lemma run_plaintext_terminates_witness :
  wp (plaintext_protocol 100000 30000000 30) (run_plaintext 302 30) demo_clock
    (fun _ q' => seen_stop q' = true \/ 30 * SECS <= time q') /\
  (forall p, ~ plaintext_panics 100000 30000000 30 p).
Proof.
  split; [|intros p (_ & [Hd|[_ Hle]]); lia].
  eapply wp_mono; [apply (run_plaintext_terminates 100000 30000000 30 demo_clock); lia|].
  intros u q' H. exact H.
Defined.
End witnesses.
