(* ===== verification/CliView.v ===== *)
(** * The terminal view of the command-line tool ([crates/mempooloracle/examples/cli_tool.rs])

    [App], the state of the view, and [render], which draws it: the areas, the
    widgets and their texts. *)

From stdpp Require Import strings pretty.
From S2P Require Import Prelude Float64 Fmt Mempool CliSnapshot.

(** ** [App] *)

Record App := MkApp {
  app_duration_secs : Z;        (* u64 *)
  snapshots : list Snapshot;
  tx_scroll : Z;                (* usize *)
}.

Definition App_new (duration_secs : Z) : App :=
  {| app_duration_secs := duration_secs; snapshots := []; tx_scroll := 0 |}.

Definition MAX_SNAPSHOTS : nat := 60.

Definition with_scroll (scroll : Z) (app : App) : App :=
  {| app_duration_secs := app_duration_secs app; snapshots := snapshots app; tx_scroll := scroll |}.

Section app.
Context `{BuildProfile}.

(** [last().expect(...)] *)
Definition latest (app : App) : run Snapshot :=
  match last (snapshots app) with
  | Some snapshot => Val snapshot
  | None => Panic Unwrap
  end.

Definition rows_len (snapshot : Snapshot) : Z := Z.of_nat (length (ranked_rows snapshot)).

Definition max_scroll (visible_rows : Z) (app : App) : run Z :=
  snapshot ← latest app;
  Val (saturating_sub (rows_len snapshot) (Z.max visible_rows 1)).

Definition clamp_scroll (visible_rows : Z) (app : App) : run App :=
  most ← max_scroll visible_rows app;
  Val (with_scroll (Z.min (tx_scroll app) most) app).

Definition scroll_up (amount : Z) (app : App) : App :=
  with_scroll (saturating_sub (tx_scroll app) amount) app.

Definition scroll_down (amount visible_rows : Z) (app : App) : run App :=
  most ← max_scroll visible_rows app;
  target ← add_w usize (tx_scroll app) amount;
  Val (with_scroll (Z.min target most) app).

(** [push], and [drain(0..overflow)] when there are more than 60. *)
Definition push_snapshot (snapshot : Snapshot) (app : App) : run App :=
  let pushed := snapshots app ++ [snapshot] in
  let kept := if (MAX_SNAPSHOTS <? length pushed)%nat
              then drop (length pushed - MAX_SNAPSHOTS) pushed else pushed in
  clamp_scroll 0 {| app_duration_secs := app_duration_secs app; snapshots := kept;
                    tx_scroll := tx_scroll app |}.
End app.

(** ** Ratatui

    What the tool gives to Ratatui: how it divides areas and the widgets, of
    which the styles are left out.  Dividing an area is Ratatui's, which
    returns one part per constraint. *)

(** All four are [u16]. *)
Record Rect := MkRect { rect_x : Z; rect_y : Z; rect_width : Z; rect_height : Z }.

Inductive Direction := Vertical | Horizontal.
Inductive Constraint := Length (n : Z) | Percentage (n : Z) | Min (n : Z).

Class Layout := layout_split : Direction -> list Constraint -> Rect -> list Rect.

Definition rect_typed (r : Rect) : Prop := in_range 16 (rect_width r) /\ in_range 16 (rect_height r).

Class LayoutLaws `{Layout} : Prop := {
  split_length d cs r : length (layout_split d cs r) = length cs;
  split_typed d cs r : rect_typed r -> Forall rect_typed (layout_split d cs r);
}.

Inductive Widget :=
  | Paragraph (title : string) (lines : list string)
  | Gauge (title : string) (percent : Z) (label : string)
  | BarChart (title : string) (bars : list (Z * string))
  | ListView (title : string) (items : list string).

(** [parts[i]] *)
Definition part (parts : list Rect) (i : nat) : run Rect :=
  match parts !! i with
  | Some r => Val r
  | None => Panic OutOfBounds
  end.

(** ** What is drawn *)

Section draw.
Context `{BuildProfile} `{Layout}.

Definition outer_split (area : Rect) : list Rect :=
  layout_split Vertical [Length 3; Length 8; Min 12; Length 3] area.

Definition gauge_split (area : Rect) : list Rect :=
  layout_split Horizontal [Percentage 34; Percentage 33; Percentage 33] area.

Definition body_split (area : Rect) : list Rect :=
  layout_split Horizontal [Percentage 30; Percentage 25; Percentage 45] area.

Definition overview (snapshot : Snapshot) (app : App) : Widget :=
  let mode := if app_duration_secs app =? 0 then "live until Ctrl-C" else "timed capture" in
  Paragraph "Overview"
    ["Mempool Oracle" +:+ "  " +:+ mode +:+ "  " +:+
     "uptime " +:+ pretty (elapsed_secs snapshot) +:+ "s" +:+ "  " +:+
     "blocks " +:+ pretty (snap_block_count snapshot) +:+ "  " +:+
     "pending seen " +:+ pretty (snap_pending_seen snapshot)].

Definition render_header (area : Rect) (app : App) : run (list (Rect * Widget)) :=
  snapshot ← latest app;
  Val [(area, overview snapshot app)].

(** [.percent(p.min(100) as u16)] *)
Definition gauge (title : string) (percent : Z) (label : string) : Widget :=
  Gauge title (cast_w 16 (Z.min percent 100)) label.

Definition private_flow_gauge (snapshot : Snapshot) : Widget :=
  gauge "Private Flow" (private_flow_percent snapshot) (fmt_tenth (private_flow snapshot) +:+ "%").

Definition block_fill_gauge (snapshot : Snapshot) : Widget :=
  gauge "Next Block Fill" (next_block_fill_percent snapshot)
    (pretty (next_block_fill_percent snapshot) +:+ "%").

Definition marketable_gauge (snapshot : Snapshot) : Widget :=
  gauge "Marketable Set" (marketable_utilization snapshot)
    (pretty (marketable_count snapshot) +:+ " tracked").

Definition render_gauges (area : Rect) (app : App) : run (list (Rect * Widget)) :=
  snapshot ← latest app;
  let chunks := gauge_split area in
  first ← part chunks 0;
  second ← part chunks 1;
  third ← part chunks 2;
  Val [(first, private_flow_gauge snapshot); (second, block_fill_gauge snapshot);
       (third, marketable_gauge snapshot)].

Definition live_metrics (snapshot : Snapshot) : Widget :=
  Paragraph "Live Metrics"
    ["Base fee: " +:+ pretty (snap_base_fee snapshot);
     "Min tip next block: " +:+ pretty (min_tip snapshot);
     "Expected txs next block: " +:+ pretty (expected_txs snapshot);
     "Gas in next block set: " +:+ pretty (gas_used_for_next_block snapshot);
     "Usable capacity: " +:+ pretty (snap_capacity snapshot);
     "Last block gas used: " +:+ pretty (snap_last_block_gas_used snapshot);
     "Last block txs: " +:+ pretty (snap_last_block_txs snapshot);
     "Tracker queue depth: " +:+ pretty (marketable_count snapshot)].

Definition render_metrics (area : Rect) (app : App) : run (list (Rect * Widget)) :=
  snapshot ← latest app;
  Val [(area, live_metrics snapshot)].

(** The bars: the base fees of the last ten snapshots, cut to a u64, with
    their numbers from one. *)
Definition base_fee_bars (app : App) : list (Z * string) :=
  imap (fun index snapshot =>
      (Z.min (snap_base_fee snapshot) (max_w u64), pretty (Z.of_nat index + 1)))
    (rev (take 10 (rev (snapshots app)))).

Definition render_base_fee_chart (area : Rect) (app : App) : list (Rect * Widget) :=
  [(area, BarChart "Recent Base Fee" (base_fee_bars app))].

Definition transaction_rows (snapshot : Snapshot) (area_height : Z) : Z :=
  match ranked_rows snapshot with
  | [] => 1
  | _ => Z.max (saturating_sub area_height 2) 1
  end.

(** The title of the list: first and last row shown, of how many, and of how
    many sampled when the list is cut. *)
Definition list_title (snapshot : Snapshot) (scroll visible_rows : Z) : run string :=
  match ranked_rows snapshot with
  | [] => Val ("Ranked Pending Transactions [0 of " +:+ pretty (marketable_count snapshot) +:+ "]")
  | _ =>
      first ← add_w usize scroll 1;
      end_row ← add_w usize scroll visible_rows;
      let range := pretty first +:+ "-" +:+ pretty (Z.min end_row (rows_len snapshot)) +:+
        " of " +:+ pretty (marketable_count snapshot) in
      Val (if marketable_count snapshot >? rows_len snapshot then
             "Ranked Pending Transactions [" +:+ range +:+
             " | sampled top " +:+ pretty (rows_len snapshot) +:+ "]"
           else "Ranked Pending Transactions [" +:+ range +:+ "]")
  end.

Definition row_text (row : TxRow) : string :=
  pad_left 4 (pretty (row_nonce row)) +:+ " " +:+
  "eff " +:+ pad_left 3 (pretty (effective_fee row)) +:+ " " +:+
  "tip " +:+ pad_left 3 (pretty (priority_fee row)) +:+ " " +:+
  "max " +:+ pad_left 3 (pretty (max_fee row)) +:+ " " +:+
  "gas " +:+ pad_left 6 (pretty (row_gas_limit row)) +:+ " " +:+
  "eta " +:+ pad_left 2 (pretty (eta_blocks row)) +:+ " " +:+
  hex2 (sender_prefix row).1 +:+ hex2 (sender_prefix row).2 +:+ "..".

(** The rows from the scroll position that fit the pane. *)
Definition shown_rows (snapshot : Snapshot) (scroll visible_rows : Z) : list TxRow :=
  take (Z.to_nat visible_rows) (drop (Z.to_nat scroll) (ranked_rows snapshot)).

Definition render_top_transactions (area : Rect) (app : App) : run (App * list (Rect * Widget)) :=
  snapshot ← latest app;
  let visible_rows := transaction_rows snapshot (rect_height area) in
  app ← clamp_scroll visible_rows app;
  title ← list_title snapshot (tx_scroll app) visible_rows;
  let items :=
    match ranked_rows snapshot with
    | [] => ["No marketable transactions yet."]
    | _ => row_text <$> shown_rows snapshot (tx_scroll app) visible_rows
    end in
  Val (app, [(area, ListView title items)]).

Definition render_body (area : Rect) (app : App) : run (App * list (Rect * Widget)) :=
  let columns := body_split area in
  first ← part columns 0;
  metrics ← render_metrics first app;
  second ← part columns 1;
  let chart := render_base_fee_chart second app in
  third ← part columns 2;
  '(app, txs) ← render_top_transactions third app;
  Val (app, metrics ++ chart ++ txs).

Definition controls (app : App) : Widget :=
  Paragraph "Controls"
    [if app_duration_secs app =? 0 then
       "Up/Down or j/k scroll txs. PgUp/PgDn jump. Ctrl-C, q, or Esc quits."
     else "Timed run active. Up/Down or j/k scroll txs. Ctrl-C, q, or Esc exits early."].

Definition render_footer (area : Rect) (app : App) : list (Rect * Widget) := [(area, controls app)].

(** A drawn screen: the widgets in the order they are rendered. *)
Definition render (area : Rect) (app : App) : run (App * list (Rect * Widget)) :=
  let outer := outer_split area in
  r0 ← part outer 0;
  header ← render_header r0 app;
  r1 ← part outer 1;
  gauges ← render_gauges r1 app;
  r2 ← part outer 2;
  '(app, body) ← render_body r2 app;
  r3 ← part outer 3;
  Val (app, header ++ gauges ++ body ++ render_footer r3 app).

(** How many rows of the list an area has room for, as the keys need it. *)
Definition transaction_pane_rows (area : Rect) : run Z :=
  body ← part (outer_split area) 2;
  pane ← part (body_split body) 2;
  Val (Z.max (saturating_sub (rect_height pane) 2) 1).

End draw.

(** ** Specification *)

(** The end of a list. *)
Definition last_n {A} (n : nat) (l : list A) : list A := drop (length l - n) l.

Lemma last_n_short {A} n (l : list A) : (length l <= n)%nat -> last_n n l = l.
Proof. intros Hl. unfold last_n. by replace (length l - n)%nat with 0%nat by lia. Qed.

Lemma last_n_push {A} n (l : list A) x : last_n n (last_n n l ++ [x]) = last_n n (l ++ [x]).
Proof.
  unfold last_n. rewrite !length_app, length_drop. simpl.
  destruct (decide (length l <= n)%nat) as [Hle|Hgt].
  - by replace (length l - n)%nat with 0%nat by lia; rewrite drop_0, Nat.sub_0_r.
  - rewrite <- (drop_app_le l [x] (length l - n)%nat) by lia. rewrite drop_drop. f_equal. lia.
Qed.
(** The scroll position leaves a row of the latest snapshot in view. *)
Definition scroll_ok (app : App) : Prop :=
  0 <= tx_scroll app <= 256 /\
  match last (snapshots app) with
  | Some snapshot => tx_scroll app <= saturating_sub (rows_len snapshot) 1 /\ rows_len snapshot <= 256
  | None => tx_scroll app = 0
  end.
Section proofs.
Context `{BuildProfile}.

Lemma clamp_scroll_ok visible app snapshot :
  last (snapshots app) = Some snapshot -> rows_len snapshot <= 256 -> 0 <= tx_scroll app ->
  exists scroll, clamp_scroll visible app = Val (with_scroll scroll app) /\
    scroll_ok (with_scroll scroll app) /\ scroll <= tx_scroll app /\
    scroll <= saturating_sub (rows_len snapshot) (Z.max visible 1) /\
    (tx_scroll app <= saturating_sub (rows_len snapshot) (Z.max visible 1) -> scroll = tx_scroll app).
Proof.
  intros Hl Hr Hs. unfold clamp_scroll, max_scroll, latest. rewrite Hl. simpl.
  eexists. split; [done|]. unfold scroll_ok. simpl. rewrite Hl. unfold saturating_sub, rows_len in *. lia.
Qed.

Lemma push_snapshot_ok snapshot app seen :
  snapshots app = last_n MAX_SNAPSHOTS seen -> scroll_ok app -> rows_len snapshot <= 256 ->
  exists app', push_snapshot snapshot app = Val app' /\
    snapshots app' = last_n MAX_SNAPSHOTS (seen ++ [snapshot]) /\ scroll_ok app' /\
    last (snapshots app') = Some snapshot /\
    tx_scroll app' = Z.min (tx_scroll app) (saturating_sub (rows_len snapshot) 1).
Proof.
  intros Hsnap [Hs _] Hr. unfold push_snapshot.
  assert ((if (MAX_SNAPSHOTS <? length (snapshots app ++ [snapshot]))%nat
     then drop (length (snapshots app ++ [snapshot]) - MAX_SNAPSHOTS) (snapshots app ++ [snapshot])
     else snapshots app ++ [snapshot]) = last_n MAX_SNAPSHOTS (seen ++ [snapshot])) as ->.
  { rewrite Hsnap, <- last_n_push. destruct (Nat.ltb_spec MAX_SNAPSHOTS
      (length (last_n MAX_SNAPSHOTS seen ++ [snapshot]))); [done|].
    by rewrite (last_n_short _ (_ ++ _)). }
  assert (last (last_n MAX_SNAPSHOTS (seen ++ [snapshot])) = Some snapshot) as Hlast.
  { unfold last_n, MAX_SNAPSHOTS. rewrite length_app. simpl.
    rewrite drop_app_le by lia. by rewrite last_snoc. }
  unfold clamp_scroll, max_scroll, latest. cbn [snapshots]. rewrite Hlast. cbn [mbind run_bind].
  eexists. split; [done|]. split; [done|]. split; [|by split].
  unfold scroll_ok. simpl. rewrite Hlast. unfold saturating_sub, rows_len in *. lia.
Qed.

Lemma scroll_up_ok amount app :
  0 <= amount -> scroll_ok app ->
  scroll_ok (scroll_up amount app) /\ snapshots (scroll_up amount app) = snapshots app.
Proof.
  intros Ha [Hs Hl]. split; [|done]. unfold scroll_up, scroll_ok, saturating_sub in *. simpl.
  destruct (last (snapshots app)); lia.
Qed.

Lemma scroll_down_ok amount visible app snapshot :
  0 <= amount < 2 ^ 16 -> last (snapshots app) = Some snapshot -> scroll_ok app ->
  exists app', scroll_down amount visible app = Val app' /\ scroll_ok app' /\
    snapshots app' = snapshots app /\
    tx_scroll app' = Z.min (tx_scroll app + amount) (saturating_sub (rows_len snapshot) (Z.max visible 1)).
Proof.
  intros Ha Hl [Hs Hok]. rewrite Hl in Hok. unfold scroll_down, max_scroll, latest. rewrite Hl. simpl.
  rewrite add_w_ok by (change (2 ^ 16) with 65536 in *; word). simpl. eexists. split; [done|].
  split; [|by split]. unfold scroll_ok. simpl. rewrite Hl. unfold saturating_sub, rows_len in *. lia.
Qed.
Context `{Layout} `{!LayoutLaws}.

(** A division has the parts that are asked of it. *)
Lemma split_parts d cs r : rect_typed r ->
  forall i, (i < length cs)%nat -> exists r', part (layout_split d cs r) i = Val r' /\ rect_typed r'.
Proof.
  intros Hr i Hi. rewrite <- (split_length d cs r) in Hi.
  destruct (lookup_lt_is_Some_2 _ _ Hi) as [r' Hr']. exists r'. unfold part. rewrite Hr'.
  split; [done|]. by eapply Forall_lookup_1; [apply split_typed|].
Qed.

Lemma outer_parts area i : rect_typed area -> (i < 4)%nat ->
  exists r, part (outer_split area) i = Val r /\ rect_typed r.
Proof. intros Ha Hi. by apply split_parts. Qed.

Lemma gauge_parts area i : rect_typed area -> (i < 3)%nat ->
  exists r, part (gauge_split area) i = Val r /\ rect_typed r.
Proof. intros Ha Hi. by apply split_parts. Qed.

Lemma body_parts area i : rect_typed area -> (i < 3)%nat ->
  exists r, part (body_split area) i = Val r /\ rect_typed r.
Proof. intros Ha Hi. by apply split_parts. Qed.

Lemma latest_some app snapshot : last (snapshots app) = Some snapshot -> latest app = Val snapshot.
Proof. unfold latest. by intros ->. Qed.

(** The list shows as many rows as there are and fit; the title says which. *)
Lemma render_top_transactions_ok area app snapshot :
  rect_typed area -> last (snapshots app) = Some snapshot -> scroll_ok app ->
  let visible := Z.max (saturating_sub (rect_height area) 2) 1 in
  exists app' title items,
    render_top_transactions area app = Val (app', [(area, ListView title items)]) /\
    scroll_ok app' /\ snapshots app' = snapshots app /\
    (ranked_rows snapshot <> [] ->
      items = row_text <$> shown_rows snapshot (tx_scroll app') visible /\
      Z.of_nat (length items) = Z.min visible (rows_len snapshot) /\
      tx_scroll app' + Z.of_nat (length items) <= rows_len snapshot /\
      title = "Ranked Pending Transactions [" +:+ pretty (tx_scroll app' + 1) +:+ "-" +:+
        pretty (tx_scroll app' + Z.of_nat (length items)) +:+ " of " +:+
        pretty (marketable_count snapshot) +:+
        (if marketable_count snapshot >? rows_len snapshot
         then " | sampled top " +:+ pretty (rows_len snapshot) +:+ "]" else "]")).
Proof.
  intros [_ Hh] Hl [Hs Hok] visible. rewrite Hl in Hok.
  unfold in_range in Hh. change (2 ^ 16) with 65536 in Hh.
  assert (1 <= visible < 65536) as Hv by (unfold visible, saturating_sub; lia).
  set (vis := transaction_rows snapshot (rect_height area)).
  assert (ranked_rows snapshot <> [] -> vis = visible) as Hvis.
  { unfold vis, transaction_rows. by destruct (ranked_rows snapshot). }
  destruct (clamp_scroll_ok vis app snapshot Hl) as (scroll & Hc & Hok' & Hle & Hfit & _); [lia..|].
  assert (0 <= scroll <= 256) as Hsc.
  { destruct Hok' as [? Hok']. simpl in Hok'. rewrite Hl in Hok'. tauto. }
  unfold render_top_transactions. rewrite (latest_some _ _ Hl). cbn [mbind run_bind]. fold vis.
  rewrite Hc. cbn [mbind run_bind tx_scroll with_scroll]. unfold list_title.
  destruct (ranked_rows snapshot) as [|row rows] eqn:Hrows.
  { cbn [mbind run_bind]. eexists _, _, _. split; [done|]. split; [done|]. split; [done|]. by intros []. }
  rewrite Hvis in * by done. rewrite !add_w_ok by word. cbn [mbind run_bind].
  assert (Z.of_nat (length (shown_rows snapshot scroll visible)) = Z.min visible (rows_len snapshot) /\
    scroll + Z.min visible (rows_len snapshot) <= rows_len snapshot) as [Hlen Hsum].
  { unfold shown_rows. rewrite length_take, length_drop. unfold rows_len, saturating_sub in *.
    rewrite Hrows in *. rewrite length_cons in *. lia. }
  eexists _, _, _. split; [done|]. split; [done|]. split; [done|]. intros _.
  cbn [tx_scroll with_scroll]. split; [done|]. rewrite length_fmap, Hlen. split; [done|].
  split; [lia|].
  replace (Z.min (scroll + visible) (rows_len snapshot)) with (scroll + Z.min visible (rows_len snapshot))
    by (unfold rows_len, saturating_sub in *; rewrite Hrows in *; rewrite length_cons in *; lia).
  destruct (marketable_count snapshot >? rows_len snapshot); by rewrite !append_assoc.
Qed.

(** Drawing: eight widgets, the list in the pane whose rows
    [transaction_pane_rows] counts. *)
Lemma render_ok area app snapshot :
  rect_typed area -> last (snapshots app) = Some snapshot -> scroll_ok app ->
  exists app' pane title items rects,
    rect_typed pane /\
    transaction_pane_rows area = Val (Z.max (saturating_sub (rect_height pane) 2) 1) /\
    render_top_transactions pane app = Val (app', [(pane, ListView title items)]) /\
    render area app = Val (app', zip rects
      [overview snapshot app; private_flow_gauge snapshot; block_fill_gauge snapshot;
       marketable_gauge snapshot; live_metrics snapshot;
       BarChart "Recent Base Fee" (base_fee_bars app); ListView title items; controls app']) /\
    length rects = 8%nat.
Proof.
  intros Ha Hl Hok. pose proof (latest_some _ _ Hl) as Hlat.
  destruct (outer_parts area 0 Ha) as (r0 & E0 & _); [lia|].
  destruct (outer_parts area 1 Ha) as (r1 & E1 & T1); [lia|].
  destruct (outer_parts area 2 Ha) as (r2 & E2 & T2); [lia|].
  destruct (outer_parts area 3 Ha) as (r3 & E3 & _); [lia|].
  destruct (gauge_parts r1 0 T1) as (g0 & G0 & _); [lia|].
  destruct (gauge_parts r1 1 T1) as (g1 & G1 & _); [lia|].
  destruct (gauge_parts r1 2 T1) as (g2 & G2 & _); [lia|].
  destruct (body_parts r2 0 T2) as (b0 & B0 & _); [lia|].
  destruct (body_parts r2 1 T2) as (b1 & B1 & _); [lia|].
  destruct (body_parts r2 2 T2) as (pane & B2 & Tp); [lia|].
  destruct (render_top_transactions_ok pane app snapshot Tp Hl Hok) as (app' & title & items & Ht & _).
  exists app', pane, title, items, [r0; g0; g1; g2; b0; b1; pane; r3].
  split; [done|]. split; [|split; [done|split; [|done]]].
  - unfold transaction_pane_rows. rewrite E2. cbn [mbind run_bind]. by rewrite B2.
  - unfold render, render_header, render_gauges, render_body, render_metrics.
    rewrite E0. cbn [mbind run_bind]. rewrite Hlat. cbn [mbind run_bind].
    rewrite E1. cbn [mbind run_bind]. rewrite G0, G1, G2. cbn [mbind run_bind].
    rewrite E2. cbn [mbind run_bind]. rewrite B0, B1, B2. cbn [mbind run_bind].
    rewrite Ht. cbn [mbind run_bind]. by rewrite E3.
Qed.

(** Drawing pulls the scroll position back until the pane is full. *)
Lemma top_transactions_scroll area app snapshot app' w :
  last (snapshots app) = Some snapshot -> 0 <= tx_scroll app ->
  render_top_transactions area app = Val (app', w) ->
  tx_scroll app' = Z.min (tx_scroll app)
    (saturating_sub (rows_len snapshot) (Z.max (saturating_sub (rect_height area) 2) 1)).
Proof.
  intros Hl Hs. unfold render_top_transactions, clamp_scroll, max_scroll. rewrite (latest_some _ _ Hl).
  cbn [mbind run_bind]. destruct (list_title snapshot _ _); [|done]. cbn [mbind run_bind].
  intros [= <- _]. simpl. unfold transaction_rows, rows_len, saturating_sub.
  destruct (ranked_rows snapshot); simpl length; lia.
Qed.

(** What drawing does to the [App]. *)
Lemma drawn_ok area app snapshot :
  rect_typed area -> last (snapshots app) = Some snapshot -> scroll_ok app ->
  exists app' screen rows, render area app = Val (app', screen) /\ scroll_ok app' /\
    snapshots app' = snapshots app /\ transaction_pane_rows area = Val rows /\
    tx_scroll app' = Z.min (tx_scroll app) (saturating_sub (rows_len snapshot) rows).
Proof.
  intros Ha Hl Hok.
  destruct (render_ok area app snapshot Ha Hl Hok) as (app' & pane & t & its & rects & Tp & Hp & Ht & Hr & _).
  destruct (render_top_transactions_ok pane app snapshot Tp Hl Hok) as (app2 & t2 & is2 & Ht2 & ? & ? & _).
  rewrite Ht in Ht2. injection Ht2 as <- <- <-.
  pose proof (top_transactions_scroll pane app snapshot _ _ Hl (proj1 (proj1 Hok)) Ht) as Hscroll.
  eexists app', _, _. by repeat (split; [eassumption|]).
Qed.

End proofs.

(** ** Properties *)

(** The percentages of a snapshot are unsigned. *)
Definition percents_ok (s : Snapshot) : Prop :=
  0 <= private_flow_percent s /\ 0 <= next_block_fill_percent s /\ 0 <= marketable_utilization s.

(** A gauge is cut to 100 percent, more than which Ratatui refuses. *)
Lemma gauge_bound title percent label :
  0 <= percent -> exists p, gauge title percent label = Gauge title p label /\ 0 <= p <= 100.
Proof.
  intros Hp. eexists. split; [done|]. unfold cast_w. change (2 ^ 16) with 65536.
  rewrite Z.mod_small by lia. lia.
Qed.

Lemma length_base_fee_bars app : length (base_fee_bars app) = Nat.min 10 (length (snapshots app)).
Proof.
  unfold base_fee_bars. by rewrite length_imap, length_rev, length_take, length_rev.
Qed.

(** The last bar is the base fee of the latest snapshot. *)
Lemma last_base_fee_bar app snapshot :
  last (snapshots app) = Some snapshot ->
  last (base_fee_bars app) =
    Some (Z.min (snap_base_fee snapshot) (max_w u64), pretty (Z.of_nat (length (base_fee_bars app)))).
Proof.
  intros Hl. destruct (proj1 (last_Some _ _) Hl) as [l Hs]. rewrite length_base_fee_bars.
  unfold base_fee_bars. rewrite Hs, rev_app_distr.
  change (rev [snapshot] ++ rev l) with (snapshot :: rev l). rewrite firstn_cons. cbn [rev].
  rewrite imap_app. cbn [imap]. rewrite last_snoc, length_rev, length_take, length_rev, length_app.
  change (length [snapshot]) with 1%nat. unfold compose. do 3 f_equal. lia.
Qed.

(** C37: in every terminal a screen is drawn without panic and without touching
    the snapshots: eight widgets, the gauges within the 100 percent that
    Ratatui accepts, at most ten bars of which the last is the current base
    fee cut to a u64, and a list with as many ranked transactions as there are
    and fit the rows that the keys scroll by, from the scroll position on,
    which its title announces. *)
Theorem render_spec `{BuildProfile} `{LayoutLaws} area app snapshot :
  rect_typed area -> last (snapshots app) = Some snapshot -> scroll_ok app -> percents_ok snapshot ->
  exists app' screen rows,
    render area app = Val (app', screen) /\ length screen = 8%nat /\
    transaction_pane_rows area = Val rows /\
    scroll_ok app' /\ snapshots app' = snapshots app /\
    (forall r title p label, (r, Gauge title p label) ∈ screen -> 0 <= p <= 100) /\
    (forall r title bars, (r, BarChart title bars) ∈ screen ->
      length bars = Nat.min 10 (length (snapshots app)) /\
      last bars = Some (Z.min (snap_base_fee snapshot) (max_w u64), pretty (Z.of_nat (length bars)))) /\
    (forall r title items, ranked_rows snapshot <> [] -> (r, ListView title items) ∈ screen ->
      items = row_text <$> shown_rows snapshot (tx_scroll app') rows /\
      Z.of_nat (length items) = Z.min rows (rows_len snapshot) /\
      tx_scroll app' + Z.of_nat (length items) <= rows_len snapshot /\
      title = "Ranked Pending Transactions [" +:+ pretty (tx_scroll app' + 1) +:+ "-" +:+
        pretty (tx_scroll app' + Z.of_nat (length items)) +:+ " of " +:+
        pretty (marketable_count snapshot) +:+
        (if marketable_count snapshot >? rows_len snapshot
         then " | sampled top " +:+ pretty (rows_len snapshot) +:+ "]" else "]")).
Proof.
  intros Ha Hl Hok (Hp1 & Hp2 & Hp3).
  destruct (render_ok area app snapshot Ha Hl Hok) as (app' & pane & title & items & rects & Tp & Hrows & Ht & Hr & Hlen).
  destruct (render_top_transactions_ok pane app snapshot Tp Hl Hok)
    as (app2 & title2 & items2 & Ht2 & Hok' & Hsn & Hshow).
  rewrite Ht in Ht2. injection Ht2 as <- <- <-.
  destruct (gauge_bound "Private Flow" _ (fmt_tenth (private_flow snapshot) +:+ "%") Hp1) as (p1 & G1 & B1).
  destruct (gauge_bound "Next Block Fill" _ (pretty (next_block_fill_percent snapshot) +:+ "%") Hp2)
    as (p2 & G2 & B2).
  destruct (gauge_bound "Marketable Set" _ (pretty (marketable_count snapshot) +:+ " tracked") Hp3)
    as (p3 & G3 & B3).
  unfold private_flow_gauge, block_fill_gauge, marketable_gauge in Hr. rewrite G1, G2, G3 in Hr.
  eexists app', _, _. split; [exact Hr|]. split; [by rewrite length_zip, Hlen|].
  split; [exact Hrows|]. split; [done|]. split; [done|].
  split; [|split].
  - intros r t p label Hin. apply elem_of_zip_r in Hin. rewrite !elem_of_cons, elem_of_nil in Hin.
    by naive_solver.
  - intros r t bars Hin. apply elem_of_zip_r in Hin. rewrite !elem_of_cons, elem_of_nil in Hin.
    assert (bars = base_fee_bars app) as -> by (by naive_solver).
    split; [apply length_base_fee_bars|]. by apply last_base_fee_bar.
  - intros r t its Hne Hin. apply elem_of_zip_r in Hin. rewrite !elem_of_cons, elem_of_nil in Hin.
    assert (t = title /\ its = items) as [-> ->] by (by naive_solver). by apply Hshow.
Qed.

Section witnesses.
#[local] Instance view_ci_checks : BuildProfile := true.

(** A layout that gives every part the whole area. *)
#[local] Instance whole_area : Layout := fun _ cs r => replicate (length cs) r.

#[local] Instance whole_area_laws : LayoutLaws.
Proof. split; intros; [apply length_replicate|by apply Forall_replicate]. Qed.

Definition view_row (n : Z) : TxRow := MkTxRow n 5 5 50 21000 0 (1, 255).
Definition view_snapshot (fee : Z) (rows : nat) : Snapshot :=
  MkSnapshot 1 fee (f64_of_Z 20) 20 1 1 21000 27000000 0 300 58 1 1 1 21000
    (view_row <$> seqZ 0 (Z.of_nat rows)).

Definition small_terminal : Rect := MkRect 0 0 40 4.

Example list_drawn :
  match render small_terminal (MkApp 0 [view_snapshot 9 8] 7) with
  | Val (_, screen) => (small_terminal, ListView
      "Ranked Pending Transactions [7-8 of 300 | sampled top 8]"
      ["   6 eff   5 tip   5 max  50 gas  21000 eta  0 01ff..";
       "   7 eff   5 tip   5 max  50 gas  21000 eta  0 01ff.."]) ∈ screen
  | Panic _ => False
  end.
Proof. vm_compute. by repeat constructor. Qed.

Lemma render_spec_witness :
  exists app' screen, render small_terminal (MkApp 0 [view_snapshot 9 8] 2) = Val (app', screen) /\
    length screen = 8%nat /\ scroll_ok app'.
Proof.
  destruct (render_spec small_terminal (MkApp 0 [view_snapshot 9 8] 2) (view_snapshot 9 8))
    as (app' & screen & rows & H1 & H2 & _ & H3 & _).
  - split; vm_compute; split; congruence.
  - reflexivity.
  - split; [simpl; lia|]. vm_compute. split; discriminate.
  - repeat split; vm_compute; congruence.
  - exists app', screen. split; [exact H1|]. split; [exact H2|exact H3].
Defined.
End witnesses.
