(* ===== verification/CliApp.v ===== *)
(** * The loop of the terminal view ([crates/mempooloracle/examples/cli_tool.rs])

    The loop of [run_app] over the view of CliView.v.  What a round of the
    loop reads (the flag, the clock, the area and the size of the terminal,
    the key) and the outcome of its [Snapshot::capture], a snapshot or a panic,
    is an [AppRound]. *)

From stdpp Require Import strings.
From S2P Require Import Prelude Prog Float64 Mempool CliSnapshot CliLoops CliView.

(** ** [run_app] *)

Inductive KeyCode := CharKey (c : string) | EscKey | UpKey | DownKey | PageUpKey | PageDownKey | OtherKey.

Record KeyEvent := MkKey { code : KeyCode; is_press : bool; control : bool }.

Inductive TerminalEvent := KeyPressed (key : KeyEvent) | OtherTerminalEvent.

(** What one round reads: [draw_error] and the errors in [polled_event] and
    [terminal_size] are those of the terminal; [polled_event] is the event
    within 100 ms, if any; [frame_area] is the area that is drawn. *)
Record AppRound := MkAppRound {
  stop_set : bool;
  round_now : Z;
  captured : run Snapshot;
  frame_area : Rect;
  draw_error : option string;
  polled_event : result (option TerminalEvent) string;
  terminal_size : result (Z * Z) string;
}.

Section run_app.
Context `{BuildProfile} `{Layout}.

Definition is_quit (key : KeyEvent) : bool :=
  match code key with
  | EscKey => true
  | CharKey c => String.eqb c "q" || (String.eqb c "c" && control key)
  | _ => false
  end.

Definition handle_key (key : KeyEvent) (rows : Z) (app : App) : run App :=
  match code key with
  | UpKey => Val (scroll_up 1 app)
  | DownKey => scroll_down 1 rows app
  | PageUpKey => Val (scroll_up (Z.max rows 1) app)
  | PageDownKey => scroll_down (Z.max rows 1) rows app
  | CharKey c =>
      if String.eqb c "k" then Val (scroll_up 1 app)
      else if String.eqb c "j" then scroll_down 1 rows app
      else Val app
  | _ => Val app
  end.

(** Whether the loop goes on with the new [App], or what [run_app] returns. *)
Definition app_round (deadline : option Z) (round : AppRound) (app : App)
    : run (App * option (result unit string)) :=
  if stop_set round then Val (app, Some (Ok tt))
  else if match deadline with Some d => d <=? round_now round | None => false end then
    Val (app, Some (Ok tt))
  else
    snapshot ← captured round;
    app ← push_snapshot snapshot app;
    '(app, _) ← render (frame_area round) app;
    match draw_error round, polled_event round with
    | Some e, _ | None, Err e => Val (app, Some (Err e))
    | None, Ok (Some (KeyPressed key)) =>
        if negb (is_press key) then Val (app, None)
        else
          match terminal_size round with
          | Err e => Val (app, Some (Err e))
          | Ok (width, height) =>
              list_rows ← transaction_pane_rows (MkRect 0 0 width height);
              if is_quit key then Val (app, Some (Ok tt))
              else app ← handle_key key list_rows app; Val (app, None)
          end
    | None, Ok _ => Val (app, None)
    end.

(** The rounds of the loop; [None] while it is still running. *)
Fixpoint app_loop (deadline : option Z) (rounds : list AppRound) (app : App)
    : run (App * option (result unit string)) :=
  match rounds with
  | [] => Val (app, None)
  | round :: rounds =>
      went ← app_round deadline round app;
      match went with
      | (app, None) => app_loop deadline rounds app
      | (app, Some r) => Val (app, Some r)
      end
  end.

Definition run_app (duration_secs started_at : Z) (rounds : list AppRound)
    : run (App * option (result unit string)) :=
  deadline ← deadline_of duration_secs started_at;
  app_loop deadline rounds (App_new duration_secs).

End run_app.

(** ** Specification *)

#[export] Instance KeyCode_eq_dec : EqDecision KeyCode.
Proof. solve_decision. Defined.

(** The keys that quit: q, Esc and Ctrl-C. *)
Definition quits (key : KeyEvent) : bool :=
  bool_decide (code key = CharKey "q" \/ code key = EscKey \/ (code key = CharKey "c" /\ control key = true)).

(** How far a key moves the list, up being negative: the arrows and k, j by a
    row, the page keys by a pane. *)
Definition key_move (rows : Z) (key : KeyEvent) : Z :=
  if decide (code key = UpKey \/ code key = CharKey "k") then -1
  else if decide (code key = DownKey \/ code key = CharKey "j") then 1
  else if decide (code key = PageUpKey) then - rows
  else if decide (code key = PageDownKey) then rows
  else 0.

(** The position after a move among [len] rows: not above the first row, and
    a move down not past the last full pane. *)
Definition moved (len rows scroll move : Z) : Z :=
  if decide (move < 0) then Z.max 0 (scroll + move)
  else if decide (0 < move) then Z.min (scroll + move) (saturating_sub len rows)
  else scroll.

(** The key that a round obeys, with the rows of the pane. *)
Definition obeyed `{BuildProfile} `{Layout} (round : AppRound) : option (KeyEvent * Z) :=
  match draw_error round, polled_event round, terminal_size round with
  | None, Ok (Some (KeyPressed key)), Ok (width, height) =>
      match is_press key, transaction_pane_rows (MkRect 0 0 width height) with
      | true, Val rows => Some (key, rows)
      | _, _ => None
      end
  | _, _, _ => None
  end.

Section spec.
Context `{BuildProfile} `{Layout} (deadline : option Z).

(** The flag or the deadline ends the loop before the round does anything. *)
Definition over (round : AppRound) : bool :=
  stop_set round || match deadline with Some d => d <=? round_now round | None => false end.

(** How a round ends the loop, if it does. *)
Definition round_ends (round : AppRound) : option (run (result unit string)) :=
  if over round then Some (Val (Ok tt))
  else match captured round, draw_error round, polled_event round, terminal_size round with
       | Panic p, _, _, _ => Some (Panic p)
       | _, Some e, _, _ => Some (Val (Err e))
       | _, _, Err e, _ => Some (Val (Err e))
       | _, _, Ok (Some (KeyPressed key)), size =>
           if negb (is_press key) then None
           else match size with
                | Err e => Some (Val (Err e))
                | Ok _ => if quits key then Some (Val (Ok tt)) else None
                end
       | _, _, _, _ => None
       end.

(** The first round that ends the loop. *)
Fixpoint first_end (rounds : list AppRound) : option (run (result unit string)) :=
  match rounds with
  | [] => None
  | round :: rounds => match round_ends round with None => first_end rounds | Some r => Some r end
  end.

(** The snapshot that a round captures. *)
Definition round_snapshot (round : AppRound) : option Snapshot :=
  if over round then None else match captured round with Val snapshot => Some snapshot | Panic _ => None end.

(** The snapshots captured: by all rounds before the end, and by the last one
    unless the flag or the deadline ended it. *)
Fixpoint history (rounds : list AppRound) : list Snapshot :=
  match rounds with
  | [] => []
  | round :: rounds =>
      option_list (round_snapshot round) ++
      match round_ends round with None => history rounds | Some _ => [] end
  end.

(** The position after a round: cut to the last full pane of the snapshot
    drawn, then moved by the key. *)
Definition round_scroll (round : AppRound) (scroll : Z) : Z :=
  match round_snapshot round, transaction_pane_rows (frame_area round) with
  | Some snapshot, Val drawn =>
      let scroll := Z.min scroll (saturating_sub (rows_len snapshot) drawn) in
      match obeyed round with
      | Some (key, rows) => moved (rows_len snapshot) rows scroll (key_move rows key)
      | None => scroll
      end
  | _, _ => scroll
  end.

Fixpoint scroll_after (rounds : list AppRound) (scroll : Z) : Z :=
  match rounds with
  | [] => scroll
  | round :: rounds =>
      match round_ends round with
      | None => scroll_after rounds (round_scroll round scroll)
      | Some _ => round_scroll round scroll
      end
  end.

(** What a loop that has come to an end, or not, gives. *)
Definition ended (r : option (run (result unit string))) (app : App)
    : run (App * option (result unit string)) :=
  match r with
  | None => Val (app, None)
  | Some (Val r) => Val (app, Some r)
  | Some (Panic p) => Panic p
  end.

End spec.

(** Sizes as the terminal and [Snapshot::capture] give them. *)
Record round_sane (round : AppRound) : Prop := {
  sane_rows : forall snapshot, captured round = Val snapshot -> rows_len snapshot <= 256;
  sane_area : rect_typed (frame_area round);
  sane_size : forall width height, terminal_size round = Ok (width, height) ->
    in_range 16 width /\ in_range 16 height;
}.

Section proofs.
Context `{BuildProfile} `{Layout} `{!LayoutLaws}.

Lemma is_quit_quits key : is_quit key = quits key.
Proof.
  unfold is_quit, quits. destruct key as [[c| | | | | |] press ctrl]; cbn [code control];
    case_bool_decide; try naive_solver.
  all: destruct (String.eqb_spec c "q"), (String.eqb_spec c "c"), ctrl; naive_solver.
Qed.

Lemma quits_still rows key : quits key = true -> key_move rows key = 0.
Proof.
  unfold quits. rewrite bool_decide_eq_true. intros Hq. destruct key as [c press ctrl].
  cbn [code control] in Hq. destruct Hq as [->|[->|[-> _]]]; reflexivity.
Qed.

Lemma moved_up len rows scroll n : 0 < n -> moved len rows scroll (- n) = saturating_sub scroll n.
Proof. intros Hn. unfold moved, saturating_sub. rewrite decide_True by lia. f_equal. Qed.

Lemma moved_down len rows scroll n :
  0 < n -> moved len rows scroll n = Z.min (scroll + n) (saturating_sub len rows).
Proof. intros Hn. unfold moved. by rewrite decide_False, decide_True by lia. Qed.

(** A letter moves the list when it is k or j. *)
Lemma char_move rows c press ctrl :
  key_move rows (MkKey (CharKey c) press ctrl) =
    if String.eqb c "k" then -1 else if String.eqb c "j" then 1 else 0.
Proof.
  destruct (String.eqb_spec c "k") as [->|Hk]; [done|].
  destruct (String.eqb_spec c "j") as [->|Hj]; [done|].
  unfold key_move. cbn [code]. rewrite !decide_False; [done|..]; intros ?; intuition congruence.
Qed.

(** A key does to the scroll position what its table says. *)
Lemma handle_key_ok key rows app snapshot :
  1 <= rows < 2 ^ 16 -> last (snapshots app) = Some snapshot -> scroll_ok app ->
  exists app', handle_key key rows app = Val app' /\ scroll_ok app' /\ snapshots app' = snapshots app /\
    tx_scroll app' = moved (rows_len snapshot) rows (tx_scroll app) (key_move rows key).
Proof.
  intros Hr Hl Hok. change (2 ^ 16) with 65536 in *.
  assert (forall n, 0 < n -> exists app', Val (scroll_up n app) = Val app' /\ scroll_ok app' /\
    snapshots app' = snapshots app /\
    tx_scroll app' = moved (rows_len snapshot) rows (tx_scroll app) (- n)) as Hup.
  { intros n Hn. rewrite moved_up by done. eexists. split; [done|]. split; [|by split].
    apply scroll_up_ok; [lia|done]. }
  assert (forall n, 0 < n < 65536 -> exists app', scroll_down n rows app = Val app' /\ scroll_ok app' /\
    snapshots app' = snapshots app /\
    tx_scroll app' = moved (rows_len snapshot) rows (tx_scroll app) n) as Hdown.
  { intros n Hn. rewrite moved_down by lia.
    pose proof (scroll_down_ok n rows app snapshot ltac:(change (2 ^ 16) with 65536; lia) Hl Hok) as Hd.
    by rewrite (Z.max_l rows 1) in Hd by lia. }
  unfold handle_key. rewrite Z.max_l by lia.
  destruct key as [[c| | | | | |] press ctrl]; cbn [code]; [rewrite char_move|..].
  - destruct (String.eqb c "k"); [by apply (Hup 1)|]. destruct (String.eqb c "j"); [by apply Hdown|].
    by exists app.
  - by exists app.
  - by apply (Hup 1).
  - by apply (Hdown 1).
  - apply (Hup rows). lia.
  - apply (Hdown rows). lia.
  - by exists app.
Qed.

Lemma pane_rows_ok area : rect_typed area ->
  exists rows, transaction_pane_rows area = Val rows /\ 1 <= rows < 2 ^ 16.
Proof.
  intros Ha. destruct (outer_parts area 2 Ha) as (r & E & T); [lia|].
  destruct (body_parts r 2 T) as (pane & E2 & [_ Tp]); [lia|].
  unfold transaction_pane_rows. rewrite E. cbn [mbind run_bind]. rewrite E2. cbn [mbind run_bind].
  eexists. split; [done|]. unfold in_range, saturating_sub in *. change (2 ^ 16) with 65536 in *. lia.
Qed.

(** One round of the loop, and the rest of it. *)
Lemma app_round_ok deadline round app seen :
  round_sane round -> snapshots app = last_n MAX_SNAPSHOTS seen -> scroll_ok app ->
  exists app', app_round deadline round app = ended (round_ends deadline round) app' /\
    snapshots app' = last_n MAX_SNAPSHOTS (seen ++ option_list (round_snapshot deadline round)) /\
    tx_scroll app' = round_scroll deadline round (tx_scroll app) /\ scroll_ok app'.
Proof.
  intros [Hr Ha Hsize] Hsnap Hok. pose proof (proj1 (proj1 Hok)) as Hpos.
  unfold app_round, round_ends, round_scroll, round_snapshot, over.
  destruct (stop_set round); simpl; [exists app; by rewrite app_nil_r|].
  destruct (match deadline with Some d => d <=? round_now round | None => false end); simpl;
    [exists app; by rewrite app_nil_r|].
  destruct (captured round) as [snapshot|p]; [|exists app; simpl; by rewrite app_nil_r].
  cbn [mbind run_bind].
  destruct (push_snapshot_ok snapshot app seen Hsnap Hok) as (app1 & -> & Hs1 & Hok1 & Hl1 & Hsc1);
    [by apply Hr|].
  cbn [mbind run_bind].
  destruct (drawn_ok (frame_area round) app1 _ Ha Hl1 Hok1)
    as (app2 & screen & drawn & -> & Hok2 & Hs2 & Hdrawn & Hsc2).
  destruct (pane_rows_ok (frame_area round) Ha) as (n & Hn & Hn1). rewrite Hn in Hdrawn.
  injection Hdrawn as <-. rewrite Hn. cbn [mbind run_bind].
  change (option_list (Some snapshot)) with [snapshot]. rewrite <- Hs1, <- Hs2.
  assert (tx_scroll app2 = Z.min (tx_scroll app) (saturating_sub (rows_len snapshot) n)) as Hsc
    by (unfold saturating_sub in *; lia).
  rewrite <- Hsc. unfold obeyed.
  destruct (draw_error round); [by exists app2|].
  destruct (polled_event round) as [[[key|]|]|]; [|by exists app2..].
  destruct (terminal_size round) as [[width height]|] eqn:Ht; destruct (is_press key); cbn [negb];
    [|by exists app2..].
  destruct (pane_rows_ok (MkRect 0 0 width height)) as (rows & -> & Hrows); [by apply Hsize|].
  cbn [mbind run_bind]. rewrite is_quit_quits. destruct (quits key) eqn:Hq.
  { rewrite (quits_still rows key Hq). by exists app2. }
  destruct (handle_key_ok key rows app2 snapshot) as (app3 & -> & Hok3 & Hs3 & Hsc3);
    [done|by rewrite Hs2|done|]. cbn [mbind run_bind]. by exists app3.
Qed.

Lemma app_loop_ok deadline rounds app seen :
  Forall round_sane rounds -> snapshots app = last_n MAX_SNAPSHOTS seen -> scroll_ok app ->
  exists app', app_loop deadline rounds app = ended (first_end deadline rounds) app' /\
    snapshots app' = last_n MAX_SNAPSHOTS (seen ++ history deadline rounds) /\
    tx_scroll app' = scroll_after deadline rounds (tx_scroll app) /\ scroll_ok app'.
Proof.
  intros Hr. revert app seen. induction Hr as [|round rounds Hround _ IH]; intros app seen Hs Hok.
  { exists app. simpl. by rewrite app_nil_r. }
  destruct (app_round_ok deadline round app seen Hround Hs Hok) as (app1 & Hrun & Hs1 & Hsc1 & Hok1).
  cbn [app_loop first_end history scroll_after]. rewrite Hrun, <- Hsc1.
  destruct (round_ends deadline round) as [[r|p]|]; cbn [ended mbind run_bind];
    [exists app1; by rewrite app_nil_r..|].
  rewrite app_assoc. by apply IH.
Qed.

Lemma App_new_ok duration_secs :
  snapshots (App_new duration_secs) = last_n MAX_SNAPSHOTS [] /\ scroll_ok (App_new duration_secs).
Proof. split; [done|]. split; simpl; lia. Qed.

End proofs.

(** ** Properties *)

(** C38: whatever the keys, the sizes of the terminal and the captures, of at
    most 256 rows, [run_app] panics at its start when the deadline is out of
    the clock's range, and else only with the panic of a capture.  It returns
    at the first round in which the flag is set, the deadline has passed, q,
    Esc or Ctrl-C is pressed, or the terminal fails, with the error of the
    terminal or [Ok].  The view holds the last 60 snapshots captured, oldest
    first, and its scroll position is what the arrows, j and k, by a row, and
    the page keys, by a pane, make of it within the list. *)
Theorem run_app_spec `{BuildProfile} `{LayoutLaws} duration_secs started_at rounds :
  0 <= duration_secs -> Forall round_sane rounds ->
  (0 < duration_secs -> INSTANT_LIMIT <= started_at + duration_secs * SECS ->
    run_app duration_secs started_at rounds = Panic Overflow) /\
  (started_at + duration_secs * SECS < INSTANT_LIMIT \/ duration_secs = 0 ->
    let deadline := if 0 <? duration_secs then Some (started_at + duration_secs * SECS) else None in
    exists app,
      run_app duration_secs started_at rounds =
        match first_end deadline rounds with
        | None => Val (app, None)
        | Some (Val r) => Val (app, Some r)
        | Some (Panic p) => Panic p
        end /\
      snapshots app = last_n MAX_SNAPSHOTS (history deadline rounds) /\
      tx_scroll app = scroll_after deadline rounds 0 /\ scroll_ok app).
Proof.
  intros Hd Hr. split.
  - intros Hpos Hlim. unfold run_app. by rewrite long_duration_panics.
  - intros Hlim deadline. unfold run_app. assert (deadline_of duration_secs started_at = Val deadline) as ->.
    { unfold deadline_of, instant_add_secs, deadline. rewrite Z.gtb_ltb.
      destruct (Z.ltb_spec 0 duration_secs); [|done].
      by destruct (Z.ltb_spec (started_at + duration_secs * SECS) INSTANT_LIMIT); [|lia]. }
    cbn [mbind run_bind]. destruct (App_new_ok duration_secs) as [Hs Hok].
    destruct (app_loop_ok deadline rounds _ [] Hr Hs Hok) as (app & Hrun & Hview).
    exists app. by split.
Qed.

(** A timed [run_app] is over by its deadline: as soon as a round starts
    at or after it, or finds the flag set, the loop has ended, in that
    round or before it. *)
Theorem run_app_terminates `{BuildProfile} `{LayoutLaws} duration_secs started_at before round after :
  0 < duration_secs -> started_at + duration_secs * SECS < INSTANT_LIMIT ->
  Forall round_sane (before ++ round :: after) ->
  stop_set round = true \/ started_at + duration_secs * SECS <= round_now round ->
  run_app duration_secs started_at (before ++ round :: after) =
    run_app duration_secs started_at (before ++ [round]) /\
  forall app, run_app duration_secs started_at (before ++ [round]) <> Val (app, None).
Proof.
  intros Hpos Hlim Hr Hround. set (d := started_at + duration_secs * SECS) in *.
  assert (deadline_of duration_secs started_at = Val (Some d)) as Hd.
  { unfold deadline_of, instant_add_secs. fold d. destruct (Z.gtb_spec duration_secs 0); [|lia].
    destruct (Z.ltb_spec d INSTANT_LIMIT); [done|lia]. }
  assert (round_ends (Some d) round = Some (Val (Ok tt))) as Hend.
  { unfold round_ends, over. destruct Hround as [->|Hle]; [done|].
    destruct (stop_set round); [done|]. destruct (Z.leb_spec d (round_now round)); [done|lia]. }
  unfold run_app. rewrite Hd. cbn [mbind run_bind].
  destruct (App_new_ok duration_secs) as [Hs Hok]. revert Hs Hok.
  generalize (App_new duration_secs), (@nil Snapshot).
  apply Forall_app in Hr as [Hb Hr]. inversion_clear Hr as [|? ? Hro _].
  induction Hb as [|b bs Hb _ IH]; intros app seen Hs Hok; cbn [Datatypes.app app_loop].
  - destruct (app_round_ok (Some d) round app seen Hro Hs Hok) as (app1 & -> & _). by rewrite Hend.
  - destruct (app_round_ok (Some d) b app seen Hb Hs Hok) as (app1 & -> & Hs1 & _ & Hok1).
    destruct (round_ends (Some d) b) as [[r|p]|]; [done..|]. cbn [ended mbind run_bind]. by eapply IH.
Qed.

Section witnesses.
#[local] Instance app_ci_checks : BuildProfile := true.
#[local] Existing Instances whole_area whole_area_laws.

Definition press (c : KeyCode) : option TerminalEvent := Some (KeyPressed (MkKey c true false)).
Definition demo_round_of (now : Z) (event : option TerminalEvent) : AppRound :=
  MkAppRound false now (Val (view_snapshot now 8)) (MkRect 0 0 80 5) None (Ok event) (Ok (80, 5)).

Lemma demo_round_sane now event : round_sane (demo_round_of now event).
Proof.
  split; [by intros snapshot [= <-]; vm_compute|by vm_compute|]. intros width height [= <- <-]. by vm_compute.
Qed.

(** Page down twice, up once, and quit. *)
Definition demo_keys : list AppRound :=
  [demo_round_of 0 (press PageDownKey); demo_round_of 1 (press PageDownKey);
   demo_round_of 2 (press UpKey); demo_round_of 3 (press (CharKey "q")); demo_round_of 4 None].

Example demo_keys_scroll :
  match run_app 0 0 demo_keys with
  | Val (app, r) => tx_scroll app = 4 /\ length (snapshots app) = 4%nat /\ r = Some (Ok tt)
  | Panic _ => False
  end.
Proof. vm_compute. done. Qed.

Lemma run_app_spec_witness :
  exists app, run_app 0 0 demo_keys = Val (app, Some (Ok tt)) /\ tx_scroll app = 4 /\ scroll_ok app.
Proof.
  destruct (run_app_spec 0 0 demo_keys) as [_ Hrun].
  - lia.
  - repeat (constructor; [apply demo_round_sane|]). constructor.
  - destruct Hrun as (app & H1 & _ & H2 & H3); [right; reflexivity|].
    exists app. split; [exact H1|]. split; [rewrite H2; vm_compute; reflexivity|exact H3].
Defined.

Lemma run_app_terminates_witness :
  run_app 1 0 ([demo_round_of 0 None] ++ [demo_round_of SECS None]) =
    run_app 1 0 ([demo_round_of 0 None] ++ [demo_round_of SECS None]) /\
  forall app, run_app 1 0 ([demo_round_of 0 None] ++ [demo_round_of SECS None]) <> Val (app, None).
Proof.
  apply (run_app_terminates 1 0 [demo_round_of 0 None] (demo_round_of SECS None) []).
  - lia.
  - vm_compute. reflexivity.
  - repeat (constructor; [apply demo_round_sane|]). constructor.
  - right. vm_compute. discriminate.
Defined.
End witnesses.
