(* ===== verification/Simulation.v ===== *)
(** * The simulated chain of the command-line tool ([crates/mempooloracle/examples/cli_tool.rs])

    [simulate_blockchain] feeds the tracker with ten transactions of one
    account and, five seconds later, a block that includes the first five of
    them.  It is a program whose events are those of the timed loops
    (CliLoops.v), the sends on the channel to the tracker and the updates of
    the telemetry, which only this thread writes. *)

From stdpp Require Import gmap sorting.
From S2P Require Import Prelude Prog Float64 OrdSet Mempool MempoolInv MempoolProps MempoolSpec.
From S2P Require Import CliSnapshot CliLoops.

Inductive SimE : Type -> Type :=
  | SLoop (X : Type) (e : LoopE X) : SimE X
  | SSend (event : MempoolEvent) : SimE bool        (* false when the receiver is gone *)
  | SPublish (telemetry : Telemetry) : SimE unit.

(** [[b; n]] as a big-endian number. *)
Definition repeat_byte (b : Z) (n : Z) : Z := b * ((256 ^ n - 1) / 255).

Definition sim_sender : Z := repeat_byte 1 20.

Definition sim_tx (nonce : Z) : PendingTx :=
  {| id := repeat_byte (cast_w 8 nonce) 32;
     sender := sim_sender;
     nonce := nonce;
     max_fee_per_gas := 15 + nonce mod 10;
     max_priority_fee_per_gas := 1 + nonce mod 5;
     gas_limit := 21000 |}.

(** The local variables of the thread. *)
Record SimState := MkSim { s_nonce : Z; s_block_number : Z; s_telemetry : Telemetry }.

Definition BLOCK_TX_COUNT : Z := 5.

Section simulate.
Context `{BuildProfile}.

Definition count_pending (t : Telemetry) : run Telemetry :=
  seen ← add_w u64 (t_pending_seen t) 1;
  Val (MkCliTelemetry seen (t_block_count t) (t_last_block_txs t) (t_last_block_gas_used t)).

(** The loop [for _ in 0..10], [k] of its rounds; [None] when the thread
    returns. *)
Fixpoint send_pending (k : nat) (st : SimState) : Prog SimE (option SimState) :=
  match k with
  | O => Ret (Some st)
  | S k =>
      stop ← trigger (SLoop _ LoadStop);
      if stop : bool then Ret None
      else
        ok ← trigger (SSend (PendingTransaction (sim_tx (s_nonce st))));
        if ok : bool then
          telemetry ← lift (count_pending (s_telemetry st));
          trigger (SPublish telemetry);;
          nonce ← lift (add_w u64 (s_nonce st) 1);
          send_pending k (MkSim nonce (s_block_number st) telemetry)
        else Ret None
  end.

(** The iterator [(0..block_tx_count).map(...)]. *)
Fixpoint included_from (nonce : Z) (offsets : list Z) : run (list PendingTx) :=
  match offsets with
  | [] => Val []
  | i :: offsets =>
      first ← sub_w u64 nonce 10;
      tx_nonce ← add_w u64 first i;
      rest ← included_from nonce offsets;
      Val (sim_tx tx_nonce :: rest)
  end.

(** The update for the next block and the telemetry that is published. *)
Definition next_block (st : SimState) : run (BlockUpdate * Telemetry) :=
  included ← included_from (s_nonce st) (seqZ 0 BLOCK_TX_COUNT);
  blocks ← add_w u64 (s_block_number st) 1;
  gas ← mul_w u64 21000 BLOCK_TX_COUNT;
  Val ({| included_txs := included; new_base_fee := 10 + s_block_number st mod 5;
          gas_used := gas; block_gas_limit := 30000000 |},
       MkCliTelemetry (t_pending_seen (s_telemetry st)) blocks (Z.of_nat (length included)) gas).

(** One round of the [while] loop. *)
Definition simulate_round (st : SimState) : Prog SimE (option SimState) :=
  stop ← trigger (SLoop _ LoadStop);
  if stop : bool then Ret None
  else
    sent ← send_pending 10 st;
    match sent with
    | None => Ret None
    | Some st =>
        stopped ← embed SLoop (should_stop_for (rounds_for (5 * SECS)) (5 * SECS));
        if stopped : bool then Ret None
        else
          made ← lift (next_block st);
          let '(block, telemetry) := made in
          trigger (SPublish telemetry);;
          ok ← trigger (SSend (NewBlock block));
          if ok : bool then
            number ← lift (add_w u64 (s_block_number st) 1);
            Ret (Some (MkSim (s_nonce st) number telemetry))
          else Ret None
    end.

(** [simulate_blockchain], for at most [rounds] blocks; [Some] when it is
    still running after them. *)
Fixpoint simulate_from (rounds : nat) (st : SimState) : Prog SimE (option SimState) :=
  match rounds with
  | O => Ret (Some st)
  | S rounds =>
      went ← simulate_round st;
      match went with
      | None => Ret None
      | Some st => simulate_from rounds st
      end
  end.

Definition simulate_blockchain (rounds : nat) : Prog SimE (option SimState) :=
  simulate_from rounds (MkSim 0 0 Telemetry_default).

End simulate.

(** ** Specification *)

Definition sim_block (r : Z) : BlockUpdate :=
  {| included_txs := sim_tx <$> seqZ (10 * r) 5; new_base_fee := 10 + r mod 5;
     gas_used := 105000; block_gas_limit := 30000000 |}.

Definition round_events (r : Z) : list MempoolEvent :=
  (PendingTransaction ∘ sim_tx <$> seqZ (10 * r) 10) ++ [NewBlock (sim_block r)].

(** The events of the first [n] rounds. *)
Definition sim_stream (n : nat) : list MempoolEvent := seqZ 0 (Z.of_nat n) ≫= round_events.

Definition is_pending (e : MempoolEvent) : bool :=
  match e with PendingTransaction _ => true | NewBlock _ => false end.

Definition pending_sent (l : list MempoolEvent) : Z := Z.of_nat (length (filter is_pending l)).
Definition blocks_sent (l : list MempoolEvent) : Z :=
  Z.of_nat (length (filter (fun e => negb (is_pending e)) l)).

(** ** The thread under any environment

    The state is what was sent, the telemetry as the other threads see it and
    the clock; the flag may be set and the receiver may go away at any time.
    What is sent continues the stream. *)

Record SimQ := MkSimQ { q_sent : list MempoolEvent; q_published : Telemetry; q_clock : ClockState }.

Definition with_clock (c : ClockState) (q : SimQ) : SimQ := MkSimQ (q_sent q) (q_published q) c.

Definition sim_protocol : protocol SimE SimQ := {|
  may := fun X e q =>
    match e with
    | SLoop _ e => may clock_protocol e (q_clock q)
    | SSend event => exists n, q_sent q ++ [event] `prefix_of` sim_stream n
    | SPublish _ => True
    end;
  answers := fun X e q x =>
    match e in SimE X return X -> Prop with
    | SLoop _ e => fun x => answers clock_protocol e (q_clock q) x
    | SSend _ => fun _ => True
    | SPublish _ => fun _ => True
    end x;
  next_state := fun X e q x =>
    match e in SimE X return X -> SimQ with
    | SLoop _ e => fun x => with_clock (next_state clock_protocol e (q_clock q) x) q
    | SSend event => fun ok : bool =>
        if ok then MkSimQ (q_sent q ++ [event]) (q_published q) (q_clock q) else q
    | SPublish telemetry => fun _ => MkSimQ (q_sent q) telemetry (q_clock q)
    end x;
  may_crash := fun p q => False;
|}.

Lemma wp_embed_loop {A} (p : Prog LoopE A) q (Φ : A -> ClockState -> Prop) :
  wp clock_protocol p (q_clock q) Φ ->
  wp sim_protocol (embed SLoop p) q (fun a q' => q' = with_clock (q_clock q') q /\ Φ a (q_clock q')).
Proof.
  revert q. induction p as [a|r|X e k IH]; intros q Hp.
  { split; [by destruct q|exact Hp]. }
  { exact Hp. }
  destruct Hp as [Hm Hk]. split; [exact Hm|]. intros x Hx. eapply wp_mono; [by apply IH, Hk|].
  intros a q' [-> HΦ]. by destruct q.
Qed.

(** What the telemetry says of the events sent, [late] when a block has been
    counted that is not sent yet. *)
Record in_step (late : Z) (sent : list MempoolEvent) (t : Telemetry) : Prop := {
  step_pending : t_pending_seen t = pending_sent sent;
  step_blocks : t_block_count t = blocks_sent sent + late;
}.

(** What is true of the thread after the events [sent], when it returns. *)
Definition stopped_in (n : nat) (q : SimQ) : Prop :=
  q_sent q `prefix_of` sim_stream n /\
  exists late, 0 <= late <= 1 /\ in_step late (q_sent q) (q_published q).

Section proofs.
Context `{BuildProfile}.

Lemma sim_stream_S n : sim_stream (S n) = sim_stream n ++ round_events (Z.of_nat n).
Proof.
  unfold sim_stream. rewrite seqZ_S, bind_app, Z.add_0_l. done.
Qed.

Lemma sim_stream_mono n m : (n <= m)%nat -> sim_stream n `prefix_of` sim_stream m.
Proof.
  induction 1 as [|m _ IH]; [done|]. etransitivity; [exact IH|].
  rewrite sim_stream_S. by eexists.
Qed.

Lemma stopped_in_mono n m q : (n <= m)%nat -> stopped_in n q -> stopped_in m q.
Proof.
  intros Hnm [Hp Hs]. split; [|done]. etransitivity; [exact Hp|]. by apply sim_stream_mono.
Qed.

Lemma count_app (P : MempoolEvent -> bool) l1 l2 :
  Z.of_nat (length (filter P (l1 ++ l2))) =
    Z.of_nat (length (filter P l1)) + Z.of_nat (length (filter P l2)).
Proof. rewrite filter_app, length_app. lia. Qed.

Lemma included_from_ok nonce offsets :
  10 <= nonce < 2 ^ 63 -> Forall (fun i => 0 <= i < 5) offsets ->
  included_from nonce offsets = Val ((fun i => sim_tx (nonce - 10 + i)) <$> offsets).
Proof.
  intros Hn. induction 1 as [|i offsets Hi _ IH]; [done|]. simpl.
  change (2 ^ 63) with 9223372036854775808 in *.
  rewrite sub_w_ok by word. simpl. rewrite add_w_ok by word. simpl. by rewrite IH.
Qed.

(** [k] transactions of round [n] are left to send. *)
Record sending (n : nat) (k : nat) (st : SimState) (q : SimQ) : Prop := {
  sending_nonce : s_nonce st = 10 * Z.of_nat n + 10 - Z.of_nat k;
  sending_number : s_block_number st = Z.of_nat n;
  sending_sent : q_sent q = sim_stream n ++
    (PendingTransaction ∘ sim_tx <$> seqZ (10 * Z.of_nat n) (10 - Z.of_nat k));
  sending_published : q_published q = s_telemetry st;
  sending_step : in_step 0 (q_sent q) (s_telemetry st);
}.

Lemma seqZ_prefix m a b : 0 <= a <= b -> seqZ m a `prefix_of` seqZ m b.
Proof.
  intros Hab. exists (seqZ (m + a) (b - a)). rewrite <- seqZ_app by lia. f_equal. lia.
Qed.

Lemma sending_stopped n k st q : (k <= 10)%nat -> sending n k st q -> stopped_in (S n) q.
Proof.
  intros Hk [_ _ Hs Hp Ht]. split.
  - rewrite Hs, sim_stream_S. apply prefix_app. unfold round_events.
    apply prefix_app_r. destruct (seqZ_prefix (10 * Z.of_nat n) (10 - Z.of_nat k) 10) as [l Hl]; [lia|].
    rewrite Hl, fmap_app. by eexists.
  - exists 0. split; [lia|]. by rewrite Hp.
Qed.

Lemma pending_bound (l : list MempoolEvent) : pending_sent l <= Z.of_nat (length l).
Proof. unfold pending_sent. pose proof (length_filter is_pending l). lia. Qed.

Lemma sim_stream_length n : Z.of_nat (length (sim_stream n)) = 11 * Z.of_nat n.
Proof.
  induction n as [|n IH]; [done|]. rewrite sim_stream_S, length_app. unfold round_events.
  rewrite length_app, length_fmap, length_seqZ. simpl length. lia.
Qed.

Lemma seqZ_snoc m n : 0 <= n -> seqZ m (n + 1) = seqZ m n ++ [m + n].
Proof. intros Hn. by rewrite seqZ_app by lia. Qed.

Lemma sending_clock n k st q c : sending n k st q -> sending n k st (with_clock c q).
Proof. by intros [? ? ? ? ?]. Qed.

(** So many rounds that no counter overflows. *)
Definition rounds_fit (n : nat) : Prop := 11 * Z.of_nat n < 2 ^ 62.

Lemma pending_small n k st q :
  rounds_fit n -> (k <= 10)%nat -> sending n k st q -> 0 <= t_pending_seen (s_telemetry st) < 2 ^ 63.
Proof.
  unfold rounds_fit. change (2 ^ 62) with 4611686018427387904. change (2 ^ 63) with 9223372036854775808.
  intros Hn Hk [_ _ Hs _ [Hp _]]. rewrite Hp. pose proof (pending_bound (q_sent q)) as Hb.
  split; [unfold pending_sent; lia|]. rewrite Hs, length_app, length_fmap, length_seqZ in Hb.
  pose proof (sim_stream_length n). rewrite Hs. lia.
Qed.

(** The state after one more transaction. *)
Lemma sending_next n k st q :
  (k < 10)%nat -> sending n (S k) st q ->
  let t := s_telemetry st in
  let t' := MkCliTelemetry (t_pending_seen t + 1) (t_block_count t) (t_last_block_txs t)
              (t_last_block_gas_used t) in
  sending n k (MkSim (s_nonce st + 1) (s_block_number st) t')
    (MkSimQ (q_sent q ++ [PendingTransaction (sim_tx (s_nonce st))]) t' (q_clock q)).
Proof.
  intros Hk [Hn Hb Hs Hp [Hsp Hsb]] t t'. split; simpl; [lia|done| |done|].
  - replace (10 - Z.of_nat k) with (10 - Z.of_nat (S k) + 1) by lia.
    rewrite seqZ_snoc by lia. rewrite fmap_app, app_assoc, <- Hs. simpl. repeat f_equal. lia.
  - subst t t'. split; simpl; unfold pending_sent, blocks_sent in *; rewrite count_app, ?Hsp, ?Hsb;
      simpl; lia.
Qed.

Lemma send_pending_ok n k st q :
  rounds_fit n -> (k <= 10)%nat -> sending n k st q ->
  wp sim_protocol (send_pending k st) q (fun o q' =>
    match o with None => stopped_in (S n) q' | Some st' => sending n 0 st' q' end).
Proof.
  intros Hfit. revert st q. induction k as [|k IH]; intros st q Hk Hst; [done|].
  pose proof (pending_small n (S k) st q Hfit Hk Hst) as Hsmall.
  change (2 ^ 63) with 9223372036854775808 in Hsmall.
  assert (0 <= s_nonce st < 9223372036854775807) as Hnonce.
  { rewrite (sending_nonce _ _ _ _ Hst). unfold rounds_fit in Hfit.
    change (2 ^ 62) with 4611686018427387904 in Hfit. lia. }
  event stop Hstop. destruct stop.
  { eapply (sending_stopped n (S k)); [done|]. by apply sending_clock. }
  pose proof (sending_next n k st q Hk Hst) as Hnext. cbn zeta in Hnext.
  event ok Hok; [exists (S n); by apply (sending_stopped n k _ _ ltac:(lia) Hnext)|]. destruct ok.
  2: { eapply (sending_stopped n (S k)); [done|]. by apply sending_clock. }
  unfold count_pending. rewrite !add_w_ok by word. cbn [lift mbind run_bind prog_mbind prog_bind].
  event u Hu.
  apply IH; [lia|]. apply (sending_next n k st (with_clock _ q)); [lia|]. by apply sending_clock.
Qed.

Lemma seqZ_five m : seqZ m 5 = [m; m + 1; m + 2; m + 3; m + 4].
Proof. rewrite !seqZ_cons, seqZ_nil by lia. repeat (apply (f_equal2 cons); [lia|]). done. Qed.

Lemma next_block_ok n st q :
  rounds_fit n -> sending n 0 st q ->
  next_block st = Val (sim_block (Z.of_nat n),
    MkCliTelemetry (t_pending_seen (s_telemetry st)) (Z.of_nat n + 1) 5 105000).
Proof.
  unfold rounds_fit. change (2 ^ 62) with 4611686018427387904. intros Hfit [Hn Hb _ _ _].
  unfold next_block. rewrite Hn, Hb.
  change (seqZ 0 BLOCK_TX_COUNT) with [0; 1; 2; 3; 4].
  rewrite included_from_ok; [|change (2 ^ 63) with 9223372036854775808; lia|repeat constructor; lia].
  cbn [mbind run_bind]. rewrite add_w_ok by word. cbn [mbind run_bind].
  unfold BLOCK_TX_COUNT. rewrite mul_w_ok by word. cbn [mbind run_bind].
  unfold sim_block. do 2 f_equal. f_equal. rewrite seqZ_five. cbn [fmap list_fmap].
  repeat (apply (f_equal2 cons); [apply (f_equal sim_tx); lia|]). done.
Qed.

Lemma in_step_block sent t late n :
  in_step 0 sent t -> blocks_sent sent = Z.of_nat n -> t_block_count late = Z.of_nat n + 1 ->
  t_pending_seen late = t_pending_seen t ->
  in_step 1 sent late /\ in_step 0 (sent ++ [NewBlock (sim_block (Z.of_nat n))]) late.
Proof.
  intros [Hp Hb] Hn Hc Hs. split; split; rewrite ?Hs, ?Hp, ?Hc; unfold pending_sent, blocks_sent in *;
    rewrite ?count_app; simpl; lia.
Qed.

(** The blocks in a stream, with transactions of the next round or not. *)
Lemma blocks_in_stream n l : blocks_sent (sim_stream n ++ (PendingTransaction ∘ sim_tx <$> l)) = Z.of_nat n.
Proof.
  unfold blocks_sent. rewrite count_app.
  assert (filter (fun e => negb (is_pending e)) (PendingTransaction ∘ sim_tx <$> l) = []) as ->.
  { induction l as [|x l IH]; [done|]. by rewrite fmap_cons, filter_cons_False by (by intros []). }
  induction n as [|n IH]; [done|]. rewrite sim_stream_S, count_app. unfold round_events.
  rewrite count_app. simpl in *. lia.
Qed.

Lemma simulate_round_ok n st q :
  rounds_fit n -> sending n 10 st q ->
  wp sim_protocol (simulate_round st) q (fun o q' =>
    match o with None => stopped_in (S n) q' | Some st' => sending (S n) 10 st' q' end).
Proof.
  intros Hfit Hst. event stop Hstop.
  destruct stop; [eapply (sending_stopped n 10); [done|]; by apply sending_clock|].
  eapply wp_bind_mono; [apply (send_pending_ok n 10); [done|done|by apply sending_clock]|].
  intros [st1|] q1 Hst1; [|exact Hst1].
  eapply wp_bind_mono.
  { apply wp_embed_loop. by apply (should_stop_for_ends (5 * SECS)). }
  intros [] q2 [-> _].
  { eapply (sending_stopped n 0); [lia|]. by apply sending_clock. }
  apply (sending_clock n 0 st1 q1 (q_clock q2)) in Hst1. revert Hst1.
  generalize (with_clock (q_clock q2) q1). clear q1. intros q1 Hst1.
  rewrite (next_block_ok n st1 q1 Hfit Hst1). cbn [lift mbind run_bind prog_mbind prog_bind].
  pose proof Hst1 as [Hn Hb Hs Hp Hstep].
  assert (blocks_sent (q_sent q1) = Z.of_nat n) as Hcount by (rewrite Hs; apply blocks_in_stream).
  set (late := MkCliTelemetry _ _ _ _).
  destruct (in_step_block (q_sent q1) (s_telemetry st1) late n Hstep Hcount) as [H1 H0]; [done..|].
  assert (q_sent q1 ++ [NewBlock (sim_block (Z.of_nat n))] = sim_stream (S n)) as Hround.
  { rewrite Hs, sim_stream_S. unfold round_events. by rewrite app_assoc, Z.sub_0_r. }
  event u Hu. event ok Hok; [exists (S n); simpl; by rewrite Hround|]. destruct ok.
  - assert (0 <= Z.of_nat n < 4611686018427387904) as Hn63
      by (unfold rounds_fit in Hfit; change (2 ^ 62) with 4611686018427387904 in Hfit; lia).
    rewrite Hb, add_w_ok by word. cbn [lift mbind run_bind prog_mbind prog_bind].
    split; simpl; [lia|lia|by rewrite app_nil_r|done|exact H0].
  - split; simpl.
    + apply (sending_stopped n 0 st1 q1); [lia|done].
    + exists 1. split; [lia|exact H1].
Qed.

Lemma simulate_from_ok n m st q :
  rounds_fit (n + m) -> sending n 10 st q ->
  wp sim_protocol (simulate_from m st) q (fun o q' =>
    match o with None => stopped_in (n + m) q' | Some st' => sending (n + m) 10 st' q' end).
Proof.
  revert n st q. induction m as [|m IH]; intros n st q Hfit Hst.
  { simpl. by rewrite Nat.add_0_r. }
  eapply wp_bind_mono; [apply simulate_round_ok; [|exact Hst]; unfold rounds_fit in *; lia|].
  intros [st1|] q1 H1.
  - rewrite Nat.add_succ_r, <- Nat.add_succ_l in *. by apply IH.
  - eapply stopped_in_mono; [|exact H1]. lia.
Qed.

End proofs.

(** ** The tracker that it feeds *)

(** The configuration of [main]. *)
Definition tool_config : TrackerConfig :=
  {| initial_base_fee := 10; global_capacity := 1000; per_account_capacity := 100;
     private_flow_prior := f64_tenth |}.

(** The tracker of the tool after [events]. *)
Definition simulated_tracker `{BuildProfile} `{IterationOrder} (events : list MempoolEvent)
    : run MempoolInner :=
  start ← from_channel [] tool_config; tracker_run events start.

Lemma sim_tx_sane n : 0 <= n < 2 ^ 63 -> tx_sane (sim_tx n).
Proof. intros Hn. change (2 ^ 63) with 9223372036854775808 in *. split; simpl; word. Qed.

Lemma sim_stream_sane n : rounds_fit n -> Forall event_sane (sim_stream n).
Proof.
  unfold rounds_fit. change (2 ^ 62) with 4611686018427387904. intros Hfit.
  apply Forall_forall. intros e He. apply list_elem_of_bind in He as (r & He & Hr).
  apply elem_of_seqZ in Hr.
  assert (forall m len, 0 <= m -> m + len <= 10 * Z.of_nat n -> Forall tx_sane (sim_tx <$> seqZ m len)) as Hts.
  { intros m len Hm Hlen. apply Forall_forall. intros tx Htx. apply list_elem_of_fmap in Htx as (i & -> & Hi).
    apply elem_of_seqZ in Hi. apply sim_tx_sane. change (2 ^ 63) with 9223372036854775808. lia. }
  unfold round_events in He. apply elem_of_app in He as [He|He].
  - apply list_elem_of_fmap in He as (i & -> & Hi). apply elem_of_seqZ in Hi. simpl.
    apply sim_tx_sane. change (2 ^ 63) with 9223372036854775808. lia.
  - apply list_elem_of_singleton in He as ->. split; cbn [included_txs sim_block]; [apply Hts; lia|].
    rewrite seqZ_five. done.
Qed.

Lemma prefix_sane (l1 l2 : list MempoolEvent) :
  l1 `prefix_of` l2 -> Forall event_sane l2 -> Forall event_sane l1.
Proof. intros [l ->] Hl. by apply Forall_app in Hl as [? _]. Qed.

Lemma tool_start `{BuildProfile} :
  exists start, from_channel [] tool_config = Val start /\ mempool_ok start /\ config start = tool_config.
Proof. apply from_channel_ok; [|constructor]. split; simpl; [lia|by vm_compute]. Qed.

(** *** Rounds by computation *)

#[export] Instance AccountQueue_eq_dec : EqDecision AccountQueue.
Proof. solve_decision. Defined.

(** The tracker after [n] rounds, as long as the indexes have room: the last
    five transactions of the last round are stored and marketable, best tip
    first; five keys per round stay in [base_fee_eligibility]. *)
Definition keeps_up (n : Z) (self : MempoolInner) : Prop :=
  account_queues self = {[ sim_sender :=
    MkAccountQueue (10 * n - 5) ((fun m => Some (sim_tx m)) <$> seqZ (10 * n - 5) 5) ]} /\
  priority_queue self = (fun i => (5 - i, sim_sender, 10 * n - 1 - i)) <$> seqZ 0 5 /\
  current_base_fee self = 10 + (n - 1) mod 5 /\
  Z.of_nat (length (base_fee_eligibility self)) = 5 * n.

(** The tracker once they have none: nothing is stored. *)
Definition gone_blind (n : Z) (self : MempoolInner) : Prop :=
  account_queues self = {[ sim_sender := MkAccountQueue (10 * n - 5) [] ]} /\
  priority_queue self = [] /\
  Z.of_nat (length (base_fee_eligibility self)) = 995.

Definition as_expected (n : nat) (self : MempoolInner) : Prop :=
  if (n <? 200)%nat then keeps_up (Z.of_nat n) self else gone_blind (Z.of_nat n) self.

#[export] Instance as_expected_dec n self : Decision (as_expected n self).
Proof. unfold as_expected, keeps_up, gone_blind. case_match; apply _. Defined.

Section computed.
Context `{BuildProfile}.
#[local] Instance computed_order : IterationOrder :=
  {| hash_entries := map_to_list; hash_entries_perm := fun m => Permutation_refl _ |}.

Fixpoint check_rounds (k n : nat) (self : MempoolInner) : bool :=
  match k with
  | O => true
  | S k =>
      match tracker_run (round_events (Z.of_nat n)) self with
      | Val s => bool_decide (as_expected (S n) s) && check_rounds k (S n) s
      | Panic _ => false
      end
  end.

Lemma check_rounds_sound k n self :
  simulated_tracker (sim_stream n) = Val self -> check_rounds k n self = true ->
  forall m, (n < m <= n + k)%nat -> exists s, simulated_tracker (sim_stream m) = Val s /\ as_expected m s.
Proof.
  revert n self. induction k as [|k IH]; intros n self Hrun Hcheck m Hm; [lia|]. simpl in Hcheck.
  destruct (tracker_run (round_events (Z.of_nat n)) self) as [s|] eqn:Hs; [|done].
  apply andb_prop in Hcheck as [Hexp%bool_decide_eq_true Hcheck].
  assert (simulated_tracker (sim_stream (S n)) = Val s) as Hrun'.
  { unfold simulated_tracker, tracker_run in *. rewrite sim_stream_S.
    destruct (from_channel [] tool_config) as [start|]; [|done]. simpl in *.
    rewrite for_each_app. rewrite Hrun. exact Hs. }
  destruct (decide (m = S n)) as [->|Hne]; [by exists s|]. apply (IH (S n) s Hrun' Hcheck). lia.
Qed.

Lemma rounds_computed m :
  (1 <= m <= 260)%nat -> exists s, simulated_tracker (sim_stream m) = Val s /\ as_expected m s.
Proof.
  intros Hm. apply (check_rounds_sound 260 0 (empty_inner tool_config)); [done| |lia].
  vm_compute. reflexivity.
Qed.
End computed.

(** ** Properties *)

(** whenever the simulator returns, what it has sent is a prefix of its
    stream of rounds, the telemetry counts the transactions sent and the
    blocks, at most one of them not sent yet, and the tracker that receives
    these events has not panicked and is well formed; a simulator that is
    still running after [n] rounds has sent them all. *)
Theorem simulation_feeds_tracker `{BuildProfile} `{IterationOrder} n clock :
  rounds_fit n ->
  wp sim_protocol (simulate_blockchain n) (MkSimQ [] Telemetry_default clock) (fun o q =>
    q_sent q `prefix_of` sim_stream n /\
    (exists late, 0 <= late <= 1 /\ in_step late (q_sent q) (q_published q)) /\
    (o <> None -> q_sent q = sim_stream n) /\
    exists self, simulated_tracker (q_sent q) = Val self /\ mempool_ok self /\
      config self = tool_config).
Proof.
  intros Hfit. eapply wp_mono.
  { apply (simulate_from_ok 0 n); [done|]. split; simpl; [lia|done|done|done|by split]. }
  intros o q Hq. simpl in Hq.
  assert (q_sent q `prefix_of` sim_stream n /\
    (exists late, 0 <= late <= 1 /\ in_step late (q_sent q) (q_published q)) /\
    (o <> None -> q_sent q = sim_stream n)) as (Hpre & Hstep & Hall).
  { destruct o as [st|]; [|destruct Hq as [? ?]; by split; [|split]].
    destruct Hq as [_ _ Hs Hp Hstep]. simpl in Hs. rewrite app_nil_r in Hs. rewrite Hs, Hp in *.
    split; [done|]. split; [|done]. exists 0. by split. }
  split; [done|]. split; [done|]. split; [done|].
  unfold simulated_tracker. destruct tool_start as (start & -> & Hok & <-). simpl.
  apply tracker_events_ok; [done|]. eapply prefix_sane; [exact Hpre|]. by apply sim_stream_sane.
Qed.

(** For its first 199 rounds the tracker of the tool keeps up with the
    simulator: it stores the last five transactions of the last round, all
    marketable, best tip first.  The keys of transactions that a block drains
    without including them stay in [base_fee_eligibility], five in each round:
    at round 200 the capacity of 1000 is used up by keys of transactions that
    are gone, and after each of the blocks of the rounds 200 to 260 the tracker
    holds nothing.  A computation on the stream, as evidence of the defect. *)
Theorem simulated_tracker_state `{BuildProfile} `{IterationOrder} n :
  (1 <= n <= 260)%nat ->
  exists self, simulated_tracker (sim_stream n) = Val self /\
    if (n <? 200)%nat then keeps_up (Z.of_nat n) self else gone_blind (Z.of_nat n) self.
Proof.
  intros Hn. destruct (rounds_computed n Hn) as (self & Hrun & Hexp). exists self. split; [|exact Hexp].
  rewrite <- Hrun. unfold simulated_tracker. destruct tool_start as (start & -> & Hok & _). simpl.
  apply tracker_run_order; [done|]. apply sim_stream_sane.
  unfold rounds_fit. change (2 ^ 62) with 4611686018427387904. lia.
Qed.

Section witnesses.
#[local] Instance sim_ci_checks : BuildProfile := true.
#[local] Instance sim_order : IterationOrder :=
  {| hash_entries := map_to_list; hash_entries_perm := fun m => Permutation_refl _ |}.

Lemma simulation_feeds_tracker_witness :
  wp sim_protocol (simulate_blockchain 720) (MkSimQ [] Telemetry_default demo_clock)
    (fun o q => q_sent q `prefix_of` sim_stream 720).
Proof.
  eapply wp_mono; [apply (simulation_feeds_tracker 720 demo_clock); unfold rounds_fit; lia|].
  intros o q [H _]. exact H.
Defined.

Lemma simulated_tracker_state_witness :
  (exists self, simulated_tracker (sim_stream 6) = Val self /\ keeps_up 6 self) /\
  (exists self, simulated_tracker (sim_stream 201) = Val self /\ gone_blind 201 self).
Proof.
  split.
  - destruct (simulated_tracker_state 6) as (self & H1 & H2); [lia|].
    exists self. split; [exact H1|exact H2].
  - destruct (simulated_tracker_state 201) as (self & H1 & H2); [lia|].
    exists self. split; [exact H1|exact H2].
Defined.
End witnesses.
