(* ===== verification/CliShutdown.v ===== *)
(** * The end of the command-line tool ([crates/mempooloracle/examples/cli_tool.rs])

    [main] stores true in the stop flag when the view has returned, and
    [Runtime::shutdown] joins the simulator's thread and then the tracker's.
    The first join returns because the simulator looks at the flag often
    enough: its protocol [prompt_protocol] bounds the events between two
    loads, which bounds the events after the store under every environment.
    The second returns because the simulator's sender is then dropped: the
    tracker's loop ends with its channel ([tracker_run]). *)

From S2P Require Import Prelude Prog Float64 Mempool CliSnapshot CliLoops Simulation.

(** ** Looking at the flag *)

(** The events between two loads of the flag. *)
Definition LOAD_GAP : nat := 4.

(** The events left until the flag must be loaded again; [None] once a load
    has found it set, after which no event is allowed. *)
Definition prompt_protocol : protocol SimE (option nat) := {|
  may := fun X e q =>
    match q with
    | None => False
    | Some gap => match e with SLoop _ LoadStop => True | _ => (0 < gap)%nat end
    end;
  answers := fun X e q x => True;
  next_state := fun X e q x =>
    match e in SimE X return X -> option nat with
    | SLoop _ e =>
        match e in LoopE X return X -> option nat with
        | LoadStop => fun stop : bool => if stop then None else Some LOAD_GAP
        | _ => fun _ => pred <$> q
        end
    | SSend _ => fun _ => pred <$> q
    | SPublish _ => fun _ => pred <$> q
    end x;
  may_crash := fun _ _ => True;
|}.

(** Between two rounds, or two transactions. *)
Definition has_left (n : nat) (q : option nat) : Prop := exists gap, q = Some gap /\ (n <= gap)%nat.

Section simulator.
Context `{BuildProfile}.

(** A value or a panic of an unchecked operation, then the rest. *)
Lemma wp_lifted {E Q A B} (P : protocol E Q) (r : run A) (f : A -> Prog E B) q Φ :
  (forall p, may_crash P p q) -> (forall a, wp P (f a) q Φ) -> wp P (lift r ≫= f) q Φ.
Proof. intros Hp Hf. by destruct r as [a|p]; simpl. Qed.

Lemma send_pending_prompt k st q :
  has_left 2 q ->
  wp prompt_protocol (send_pending k st) q (fun o q' => match o with Some _ => has_left 2 q' | None => True end).
Proof.
  revert st q. induction k as [|k IH]; intros st q Hq; [exact Hq|].
  destruct Hq as (gap & -> & Hgap).
  split; [done|]. intros [|] _; [done|]. simpl.
  split; [unfold LOAD_GAP; lia|]. intros [|] _; [|done]. simpl.
  apply wp_lifted; [done|]. intros t. split; [simpl; lia|]. intros [] _. simpl.
  apply wp_lifted; [done|]. intros n. apply IH. exists 2%nat. split; [done|lia].
Qed.

Lemma should_stop_loop_prompt fuel started duration q :
  has_left 1 q ->
  wp prompt_protocol (embed SLoop (should_stop_loop fuel started duration)) q
    (fun stop q' => if stop : bool then True else q' = Some LOAD_GAP).
Proof.
  revert q. induction fuel as [|fuel IH]; intros q (left & -> & Hgap); [done|].
  split; [simpl; lia|]. intros now _. simpl. destruct (_ <? _).
  - split; [done|]. intros [|] _; [done|]. simpl.
    split; [unfold LOAD_GAP; lia|]. intros now' _. simpl. split; [lia|]. intros [] _.
    apply IH. exists 2%nat. split; [done|lia].
  - split; [done|]. by intros [|] _.
Qed.

Lemma simulate_round_prompt st q :
  has_left 0 q ->
  wp prompt_protocol (simulate_round st) q
    (fun o q' => match o with Some _ => has_left 0 q' | None => True end).
Proof.
  intros (gap & -> & _). event stop Hstop. destruct stop; [done|].
  eapply wp_bind_mono; [apply (send_pending_prompt 10); exists LOAD_GAP; split; [done|unfold LOAD_GAP; lia]|].
  intros [st1|] q1 Hq1; [|done]. destruct Hq1 as (gap1 & -> & Hgap).
  eapply wp_bind_mono.
  { unfold should_stop_for. event started Hst; [simpl; lia|].
    apply (should_stop_loop_prompt _ started). exists (pred gap1). split; [done|lia]. }
  intros [|] q2 Hq2; [done|]. cbn beta iota in Hq2. subst q2.
  apply wp_lifted; [done|]. intros [block telemetry].
  event u Hu; [simpl; unfold LOAD_GAP; lia|]. event ok Hok; [simpl; unfold LOAD_GAP; lia|].
  destruct ok; [|done].
  apply wp_lifted; [done|]. intros number. exists 2%nat. split; [done|lia].
Qed.

Lemma simulate_from_prompt n st q :
  has_left 0 q -> wp prompt_protocol (simulate_from n st) q (fun _ _ => True).
Proof.
  revert st q. induction n as [|n IH]; intros st q Hq; [done|].
  eapply wp_bind_mono; [by apply simulate_round_prompt|]. intros [st1|] q1 Hq1; [by apply IH|done].
Qed.

End simulator.

(** ** After the store

    [flag] reads the stop flag in a state of the environment; [counted] counts
    the events that start while it is set. *)
Section environment.
Context {S : Type} (handle : forall X, SimE X -> S -> run (X * S)) (flag : S -> bool).

Definition counted X (e : SimE X) (s : S * nat) : run (X * (S * nat)) :=
  '(x, s') ← handle X e s.1;
  Val (x, (s', if flag s.1 then Datatypes.S s.2 else s.2)).

(** A load answers with the flag, which nobody clears. *)
Record flag_sane : Prop := {
  load_answers : forall s b s', handle _ (SLoop _ LoadStop) s = Val (b, s') -> b = flag s;
  never_cleared : forall X (e : SimE X) s x s', handle X e s = Val (x, s') -> flag s = true -> flag s' = true;
}.

(** The events after the store that are still possible. *)
Definition within (s : S * nat) (q : option nat) : Prop :=
  (flag s.1 = false -> s.2 = 0%nat) /\
  match q with
  | Some gap => (s.2 + gap <= LOAD_GAP)%nat
  | None => (s.2 <= LOAD_GAP + 1)%nat
  end.

Lemma counted_step (Hflag : flag_sane) X (e : SimE X) s q :
  within s q -> may prompt_protocol e q ->
  match counted X e s with
  | Val (x, s') => answers prompt_protocol e q x /\ within s' (next_state prompt_protocol e q x)
  | Panic r => may_crash prompt_protocol r q
  end.
Proof.
  intros [Hz Hw] Hm. unfold counted. destruct s as [s k]. simpl in *.
  destruct (handle X e s) as [[x s']|r] eqn:He; simpl; [|done]. split; [done|].
  pose proof (never_cleared Hflag X e s x s' He) as Hstay.
  destruct q as [gap|]; [|done].
  assert (flag s' = false -> flag s = false) as Hback by (destruct (flag s); [intros Hs; by rewrite Hstay in Hs|done]).
  destruct e as [X [| |d]|event|telemetry]; simpl in *.
  2: { pose proof (load_answers Hflag s x s' He) as ->. destruct (flag s) eqn:Hs; split; simpl;
         intros; unfold LOAD_GAP in *; try rewrite Hz by done; try lia. rewrite Hstay in *; done. }
  all: destruct (flag s) eqn:Hs; split; simpl; intros; try lia; auto.
  all: rewrite Hstay in *; done.
Qed.

End environment.

(** the simulator stops when it is told to, whatever its environment
    does: after the flag is set it performs at most five more events (a sleep
    of at most 100 ms among them), however many rounds it would still have
    run, so that the join in [shutdown] returns. *)
Theorem simulator_stops `{BuildProfile} {S : Type} (handle : forall X, SimE X -> S -> run (X * S))
    (flag : S -> bool) n s :
  flag_sane handle flag ->
  ((run_alone (counted handle flag) (simulate_blockchain n) (s, 0%nat)).2.2 <= LOAD_GAP + 1)%nat.
Proof.
  intros Hflag.
  assert (within flag (s, 0%nat) (Some LOAD_GAP)) as Hstart by by split.
  pose proof (wp_run_alone (counted handle flag) prompt_protocol (within flag) (counted_step handle flag Hflag)
    (simulate_blockchain n) (s, 0%nat) (Some LOAD_GAP) (fun _ _ => True) Hstart) as Hrun.
  specialize (Hrun (simulate_from_prompt n _ (Some LOAD_GAP) (ex_intro _ LOAD_GAP (conj eq_refl (Nat.le_0_l _))))).
  destruct (run_alone _ _ _) as [[o|r] [s' k]]; destruct Hrun as ([gap|] & [_ Hw] & _); simpl in *; unfold LOAD_GAP in *; lia.
Qed.

(** ** A witness *)

Section witnesses.
#[local] Instance shutdown_ci_checks : BuildProfile := true.

(** An environment whose state counts its events, a hundred milliseconds
    each; the flag is set at the thirtieth. *)
Definition demo_flag (events : Z) : bool := 30 <=? events.

Definition demo_env X (e : SimE X) (events : Z) : run (X * Z) :=
  match e in SimE X return run (X * Z) with
  | SLoop _ e =>
      match e in LoopE X return run (X * Z) with
      | Now => Val (events * 100 * MILLIS, events + 1)
      | LoadStop => Val (demo_flag events, events + 1)
      | Sleep _ => Val (tt, events + 1)
      end
  | SSend _ => Val (true, events + 1)
  | SPublish _ => Val (tt, events + 1)
  end.

Lemma demo_env_sane : flag_sane demo_env demo_flag.
Proof.
  split; [by intros s b s' [= <- _]|]. unfold demo_flag.
  intros X e s x s' He Hs. apply Z.leb_le in Hs. apply Z.leb_le.
  destruct e as [X [| |d]|event|telemetry]; simpl in He; injection He as _ <-; lia.
Qed.

Lemma simulator_stops_witness :
  ((run_alone (counted demo_env demo_flag) (simulate_blockchain 100) (0%Z, 0%nat)).2.2 <= 5)%nat.
Proof. exact (simulator_stops demo_env demo_flag 100 0 demo_env_sane). Defined.
End witnesses.
