(* ===== verification/CliSystem.v ===== *)
(** * The simulated tool as a whole ([crates/mempooloracle/examples/cli_tool.rs])

    What [main] runs for [DataSource::Simulated]: the thread of the simulator,
    the thread of the tracker at the other end of its channel, and [main],
    which shows the view, stores true in the stop flag when the view returns
    and joins the two threads ([Runtime::shutdown]).  The threads interleave,
    an event of the simulator or of the tracker at a time; the simulator's
    [while] loop goes round without a bound. *)

From stdpp Require Import strings list relations gmap.
From S2P Require Import Prelude Prog Float64 Mempool MempoolInv MempoolSpec.
From S2P Require Import CliSnapshot CliLoops Simulation TrackerSystem CliShutdown.

(** ** Definitions *)

(** Where [main] is: in the view, in one of the joins of [shutdown], or done
    with what the view returned. *)
Inductive MainAt :=
  | Viewing
  | JoinSimulation (result : result unit string)
  | JoinTracker (result : result unit string)
  | Returned (result : result unit string).

Record Tool := MkTool {
  main_at : MainAt;
  stop_flag : bool;
  sim_thread : option (Prog SimE (option SimState));   (* [None] once it has ended *)
  sim_data : SimQ;                                     (* the channel, the telemetry, the clock *)
  received : nat;                                      (* by the tracker *)
  tool_tracker : TrackerAt;
}.

Definition set_sim (t : option (Prog SimE (option SimState))) (q : SimQ) (s : Tool) : Tool :=
  MkTool (main_at s) (stop_flag s) t q (received s) (tool_tracker s).

Definition set_main (m : MainAt) (s : Tool) : Tool :=
  MkTool m (stop_flag s) (sim_thread s) (sim_data s) (received s) (tool_tracker s).

Definition set_tracker (n : nat) (t : TrackerAt) (s : Tool) : Tool :=
  MkTool (main_at s) (stop_flag s) (sim_thread s) (sim_data s) n t.

(** [stop.store(true)], then [runtime.shutdown()]. *)
Definition leave_view (r : result unit string) (s : Tool) : Tool :=
  MkTool (JoinSimulation r) true (sim_thread s) (sim_data s) (received s) (tool_tracker s).

(** The clocks of CliLoops.v. *)
Definition CLOCK_LIMIT : Z := 2 ^ 62 * SECS.

(** What an event of the simulator gives: the clock goes on, a load reads the
    flag, and a send fails once the receiver is dropped. *)
Definition tool_answers {X} (e : SimE X) (s : Tool) : X -> Prop :=
  match e in SimE X return X -> Prop with
  | SLoop _ e =>
      match e in LoopE X return X -> Prop with
      | Now => fun t => time (q_clock (sim_data s)) <= t < CLOCK_LIMIT
      | LoadStop => fun b => b = stop_flag s
      | _ => fun _ => True
      end
  | SSend _ => fun ok => ok = is_listening (tool_tracker s)
  | SPublish _ => fun _ => True
  end.

Section tool.
Context `{BuildProfile} `{IterationOrder}.

(** The locals of [simulate_blockchain] before its loop. *)
Definition sim_start : SimState := MkSim 0 0 Telemetry_default.

Inductive tool_step : Tool -> Tool -> Prop :=
  | sim_event X (e : SimE X) k x s :
      sim_thread s = Some (Vis e k) -> tool_answers e s x ->
      tool_step s (set_sim (Some (k x)) (next_state sim_protocol e (sim_data s) x) s)
  (* the next round of [while !stop.load(...)] *)
  | sim_next_round st s :
      sim_thread s = Some (Ret (Some st)) ->
      tool_step s (set_sim (Some (simulate_round st)) (sim_data s) s)
  | sim_returns s :
      sim_thread s = Some (Ret None) -> tool_step s (set_sim None (sim_data s) s)
  | sim_panics r s :
      sim_thread s = Some (Crash r) -> tool_step s (set_sim None (sim_data s) s)
  (* [tracker.run()]: the next event, or the end of the channel *)
  | tracker_receives self event s :
      tool_tracker s = Listening self -> q_sent (sim_data s) !! received s = Some event ->
      tool_step s (set_tracker (S (received s))
        (match handle_event event self with Val self' => Listening self' | Panic r => Crashed r end) s)
  | tracker_returns self s :
      tool_tracker s = Listening self -> q_sent (sim_data s) !! received s = None ->
      sim_thread s = None -> tool_step s (set_tracker (received s) (Stopped self) s)
  (* [run_app] or [run_plaintext] returns *)
  | view_returns r s :
      main_at s = Viewing -> tool_step s (leave_view r s)
  | simulation_joined r s :
      main_at s = JoinSimulation r -> sim_thread s = None -> tool_step s (set_main (JoinTracker r) s)
  | tracker_joined r s :
      main_at s = JoinTracker r -> is_listening (tool_tracker s) = false ->
      tool_step s (set_main (Returned r) s).

(** The source [Simulated]: the tracker and the two threads. *)
Definition simulated_tool (clock : ClockState) : run Tool :=
  self ← from_channel [] tool_config;
  Val (MkTool Viewing false (Some (simulate_round sim_start)) (MkSimQ [] Telemetry_default clock) 0
         (Listening self)).

End tool.

(** ** The invariant *)

(** So few events that no counter of the simulator overflows. *)
Definition few_events (s : Tool) : Prop := Z.of_nat (length (q_sent (sim_data s))) < 2 ^ 62 - 11.

(** What [sim_protocol] and [prompt_protocol] say of a round that has begun. *)
Definition round_goes (n : nat) (o : option SimState) (q : SimQ) : Prop :=
  match o with None => stopped_in (S n) q | Some st => sending (S n) 10 st q end.

Definition round_prompt (o : option SimState) (q : option nat) : Prop :=
  match o with Some _ => has_left 0 q | None => True end.

(** The events that the thread can perform before the flag stops it, the load
    of the flag included. *)
Definition gap_work (g : option nat) : nat := match g with Some gap => S gap | None => 0 end.

Definition prompt_ok (p : Prog SimE (option SimState)) : Prop :=
  exists g, (gap_work g <= S LOAD_GAP)%nat /\ wp prompt_protocol p g round_prompt.

Section invariant.
Context `{BuildProfile} `{IterationOrder}.

(** The thread, as long as no counter overflows. *)
Definition thread_ok (t : option (Prog SimE (option SimState))) (q : SimQ) : Prop :=
  match t with
  | Some p => exists n, rounds_fit n /\ wp sim_protocol p q (round_goes n)
  | None => exists n, stopped_in n q
  end.

Record tool_inv (s : Tool) : Prop := {
  inv_flag : main_at s <> Viewing -> stop_flag s = true;
  inv_prompt : forall p, sim_thread s = Some p -> prompt_ok p;
  inv_stream : few_events s ->
    (exists n, q_sent (sim_data s) `prefix_of` sim_stream n) /\ thread_ok (sim_thread s) (sim_data s);
  inv_received : (received s <= length (q_sent (sim_data s)))%nat;
  inv_tracker : few_events s -> exists self,
    simulated_tracker (take (received s) (q_sent (sim_data s))) = Val self /\ mempool_ok self /\
    (tool_tracker s = Listening self \/
     tool_tracker s = Stopped self /\ received s = length (q_sent (sim_data s)) /\
       sim_thread s = None);
}.

(** What a few events sent are is sane. *)
Lemma few_sane l n :
  Z.of_nat (length l) < 2 ^ 62 - 11 -> l `prefix_of` sim_stream n -> Forall event_sane l.
Proof.
  intros Hl Hp. set (m := Z.to_nat (Z.of_nat (length l) / 11 + 1)).
  change (2 ^ 62) with 4611686018427387904 in *.
  assert (Z.of_nat (length l) < 11 * Z.of_nat m < 4611686018427387904) as Hm.
  { unfold m. rewrite Z2Nat.id by (apply Z.add_nonneg_nonneg; [apply Z.div_pos|]; lia).
    pose proof (Z.mod_pos_bound (Z.of_nat (length l)) 11).
    pose proof (Z.div_mod (Z.of_nat (length l)) 11). lia. }
  apply (prefix_sane l (sim_stream m)); [|apply sim_stream_sane; exact (proj2 Hm)].
  destruct (decide (n <= m)%nat); [etransitivity; [exact Hp|by apply sim_stream_mono]|].
  pose proof (sim_stream_length m) as Hlen.
  assert (sim_stream m `prefix_of` sim_stream n) as Hmn by (apply sim_stream_mono; lia).
  destruct (prefix_weak_total _ _ _ Hp Hmn) as [|Hback]; [done|].
  apply prefix_length in Hback. lia.
Qed.

Lemma answers_allowed {X} (e : SimE X) s x :
  tool_answers e s x -> answers sim_protocol e (sim_data s) x.
Proof. by destruct e as [Y []| |]. Qed.

(** An event only adds to what was sent. *)
Lemma event_sent {X} (e : SimE X) q x :
  q_sent q `prefix_of` q_sent (next_state sim_protocol e q x).
Proof.
  destruct e as [Y e|event|t]; simpl; [done| |done]. destruct x; [|done]. by apply prefix_app_r.
Qed.

Lemma event_stream {X} (e : SimE X) q x n :
  may sim_protocol e q -> q_sent q `prefix_of` sim_stream n ->
  exists m, q_sent (next_state sim_protocol e q x) `prefix_of` sim_stream m.
Proof. destruct e as [Y e|event|t]; simpl; [by eexists| |by eexists]. destruct x; [done|by eexists]. Qed.

Lemma few_before s s' :
  q_sent (sim_data s) `prefix_of` q_sent (sim_data s') -> few_events s' -> few_events s.
Proof. intros Hp%prefix_length. unfold few_events. lia. Qed.

(** A step of the simulator's thread that leaves the tracker alone. *)
Lemma sim_step_inv t q s :
  sim_thread s <> None -> tool_inv s -> q_sent (sim_data s) `prefix_of` q_sent q ->
  (forall p, t = Some p -> prompt_ok p) ->
  (few_events (set_sim t q s) -> few_events s ->
    (exists n, q_sent q `prefix_of` sim_stream n) /\ thread_ok t q) ->
  tool_inv (set_sim t q s).
Proof.
  intros Hsome [Hflag Hprompt Hstream Hrec Htr] Hq Hp Hs.
  pose proof (prefix_length _ _ Hq) as Hlen.
  assert (few_events (set_sim t q s) -> few_events s) as Hfew by by apply few_before.
  split; simpl; [done|done|by auto|lia|].
  intros Hf. destruct (Htr (Hfew Hf)) as (self & Hrun & Hok & Hat). exists self.
  destruct Hq as [l Hq]. rewrite Hq, take_app_le by done. split; [done|]. split; [done|].
  destruct Hat as [|(_ & _ & Hnone)]; [by left|by destruct Hsome].
Qed.

Lemma event_prompt {X} (e : SimE X) k x : prompt_ok (Vis e k) -> prompt_ok (k x).
Proof.
  intros (g & Hg & _ & Hk). eexists. split; [|by apply Hk].
  destruct e as [Y []| |], g; simpl in *; try destruct x; simpl; lia.
Qed.

Lemma tool_step_inv s s' : tool_step s s' -> tool_inv s -> tool_inv s'.
Proof.
  intros Hs Hi. destruct Hs as [X e k x s Ht Ha|st s Ht|s Ht|r s Ht|self event s Hl He|self s Hl He Ht|r s Hm|r s Hm Ht|r s Hm Hl].
  - apply sim_step_inv; [congruence|done|apply event_sent| |].
    + intros p [= <-]. by apply (event_prompt e k), (inv_prompt s Hi).
    + intros _ Hf. destruct (inv_stream s Hi Hf) as ([n Hn] & Hok). rewrite Ht in Hok.
      destruct Hok as (m & Hm & Hmay & Hk). split; [by eapply event_stream|].
      exists m. split; [done|]. by apply Hk, answers_allowed.
  - apply sim_step_inv; [congruence|done|done| |].
    + intros p [= <-]. destruct (inv_prompt s Hi _ Ht) as (g & Hg & Hr). exists g. split; [done|].
      by apply simulate_round_prompt.
    + intros _ Hf. destruct (inv_stream s Hi Hf) as (Hn & Hok). rewrite Ht in Hok.
      destruct Hok as (m & _ & Hst). split; [done|]. exists (S m).
      assert (rounds_fit (S m)) as Hfit.
      { unfold rounds_fit, few_events in *. pose proof (sending_sent _ _ _ _ Hst) as Hsent.
        simpl in Hsent. rewrite app_nil_r in Hsent. rewrite Hsent, sim_stream_length in Hf.
        change (2 ^ 62) with 4611686018427387904 in *. lia. }
      split; [done|]. by apply simulate_round_ok.
  - apply sim_step_inv; [congruence|done|done|done|]. intros _ Hf.
    destruct (inv_stream s Hi Hf) as (Hn & Hok). rewrite Ht in Hok. destruct Hok as (m & _ & Hst).
    split; [done|by eexists].
  - apply sim_step_inv; [congruence|done|done|done|]. intros _ Hf.
    destruct (inv_stream s Hi Hf) as (Hn & Hok). rewrite Ht in Hok. by destruct Hok as (m & _ & []).
  - destruct Hi as [Hflag Hp Hstream Hrec Htr]. split; simpl; [done|done|done|by apply lookup_lt_Some in He|].
    intros Hf. destruct (Htr Hf) as (self' & Hrun & Hok & [Hat|(Hat & _)]); [|congruence].
    assert (self' = self) as -> by congruence. destruct (Hstream Hf) as ([n Hn] & _).
    assert (event_sane event) as Hev.
    { pose proof (few_sane _ n Hf Hn) as Hall. rewrite Forall_forall in Hall.
      apply Hall. by eapply list_elem_of_lookup_2. }
    rewrite (take_S_r _ _ event) by done. unfold simulated_tracker in *.
    destruct (from_channel [] tool_config) as [start|]; [|done]. simpl in *. unfold tracker_run in *.
    rewrite for_each_app, Hrun.
    destruct (tracker_events_ok [event] self Hok) as (self' & Hself' & Hok' & _); [by repeat constructor|].
    unfold tracker_run in Hself'. simpl in *.
    destruct (handle_event event self) as [s2|]; [|done]. injection Hself' as ->. by eauto.
  - destruct Hi as [Hflag Hp Hstream Hrec Htr]. split; simpl; [done|done|done|done|].
    intros Hf. destruct (Htr Hf) as (self' & Hrun & Hok & [Hat|(Hat & _)]); [|congruence].
    assert (self' = self) as -> by congruence. exists self. split; [done|]. split; [done|]. right.
    split; [done|]. split; [|done]. apply lookup_ge_None in He. lia.
  - by destruct Hi.
  - destruct Hi as [Hflag Hp Hstream Hrec Htr]. split; simpl; try done. intros _. apply Hflag. by rewrite Hm.
  - destruct Hi as [Hflag Hp Hstream Hrec Htr]. split; simpl; try done. intros _. apply Hflag. by rewrite Hm.
Qed.

Lemma sim_start_sending clock : sending 0 10 sim_start (MkSimQ [] Telemetry_default clock).
Proof. by split. Qed.

Lemma tool_start_inv clock s0 : simulated_tool clock = Val s0 -> tool_inv s0.
Proof.
  unfold simulated_tool. destruct tool_start as (start & Hstart & Hok & _). rewrite Hstart.
  intros [= <-]. split; cbn [main_at stop_flag sim_thread sim_data received tool_tracker q_sent];
    [done| | |simpl; lia|].
  - intros p [= <-]. exists (Some LOAD_GAP). split; [done|]. apply simulate_round_prompt.
    exists LOAD_GAP. split; [done|lia].
  - intros _. split; [exists 0%nat; apply prefix_nil|]. exists 0%nat. split; [done|].
    by apply simulate_round_ok, sim_start_sending.
  - intros _. exists start. unfold simulated_tracker. rewrite Hstart. split; [done|]. split; [done|by left].
Qed.

Lemma tool_reachable_inv clock s0 s :
  simulated_tool clock = Val s0 -> rtc tool_step s0 s -> tool_inv s.
Proof. intros Hs0 Hr. eapply rtc_inv; [apply tool_step_inv|exact Hr|by eapply tool_start_inv]. Qed.

End invariant.

(** ** Progress

    Once the flag is set the simulator can perform at most [gap] events, the
    load of the flag and the end of its thread. *)

Definition main_work (m : MainAt) : nat :=
  match m with Viewing => 3 | JoinSimulation _ => 2 | JoinTracker _ => 1 | Returned _ => 0 end.

Definition ret_work (p : Prog SimE (option SimState)) : nat :=
  match p with Ret _ => 1 | _ => 0 end.

Section progress.
Context `{BuildProfile} `{IterationOrder}.

(** The work that is left for the thread. *)
Definition thread_work (t : option (Prog SimE (option SimState))) (w : nat) : Prop :=
  match t with
  | Some p => exists g, wp prompt_protocol p g round_prompt /\ w = (2 * gap_work g + ret_work p + 1)%nat
  | None => w = 0%nat
  end.

Definition tool_work (s : Tool) (w : nat) : Prop :=
  stop_flag s = true /\ main_at s <> Viewing /\ (received s <= length (q_sent (sim_data s)))%nat /\
  exists t, thread_work (sim_thread s) t /\
    w = (2 * t + (length (q_sent (sim_data s)) - received s) +
         (if is_listening (tool_tracker s) then 1 else 0) + main_work (main_at s))%nat.

Lemma ret_work_le p : (ret_work p <= 1)%nat.
Proof. by destruct p; simpl; lia. Qed.

(** With the flag set, each event uses up some of the work. *)
Lemma event_work {X} (e : SimE X) k x s w :
  stop_flag s = true -> thread_work (Some (Vis e k)) w -> tool_answers e s x ->
  exists w', thread_work (Some (k x)) w' /\ (w' < w)%nat.
Proof.
  intros Hflag (g & [Hmay Hk] & ->) Ha. specialize (Hk x I).
  pose proof (ret_work_le (k x)) as Hr. eexists. split; [by eexists|]. simpl ret_work.
  assert (gap_work (next_state prompt_protocol e g x) < gap_work g)%nat; [|lia].
  destruct g as [gap|]; [|done].
  destruct e as [Y []| |]; simpl in *; try lia. rewrite Ha, Hflag. simpl. lia.
Qed.

Lemma event_length {X} (e : SimE X) q x :
  (length (q_sent q) <= length (q_sent (next_state sim_protocol e q x)) <= S (length (q_sent q)))%nat.
Proof.
  destruct e as [Y e|event|t]; simpl; [lia| |lia]. destruct x; simpl; [rewrite length_app; simpl|]; lia.
Qed.

Lemma tool_step_work s s' w : tool_step s s' -> tool_work s w -> exists w', tool_work s' w' /\ (w' < w)%nat.
Proof.
  intros Hs (Hflag & Hmain & Hrec & t & Ht & ->).
  destruct Hs as [X e k x s Hth Ha|st s Hth|s Hth|r s Hth|self event s Hl He|self s Hl He Hth|r s Hm|r s Hm Hth|r s Hm Hl];
    unfold tool_work; cbn [main_at stop_flag sim_thread sim_data received tool_tracker set_sim set_tracker set_main leave_view].
  - rewrite Hth in Ht. destruct (event_work e k x s t Hflag Ht Ha) as (t' & Ht' & Hlt).
    pose proof (event_length e (sim_data s) x). eexists. split.
    { split; [done|]. split; [done|]. split; [lia|]. by exists t'. }
    lia.
  - rewrite Hth in Ht. destruct Ht as (g & Hg & ->).
    eexists. split; [split; [done|]; split; [done|]; split; [done|]; eexists; split; [|done];
      exists g; split; [by apply simulate_round_prompt|done]|]. simpl. lia.
  - rewrite Hth in Ht. destruct Ht as (g & Hg & ->).
    eexists. split; [split; [done|]; split; [done|]; split; [done|]; by eexists|]. simpl. lia.
  - rewrite Hth in Ht. destruct Ht as (g & Hg & ->).
    eexists. split; [split; [done|]; split; [done|]; split; [done|]; by eexists|]. simpl. lia.
  - apply lookup_lt_Some in He.
    eexists. split; [split; [done|]; split; [done|]; split; [lia|]; by eexists|].
    rewrite Hl. destruct (handle_event event self); simpl; lia.
  - eexists. split; [split; [done|]; split; [done|]; split; [done|]; by eexists|]. rewrite Hl. simpl. lia.
  - done.
  - eexists. split; [split; [done|]; split; [done|]; split; [done|]; by eexists|]. rewrite Hm. simpl. lia.
  - eexists. split; [split; [done|]; split; [done|]; split; [done|]; by eexists|]. rewrite Hm. simpl. lia.
Qed.

(** Where nothing is left to do, everything has ended. *)
Lemma tool_rest s :
  time (q_clock (sim_data s)) < CLOCK_LIMIT -> main_at s <> Viewing -> nf tool_step s ->
  exists r, main_at s = Returned r /\ sim_thread s = None /\ is_listening (tool_tracker s) = false.
Proof.
  intros Hclock Hmain Hnf.
  assert (sim_thread s = None) as Hth.
  { destruct (sim_thread s) as [[[st|]|r|X e k]|] eqn:Hth; [..|done]; destruct Hnf.
    - eexists. by eapply sim_next_round.
    - eexists. by eapply sim_returns.
    - eexists. by eapply sim_panics.
    - assert (exists x, tool_answers e s x) as [x Hx]; [|eexists; by eapply sim_event].
      destruct e as [Y []|event|t]; simpl; [exists (time (q_clock (sim_data s))); lia|by eexists|by exists tt|by eexists|by exists tt]. }
  assert (is_listening (tool_tracker s) = false) as Hl.
  { destruct (tool_tracker s) as [self| |] eqn:Hl; [|done..]. destruct Hnf.
    destruct (q_sent (sim_data s) !! received s) as [event|] eqn:He; eexists.
    - by eapply tracker_receives. - by eapply tracker_returns. }
  destruct (main_at s) as [|r|r|r] eqn:Hm; [done|..]; [| |by exists r]; destruct Hnf; eexists.
  - by eapply simulation_joined. - by eapply tracker_joined.
Qed.

End progress.

(** ** Properties *)

Section properties.
Context `{BuildProfile} `{IterationOrder}.

(** What is left when the view has returned. *)
Lemma left_to_do s r :
  tool_inv s -> main_at s = JoinSimulation r ->
  exists w, tool_work s w /\ (w <= 27 + (length (q_sent (sim_data s)) - received s))%nat.
Proof.
  intros Hi Hm.
  assert (exists t, thread_work (sim_thread s) t /\ (t <= 12)%nat) as (t & Ht & Hle).
  { destruct (sim_thread s) as [p|] eqn:Hth; [|exists 0%nat; by split; [|lia]].
    destruct (inv_prompt s Hi p Hth) as (g & Hg & Hp). eexists. split; [by exists g|].
    pose proof (ret_work_le p). unfold LOAD_GAP in Hg. lia. }
  eexists. split; [split; [apply Hi; by rewrite Hm|]; split; [by rewrite Hm|]; split; [apply Hi|]; by exists t|].
  rewrite Hm. simpl. destruct (is_listening (tool_tracker s)); lia.
Qed.

Lemma result_kept s s' r :
  rtc tool_step s s' -> main_at s = JoinSimulation r ->
  main_at s' = JoinSimulation r \/ main_at s' = JoinTracker r \/ main_at s' = Returned r.
Proof.
  intros Hr Hm. eapply (rtc_inv _ (fun s => main_at s = JoinSimulation r \/ main_at s = JoinTracker r \/
    main_at s = Returned r)); [|exact Hr|by left].
  clear. intros s s' Hs. destruct Hs; simpl; try done; try naive_solver congruence.
Qed.

(** C30: in every state of the simulated tool, as long as no counter of the
    simulator can overflow, the channel carries a prefix of the simulator's
    stream; the tracker has not panicked, is well formed and holds the result
    of the events it has received; it has returned only when the simulator
    has ended and all its events were received; and once the simulator has
    ended the telemetry counts its transactions and blocks, at most one of
    them not sent. *)
Theorem tool_follows_simulator clock s0 s :
  simulated_tool clock = Val s0 -> rtc tool_step s0 s -> few_events s ->
  (exists n, q_sent (sim_data s) `prefix_of` sim_stream n) /\
  (exists self, simulated_tracker (take (received s) (q_sent (sim_data s))) = Val self /\ mempool_ok self /\
    (tool_tracker s = Listening self \/
     tool_tracker s = Stopped self /\ received s = length (q_sent (sim_data s)) /\ sim_thread s = None)) /\
  (sim_thread s = None -> exists late, 0 <= late <= 1 /\
     in_step late (q_sent (sim_data s)) (q_published (sim_data s))).
Proof.
  intros Hs0 Hr Hfew. pose proof (tool_reachable_inv clock s0 s Hs0 Hr) as Hi.
  destruct (inv_stream s Hi Hfew) as (Hn & Hok). split; [done|]. split; [by apply inv_tracker|].
  intros Ht. rewrite Ht in Hok. by destruct Hok as (n & _ & ?).
Qed.

(** C32: [main] returns what the view returned: from the moment it has, at most
    27 steps are left, and one for each event that the tracker has not yet
    received, in every schedule; where none is left both threads have ended
    and been joined, and the tracker has applied every event that was sent. *)
Theorem main_returns clock s0 s r :
  simulated_tool clock = Val s0 -> rtc tool_step s0 s -> main_at s = JoinSimulation r ->
  (forall n s', nsteps tool_step n s s' -> (n <= 27 + (length (q_sent (sim_data s)) - received s))%nat) /\
  forall s', rtc tool_step s s' -> nf tool_step s' -> time (q_clock (sim_data s')) < CLOCK_LIMIT ->
    main_at s' = Returned r /\ sim_thread s' = None /\
    (few_events s' -> exists self, tool_tracker s' = Stopped self /\
       simulated_tracker (q_sent (sim_data s')) = Val self).
Proof.
  intros Hs0 Hr Hm. pose proof (tool_reachable_inv clock s0 s Hs0 Hr) as Hi.
  destruct (left_to_do s r Hi Hm) as (w & Hw & Hle). split.
  { intros n s' Hn. pose proof (nsteps_measured _ _ tool_step_work n s s' w Hn Hw). lia. }
  intros s' Hr' Hnf Hclock.
  pose proof (result_kept s s' r Hr' Hm) as Hkept.
  assert (tool_inv s') as Hi' by (eapply tool_reachable_inv; [exact Hs0|by etransitivity]).
  assert (main_at s' <> Viewing) as Hview by (destruct Hkept as [Hk|[Hk|Hk]]; by rewrite Hk).
  destruct (tool_rest s' Hclock Hview Hnf) as (r' & Hret & Hth & Hl).
  split; [destruct Hkept as [Hk|[Hk|Hk]]; congruence|]. split; [done|]. intros Hfew.
  destruct (inv_tracker s' Hi' Hfew) as (self & Hrun & _ & [Hat|(Hat & Hrec & _)]); [by rewrite Hat in Hl|].
  exists self. split; [done|]. by rewrite Hrec, firstn_all in Hrun.
Qed.

End properties.

Section witnesses.
#[local] Instance tool_ci_checks : BuildProfile := true.
#[local] Instance tool_order : IterationOrder :=
  {| hash_entries := map_to_list; hash_entries_perm := fun m => Permutation_refl _ |}.

Definition tool0 : Tool :=
  MkTool Viewing false (Some (simulate_round sim_start)) (MkSimQ [] Telemetry_default demo_clock) 0
    (Listening (empty_inner tool_config)).

Lemma tool0_starts : simulated_tool demo_clock = Val tool0.
Proof. reflexivity. Qed.

(** The simulator loads the flag twice and sends a transaction; the tracker
    receives it. *)
Lemma tool_runs : exists s, rtc tool_step tool0 s /\ main_at s = Viewing /\
  received s = 1%nat /\ q_sent (sim_data s) = [PendingTransaction (sim_tx 0)].
Proof.
  eexists. split; [|split; [|split]].
  - eapply rtc_l; [by eapply (sim_event _ (SLoop _ LoadStop)) with (x := false)|].
    eapply rtc_l; [by eapply (sim_event _ (SLoop _ LoadStop)) with (x := false)|].
    eapply rtc_l; [by eapply (sim_event _ (SSend (PendingTransaction (sim_tx 0)))) with (x := true)|].
    eapply rtc_l; [by apply (tracker_receives (empty_inner tool_config) (PendingTransaction (sim_tx 0)))|].
    apply rtc_refl.
  - reflexivity.
  - reflexivity.
  - reflexivity.
Qed.

Lemma tool_follows_simulator_witness :
  exists s self, rtc tool_step tool0 s /\ received s = 1%nat /\
    simulated_tracker [PendingTransaction (sim_tx 0)] = Val self /\ mempool_ok self.
Proof.
  destruct tool_runs as (s & Hr & _ & Hrec & Hs).
  destruct (tool_follows_simulator demo_clock tool0 s tool0_starts Hr) as (_ & (self & Hrun & Hok & _) & _).
  - unfold few_events. rewrite Hs. by vm_compute.
  - rewrite Hrec, Hs in Hrun. by exists s, self.
Defined.

Lemma main_returns_witness :
  exists s, rtc tool_step tool0 s /\ main_at s = JoinSimulation (Ok tt) /\
    forall n s', nsteps tool_step n s s' -> (n <= 27)%nat.
Proof.
  destruct tool_runs as (s & Hr & Hm & Hrec & Hs). exists (leave_view (Ok tt) s).
  assert (rtc tool_step tool0 (leave_view (Ok tt) s)) as Hr'
    by (eapply rtc_r; [exact Hr|by apply view_returns]).
  split; [exact Hr'|]. split; [reflexivity|]. intros n s' Hn.
  pose proof (proj1 (main_returns demo_clock tool0 (leave_view (Ok tt) s) (Ok tt) tool0_starts Hr' eq_refl) n s' Hn)
    as Hle. simpl in Hle. rewrite Hrec, Hs in Hle. simpl in Hle. lia.
Defined.
End witnesses.
