(* ===== verification/CliMain.v ===== *)
(** * The command-line tool from its arguments to its view ([crates/mempooloracle/examples/cli_tool.rs])

    [main] up to the view: the arguments choose a transport or the simulator,
    and a live source is connected.  How the tool ends is in CliShutdown.v. *)

From stdpp Require Import strings pretty.
From S2P Require Import Prelude Prog Float64 Mempool MempoolInv MempoolSpec Runtime TrackerRpc TrackerP2p.
From S2P Require Import CliArgs CliSnapshot CliLoops CliApp Simulation.

(** [Display] of [TrackerError] (lib.rs). *)
Definition show_error (e : TrackerError) : string :=
  match e with
  | Transport e => "alloy transport error: " +:+ e
  | Timeout_at stage => "timed out during " +:+ stage
  | Setup message => "transport setup failed: " +:+ message
  | FeatureDisabled feature => "feature `" +:+ feature +:+ "` is not enabled"
  | UnsupportedTransport what => "transport unsupported: " +:+ what
  end.

(** The transport for a source; [None] for the simulator. *)
Definition transport_of (source : DataSource) : option TrackerTransport :=
  match source with
  | Live url => Some (RpcTransport {| ws := url |})
  | P2p network nodes v4 =>
      Some (P2pTransport
        {| chain := network; bootnodes := nodes; discovery_v4 := v4; listen_addr := None;
           block_transport := Consensus {| implementation := Eth2Libp2p |} |})
  | Simulated => None
  end.

Definition connect_failure (source : DataSource) (e : TrackerError) : string :=
  match source with
  | P2p _ _ _ => "failed to connect mempool oracle p2p transport: " +:+ show_error e
  | _ => "failed to connect mempool oracle: " +:+ show_error e
  end.

(** How far [main] gets before the view starts. *)
Inductive Start :=
  | Exit2 (complaint : UsageError)              (* process::exit(2) *)
  | Failed (error : string)                     (* an io::Error is returned *)
  | RunLive (duration_secs : Z) (telemetry : RuntimeTelemetry)
  | RunSimulated (duration_secs : Z) (telemetry : Telemetry).

Section main.
Context `{Features} {TrustedPeer : Type} (from_str : string -> result TrustedPeer string).
Context (build : @NetworkConfig TrustedPeer -> result unit string).

(** The match on the source; the three answers are those of the RPC node. *)
Definition start_source (args : CliArgs) (connected block_sub pending_sub : Timed unit) : Start :=
  match transport_of (source args) with
  | Some transport =>
      match connect from_str build transport connected block_sub pending_sub with
      | Err e => Failed (connect_failure (source args) e)
      | Ok (inl pipe) => RunLive (duration_secs args) (telemetry pipe)
      | Ok (inr runtime) => RunLive (duration_secs args) (telemetry (p2p_pipe runtime))
      end
  | None => RunSimulated (duration_secs args) Telemetry_default
  end.

Definition main_start (env : Env) (argv : list string) (connected block_sub pending_sub : Timed unit)
    : Start :=
  match parse_args env argv with
  | Err complaint => Exit2 complaint
  | Ok args => start_source args connected block_sub pending_sub
  end.

End main.

(** ** Properties *)

(** With [--p2p] the tool never starts: arguments that are accepted for
    the P2P source end in an [io::Error] that names the refused transport or
    the missing feature, in every build; with the simulator they always start
    the view; and with a URL they start it exactly when the connection and
    both subscriptions succeed in time. *)
Theorem main_start_spec `{Features} {TrustedPeer : Type} (from_str : string -> result TrustedPeer string)
    build env argv args connected block_sub pending_sub :
  parse_args env argv = Ok args ->
  match source args with
  | P2p _ _ _ => exists e,
      main_start from_str build env argv connected block_sub pending_sub =
        Failed ("failed to connect mempool oracle p2p transport: " +:+ show_error e) /\
      (exists what, e = UnsupportedTransport what \/ e = FeatureDisabled what)
  | Simulated =>
      main_start from_str build env argv connected block_sub pending_sub =
        RunSimulated (duration_secs args) Telemetry_default
  | Live _ =>
      (exists t, main_start from_str build env argv connected block_sub pending_sub =
         RunLive (duration_secs args) t) <->
      connected = Answered (Ok tt) /\ block_sub = Answered (Ok tt) /\ pending_sub = Answered (Ok tt)
  end.
Proof.
  intros Hargs. unfold main_start. rewrite Hargs. unfold start_source.
  destruct (source args) as [url|network nodes v4|]; simpl; [| |done].
  - unfold connect_with_builder, connect_erased_provider, timed_out_or. split.
    + intros [t Ht]. destruct connected as [|[[]|]], block_sub as [|[[]|]], pending_sub as [|[[]|]];
        by try discriminate Ht.
    + intros (-> & -> & ->). by eexists.
  - unfold p2p_connect_with_config, check_config. simpl.
    destruct reth_p2p, (String.eqb network "mainnet"), consensus_p2p;
      eexists; (split; [done|]); eexists; by auto.
Qed.

Section witnesses.
#[local] Instance no_features : Features := MkFeatures false false.

Lemma main_start_spec_witness :
  main_start (TrustedPeer := unit) (fun _ => Err "") (fun _ => Ok tt) no_env ["--simulate"]
    TimedOut TimedOut TimedOut = RunSimulated 30 Telemetry_default.
Proof.
  exact (main_start_spec (TrustedPeer := unit) (fun _ => Err "") (fun _ => Ok tt) no_env ["--simulate"]
    {| duration_secs := 30; source := Simulated |} TimedOut TimedOut TimedOut eq_refl).
Defined.
End witnesses.
